(** * Peloton catalog and timestamp checkpointing: a shallow embedding

    The development follows three source files of the repository:
    - [src/logging/timestamp_checkpoint_manager.cpp] (modules [Visibility],
      [Recovery], [Checkpointing]),
    - [src/catalog/catalog.cpp] (module [Catalog]),
    - [src/catalog/constraint_catalog.cpp] (module [ConstraintCatalog]).

    Unsigned machine integers ([oid_t], [cid_t], [eid_t], [txn_id_t]) are
    integers of [Z]; the code only compares them or uses them as keys, with
    the one exception of [strtoul], whose saturation is written out.
    Constants of [common/internal_types.h], which is not part of the
    sources at hand, are section variables. *)

From Stdlib Require Import ZArith List Bool Lia Ascii String Sorted.
From stdpp Require Import base numbers option list strings pretty gmap.

Local Open Scope Z_scope.

(* ===================================================================== *)
(** ** MVCC visibility of a tuple version (checkpoint side)               *)
(* ===================================================================== *)

Module Visibility.

(** [storage::TileGroupHeader], reduced to the three per-slot accessors
    that [IsVisible] reads. *)
Record TileGroupHeader : Type := {
  GetTransactionId : Z -> Z;
  GetBeginCommitId : Z -> Z;
  GetEndCommitId : Z -> Z
}.

Section IsVisible.

(** Sentinels of [common/internal_types.h]. *)
Variables INVALID_TXN_ID INITIAL_TXN_ID MAX_CID : Z.

(** [TimestampCheckpointManager::IsVisible]. *)
Definition IsVisible (header : TileGroupHeader) (tuple_id begin_cid : Z)
  : bool :=
  let tuple_txn_id := GetTransactionId header tuple_id in
  let tuple_begin_cid := GetBeginCommitId header tuple_id in
  let tuple_end_cid := GetEndCommitId header tuple_id in
  (* the tuple has already been committed *)
  let activated := begin_cid >=? tuple_begin_cid in
  (* the tuple is not visible *)
  let invalidated := begin_cid >=? tuple_end_cid in
  if tuple_txn_id =? INVALID_TXN_ID then false
  else if tuple_txn_id =? INITIAL_TXN_ID then
    (if activated && negb invalidated then true else false)
  else
    if tuple_begin_cid =? MAX_CID then false
    else (if activated && negb invalidated then true else false).

(** The single interval test, with no branch on the creator: the
    simplified predicate that [IsVisible] is compared with. *)
Definition IsVisible_interval (header : TileGroupHeader)
    (tuple_id begin_cid : Z) : bool :=
  (begin_cid >=? GetBeginCommitId header tuple_id)
  && negb (begin_cid >=? GetEndCommitId header tuple_id).

Lemma interval_spec header tuple_id begin_cid :
  IsVisible_interval header tuple_id begin_cid = true <->
  begin_cid >= GetBeginCommitId header tuple_id /\
  begin_cid < GetEndCommitId header tuple_id.
Proof.
  unfold IsVisible_interval.
  rewrite andb_true_iff, negb_true_iff, Z.geb_leb, Z.geb_leb.
  rewrite Z.leb_le, Z.leb_gt. lia.
Qed.

Lemma if_same_bool (b : bool) : (if b then true else false) = b.
Proof. by destruct b. Qed.

Lemma IsVisible_invalid header tuple_id begin_cid :
  GetTransactionId header tuple_id = INVALID_TXN_ID ->
  IsVisible header tuple_id begin_cid = false.
Proof. intros E. unfold IsVisible. rewrite E, Z.eqb_refl. done. Qed.

Lemma IsVisible_initial header tuple_id begin_cid :
  GetTransactionId header tuple_id <> INVALID_TXN_ID ->
  GetTransactionId header tuple_id = INITIAL_TXN_ID ->
  IsVisible header tuple_id begin_cid
  = IsVisible_interval header tuple_id begin_cid.
Proof.
  intros Hne E. unfold IsVisible.
  apply Z.eqb_neq in Hne. rewrite Hne.
  rewrite E, Z.eqb_refl. apply if_same_bool.
Qed.

Lemma IsVisible_owned header tuple_id begin_cid :
  GetTransactionId header tuple_id <> INVALID_TXN_ID ->
  GetTransactionId header tuple_id <> INITIAL_TXN_ID ->
  IsVisible header tuple_id begin_cid
  = if GetBeginCommitId header tuple_id =? MAX_CID then false
    else IsVisible_interval header tuple_id begin_cid.
Proof.
  intros H1 H2. unfold IsVisible.
  apply Z.eqb_neq in H1, H2. rewrite H1, H2.
  destruct (_ =? MAX_CID); [done | apply if_same_bool].
Qed.

End IsVisible.

(** Sentinel values as Peloton defines them, used for concrete runs. *)
Definition peloton_INVALID_TXN_ID : Z := 0.
Definition peloton_INITIAL_TXN_ID : Z := 1.
Definition peloton_MAX_CID : Z := 2 ^ 64 - 1.

(** One tile group with three slots: slot 0 is a bootstrap-owned version
    committed at 5 and never superseded, slot 1 is an uncommitted version
    of transaction 77, slot 2 an empty slot. *)
Definition sample_header : TileGroupHeader := {|
  GetTransactionId := fun i =>
    if i =? 0 then peloton_INITIAL_TXN_ID
    else if i =? 1 then 77 else peloton_INVALID_TXN_ID;
  GetBeginCommitId := fun i => if i =? 0 then 5 else peloton_MAX_CID;
  GetEndCommitId := fun _ => peloton_MAX_CID
|}.

(** C1. The checkpoint visibility predicate, on a version with creator
    [txn_id], commit interval [begin_commit, end_commit) and snapshot read id
    [begin_cid]: it is false when [txn_id] is the invalid sentinel; when
    [txn_id] is the initial sentinel it is true exactly when
    [begin_cid >= begin_commit] and [begin_cid < end_commit]; for any other
    creator it is false when [begin_commit] is [MAX_CID], and otherwise true
    exactly when the same interval test holds.  The two sentinels are
    different constants. *)
Theorem IsVisible_cases (INVALID_TXN_ID INITIAL_TXN_ID MAX_CID : Z)
    (header : TileGroupHeader) (tuple_id begin_cid : Z) :
  INVALID_TXN_ID <> INITIAL_TXN_ID ->
  let txn_id := GetTransactionId header tuple_id in
  let begin_commit := GetBeginCommitId header tuple_id in
  let end_commit := GetEndCommitId header tuple_id in
  let visible :=
    IsVisible INVALID_TXN_ID INITIAL_TXN_ID MAX_CID header tuple_id begin_cid in
  (txn_id = INVALID_TXN_ID -> visible = false) /\
  (txn_id = INITIAL_TXN_ID ->
     (visible = true <-> begin_cid >= begin_commit /\ begin_cid < end_commit)) /\
  (txn_id <> INVALID_TXN_ID -> txn_id <> INITIAL_TXN_ID ->
     begin_commit = MAX_CID -> visible = false) /\
  (txn_id <> INVALID_TXN_ID -> txn_id <> INITIAL_TXN_ID ->
     begin_commit <> MAX_CID ->
     (visible = true <-> begin_cid >= begin_commit /\ begin_cid < end_commit)).
Proof.
  intros Hsent txn_id begin_commit end_commit visible.
  subst txn_id begin_commit end_commit visible.
  split; [| split; [| split]].
  - apply IsVisible_invalid.
  - intros E. rewrite IsVisible_initial by congruence. apply interval_spec.
  - intros H1 H2 E. rewrite IsVisible_owned by assumption.
    apply Z.eqb_eq in E. by rewrite E.
  - intros H1 H2 E. rewrite IsVisible_owned by assumption.
    apply Z.eqb_neq in E. rewrite E. apply interval_spec.
Qed.

(** The spec's own example: a bootstrap-owned version committed at 5 and
    open-ended is visible at snapshot time 10; an uncommitted version of a
    live transaction is not. *)
Lemma IsVisible_cases_witness :
  IsVisible peloton_INVALID_TXN_ID peloton_INITIAL_TXN_ID peloton_MAX_CID
    sample_header 0 10 = true /\
  IsVisible peloton_INVALID_TXN_ID peloton_INITIAL_TXN_ID peloton_MAX_CID
    sample_header 1 10 = false.
Proof.
  split.
  - destruct (IsVisible_cases peloton_INVALID_TXN_ID peloton_INITIAL_TXN_ID
                peloton_MAX_CID sample_header 0 10) as (_ & Hinit & _).
    + unfold peloton_INVALID_TXN_ID, peloton_INITIAL_TXN_ID. lia.
    + apply Hinit; [reflexivity | vm_compute; split; congruence].
  - destruct (IsVisible_cases peloton_INVALID_TXN_ID peloton_INITIAL_TXN_ID
                peloton_MAX_CID sample_header 1 10) as (_ & _ & Hunc & _).
    + unfold peloton_INVALID_TXN_ID, peloton_INITIAL_TXN_ID. lia.
    + apply Hunc; vm_compute; congruence.
Defined.

(** C9. When the creator is not the invalid sentinel and [begin_commit] is
    not [MAX_CID], the result of [IsVisible] does not depend on whether the
    creator is the initial sentinel or another transaction: it equals the
    branch-free interval test [IsVisible_interval]. *)
Theorem IsVisible_collapses (INVALID_TXN_ID INITIAL_TXN_ID MAX_CID : Z)
    (header : TileGroupHeader) (tuple_id begin_cid : Z) :
  GetTransactionId header tuple_id <> INVALID_TXN_ID ->
  GetBeginCommitId header tuple_id <> MAX_CID ->
  IsVisible INVALID_TXN_ID INITIAL_TXN_ID MAX_CID header tuple_id begin_cid
  = IsVisible_interval header tuple_id begin_cid.
Proof.
  intros Hvalid Hcommitted.
  destruct (Z.eq_dec (GetTransactionId header tuple_id) INITIAL_TXN_ID)
    as [Hinit | Hother].
  - by apply IsVisible_initial.
  - rewrite IsVisible_owned by assumption.
    apply Z.eqb_neq in Hcommitted. by rewrite Hcommitted.
Qed.

(** A committed version of transaction 42 and a bootstrap-owned version
    with the same interval are treated alike. *)
Definition owned_header : TileGroupHeader := {|
  GetTransactionId := fun _ => 42;
  GetBeginCommitId := fun _ => 5;
  GetEndCommitId := fun _ => 8
|}.

Lemma IsVisible_collapses_witness :
  IsVisible peloton_INVALID_TXN_ID peloton_INITIAL_TXN_ID peloton_MAX_CID
    owned_header 0 6
  = IsVisible_interval owned_header 0 6.
Proof.
  apply (IsVisible_collapses peloton_INVALID_TXN_ID peloton_INITIAL_TXN_ID
           peloton_MAX_CID owned_header 0 6); vm_compute; congruence.
Defined.

End Visibility.


(* ===================================================================== *)
(** ** Checkpoint recovery                                                *)
(* ===================================================================== *)

Module Recovery.

(** *** [strtoul(s, NULL, 10)] of the C library, on a 64-bit [unsigned long]:
    leading white space, an optional sign, then decimal digits; no digits
    give 0, a value above [ULONG_MAX] saturates, a minus sign negates
    modulo 2^64. *)

Definition ULONG_MAX : Z := 2 ^ 64 - 1.

Definition isspace (c : ascii) : bool :=
  let n := Z.of_nat (nat_of_ascii c) in
  (n =? 32) || ((9 <=? n) && (n <=? 13)).

Definition digit_of (c : ascii) : option Z :=
  let n := Z.of_nat (nat_of_ascii c) in
  if (48 <=? n) && (n <=? 57) then Some (n - 48) else None.

Fixpoint skip_spaces (s : string) : string :=
  match s with
  | String c rest => if isspace c then skip_spaces rest else s
  | EmptyString => s
  end.

Fixpoint digits_value (acc : Z) (s : string) : Z :=
  match s with
  | String c rest =>
      match digit_of c with
      | Some d => digits_value (acc * 10 + d) rest
      | None => acc
      end
  | EmptyString => acc
  end.

Definition strtoul (s : string) : Z :=
  let s1 := skip_spaces s in
  let '(negative, s2) :=
    match s1 with
    | String c rest =>
        if Ascii.eqb c "-"%char then (true, rest)
        else if Ascii.eqb c "+"%char then (false, rest)
        else (false, s1)
    | EmptyString => (false, s1)
    end in
  let v := digits_value 0 s2 in
  if v >? ULONG_MAX then ULONG_MAX
  else if negative then (2 ^ 64 - v) mod 2 ^ 64
  else v.

Section GetRecoveryCheckpointEpoch.

(** [INVALID_EID] of [common/internal_types.h] and the manager's
    [checkpoint_working_dir_name_] member. *)
Variable INVALID_EID : Z.
Variable checkpoint_working_dir_name_ : string.

(** One iteration of the loop over [dir_name_list]. *)
Definition epoch_step (max_epoch : Z) (dir_name : string) : Z :=
  if String.eqb dir_name checkpoint_working_dir_name_ then max_epoch
  else
    let epoch_id := strtoul dir_name in
    if epoch_id =? 0 then max_epoch
    else if epoch_id >? max_epoch then epoch_id else max_epoch.

(** [TimestampCheckpointManager::GetRecoveryCheckpointEpoch]; the argument
    is what [LoggingUtil::GetDirectoryList] yields, [None] when it fails.
    This is the epoch that the function returns; what it writes with
    [LOG_ERROR] on the way is [GetRecoveryCheckpointEpoch_errors]. *)
Definition GetRecoveryCheckpointEpoch (dir_name_list : option (list string))
  : Z :=
  match dir_name_list with
  | None => INVALID_EID
  | Some names => fold_left epoch_step names INVALID_EID
  end.

(** The [LOG_ERROR] line of one iteration of the loop, written when the
    name reads as the epoch [INVALID_EID]. *)
Definition epoch_step_error (dir_name : string) : option string :=
  if String.eqb dir_name checkpoint_working_dir_name_ then None
  else
    let epoch_id := strtoul dir_name in
    if epoch_id =? 0 then None
    else if epoch_id =? INVALID_EID then
      Some "Unexpected epoch value in checkpoints directory"%string
    else None.

(** The [LOG_ERROR] lines of [GetRecoveryCheckpointEpoch], oldest first:
    one line when the directory listing fails, else the lines of the
    loop. *)
Definition GetRecoveryCheckpointEpoch_errors
    (dir_name_list : option (list string)) : list string :=
  match dir_name_list with
  | None => ["Failed to get directory list"%string]
  | Some names => omap epoch_step_error names
  end.

End GetRecoveryCheckpointEpoch.

Example strtoul_12 : strtoul "12" = 12. Proof. reflexivity. Qed.
Example strtoul_working : strtoul "working" = 0. Proof. reflexivity. Qed.
Example strtoul_pad : strtoul "  +7x" = 7. Proof. reflexivity. Qed.
Example strtoul_sat :
  strtoul "99999999999999999999999" = ULONG_MAX.
Proof. reflexivity. Qed.
Example epoch_pick :
  GetRecoveryCheckpointEpoch 0 "working"
    (Some ["3"; "working"; "12"; "7"]%string) = 12.
Proof. reflexivity. Qed.

(** *** Storage objects rebuilt by recovery *)

(** A tuple is the list of its column values. *)
Definition Tuple : Type := list Z.

Record ItemPointer : Type := { block : Z; offset : Z }.

Record TileGroup : Type := {
  tile_group_id : Z;
  num_tuple_slots : nat;
  tile_group_tuples : list Tuple
}.

Record DataTable : Type := {
  table_oid : Z;
  database_name : string;
  table_name : string;
  tile_groups : list TileGroup;
  (* tuple locations registered with the table *)
  locations : list ItemPointer
}.

Record Database : Type := { database_oid : Z; tables : list DataTable }.

(** The singleton catalog tables that [LoadCatalogTableCheckpoint] reloads. *)
Record CatalogTables : Type := {
  DatabaseMetricsCatalog : DataTable;
  TableMetricsCatalog : DataTable;
  IndexMetricsCatalog : DataTable;
  QueryMetricsCatalog : DataTable;
  TriggerCatalog : DataTable;
  QueryHistoryCatalog : DataTable
}.

(** *** Checkpoint files, as the deserializers see them *)

(** A table file: whether [ReadNBytesFromFile] succeeds, and the serialized
    tile groups, each an empty tile-group structure followed by its visible
    tuples. *)
Record TableFile : Type := {
  table_file_readable : bool;
  table_file_tile_groups : list (TileGroup * list Tuple)
}.

(** The catalog file: whether it can be read, and per database what
    [Catalog::DeserializeDatabaseFrom] rebuilds ([None]: it throws). *)
Record CatalogFile : Type := {
  catalog_file_readable : bool;
  catalog_file_databases : list (option Database)
}.

(** Files are looked up by what their path is built from; a missing entry
    is a file that [LoggingUtil::OpenFile] cannot open. *)
Record FileSystem : Type := {
  directory_list : option (list string);
  catalog_files : gmap Z CatalogFile;
  table_files : gmap (string * string * Z) TableFile
}.

(** *** Engine state touched by recovery *)

Inductive TxnEvent : Type :=
| BeginTransaction
| PerformInsert (location : ItemPointer)
| AbortTransaction
| CommitTransaction.

Record Engine : Type := {
  (* storage manager *)
  databases : list Database;
  catalog_tables : CatalogTables;
  (* calls made on the transaction manager, oldest first *)
  txn_events : list TxnEvent;
  (* LOG_ERROR lines, oldest first *)
  error_log : list string
}.

Definition LOG_ERROR (msg : string) (e : Engine) : Engine :=
  {| databases := databases e; catalog_tables := catalog_tables e;
     txn_events := txn_events e; error_log := error_log e ++ [msg] |}.

Definition LOG_ERRORS (msgs : list string) (e : Engine) : Engine :=
  fold_left (fun e msg => LOG_ERROR msg e) msgs e.

Definition txn_call (ev : TxnEvent) (e : Engine) : Engine :=
  {| databases := databases e; catalog_tables := catalog_tables e;
     txn_events := txn_events e ++ [ev]; error_log := error_log e |}.

Definition set_databases (dbs : list Database) (e : Engine) : Engine :=
  {| databases := dbs; catalog_tables := catalog_tables e;
     txn_events := txn_events e; error_log := error_log e |}.

Definition set_catalog_tables (c : CatalogTables) (e : Engine) : Engine :=
  {| databases := databases e; catalog_tables := c;
     txn_events := txn_events e; error_log := error_log e |}.

Definition set_tile_groups (tgs : list TileGroup) (t : DataTable) : DataTable :=
  {| table_oid := table_oid t; database_name := database_name t;
     table_name := table_name t; tile_groups := tgs;
     locations := locations t |}.

(** Modelled from the spec: [DataTable::DropTileGroups] and
    [DataTable::AddTileGroup] of the absent storage layer, "drop any
    pre-existing default tile group" and "append it to the table". *)
Definition DropTileGroups (t : DataTable) : DataTable := set_tile_groups [] t.
Definition AddTileGroup (tg : TileGroup) (t : DataTable) : DataTable :=
  set_tile_groups (tile_groups t ++ [tg]) t.

(** The tile group just added is shared with the table: a tuple inserted
    into it shows in the table's last tile group. *)
Definition store_last_tile_group (tg : TileGroup) (t : DataTable) : DataTable :=
  set_tile_groups (removelast (tile_groups t) ++ [tg]) t.

(** Modelled from the spec: the effect of a successful
    [DataTable::InsertTuple], "register the resulting (tile-group, slot)
    location with the table". *)
Definition register_location (l : ItemPointer) (t : DataTable) : DataTable :=
  {| table_oid := table_oid t; database_name := database_name t;
     table_name := table_name t; tile_groups := tile_groups t;
     locations := locations t ++ [l] |}.

Definition set_DatabaseMetricsCatalog (t : DataTable) (c : CatalogTables)
  : CatalogTables :=
  {| DatabaseMetricsCatalog := t;
     TableMetricsCatalog := TableMetricsCatalog c;
     IndexMetricsCatalog := IndexMetricsCatalog c;
     QueryMetricsCatalog := QueryMetricsCatalog c;
     TriggerCatalog := TriggerCatalog c;
     QueryHistoryCatalog := QueryHistoryCatalog c |}.

Definition set_TableMetricsCatalog (t : DataTable) (c : CatalogTables)
  : CatalogTables :=
  {| DatabaseMetricsCatalog := DatabaseMetricsCatalog c;
     TableMetricsCatalog := t;
     IndexMetricsCatalog := IndexMetricsCatalog c;
     QueryMetricsCatalog := QueryMetricsCatalog c;
     TriggerCatalog := TriggerCatalog c;
     QueryHistoryCatalog := QueryHistoryCatalog c |}.

Definition set_IndexMetricsCatalog (t : DataTable) (c : CatalogTables)
  : CatalogTables :=
  {| DatabaseMetricsCatalog := DatabaseMetricsCatalog c;
     TableMetricsCatalog := TableMetricsCatalog c;
     IndexMetricsCatalog := t;
     QueryMetricsCatalog := QueryMetricsCatalog c;
     TriggerCatalog := TriggerCatalog c;
     QueryHistoryCatalog := QueryHistoryCatalog c |}.

Definition set_QueryMetricsCatalog (t : DataTable) (c : CatalogTables)
  : CatalogTables :=
  {| DatabaseMetricsCatalog := DatabaseMetricsCatalog c;
     TableMetricsCatalog := TableMetricsCatalog c;
     IndexMetricsCatalog := IndexMetricsCatalog c;
     QueryMetricsCatalog := t;
     TriggerCatalog := TriggerCatalog c;
     QueryHistoryCatalog := QueryHistoryCatalog c |}.

Definition set_TriggerCatalog (t : DataTable) (c : CatalogTables)
  : CatalogTables :=
  {| DatabaseMetricsCatalog := DatabaseMetricsCatalog c;
     TableMetricsCatalog := TableMetricsCatalog c;
     IndexMetricsCatalog := IndexMetricsCatalog c;
     QueryMetricsCatalog := QueryMetricsCatalog c;
     TriggerCatalog := t;
     QueryHistoryCatalog := QueryHistoryCatalog c |}.

Definition set_QueryHistoryCatalog (t : DataTable) (c : CatalogTables)
  : CatalogTables :=
  {| DatabaseMetricsCatalog := DatabaseMetricsCatalog c;
     TableMetricsCatalog := TableMetricsCatalog c;
     IndexMetricsCatalog := IndexMetricsCatalog c;
     QueryMetricsCatalog := QueryMetricsCatalog c;
     TriggerCatalog := TriggerCatalog c;
     QueryHistoryCatalog := t |}.

Section DoCheckpointRecovery.

Variables INVALID_EID INVALID_OID CATALOG_DATABASE_OID : Z.
Variable checkpoint_working_dir_name_ : string.
(** [settings::SettingId::brain]. *)
Variable brain : bool.
(** Storage collaborators: [TileGroup::InsertTuple] gives the slot taken
    ([INVALID_OID] when none) and the tile group after the insertion;
    [DataTable::InsertTuple] tells whether the table accepts the tuple at
    that location. *)
Variable TileGroup_InsertTuple : TileGroup -> Tuple -> Z * TileGroup.
Variable DataTable_InsertTuple : DataTable -> Tuple -> ItemPointer -> bool.

(** Inner loop of [RecoverTableData] over the tuples of one tile group.
    The boolean tells whether the function goes on ([false]: it hit a
    [return]). *)
Fixpoint recover_tuples (tuples : list Tuple) (tile_group : TileGroup)
    (table : DataTable) (e : Engine) : bool * DataTable * Engine :=
  match tuples with
  | [] => (true, table, e)
  | tuple :: rest =>
      (* insert the tuple into the tile group *)
      let '(tuple_slot, tile_group1) := TileGroup_InsertTuple tile_group tuple in
      let table1 := store_last_tile_group tile_group1 table in
      let location :=
        {| block := tile_group_id tile_group1; offset := tuple_slot |} in
      if block location =? INVALID_OID then
        (false, table1, LOG_ERROR "Tuple insert error for tile group" e)
      else if negb (DataTable_InsertTuple table1 tuple location) then
        (false, table1, LOG_ERROR "Tuple insert error for table" e)
      else
        recover_tuples rest tile_group1 (register_location location table1)
          (txn_call (PerformInsert location) e)
  end.

(** Outer loop of [RecoverTableData] over the serialized tile groups. *)
Fixpoint recover_tile_groups (groups : list (TileGroup * list Tuple))
    (table : DataTable) (e : Engine) : bool * DataTable * Engine :=
  match groups with
  | [] => (true, table, e)
  | (tile_group, tuples) :: rest =>
      let table1 := AddTileGroup tile_group table in
      let '(go_on, table2, e2) := recover_tuples tuples tile_group table1 e in
      if go_on then recover_tile_groups rest table2 e2 else (false, table2, e2)
  end.

(** [TimestampCheckpointManager::RecoverTableData]: a [void] function, so
    whether it stopped on an error is not part of its result. *)
Definition RecoverTableData (table : DataTable) (file : TableFile)
    (e : Engine) : DataTable * Engine :=
  if negb (table_file_readable file) then
    (table, LOG_ERROR "Checkpoint table file read error" e)
  else
    let table1 := DropTileGroups table in
    let '(_, table2, e2) :=
      recover_tile_groups (table_file_tile_groups file) table1 e in
    (table2, e2).

(** [TimestampCheckpointManager::LoadTableCheckpointFile]. *)
Definition LoadTableCheckpointFile (fs : FileSystem) (table : DataTable)
    (epoch_id : Z) (e : Engine) : bool * DataTable * Engine :=
  match table_files fs !! (database_name table, table_name table, epoch_id) with
  | None => (false, table, LOG_ERROR "Open checkpoint file failed!" e)
  | Some table_file =>
      (* recover the table from the checkpoint file *)
      let '(table1, e1) := RecoverTableData table table_file e in
      (true, table1, e1)
  end.

(** [database->GetTable(table_idx)] written back after the call. *)
Definition store_table (db_idx table_idx : nat) (t : DataTable) (e : Engine)
  : Engine :=
  set_databases
    (alter (fun db => {| database_oid := database_oid db;
                         tables := <[table_idx := t]> (tables db) |})
       db_idx (databases e)) e.

(** The loop over [table_idx] in [LoadUserTableCheckpoint]. *)
Fixpoint load_tables (fs : FileSystem) (epoch_id : Z) (db_idx : nat)
    (table_idxs : list nat) (e : Engine) : bool * Engine :=
  match table_idxs with
  | [] => (true, e)
  | table_idx :: rest =>
      match databases e !! db_idx ≫= (fun db => tables db !! table_idx) with
      | None => (true, e)
      | Some table =>
          let '(ok, table1, e1) := LoadTableCheckpointFile fs table epoch_id e in
          let e2 := store_table db_idx table_idx table1 e1 in
          if negb ok then (false, e2) else load_tables fs epoch_id db_idx rest e2
      end
  end.

(** The loop over [db_idx] in [LoadUserTableCheckpoint]. *)
Fixpoint load_databases (fs : FileSystem) (epoch_id : Z) (db_idxs : list nat)
    (e : Engine) : bool * Engine :=
  match db_idxs with
  | [] => (true, e)
  | db_idx :: rest =>
      match databases e !! db_idx with
      | None => (true, e)
      | Some database =>
          (* the recovery doesn't process the catalog database here *)
          if database_oid database =? CATALOG_DATABASE_OID then
            load_databases fs epoch_id rest e
          else
            let table_count := length (tables database) in
            let '(ok, e1) :=
              load_tables fs epoch_id db_idx (seq 0 table_count) e in
            if negb ok then (false, e1) else load_databases fs epoch_id rest e1
      end
  end.

(** The database loop of [RecoverCatalogObject]; a database that
    deserializes is created in the storage manager. *)
Fixpoint recover_databases (dbs : list (option Database)) (e : Engine)
  : bool * Engine :=
  match dbs with
  | [] => (true, e)
  | Some db :: rest =>
      recover_databases rest (set_databases (databases e ++ [db]) e)
  | None :: _ => (false, LOG_ERROR "Recover database error" e)
  end.

(** [TimestampCheckpointManager::RecoverCatalogObject]. *)
Definition RecoverCatalogObject (file : CatalogFile) (e : Engine)
  : bool * Engine :=
  if negb (catalog_file_readable file) then
    (false, LOG_ERROR "checkpoint catalog file read error" e)
  else recover_databases (catalog_file_databases file) e.

(** [TimestampCheckpointManager::LoadUserTableCheckpoint]. *)
Definition LoadUserTableCheckpoint (fs : FileSystem) (epoch_id : Z)
    (e : Engine) : bool * Engine :=
  match catalog_files fs !! epoch_id with
  | None => (false, LOG_ERROR "Create checkpoint file failed!" e)
  | Some catalog_file =>
      let '(ok, e1) := RecoverCatalogObject catalog_file e in
      if negb ok then (false, LOG_ERROR "Catalog recovery failed" e1)
      else
        let db_count := length (databases e1) in
        load_databases fs epoch_id (seq 0 db_count) e1
  end.

(** One [LoadTableCheckpointFile] call on a singleton catalog table, the
    table being read from and written back to its field. *)
Definition load_catalog_table (fs : FileSystem) (epoch_id : Z)
    (get : CatalogTables -> DataTable)
    (set : DataTable -> CatalogTables -> CatalogTables) (e : Engine)
  : bool * Engine :=
  let '(ok, table1, e1) :=
    LoadTableCheckpointFile fs (get (catalog_tables e)) epoch_id e in
  (ok, set_catalog_tables (set table1 (catalog_tables e1)) e1).

(** [TimestampCheckpointManager::LoadCatalogTableCheckpoint]. *)
Definition LoadCatalogTableCheckpoint (fs : FileSystem) (epoch_id : Z)
    (e : Engine) : bool * Engine :=
  let '(ok, e1) :=
    load_catalog_table fs epoch_id DatabaseMetricsCatalog
      set_DatabaseMetricsCatalog e in
  if negb ok then (false, e1) else
  let '(ok, e2) :=
    load_catalog_table fs epoch_id TableMetricsCatalog
      set_TableMetricsCatalog e1 in
  if negb ok then (false, e2) else
  let '(ok, e3) :=
    load_catalog_table fs epoch_id IndexMetricsCatalog
      set_IndexMetricsCatalog e2 in
  if negb ok then (false, e3) else
  let '(ok, e4) :=
    load_catalog_table fs epoch_id QueryMetricsCatalog
      set_QueryMetricsCatalog e3 in
  if negb ok then (false, e4) else
  let '(ok, e5) :=
    load_catalog_table fs epoch_id TriggerCatalog set_TriggerCatalog e4 in
  if negb ok then (false, e5) else
  if brain then
    let '(ok, e6) :=
      load_catalog_table fs epoch_id QueryHistoryCatalog
        set_QueryHistoryCatalog e5 in
    if negb ok then (false, e6) else (true, e6)
  else (true, e5).

(** [TimestampCheckpointManager::DoCheckpointRecovery]. *)
Definition DoCheckpointRecovery (fs : FileSystem) (e : Engine)
  : bool * Engine :=
  let epoch_id :=
    GetRecoveryCheckpointEpoch INVALID_EID checkpoint_working_dir_name_
      (directory_list fs) in
  (* the engine with what GetRecoveryCheckpointEpoch has logged *)
  let e :=
    LOG_ERRORS
      (GetRecoveryCheckpointEpoch_errors INVALID_EID
         checkpoint_working_dir_name_ (directory_list fs)) e in
  if epoch_id =? INVALID_EID then
    (* No checkpoint for recovery *)
    (false, e)
  else
    (* begin a transaction to recover tuples into each table *)
    let e0 := txn_call BeginTransaction e in
    (* recover user table checkpoint *)
    let '(ok, e1) := LoadUserTableCheckpoint fs epoch_id e0 in
    if negb ok then (false, txn_call AbortTransaction e1)
    else
      (* recover catalog table checkpoint *)
      let '(ok, e2) := LoadCatalogTableCheckpoint fs epoch_id e1 in
      if negb ok then (false, txn_call AbortTransaction e2)
      else
        (* end transaction *)
        (true, txn_call CommitTransaction e2).

End DoCheckpointRecovery.

(** *** Selection of the generation to recover *)

Lemma digits_value_nonneg s : forall acc, 0 <= acc -> 0 <= digits_value acc s.
Proof.
  induction s as [| c rest IH]; intros acc Hacc; simpl; [done |].
  unfold digit_of. destruct (_ && _) eqn:Hd; [| done].
  apply IH. apply andb_true_iff in Hd as [Hlo _]. apply Z.leb_le in Hlo. lia.
Qed.

Lemma strtoul_nonneg s : 0 <= strtoul s.
Proof.
  unfold strtoul.
  destruct (match skip_spaces s with
            | String c rest =>
                if Ascii.eqb c "-"%char then (true, rest)
                else if Ascii.eqb c "+"%char then (false, rest)
                else (false, skip_spaces s)
            | EmptyString => (false, skip_spaces s)
            end) as [negative s2].
  pose proof (digits_value_nonneg s2 0 ltac:(lia)) as Hv.
  destruct (_ >? ULONG_MAX); [unfold ULONG_MAX; lia |].
  destruct negative; [apply Z.mod_pos_bound; lia | done].
Qed.

(** The names that stand for generations: all but the working name. *)
Definition generation_names (working : string) (names : list string)
  : list string :=
  filter (fun name => name <> working) names.

Lemma epoch_step_max working m name :
  0 <= m ->
  epoch_step working m name
  = if String.eqb name working then m else Z.max m (strtoul name).
Proof.
  intros Hm. unfold epoch_step.
  destruct (String.eqb name working); [done |].
  pose proof (strtoul_nonneg name).
  destruct (strtoul name =? 0) eqn:Hz.
  - apply Z.eqb_eq in Hz. lia.
  - destruct (strtoul name >? m) eqn:Hgt.
    + apply Z.gtb_lt in Hgt. lia.
    + rewrite Z.gtb_ltb in Hgt. apply Z.ltb_ge in Hgt. lia.
Qed.

Lemma fold_epoch_step working names : forall m,
  0 <= m ->
  fold_left (epoch_step working) names m
  = fold_left Z.max (strtoul <$> generation_names working names) m.
Proof.
  induction names as [| name rest IH]; intros m Hm; [done |].
  simpl. rewrite epoch_step_max by done.
  unfold generation_names. rewrite filter_cons.
  destruct (String.eqb_spec name working) as [-> | Hne].
  - rewrite decide_False by (intros H; by apply H). by apply IH.
  - rewrite decide_True by done. simpl.
    pose proof (strtoul_nonneg name). apply IH. lia.
Qed.

Lemma fold_max_ge (l : list Z) : forall m, m <= fold_left Z.max l m.
Proof.
  induction l as [| x l IH]; intros m; simpl; [lia |].
  specialize (IH (Z.max m x)). lia.
Qed.

Lemma fold_max_upper (l : list Z) : forall m x,
  x ∈ l -> x <= fold_left Z.max l m.
Proof.
  induction l as [| y l IH]; intros m x Hx; [by apply elem_of_nil in Hx |].
  apply elem_of_cons in Hx as [-> | Hx]; simpl.
  - pose proof (fold_max_ge l (Z.max m y)). lia.
  - by apply IH.
Qed.

Lemma fold_max_attained (l : list Z) : forall m,
  fold_left Z.max l m = m \/ fold_left Z.max l m ∈ l.
Proof.
  induction l as [| y l IH]; intros m; simpl; [by left |].
  destruct (IH (Z.max m y)) as [E | E].
  - rewrite E. destruct (Z.max_spec m y) as [[_ ->] | [_ ->]];
      [right; apply elem_of_cons; by left | by left].
  - right. apply elem_of_cons. by right.
Qed.

(** Sibling paths that do report a failure: a checkpoint file that does
    not open makes [LoadTableCheckpointFile] return false. *)
Lemma LoadTableCheckpointFile_not_opened INVALID_OID ins_tg ins_table
    fs table epoch_id e :
  table_files fs !! (database_name table, table_name table, epoch_id) = None ->
  (LoadTableCheckpointFile INVALID_OID ins_tg ins_table fs table epoch_id e).1.1
  = false.
Proof. intros H. unfold LoadTableCheckpointFile. by rewrite H. Qed.

(** Once the file opens, the result is true whatever happens while the
    table data is recovered. *)
Lemma LoadTableCheckpointFile_opened INVALID_OID ins_tg ins_table
    fs table epoch_id e file :
  table_files fs !! (database_name table, table_name table, epoch_id)
  = Some file ->
  (LoadTableCheckpointFile INVALID_OID ins_tg ins_table fs table epoch_id e).1.1
  = true.
Proof.
  intros H. unfold LoadTableCheckpointFile. rewrite H.
  by destruct (RecoverTableData _ _ _ _ _ _).
Qed.

(** With [INVALID_EID] 0 the loop of [GetRecoveryCheckpointEpoch] logs
    nothing: a name that reads as 0 is skipped before the test. *)
Lemma GetRecoveryCheckpointEpoch_errors_0 working names :
  GetRecoveryCheckpointEpoch_errors 0 working (Some names) = [].
Proof.
  simpl. induction names as [| name rest IH]; [done |]. simpl.
  unfold epoch_step_error at 1.
  destruct (String.eqb name working); [exact IH |].
  by destruct (strtoul name =? 0).
Qed.

(** A catalog file that does not open aborts the recovery transaction and
    makes recovery return false. *)
Lemma DoCheckpointRecovery_catalog_not_opened INVALID_EID INVALID_OID
    CATALOG_DATABASE_OID working brain ins_tg ins_table fs e :
  let epoch_id := GetRecoveryCheckpointEpoch INVALID_EID working
                    (directory_list fs) in
  epoch_id <> INVALID_EID ->
  catalog_files fs !! epoch_id = None ->
  DoCheckpointRecovery INVALID_EID INVALID_OID CATALOG_DATABASE_OID working
    brain ins_tg ins_table fs e
  = (false,
     txn_call AbortTransaction
       (LOG_ERROR "Create checkpoint file failed!"
          (txn_call BeginTransaction
             (LOG_ERRORS
                (GetRecoveryCheckpointEpoch_errors INVALID_EID working
                   (directory_list fs)) e)))).
Proof.
  intros epoch_id Hne Hnone. unfold DoCheckpointRecovery.
  fold epoch_id. apply Z.eqb_neq in Hne. rewrite Hne.
  unfold LoadUserTableCheckpoint. by rewrite Hnone.
Qed.

(** C4. For every list of subdirectory names, [GetRecoveryCheckpointEpoch]
    skips the working name, reads every other name with [strtoul] and
    returns the largest of these epoch ids; with no generation directory it
    returns [INVALID_EID], and [DoCheckpointRecovery] then returns without
    touching the engine.  [INVALID_EID] is the least epoch id, 0. *)
Theorem GetRecoveryCheckpointEpoch_largest (INVALID_EID : Z)
    (working : string) (names : list string) :
  INVALID_EID = 0 ->
  let epoch := GetRecoveryCheckpointEpoch INVALID_EID working (Some names) in
  (forall name, name ∈ names -> name <> working -> strtoul name <= epoch) /\
  ((exists name, name ∈ names /\ name <> working) ->
   exists name, name ∈ names /\ name <> working /\ strtoul name = epoch) /\
  ((forall name, name ∈ names -> name = working) -> epoch = INVALID_EID) /\
  (forall INVALID_OID CATALOG_DATABASE_OID brain ins_tg ins_table fs e,
     directory_list fs = Some names ->
     (forall name, name ∈ names -> name = working) ->
     DoCheckpointRecovery INVALID_EID INVALID_OID CATALOG_DATABASE_OID working
       brain ins_tg ins_table fs e = (false, e)).
Proof.
  intros -> epoch.
  assert (Hfold : epoch
            = fold_left Z.max (strtoul <$> generation_names working names) 0).
  { subst epoch. simpl. by apply fold_epoch_step. }
  assert (Hnone : (forall name, name ∈ names -> name = working) -> epoch = 0).
  { intros Hall. rewrite Hfold.
    replace (generation_names working names) with (@nil string); [done |].
    symmetry. apply elem_of_nil_inv. intros name Hin.
    apply list_elem_of_filter in Hin as [Hne Hin]. by apply Hne, Hall. }
  split; [| split; [| split]].
  - intros name Hin Hne. rewrite Hfold. apply fold_max_upper.
    apply list_elem_of_fmap. exists name. split; [done |].
    apply list_elem_of_filter. by split.
  - intros (name0 & Hin0 & Hne0).
    destruct (fold_max_attained
                (strtoul <$> generation_names working names) 0) as [E | E].
    + (* the maximum is 0: every generation name reads as 0 *)
      exists name0. repeat split; try done.
      pose proof (strtoul_nonneg name0).
      assert (strtoul name0 <= epoch); [| lia].
      rewrite Hfold. apply fold_max_upper, list_elem_of_fmap.
      exists name0. split; [done |]. apply list_elem_of_filter. by split.
    + rewrite <- Hfold in E. apply list_elem_of_fmap in E as (name & E & Hin).
      apply list_elem_of_filter in Hin as [Hne Hin]. by exists name.
  - done.
  - intros INVALID_OID CATALOG_DATABASE_OID brain ins_tg ins_table fs e
      Hdirs Hall.
    unfold DoCheckpointRecovery. rewrite Hdirs. fold epoch.
    rewrite GetRecoveryCheckpointEpoch_errors_0.
    by rewrite (Hnone Hall).
Qed.

Lemma GetRecoveryCheckpointEpoch_largest_witness :
  strtoul "7"
  <= GetRecoveryCheckpointEpoch 0 "working" (Some ["3"; "working"; "12"; "7"]%string).
Proof.
  apply (GetRecoveryCheckpointEpoch_largest 0 "working"
           ["3"; "working"; "12"; "7"]%string).
  - reflexivity.
  - apply list_elem_of_In. simpl. tauto.
  - discriminate.
Defined.

(** *** A recovery run that meets a failure while loading a table *)

Definition peloton_INVALID_OID : Z := 2 ^ 32 - 1.
Definition peloton_CATALOG_DATABASE_OID : Z := 2 ^ 24.

(** A tile group hands out its slots in order and none when it is full. *)
Definition slots_TileGroup_InsertTuple (tg : TileGroup) (tuple : Tuple)
  : Z * TileGroup :=
  if (length (tile_group_tuples tg) <? num_tuple_slots tg)%nat then
    (Z.of_nat (length (tile_group_tuples tg)),
     {| tile_group_id := tile_group_id tg;
        num_tuple_slots := num_tuple_slots tg;
        tile_group_tuples := tile_group_tuples tg ++ [tuple] |})
  else (peloton_INVALID_OID, tg).

(** A table whose constraint wants a non-negative first column. *)
Definition checked_DataTable_InsertTuple (table : DataTable) (tuple : Tuple)
    (location : ItemPointer) : bool :=
  match tuple with
  | v :: _ => 0 <=? v
  | [] => false
  end.

Definition empty_table (db name : string) (oid : Z) : DataTable :=
  {| table_oid := oid; database_name := db; table_name := name;
     tile_groups := []; locations := [] |}.

Definition default_tile_group : TileGroup :=
  {| tile_group_id := 1; num_tuple_slots := 5; tile_group_tuples := [] |}.

(** The engine right after start: only the catalog database. *)
Definition cold_engine : Engine :=
  {| databases :=
       [ {| database_oid := peloton_CATALOG_DATABASE_OID; tables := [] |} ];
     catalog_tables :=
       {| DatabaseMetricsCatalog := empty_table "peloton" "pg_database_metrics" 40;
          TableMetricsCatalog := empty_table "peloton" "pg_table_metrics" 41;
          IndexMetricsCatalog := empty_table "peloton" "pg_index_metrics" 42;
          QueryMetricsCatalog := empty_table "peloton" "pg_query_metrics" 43;
          TriggerCatalog := empty_table "peloton" "pg_trigger" 44;
          QueryHistoryCatalog := empty_table "peloton" "pg_query_history" 45 |};
     txn_events := [];
     error_log := [] |}.

Definition empty_table_file : TableFile :=
  {| table_file_readable := true; table_file_tile_groups := [] |}.

(** Generation 5 holds one user database with one table [emp_db.emp]. The
    table file is a parameter. *)
Definition generation_5 (emp_file : TableFile) : FileSystem :=
  {| directory_list := Some ["5"; "working"]%string;
     catalog_files :=
       {[ 5 := {| catalog_file_readable := true;
                  catalog_file_databases :=
                    [ Some {| database_oid := 100;
                              tables :=
                                [ AddTileGroup default_tile_group
                                    (empty_table "emp_db" "emp" 200) ] |} ] |} ]};
     table_files :=
       <[ ("emp_db", "emp", 5) := emp_file ]>
       (<[ ("peloton", "pg_database_metrics", 5) := empty_table_file ]>
       (<[ ("peloton", "pg_table_metrics", 5) := empty_table_file ]>
       (<[ ("peloton", "pg_index_metrics", 5) := empty_table_file ]>
       (<[ ("peloton", "pg_query_metrics", 5) := empty_table_file ]>
       (<[ ("peloton", "pg_trigger", 5) := empty_table_file ]> ∅))))) |}%string.

(** The table file cannot be read. *)
Definition unreadable_emp_file : TableFile :=
  {| table_file_readable := false; table_file_tile_groups := [] |}.

(** The table file holds three tuples, the second of which the table
    refuses. *)
Definition refused_emp_file : TableFile :=
  {| table_file_readable := true;
     table_file_tile_groups :=
       [ ({| tile_group_id := 7; num_tuple_slots := 5;
             tile_group_tuples := [] |},
          [ [1; 10]; [-1; 20]; [3; 30] ]) ] |}.

Definition recover (fs : FileSystem) : bool * Engine :=
  DoCheckpointRecovery 0 peloton_INVALID_OID peloton_CATALOG_DATABASE_OID
    "working" false slots_TileGroup_InsertTuple checked_DataTable_InsertTuple
    fs cold_engine.

(** C2, evaluated on the two runs above.  In each of them a step of
    [RecoverTableData] fails (the table file cannot be read; the table
    refuses a tuple), the error is logged, and [DoCheckpointRecovery] still
    commits the recovery transaction and returns true.  In the second run
    one tuple is registered, one sits unregistered in the tile group and
    one is never loaded. *)
Theorem DoCheckpointRecovery_commits_after_table_failure :
  (recover (generation_5 unreadable_emp_file)).1 = true /\
  txn_events (recover (generation_5 unreadable_emp_file)).2
  = [BeginTransaction; CommitTransaction] /\
  error_log (recover (generation_5 unreadable_emp_file)).2
  = ["Checkpoint table file read error"]%string /\
  (recover (generation_5 refused_emp_file)).1 = true /\
  txn_events (recover (generation_5 refused_emp_file)).2
  = [BeginTransaction; PerformInsert {| block := 7; offset := 0 |};
     CommitTransaction] /\
  error_log (recover (generation_5 refused_emp_file)).2
  = ["Tuple insert error for table"]%string /\
  databases (recover (generation_5 refused_emp_file)).2 !! 1%nat
  = Some {| database_oid := 100;
            tables :=
              [ {| table_oid := 200; database_name := "emp_db";
                   table_name := "emp";
                   tile_groups :=
                     [ {| tile_group_id := 7; num_tuple_slots := 5;
                          tile_group_tuples := [ [1; 10]; [-1; 20] ] |} ];
                   locations := [ {| block := 7; offset := 0 |} ] |} ] |}.
Proof. vm_compute. repeat split; reflexivity. Qed.

End Recovery.

(* ===================================================================== *)
(** ** One checkpoint cycle                                               *)
(* ===================================================================== *)

Module Checkpointing.
Import Visibility.

(** What [CopySerializeOutput] receives, item by item. *)
Inductive Item : Type :=
| Long (n : Z)
| TileGroupStructure (tile_group_id : Z)
| ColumnValue (v : Z)
| DatabaseObject (database_oid : Z).

(** A file of a checkpoint directory: the items that reached it through
    [fwrite], and whether [FFlushFsync] ran on it. *)
Record CheckpointFile : Type := { written : list Item; flushed : bool }.

Record TileGroup : Type := {
  tile_group_id : Z;
  header : TileGroupHeader;
  next_tuple_slot : nat;
  GetValue : Z -> Z -> Z
}.

Record DataTable : Type := {
  database_name : string;
  table_name : string;
  column_count : nat;
  tile_groups : list TileGroup;
  (* the catalog has an entry for the table in this transaction *)
  in_catalog : bool
}.

Record Database : Type := {
  database_oid : Z;
  database_in_catalog : bool;
  tables : list DataTable
}.

Record CatalogTables : Type := {
  DatabaseMetricsCatalog : DataTable;
  TableMetricsCatalog : DataTable;
  IndexMetricsCatalog : DataTable;
  QueryMetricsCatalog : DataTable;
  TriggerCatalog : DataTable;
  QueryHistoryCatalog : DataTable
}.

(** Which [LoggingUtil::OpenFile] calls and which [fwrite] calls fail: by
    file name, and for [fwrite] by the number of earlier writes to it.
    Each [fwrite] is asked for one item, the whole buffer; one that fails
    has written less than that, and [torn_write] gives what it leaves in
    the file of the buffer handed to it, about which the C library
    promises nothing. *)
Record Faults : Type := {
  open_fails : string -> bool;
  write_fails : string -> nat -> bool;
  torn_write : string -> nat -> list Item -> list Item
}.

(** The checkpoint base directory (sub-directory name to its files) and the
    error log. *)
Record State : Type := {
  disk : gmap string (gmap string CheckpointFile);
  error_log : list string
}.

Definition LOG_ERROR (msg : string) (st : State) : State :=
  {| disk := disk st; error_log := error_log st ++ [msg] |}.

Definition set_disk (d : gmap string (gmap string CheckpointFile))
    (st : State) : State :=
  {| disk := d; error_log := error_log st |}.

(** Modelled from the spec: the file names of a generation, which
    [timestamp_checkpoint_manager.h] builds and which is not among the
    sources: [<db>.<table>.tbl] per table and [catalog.bin]. *)
Definition table_file_name (db table : string) : string :=
  db +:+ "." +:+ table +:+ ".tbl".
Definition catalog_file_name : string := "catalog.bin".

(** [std::to_string] of an epoch id. *)
Definition to_string (epoch_id : Z) : string := pretty (Z.to_N epoch_id).

(** What the checkpoint thread meets at one turn of its loop: the running
    flag, and for the transaction it would begin the databases and catalog
    tables it sees, its read id and its epoch id. *)
Record Tick : Type := {
  is_running_ : bool;
  tick_databases : list Database;
  tick_catalogs : CatalogTables;
  GetReadId : Z;
  GetEpochId : Z
}.

Section PerformCheckpointing.

Variables INVALID_TXN_ID INITIAL_TXN_ID MAX_CID CATALOG_DATABASE_OID : Z.
Variable checkpoint_working_dir_name_ : string.
Variable brain : bool.
Variable faults : Faults.

(** Modelled from the spec: [CreateWorkingCheckpointDirectory] of the
    absent header, "create a fresh working generation directory
    (overwriting any stale one from a previously interrupted cycle)". *)
Definition CreateWorkingCheckpointDirectory (st : State) : State :=
  set_disk (<[checkpoint_working_dir_name_ := ∅]> (disk st)) st.

(** Modelled from the spec: [MoveWorkingToCheckpointDirectory] of the
    absent header, "atomically rename the working directory to its
    epoch-named final directory". *)
Definition MoveWorkingToCheckpointDirectory (epoch_name : string)
    (st : State) : State :=
  match disk st !! checkpoint_working_dir_name_ with
  | Some working =>
      set_disk (<[epoch_name := working]>
                  (delete checkpoint_working_dir_name_ (disk st))) st
  | None => st
  end.

(** Modelled from the spec: [RemoveOldCheckpoints] of the absent header,
    "delete every other existing generation directory"; the working name
    is not a generation. *)
Definition RemoveOldCheckpoints (begin_epoch_id : Z) (st : State) : State :=
  set_disk
    (filter (fun entry => entry.1 = checkpoint_working_dir_name_
                          \/ entry.1 = to_string begin_epoch_id)
       (disk st)) st.

(** A file opened with mode ["wb"] in the working directory, and its
    content replaced. *)
Definition store_working_file (file_name : string) (file : CheckpointFile)
    (st : State) : State :=
  set_disk
    (alter (fun working => <[file_name := file]> working)
       checkpoint_working_dir_name_ (disk st)) st.

(** The tuples of a tile group that [IsVisible] keeps, in slot order. *)
Definition visible_tuples (tile_group : TileGroup) (begin_cid : Z) : list Z :=
  List.filter
    (fun tuple_id =>
       IsVisible INVALID_TXN_ID INITIAL_TXN_ID MAX_CID (header tile_group)
         tuple_id begin_cid)
    (Z.of_nat <$> seq 0 (next_tuple_slot tile_group)).

(** What one iteration of the tile-group loop of [CheckpointingTableData]
    appends to the output buffer. *)
Definition tile_group_output (table : DataTable) (tile_group : TileGroup)
    (begin_cid : Z) : list Item :=
  let visible := visible_tuples tile_group begin_cid in
  [TileGroupStructure (tile_group_id tile_group);
   Long (Z.of_nat (length visible))]
  ++ flat_map
       (fun tuple_id =>
          (fun column_id => ColumnValue (GetValue tile_group tuple_id column_id))
          <$> (Z.of_nat <$> seq 0 (column_count table)))
       visible.

(** The tile-group loop of [CheckpointingTableData]: one [fwrite] per tile
    group, after which the buffer is reset.  The boolean is false when the
    loop is left through the [return] after a write error. *)
Fixpoint checkpoint_tile_groups (file_name : string) (table : DataTable)
    (begin_cid : Z) (groups : list TileGroup) (output_buffer : list Item)
    (writes : nat) (file : CheckpointFile) (st : State)
  : bool * CheckpointFile * State :=
  match groups with
  | [] => (true, file, st)
  | tile_group :: rest =>
      let buffer := output_buffer ++ tile_group_output table tile_group begin_cid in
      if write_fails faults file_name writes then
        (false,
         {| written := written file ++ torn_write faults file_name writes buffer;
            flushed := flushed file |},
         LOG_ERROR "Write error" st)
      else
        checkpoint_tile_groups file_name table begin_cid rest [] (S writes)
          {| written := written file ++ buffer; flushed := flushed file |} st
  end.

(** [TimestampCheckpointManager::CheckpointingTableData]. *)
Definition CheckpointingTableData (file_name : string) (table : DataTable)
    (begin_cid : Z) (file : CheckpointFile) (st : State)
  : CheckpointFile * State :=
  let tile_group_count := length (tile_groups table) in
  let output_buffer := [Long (Z.of_nat tile_group_count)] in
  let '(finished, file1, st1) :=
    checkpoint_tile_groups file_name table begin_cid (tile_groups table)
      output_buffer 0 file st in
  if finished then ({| written := written file1; flushed := true |}, st1)
  else (file1, st1).

(** [TimestampCheckpointManager::CreateTableCheckpointFile]. *)
Definition CreateTableCheckpointFile (table : DataTable) (begin_cid : Z)
    (st : State) : State :=
  let file_name := table_file_name (database_name table) (table_name table) in
  if open_fails faults file_name then st
  else
    let '(file, st1) :=
      CheckpointingTableData file_name table begin_cid
        {| written := []; flushed := false |} st in
    store_working_file file_name file st1.

(** [TimestampCheckpointManager::CheckpointingCatalogObject]. *)
Definition CheckpointingCatalogObject (target_dbs : list Z) (st : State)
  : State :=
  let catalog_buffer :=
    Long (Z.of_nat (length target_dbs)) :: (DatabaseObject <$> target_dbs) in
  if write_fails faults catalog_file_name 0 then
    store_working_file catalog_file_name
      {| written := torn_write faults catalog_file_name 0 catalog_buffer;
         flushed := false |}
      (LOG_ERROR "Write error" st)
  else
    store_working_file catalog_file_name
      {| written := catalog_buffer; flushed := true |} st.

(** The table loop of [CreateUserTableCheckpoint]. *)
Definition checkpoint_tables (tables : list DataTable) (begin_cid : Z)
    (st : State) : State :=
  fold_left
    (fun st table =>
       if in_catalog table then CreateTableCheckpointFile table begin_cid st
       else st)
    tables st.

(** The database loop of [CreateUserTableCheckpoint]: the databases that
    go into the catalog file, and the state after their table files. *)
Definition checkpoint_databases (databases : list Database) (begin_cid : Z)
    (st : State) : list Z * State :=
  fold_left
    (fun '(target_dbs, st) database =>
       if database_in_catalog database
          && negb (database_oid database =? CATALOG_DATABASE_OID)
       then (target_dbs ++ [database_oid database],
             checkpoint_tables (tables database) begin_cid st)
       else (target_dbs, st))
    databases ([], st).

(** [TimestampCheckpointManager::CreateUserTableCheckpoint]. *)
Definition CreateUserTableCheckpoint (databases : list Database)
    (begin_cid : Z) (st : State) : State :=
  let '(target_dbs, st1) := checkpoint_databases databases begin_cid st in
  if open_fails faults catalog_file_name then
    LOG_ERROR "Create catalog file failed!" st1
  else CheckpointingCatalogObject target_dbs st1.

(** [TimestampCheckpointManager::CreateCatalogTableCheckpoint]. *)
Definition CreateCatalogTableCheckpoint (catalogs : CatalogTables)
    (begin_cid : Z) (st : State) : State :=
  let st1 := CreateTableCheckpointFile (DatabaseMetricsCatalog catalogs) begin_cid st in
  let st2 := CreateTableCheckpointFile (TableMetricsCatalog catalogs) begin_cid st1 in
  let st3 := CreateTableCheckpointFile (IndexMetricsCatalog catalogs) begin_cid st2 in
  let st4 := CreateTableCheckpointFile (QueryMetricsCatalog catalogs) begin_cid st3 in
  let st5 := CreateTableCheckpointFile (TriggerCatalog catalogs) begin_cid st4 in
  if brain then
    CreateTableCheckpointFile (QueryHistoryCatalog catalogs) begin_cid st5
  else st5.

(** The files of the working directory once both checkpoint steps ran. *)
Definition write_generation (databases : list Database)
    (catalogs : CatalogTables) (begin_cid : Z) (st : State) : State :=
  CreateCatalogTableCheckpoint catalogs begin_cid
    (CreateUserTableCheckpoint databases begin_cid
       (CreateWorkingCheckpointDirectory st)).

(** One checkpoint: the body that [PerformCheckpointing] runs when the
    interval has elapsed, for a transaction with read id [begin_cid] and
    epoch [begin_epoch_id]. *)
Definition checkpoint_cycle (databases : list Database)
    (catalogs : CatalogTables) (begin_cid begin_epoch_id : Z) (st : State)
  : State :=
  let st1 := write_generation databases catalogs begin_cid st in
  (* finalize checkpoint directory:
       1) move working directory to epoch directory
       2) remove all of old checkpoints *)
  let st2 := MoveWorkingToCheckpointDirectory (to_string begin_epoch_id) st1 in
  RemoveOldCheckpoints begin_epoch_id st2.

(** [int checkpoint_interval_], in seconds. *)
Variable checkpoint_interval_ : Z.

(** The loop of [PerformCheckpointing], one list element per turn: the
    thread leaves when [is_running_] is false, otherwise sleeps a second,
    counts it, and runs a cycle when the interval has elapsed. *)
Fixpoint checkpointing_loop (ticks : list Tick) (count : Z) (st : State)
  : State :=
  match ticks with
  | [] => st
  | tick :: rest =>
      if negb (is_running_ tick) then st
      else
        let count := count + 1 in
        if count =? checkpoint_interval_ then
          checkpointing_loop rest 0
            (checkpoint_cycle (tick_databases tick) (tick_catalogs tick)
               (GetReadId tick) (GetEpochId tick) st)
        else checkpointing_loop rest count st
  end.

(** [TimestampCheckpointManager::PerformCheckpointing]. *)
Definition PerformCheckpointing (ticks : list Tick) (st : State) : State :=
  checkpointing_loop ticks (checkpoint_interval_ - 1) st.

End PerformCheckpointing.

(** *** Sample runs of a cycle *)

Definition catalog_table (name : string) : DataTable :=
  {| database_name := "peloton"; table_name := name; column_count := 1;
     tile_groups := []; in_catalog := true |}.

Definition sample_catalogs : CatalogTables :=
  {| DatabaseMetricsCatalog := catalog_table "pg_database_metrics";
     TableMetricsCatalog := catalog_table "pg_table_metrics";
     IndexMetricsCatalog := catalog_table "pg_index_metrics";
     QueryMetricsCatalog := catalog_table "pg_query_metrics";
     TriggerCatalog := catalog_table "pg_trigger";
     QueryHistoryCatalog := catalog_table "pg_query_history" |}.

(** [emp_db.emp] has two columns and two tile groups; the first tile group
    is [sample_header] (one visible tuple out of three slots), the second
    holds one committed tuple of transaction 42. *)
Definition emp_table : DataTable :=
  {| database_name := "emp_db"; table_name := "emp"; column_count := 2;
     tile_groups :=
       [ {| tile_group_id := 11; header := sample_header;
            next_tuple_slot := 3;
            GetValue := fun tuple_id column_id => 10 * tuple_id + column_id |};
         {| tile_group_id := 12; header := owned_header;
            next_tuple_slot := 1;
            GetValue := fun tuple_id column_id => 500 + column_id |} ];
     in_catalog := true |}.

Definition sample_databases : list Database :=
  [ {| database_oid := 2 ^ 24; database_in_catalog := true; tables := [] |};
    {| database_oid := 100; database_in_catalog := true;
       tables := [emp_table] |} ].

(** The base directory before the cycle: generation 5 and a stale working
    directory. *)
Definition sample_state : State :=
  {| disk :=
       {[ "5"%string :=
            {[ catalog_file_name := {| written := [Long 0]; flushed := true |} ]};
          "working"%string :=
            {[ "stale.tbl"%string := {| written := []; flushed := false |} ]} ]};
     error_log := [] |}.

Definition no_faults : Faults :=
  {| open_fails := fun _ => false; write_fails := fun _ _ => false;
     torn_write := fun _ _ _ => [] |}.

(** Opening [emp_db.emp.tbl] fails. *)
Definition emp_open_fault : Faults :=
  {| open_fails := fun name => String.eqb name "emp_db.emp.tbl";
     write_fails := fun _ _ => false;
     torn_write := fun _ _ _ => [] |}.

(** The second [fwrite] to [emp_db.emp.tbl] fails, and nothing of its
    buffer reaches the file. *)
Definition emp_write_fault : Faults :=
  {| open_fails := fun _ => false;
     write_fails := fun name n => String.eqb name "emp_db.emp.tbl" && (n =? 1)%nat;
     torn_write := fun _ _ _ => [] |}.

(** The same failure, after the structure of the second tile group has
    reached the file. *)
Definition emp_torn_write_fault : Faults :=
  {| open_fails := fun _ => false;
     write_fails := fun name n => String.eqb name "emp_db.emp.tbl" && (n =? 1)%nat;
     torn_write := fun _ _ buffer => take 1 buffer |}.

(** A cycle at read id 6 in epoch 6. *)
Definition cycle_6 (faults : Faults) : State :=
  checkpoint_cycle peloton_INVALID_TXN_ID peloton_INITIAL_TXN_ID
    peloton_MAX_CID (2 ^ 24) "working" false faults sample_databases
    sample_catalogs 6 6 sample_state.

(** *** The promotion is unconditional *)

Section Promotion.

Variables INVALID_TXN_ID INITIAL_TXN_ID MAX_CID CATALOG_DATABASE_OID : Z.
Variable working : string.
Variable brain : bool.
Variable faults : Faults.

(** A step keeps the working directory in place. *)
Definition keeps_working (f : State -> State) : Prop :=
  forall st, is_Some (disk st !! working) -> is_Some (disk (f st) !! working).

Lemma keeps_working_LOG_ERROR msg : keeps_working (LOG_ERROR msg).
Proof. by intros st H. Qed.

Lemma keeps_working_store file_name file :
  keeps_working (store_working_file working file_name file).
Proof.
  intros st [w Hw]. simpl. rewrite lookup_alter_eq, Hw. by eexists.
Qed.

Lemma checkpoint_tile_groups_disk file_name table begin_cid groups :
  forall buffer writes file st,
  disk (checkpoint_tile_groups INVALID_TXN_ID INITIAL_TXN_ID MAX_CID faults
          file_name table begin_cid groups buffer writes file st).2
  = disk st.
Proof.
  induction groups as [| tg rest IH]; intros buffer writes file st; [done |].
  simpl. destruct (write_fails faults file_name writes); [done |]. apply IH.
Qed.

Lemma keeps_working_table table begin_cid :
  keeps_working
    (CreateTableCheckpointFile INVALID_TXN_ID INITIAL_TXN_ID MAX_CID working
       faults table begin_cid).
Proof.
  intros st H. unfold CreateTableCheckpointFile.
  destruct (open_fails faults _); [done |].
  unfold CheckpointingTableData.
  pose proof (checkpoint_tile_groups_disk
                (table_file_name (database_name table) (table_name table))
                table begin_cid (tile_groups table)
                [Long (Z.of_nat (length (tile_groups table)))] 0%nat
                {| written := []; flushed := false |} st) as Hd.
  destruct (checkpoint_tile_groups _ _ _ _ _ _ _ _ _ _ _ _)
    as [[finished file1] st1].
  simpl in Hd.
  destruct finished; apply keeps_working_store; by rewrite Hd.
Qed.

Lemma keeps_working_tables tables begin_cid :
  keeps_working
    (checkpoint_tables INVALID_TXN_ID INITIAL_TXN_ID MAX_CID working faults
       tables begin_cid).
Proof.
  unfold checkpoint_tables.
  induction tables as [| table rest IH]; intros st H; [done |].
  simpl. apply IH. destruct (in_catalog table); [| done].
  by apply keeps_working_table.
Qed.

Lemma keeps_working_databases databases begin_cid : forall target_dbs st,
  is_Some (disk st !! working) ->
  is_Some
    (disk (fold_left
             (fun '(target_dbs, st) database =>
                if database_in_catalog database
                   && negb (database_oid database =? CATALOG_DATABASE_OID)
                then (target_dbs ++ [database_oid database],
                      checkpoint_tables INVALID_TXN_ID INITIAL_TXN_ID MAX_CID
                        working faults (tables database) begin_cid st)
                else (target_dbs, st))
             databases (target_dbs, st)).2 !! working).
Proof.
  induction databases as [| db rest IH]; intros target_dbs st H; [done |].
  simpl. destruct (_ && _); apply IH; [| done].
  by apply keeps_working_tables.
Qed.

Lemma keeps_working_user_tables databases begin_cid :
  keeps_working
    (CreateUserTableCheckpoint INVALID_TXN_ID INITIAL_TXN_ID MAX_CID
       CATALOG_DATABASE_OID working faults databases begin_cid).
Proof.
  intros st H. unfold CreateUserTableCheckpoint, checkpoint_databases.
  pose proof (keeps_working_databases databases begin_cid [] st H) as Hk.
  destruct (fold_left _ databases ([], st)) as [target_dbs st1].
  simpl in Hk. destruct (open_fails faults catalog_file_name); [done |].
  unfold CheckpointingCatalogObject.
  destruct (write_fails faults catalog_file_name 0);
    by apply keeps_working_store.
Qed.

Lemma keeps_working_catalog_tables catalogs begin_cid :
  keeps_working
    (CreateCatalogTableCheckpoint INVALID_TXN_ID INITIAL_TXN_ID MAX_CID
       working brain faults catalogs begin_cid).
Proof.
  intros st H. unfold CreateCatalogTableCheckpoint.
  destruct brain; repeat apply keeps_working_table; done.
Qed.

(** Whatever fails while the files are written, the cycle ends with the
    working directory, as the writing left it, under the epoch name, and
    with no working directory. *)
Lemma checkpoint_cycle_promotes databases catalogs begin_cid begin_epoch_id st :
  to_string begin_epoch_id <> working ->
  exists generation,
    disk (write_generation INVALID_TXN_ID INITIAL_TXN_ID MAX_CID
            CATALOG_DATABASE_OID working brain faults databases catalogs
            begin_cid st) !! working = Some generation /\
    disk (checkpoint_cycle INVALID_TXN_ID INITIAL_TXN_ID MAX_CID
            CATALOG_DATABASE_OID working brain faults databases catalogs
            begin_cid begin_epoch_id st) !! to_string begin_epoch_id
    = Some generation /\
    disk (checkpoint_cycle INVALID_TXN_ID INITIAL_TXN_ID MAX_CID
            CATALOG_DATABASE_OID working brain faults databases catalogs
            begin_cid begin_epoch_id st) !! working = None.
Proof.
  intros Hne. unfold checkpoint_cycle.
  set (st1 := write_generation _ _ _ _ _ _ _ _ _ _ _).
  assert (Hw : is_Some (disk st1 !! working)).
  { subst st1. unfold write_generation.
    apply keeps_working_catalog_tables, keeps_working_user_tables.
    simpl. rewrite lookup_insert_eq. by eexists. }
  destruct Hw as [generation Hw]. exists generation. split; [done |].
  unfold MoveWorkingToCheckpointDirectory. rewrite Hw. simpl. split.
  - apply map_lookup_filter_Some. split; [apply lookup_insert_eq | by right].
  - apply map_lookup_filter_None. left.
    rewrite lookup_insert_ne by done. apply lookup_delete_eq.
Qed.

End Promotion.

(** C3, evaluated on the sample cycles.  Without faults the table file
    of [emp_db.emp] reaches the epoch directory whole and flushed.  When
    opening that file fails, or when its second write fails, the cycle
    still renames the working directory to the epoch name 6 and removes
    generation 5: the file is then missing from the final directory, or is
    there cut short and not flushed. *)
Theorem checkpoint_cycle_promotes_partial_generation :
  (.!! "emp_db.emp.tbl"%string) <$> (disk (cycle_6 no_faults) !! "6"%string)
  = Some (Some {| written :=
                    [Long 2; TileGroupStructure 11; Long 1;
                     ColumnValue 0; ColumnValue 1;
                     TileGroupStructure 12; Long 1;
                     ColumnValue 500; ColumnValue 501];
                  flushed := true |}) /\
  (.!! "emp_db.emp.tbl"%string) <$> (disk (cycle_6 emp_open_fault) !! "6"%string)
  = Some None /\
  disk (cycle_6 emp_open_fault) !! "5"%string = None /\
  (.!! "emp_db.emp.tbl"%string) <$> (disk (cycle_6 emp_write_fault) !! "6"%string)
  = Some (Some {| written :=
                    [Long 2; TileGroupStructure 11; Long 1;
                     ColumnValue 0; ColumnValue 1];
                  flushed := false |}) /\
  disk (cycle_6 emp_write_fault) !! "5"%string = None /\
  error_log (cycle_6 emp_write_fault) = ["Write error"]%string.
Proof. vm_compute. repeat split; reflexivity. Qed.

End Checkpointing.

(* ===================================================================== *)
(** ** The catalog: DDL on tables, indexes, layouts and databases        *)
(* ===================================================================== *)

Module Catalog.

Inductive ResultType : Type := SUCCESS | FAILURE.

Inductive IndexConstraintType : Type := DEFAULT | PRIMARY_KEY | UNIQUE.

Inductive IndexType : Type := BWTREE | HASH | SKIPLIST.

(** *** Storage objects *)

Record Column : Type := {
  column_name : string;
  column_is_primary : bool;
  column_is_unique : bool
}.

(** [index::IndexMetadata]. *)
Record IndexMetadata : Type := {
  index_name : string;
  index_oid : Z;
  index_table_oid : Z;
  index_database_oid : Z;
  index_type : IndexType;
  index_constraint : IndexConstraintType;
  key_schema : list Column;
  key_attrs : list Z;
  unique_keys : bool
}.

Record DataTable : Type := {
  table_name : string;
  table_schema : list Column;
  (* oid of default_layout_ *)
  default_layout : Z;
  next_layout_oid : Z;
  table_indexes : list IndexMetadata
}.

(** [storage::Database]: its tables by oid. *)
Record Database : Type := { db_tables : gmap Z DataTable }.

(** *** Rows of the catalog tables *)

Record DatabaseCatalogEntry : Type := {
  dbrow_oid : Z;
  dbrow_name : string
}.

Record TableCatalogEntry : Type := {
  tblrow_oid : Z;
  tblrow_name : string;
  tblrow_schema_name : string;
  tblrow_default_layout_oid : Z
}.

Record ColumnCatalogEntry : Type := {
  colrow_table_oid : Z;
  colrow_column_id : Z;
  colrow_name : string
}.

Record IndexCatalogEntry : Type := {
  idxrow_schema_name : string;
  idxrow_table_oid : Z;
  idxrow_oid : Z;
  idxrow_name : string;
  idxrow_type : IndexType;
  idxrow_constraint : IndexConstraintType;
  idxrow_unique_keys : bool;
  idxrow_key_attrs : list Z
}.

Record LayoutCatalogEntry : Type := {
  layrow_table_oid : Z;
  layrow_oid : Z
}.

Record TriggerCatalogEntry : Type := {
  trgrow_table_oid : Z;
  trgrow_name : string
}.

(** The catalog tables of one database, as the running transaction sees
    their rows. *)
Record CatalogRows : Type := {
  pg_table : list TableCatalogEntry;
  pg_attribute : list ColumnCatalogEntry;
  pg_index : list IndexCatalogEntry;
  pg_layout : list LayoutCatalogEntry;
  pg_trigger : list TriggerCatalogEntry
}.

(** [SystemCatalogs], the object that [catalog_map_] points to: the
    catalog handles of one database with their in-process oid counters. *)
Record SystemCatalogs : Type := {
  index_catalog_oid : Z;
  table_catalog_oid : Z
}.

(** Calls that change catalog rows or the transaction's object set, in
    the order in which they are made. *)
Inductive Event : Type :=
| DropTrigger (table_oid : Z) (trigger_name : string)
| DeleteIndex (index_oid : Z)
| InsertIndex (index_oid : Z)
| DeleteColumns (table_oid : Z)
| DeleteLayouts (table_oid : Z)
| DeleteLayout (table_oid layout_oid : Z)
| InsertLayout (table_oid layout_oid : Z)
| UpdateDefaultLayoutOid (table_oid layout_oid : Z)
| DeleteTable (table_oid : Z)
| DeleteDatabase (database_oid : Z)
| RecordCreate (database_oid table_oid index_oid : Z)
| RecordDrop (database_oid table_oid index_oid : Z)
| AbortTransaction.

Record State : Type := {
  (* storage::StorageManager *)
  storage : gmap Z Database;
  (* rows of the global pg_database *)
  pg_database : list DatabaseCatalogEntry;
  (* rows of the per-database catalog tables *)
  catalog_rows : gmap Z CatalogRows;
  (* Catalog::catalog_map_ *)
  catalog_map_ : gmap Z SystemCatalogs;
  events : list Event
}.

(** *** Results, exceptions and the state monad of the DDL code *)

Inductive Outcome (A : Type) : Type :=
| Return (a : A)
| Throw (what : string)      (* a CatalogException *)
| NullDereference            (* a null shared_ptr is dereferenced *)
| AssertionFailure.          (* a PELOTON_ASSERT does not hold *)
Arguments Return {A} a.
Arguments Throw {A} what.
Arguments NullDereference {A}.
Arguments AssertionFailure {A}.

Definition M (A : Type) : Type := State -> Outcome A * State.

Definition ret {A} (a : A) : M A := fun st => (Return a, st).

Definition bind {A B} (m : M A) (k : A -> M B) : M B :=
  fun st =>
    match m st with
    | (Return a, st1) => k a st1
    | (Throw what, st1) => (Throw what, st1)
    | (NullDereference, st1) => (NullDereference, st1)
    | (AssertionFailure, st1) => (AssertionFailure, st1)
    end.

Definition throw {A} (what : string) : M A := fun st => (Throw what, st).
Definition null_dereference {A} : M A := fun st => (NullDereference, st).
Definition PELOTON_ASSERT (condition : bool) : M unit :=
  fun st => if condition then (Return tt, st) else (AssertionFailure, st).
Definition get_state : M State := fun st => (Return st, st).
Definition modify (f : State -> State) : M unit := fun st => (Return tt, f st).

Notation "'let!' x ':=' m 'in' k" := (bind m (fun x => k))
  (at level 10, x name, m at level 100, k at level 200).
Notation "'exec' m 'then' k" := (bind m (fun _ => k))
  (at level 10, m at level 100, k at level 200).

Fixpoint for_each {A} (f : A -> M unit) (l : list A) : M unit :=
  match l with
  | [] => ret tt
  | x :: rest => exec f x then for_each f rest
  end.

(** State updates. *)
Definition set_storage (s : gmap Z Database) (st : State) : State :=
  {| storage := s; pg_database := pg_database st;
     catalog_rows := catalog_rows st; catalog_map_ := catalog_map_ st;
     events := events st |}.
Definition set_pg_database (rows : list DatabaseCatalogEntry) (st : State)
  : State :=
  {| storage := storage st; pg_database := rows;
     catalog_rows := catalog_rows st; catalog_map_ := catalog_map_ st;
     events := events st |}.
Definition set_catalog_rows (r : gmap Z CatalogRows) (st : State) : State :=
  {| storage := storage st; pg_database := pg_database st;
     catalog_rows := r; catalog_map_ := catalog_map_ st;
     events := events st |}.
Definition set_catalog_map_ (m : gmap Z SystemCatalogs) (st : State) : State :=
  {| storage := storage st; pg_database := pg_database st;
     catalog_rows := catalog_rows st; catalog_map_ := m;
     events := events st |}.
Definition log_event (ev : Event) (st : State) : State :=
  {| storage := storage st; pg_database := pg_database st;
     catalog_rows := catalog_rows st; catalog_map_ := catalog_map_ st;
     events := events st ++ [ev] |}.

Definition set_pg_table rows (c : CatalogRows) : CatalogRows :=
  {| pg_table := rows; pg_attribute := pg_attribute c; pg_index := pg_index c;
     pg_layout := pg_layout c; pg_trigger := pg_trigger c |}.
Definition set_pg_attribute rows (c : CatalogRows) : CatalogRows :=
  {| pg_table := pg_table c; pg_attribute := rows; pg_index := pg_index c;
     pg_layout := pg_layout c; pg_trigger := pg_trigger c |}.
Definition set_pg_index rows (c : CatalogRows) : CatalogRows :=
  {| pg_table := pg_table c; pg_attribute := pg_attribute c; pg_index := rows;
     pg_layout := pg_layout c; pg_trigger := pg_trigger c |}.
Definition set_pg_layout rows (c : CatalogRows) : CatalogRows :=
  {| pg_table := pg_table c; pg_attribute := pg_attribute c;
     pg_index := pg_index c; pg_layout := rows; pg_trigger := pg_trigger c |}.
Definition set_pg_trigger rows (c : CatalogRows) : CatalogRows :=
  {| pg_table := pg_table c; pg_attribute := pg_attribute c;
     pg_index := pg_index c; pg_layout := pg_layout c; pg_trigger := rows |}.

(** The rows of a database's catalog tables; a database without catalog
    tables has none. *)
Definition rows_of (database_oid : Z) (st : State) : CatalogRows :=
  default {| pg_table := []; pg_attribute := []; pg_index := [];
             pg_layout := []; pg_trigger := [] |}
    (catalog_rows st !! database_oid).

Definition update_rows (database_oid : Z) (f : CatalogRows -> CatalogRows)
    (st : State) : State :=
  set_catalog_rows (<[database_oid := f (rows_of database_oid st)]>
                      (catalog_rows st)) st.

Definition update_table (database_oid table_oid : Z)
    (f : DataTable -> DataTable) (st : State) : State :=
  set_storage
    (alter (fun db => {| db_tables := alter f table_oid (db_tables db) |})
       database_oid (storage st)) st.

(** *** Collaborators of [catalog.cpp]

    The storage manager and the catalog table classes are not among the
    sources; what the DDL code needs of them is modelled here. *)

(** Modelled from the spec: [StorageManager::GetDatabaseWithOid], which
    raises a not-found error when the database is absent. *)
Definition GetDatabaseWithOid (database_oid : Z) : M Database :=
  fun st =>
    match storage st !! database_oid with
    | Some database => (Return database, st)
    | None => (Throw "Database is not found", st)
    end.

(** Modelled from the spec: [Database::GetTableWithOid] and
    [StorageManager::GetTableWithOid], not-found error when absent. *)
Definition GetTableWithOid (database_oid table_oid : Z) : M DataTable :=
  let! database := GetDatabaseWithOid database_oid in
  match db_tables database !! table_oid with
  | Some table => ret table
  | None => throw "Table is not found"
  end.

(** Modelled from the spec: [DataTable::GetIndexWithOid], not-found error
    when the table has no such index. *)
Definition GetIndexWithOid (database_oid table_oid index_oid : Z) : M unit :=
  let! table := GetTableWithOid database_oid table_oid in
  if bool_decide (index_oid ∈ (Catalog.index_oid <$> table_indexes table))
  then ret tt
  else throw "No index with this oid".

(** [catalog_map_[database_oid]->...]: [operator[]] yields a null pointer
    for a database that is not registered. *)
Definition system_catalogs (database_oid : Z) : M SystemCatalogs :=
  fun st =>
    match catalog_map_ st !! database_oid with
    | Some catalogs => (Return catalogs, st)
    | None => (NullDereference, st)
    end.

(** Modelled from the spec: [DatabaseCatalog::GetDatabaseCatalogEntry] by
    oid; null when no row is visible. *)
Definition GetDatabaseCatalogEntry (database_oid : Z)
  : M (option DatabaseCatalogEntry) :=
  fun st =>
    (Return (find (fun row => dbrow_oid row =? database_oid) (pg_database st)),
     st).

(** Modelled from the spec: [DatabaseCatalog::DeleteDatabase], true when a
    row was removed. *)
Definition DatabaseCatalog_DeleteDatabase (database_oid : Z) : M bool :=
  fun st =>
    let found :=
      existsb (fun row => dbrow_oid row =? database_oid) (pg_database st) in
    (Return found,
     log_event (DeleteDatabase database_oid)
       (set_pg_database
          (List.filter (fun row => negb (dbrow_oid row =? database_oid))
             (pg_database st)) st)).

(** Modelled from the spec: [DatabaseCatalogEntry::GetTableCatalogEntries]
    and [GetTableCatalogEntry]: the rows of the database's table catalog. *)
Definition GetTableCatalogEntries (database_oid : Z)
  : M (list TableCatalogEntry) :=
  fun st => (Return (pg_table (rows_of database_oid st)), st).

Definition GetTableCatalogEntry (database_oid table_oid : Z)
  : M (option TableCatalogEntry) :=
  fun st =>
    (Return (find (fun row => tblrow_oid row =? table_oid)
               (pg_table (rows_of database_oid st))), st).

(** Modelled from the spec: [TableCatalogEntry::GetIndexCatalogEntries]:
    the index-catalog rows of the table. *)
Definition GetIndexCatalogEntries (database_oid table_oid : Z)
  : M (list IndexCatalogEntry) :=
  fun st =>
    (Return (List.filter (fun row => idxrow_table_oid row =? table_oid)
               (pg_index (rows_of database_oid st))), st).

(** Modelled from the spec: [TriggerCatalog::GetTriggers] and
    [TriggerCatalog::DropTrigger]. *)
Definition GetTriggers (database_oid table_oid : Z)
  : M (list TriggerCatalogEntry) :=
  fun st =>
    (Return (List.filter (fun row => trgrow_table_oid row =? table_oid)
               (pg_trigger (rows_of database_oid st))), st).

Definition TriggerCatalog_DropTrigger (database_oid table_oid : Z)
    (trigger_name : string) : M unit :=
  modify (fun st =>
    log_event (DropTrigger table_oid trigger_name)
      (update_rows database_oid
         (fun c => set_pg_trigger
            (List.filter
               (fun row => negb ((trgrow_table_oid row =? table_oid)
                                 && String.eqb (trgrow_name row) trigger_name))
               (pg_trigger c)) c) st)).

(** Modelled from the spec: [IndexCatalog::GetIndexCatalogEntry],
    [IndexCatalog::DeleteIndex], [IndexCatalog::InsertIndex] and
    [IndexCatalog::GetNextOid].  [pg_index] has its primary key on the
    index oid and a unique index on the index name
    ([BootstrapSystemCatalogs]): a name is unique within the database.
    [InsertIndex] writes no row and gives false when a row of the database
    has the oid or the name. *)
Definition GetIndexCatalogEntry (database_oid index_oid : Z)
  : M (option IndexCatalogEntry) :=
  fun st =>
    (Return (find (fun row => idxrow_oid row =? index_oid)
               (pg_index (rows_of database_oid st))), st).

Definition IndexCatalog_DeleteIndex (database_oid index_oid : Z) : M unit :=
  modify (fun st =>
    log_event (DeleteIndex index_oid)
      (update_rows database_oid
         (fun c => set_pg_index
            (List.filter (fun row => negb (idxrow_oid row =? index_oid))
               (pg_index c)) c) st)).

Definition index_row_taken (row other : IndexCatalogEntry) : bool :=
  (idxrow_oid other =? idxrow_oid row)
  || String.eqb (idxrow_name other) (idxrow_name row).

Definition IndexCatalog_InsertIndex (database_oid : Z)
    (row : IndexCatalogEntry) : M bool :=
  fun st =>
    if existsb (index_row_taken row) (pg_index (rows_of database_oid st))
    then (Return false, st)
    else
      (Return true,
       log_event (InsertIndex (idxrow_oid row))
         (update_rows database_oid
            (fun c => set_pg_index (pg_index c ++ [row]) c) st)).

Definition IndexCatalog_GetNextOid (database_oid : Z) : M Z :=
  let! catalogs := system_catalogs database_oid in
  exec modify (fun st =>
    set_catalog_map_
      (<[database_oid :=
           {| index_catalog_oid := index_catalog_oid catalogs + 1;
              table_catalog_oid := table_catalog_oid catalogs |}]>
         (catalog_map_ st)) st)
  then ret (index_catalog_oid catalogs).

(** Modelled from the spec: [ColumnCatalog::DeleteColumns],
    [LayoutCatalog::DeleteLayouts] and [TableCatalog::DeleteTable]: remove
    the rows of the table. *)
Definition ColumnCatalog_DeleteColumns (database_oid table_oid : Z) : M unit :=
  modify (fun st =>
    log_event (DeleteColumns table_oid)
      (update_rows database_oid
         (fun c => set_pg_attribute
            (List.filter (fun row => negb (colrow_table_oid row =? table_oid))
               (pg_attribute c)) c) st)).

Definition LayoutCatalog_DeleteLayouts (database_oid table_oid : Z) : M unit :=
  modify (fun st =>
    log_event (DeleteLayouts table_oid)
      (update_rows database_oid
         (fun c => set_pg_layout
            (List.filter (fun row => negb (layrow_table_oid row =? table_oid))
               (pg_layout c)) c) st)).

Definition TableCatalog_DeleteTable (database_oid table_oid : Z) : M unit :=
  modify (fun st =>
    log_event (DeleteTable table_oid)
      (update_rows database_oid
         (fun c => set_pg_table
            (List.filter (fun row => negb (tblrow_oid row =? table_oid))
               (pg_table c)) c) st)).

(** Modelled from the spec: [LayoutCatalog::GetLayoutWithOid],
    [LayoutCatalog::InsertLayout] (false when the row is already there) and
    [LayoutCatalog::DeleteLayout] (true when a row was removed).  A taken
    key is the only refusal of [InsertLayout] here, so a refusal never
    follows a look-up that found no row: the null result of [CreateLayout]
    and the [FAILURE] of [DropLayout] after [ResetDefaultLayout] are not
    reached, and no statement below is about them. *)
Definition is_layout (table_oid layout_oid : Z) (row : LayoutCatalogEntry)
  : bool :=
  (layrow_table_oid row =? table_oid) && (layrow_oid row =? layout_oid).

Definition GetLayoutWithOid (database_oid table_oid layout_oid : Z)
  : M (option LayoutCatalogEntry) :=
  fun st =>
    (Return (find (is_layout table_oid layout_oid)
               (pg_layout (rows_of database_oid st))), st).

Definition LayoutCatalog_InsertLayout (database_oid table_oid layout_oid : Z)
  : M bool :=
  fun st =>
    if existsb (is_layout table_oid layout_oid)
         (pg_layout (rows_of database_oid st))
    then (Return false, st)
    else
      (Return true,
       log_event (InsertLayout table_oid layout_oid)
         (update_rows database_oid
            (fun c => set_pg_layout
               (pg_layout c ++ [ {| layrow_table_oid := table_oid;
                                    layrow_oid := layout_oid |} ]) c) st)).

Definition LayoutCatalog_DeleteLayout (database_oid table_oid layout_oid : Z)
  : M bool :=
  fun st =>
    let found :=
      existsb (is_layout table_oid layout_oid)
        (pg_layout (rows_of database_oid st)) in
    (Return found,
     log_event (DeleteLayout table_oid layout_oid)
       (update_rows database_oid
          (fun c => set_pg_layout
             (List.filter (fun row => negb (is_layout table_oid layout_oid row))
                (pg_layout c)) c) st)).

(** Modelled from the spec: [TableCatalog::UpdateDefaultLayoutOid], which
    rewrites the default-layout column of the table's row; true when the
    row exists. *)
Definition set_default_layout_oid (layout_oid : Z) (row : TableCatalogEntry)
  : TableCatalogEntry :=
  {| tblrow_oid := tblrow_oid row; tblrow_name := tblrow_name row;
     tblrow_schema_name := tblrow_schema_name row;
     tblrow_default_layout_oid := layout_oid |}.

Definition TableCatalog_UpdateDefaultLayoutOid
    (database_oid table_oid layout_oid : Z) : M bool :=
  fun st =>
    let found :=
      existsb (fun row => tblrow_oid row =? table_oid)
        (pg_table (rows_of database_oid st)) in
    (Return found,
     log_event (UpdateDefaultLayoutOid table_oid layout_oid)
       (update_rows database_oid
          (fun c => set_pg_table
             ((fun row => if tblrow_oid row =? table_oid
                          then set_default_layout_oid layout_oid row
                          else row) <$> pg_table c) c) st)).

(** A transaction pointer is [None] when null.  [txn->RecordCreate] and
    [txn->RecordDrop] put the object into the transaction's read-write
    object set. *)
Definition TransactionContext : Type := Z.

Definition txn_RecordCreate (txn : option TransactionContext)
    (database_oid table_oid index_oid : Z) : M unit :=
  match txn with
  | None => null_dereference
  | Some _ => modify (log_event (RecordCreate database_oid table_oid index_oid))
  end.
Definition txn_RecordDrop (txn : option TransactionContext)
    (database_oid table_oid index_oid : Z) : M unit :=
  match txn with
  | None => null_dereference
  | Some _ => modify (log_event (RecordDrop database_oid table_oid index_oid))
  end.

(** Modelled from the spec: the row-store layout has the reserved id 0. *)
Definition ROW_STORE_LAYOUT_OID : Z := 0.

(** Modelled from the spec: [DataTable::ResetDefaultLayout] sets the
    table's default layout back to the row-store layout;
    [DataTable::SetDefaultLayout] installs a layout;
    [DataTable::GetNextLayoutOid] hands out the table's next layout id;
    [DataTable::AddIndex] attaches an index. *)
Definition with_default_layout (layout_oid : Z) (t : DataTable) : DataTable :=
  {| table_name := table_name t; table_schema := table_schema t;
     default_layout := layout_oid; next_layout_oid := next_layout_oid t;
     table_indexes := table_indexes t |}.

Definition ResetDefaultLayout (database_oid table_oid : Z) : M unit :=
  modify (update_table database_oid table_oid
            (with_default_layout ROW_STORE_LAYOUT_OID)).

Definition SetDefaultLayout (database_oid table_oid layout_oid : Z) : M unit :=
  modify (update_table database_oid table_oid (with_default_layout layout_oid)).

Definition GetNextLayoutOid (database_oid table_oid : Z) : M Z :=
  let! table := GetTableWithOid database_oid table_oid in
  exec modify (update_table database_oid table_oid
     (fun t => {| table_name := table_name t; table_schema := table_schema t;
                  default_layout := default_layout t;
                  next_layout_oid := next_layout_oid t + 1;
                  table_indexes := table_indexes t |}))
  then ret (next_layout_oid table).

Definition AddIndex (database_oid table_oid : Z) (index : IndexMetadata)
  : M unit :=
  modify (update_table database_oid table_oid
     (fun t => {| table_name := table_name t; table_schema := table_schema t;
                  default_layout := default_layout t;
                  next_layout_oid := next_layout_oid t;
                  table_indexes := table_indexes t ++ [index] |})).

(** Modelled from the spec: [Schema::CopySchema(schema, key_attrs)]
    projects the schema onto the given column ordinals, in their order. *)
Definition CopySchema (schema : list Column) (key_attrs : list Z)
  : list Column :=
  omap (fun column_idx => schema !! Z.to_nat column_idx) key_attrs.

(** *** The DDL functions of [catalog.cpp] *)

Section DDL.

(** [INVALID_OID] of [common/internal_types.h]. *)
Variable INVALID_OID : Z.

(** The scan for primary-key columns in [CreatePrimaryIndex]: the pair is
    [(key_attrs, column_idx)]. *)
Definition find_primary_attrs (schema_columns : list Column) : list Z :=
  (fold_left
     (fun '(key_attrs, column_idx) column =>
        (if column_is_primary column then key_attrs ++ [column_idx]
         else key_attrs,
         column_idx + 1))
     schema_columns ([], 0)).1.

(** [Catalog::CreatePrimaryIndex]. *)
Definition CreatePrimaryIndex (txn : option TransactionContext)
    (database_oid : Z) (schema_name : string) (table_oid : Z) : M ResultType :=
  let! table := GetTableWithOid database_oid table_oid in
  let schema := table_schema table in
  (* Find primary index attributes *)
  let key_attrs := find_primary_attrs schema in
  if bool_decide (key_attrs = []) then ret FAILURE
  else
    let key_schema := CopySchema schema key_attrs in
    let index_name := table_name table +:+ "_pkey" in
    let unique_keys := true in
    let! index_oid := IndexCatalog_GetNextOid database_oid in
    let index_metadata :=
      {| index_name := index_name; index_oid := index_oid;
         index_table_oid := table_oid; index_database_oid := database_oid;
         index_type := BWTREE; index_constraint := PRIMARY_KEY;
         key_schema := key_schema; key_attrs := key_attrs;
         unique_keys := unique_keys |} in
    exec AddIndex database_oid table_oid index_metadata then
    (* put index object into rw_object_set *)
    exec txn_RecordCreate txn database_oid table_oid index_oid then
    (* insert index record into index_catalog(pg_index) table *)
    exec IndexCatalog_InsertIndex database_oid
      {| idxrow_schema_name := schema_name; idxrow_table_oid := table_oid;
         idxrow_oid := index_oid; idxrow_name := index_name;
         idxrow_type := BWTREE; idxrow_constraint := PRIMARY_KEY;
         idxrow_unique_keys := unique_keys; idxrow_key_attrs := key_attrs |}
    then ret SUCCESS.

(** [Catalog::CreateLayout]; a layout is reduced to its oid, and [None] is
    the null pointer. *)
Definition CreateLayout (txn : option TransactionContext)
    (database_oid table_oid : Z) : M (option Z) :=
  let! layout_oid := GetNextLayoutOid database_oid table_oid in
  (* Ensure that the new layout *)
  exec PELOTON_ASSERT (layout_oid <? INVALID_OID) then
  (* Add the layout the pg_layout table *)
  exec system_catalogs database_oid then
  let! existing := GetLayoutWithOid database_oid table_oid layout_oid in
  match existing with
  | Some _ => ret (Some layout_oid)
  | None =>
      let! inserted := LayoutCatalog_InsertLayout database_oid table_oid layout_oid in
      if negb inserted then ret None else ret (Some layout_oid)
  end.

(** [Catalog::CreateDefaultLayout]. *)
Definition CreateDefaultLayout (txn : option TransactionContext)
    (database_oid table_oid : Z) : M (option Z) :=
  let! new_layout := CreateLayout txn database_oid table_oid in
  match new_layout with
  | Some layout_oid =>
      (* If the layout creation was successful, set it as the default *)
      exec GetTableWithOid database_oid table_oid then
      exec SetDefaultLayout database_oid table_oid layout_oid then
      (* update table catalog *)
      exec system_catalogs database_oid then
      exec TableCatalog_UpdateDefaultLayoutOid database_oid table_oid layout_oid
      then ret new_layout
  | None => ret new_layout
  end.

(** [Catalog::DropIndex]. *)
Definition DropIndex (txn : option TransactionContext)
    (database_oid index_oid : Z) : M ResultType :=
  match txn with
  | None => throw "Do not have transaction to drop index"
  | Some _ =>
      exec system_catalogs database_oid then
      let! index_object := GetIndexCatalogEntry database_oid index_oid in
      match index_object with
      | None => throw "Can't find index to drop"
      | Some index_object =>
          exec GetTableWithOid database_oid (idxrow_table_oid index_object) then
          (* drop record in pg_index *)
          exec IndexCatalog_DeleteIndex database_oid index_oid then
          (* register index object in rw_object_set *)
          exec GetIndexWithOid database_oid (idxrow_table_oid index_object)
                 index_oid then
          exec txn_RecordDrop txn database_oid (idxrow_table_oid index_object)
                 index_oid
          then ret SUCCESS
      end
  end.

(** [Catalog::DropTable(txn, database_oid, table_oid)]. *)
Definition DropTable (txn : option TransactionContext)
    (database_oid table_oid : Z) : M ResultType :=
  exec GetDatabaseWithOid database_oid then
  let! database_object := GetDatabaseCatalogEntry database_oid in
  match database_object with
  | None => null_dereference
  | Some database_object =>
      let! table_object := GetTableCatalogEntry database_oid table_oid in
      match table_object with
      | None => null_dereference
      | Some table_object =>
          let! index_objects := GetIndexCatalogEntries database_oid table_oid in
          (* delete trigger and records in pg_trigger *)
          exec system_catalogs (dbrow_oid database_object) then
          let! trigger_lists := GetTriggers (dbrow_oid database_object) table_oid in
          exec for_each
                 (fun trigger =>
                    TriggerCatalog_DropTrigger (dbrow_oid database_object)
                      table_oid (trgrow_name trigger))
                 trigger_lists then
          (* delete index and records pg_index *)
          exec for_each
                 (fun it =>
                    exec DropIndex txn database_oid (idxrow_oid it) then ret tt)
                 index_objects then
          (* delete record in pg_attribute *)
          exec system_catalogs (dbrow_oid database_object) then
          exec ColumnCatalog_DeleteColumns (dbrow_oid database_object) table_oid then
          (* delete record in pg_layout *)
          exec system_catalogs (dbrow_oid database_object) then
          exec LayoutCatalog_DeleteLayouts (dbrow_oid database_object) table_oid then
          (* delete record in pg_table *)
          exec system_catalogs (dbrow_oid database_object) then
          exec TableCatalog_DeleteTable (dbrow_oid database_object) table_oid then
          exec GetTableWithOid database_oid table_oid then
          exec txn_RecordDrop txn database_oid table_oid INVALID_OID
          then ret SUCCESS
      end
  end.

(** [Catalog::DropDatabaseWithOid]. *)
Definition DropDatabaseWithOid (txn : option TransactionContext)
    (database_oid : Z) : M ResultType :=
  match txn with
  | None => throw "Do not have transaction to drop database"
  | Some _ =>
      (* Drop actual tables in the database *)
      let! database_object := GetDatabaseCatalogEntry database_oid in
      match database_object with
      | None => null_dereference
      | Some database_object =>
          let! table_objects := GetTableCatalogEntries database_oid in
          exec for_each
                 (fun it =>
                    exec DropTable txn database_oid (tblrow_oid it) then ret tt)
                 table_objects then
          (* Drop database record in catalog *)
          let! deleted := DatabaseCatalog_DeleteDatabase database_oid in
          if negb deleted then
            throw "Database record does not exist in pg_database"
          else
            exec modify (fun st =>
                   set_catalog_map_ (delete database_oid (catalog_map_ st)) st) then
            (* put database object into rw_object_set *)
            exec GetDatabaseWithOid database_oid then
            exec txn_RecordDrop txn database_oid INVALID_OID INVALID_OID
            then ret SUCCESS
      end
  end.

(** [Catalog::DropLayout]. *)
Definition DropLayout (txn : option TransactionContext)
    (database_oid table_oid layout_oid : Z) : M ResultType :=
  (* Check if the default_layout of the table is the same.
     If true reset it to a row store. *)
  let! table := GetTableWithOid database_oid table_oid in
  let default_layout := default_layout table in
  exec system_catalogs database_oid then
  let! deleted := LayoutCatalog_DeleteLayout database_oid table_oid layout_oid in
  if negb deleted then ret FAILURE
  else if default_layout =? layout_oid then
    exec ResetDefaultLayout database_oid table_oid then
    let! table1 := GetTableWithOid database_oid table_oid in
    let new_default_layout := Catalog.default_layout table1 in
    let! existing :=
      GetLayoutWithOid database_oid table_oid new_default_layout in
    let! created :=
      match existing with
      | Some _ => ret true
      | None =>
          LayoutCatalog_InsertLayout database_oid table_oid new_default_layout
      end in
    if negb created then ret FAILURE
    else
      (* update table catalog *)
      exec system_catalogs database_oid then
      exec TableCatalog_UpdateDefaultLayoutOid database_oid table_oid
             new_default_layout
      then ret SUCCESS
  else ret SUCCESS.

(** [Catalog::GetSystemCatalogs]. *)
Definition GetSystemCatalogs (database_oid : Z) : M SystemCatalogs :=
  fun st =>
    match catalog_map_ st !! database_oid with
    | None => (Throw "Failed to find SystemCatalog for database_oid", st)
    | Some catalogs => (Return catalogs, st)
    end.

End DDL.

(** *** The primary-key scan *)

(** The ordinals of the primary-key columns, counted from [column_idx]. *)
Fixpoint primary_from (column_idx : Z) (columns : list Column) : list Z :=
  match columns with
  | [] => []
  | column :: rest =>
      if column_is_primary column
      then column_idx :: primary_from (column_idx + 1) rest
      else primary_from (column_idx + 1) rest
  end.

Lemma scan_primary_from columns : forall key_attrs column_idx,
  (fold_left
     (fun '(key_attrs, column_idx) column =>
        (if column_is_primary column then key_attrs ++ [column_idx]
         else key_attrs,
         column_idx + 1))
     columns (key_attrs, column_idx)).1
  = key_attrs ++ primary_from column_idx columns.
Proof.
  induction columns as [| column rest IH]; intros key_attrs column_idx; simpl.
  - by rewrite app_nil_r.
  - rewrite IH. destruct (column_is_primary column); [| done].
    by rewrite <- app_assoc.
Qed.

Lemma find_primary_attrs_from columns :
  find_primary_attrs columns = primary_from 0 columns.
Proof. unfold find_primary_attrs. by rewrite scan_primary_from. Qed.

Lemma primary_from_elem columns : forall k i,
  i ∈ primary_from k columns <->
  k <= i /\ exists column,
    columns !! Z.to_nat (i - k) = Some column
    /\ column_is_primary column = true.
Proof.
  induction columns as [| column rest IH]; intros k i; simpl.
  - split; [by intros H%elem_of_nil | by intros (_ & c & H & _)].
  - assert (Hrest : i ∈ primary_from (k + 1) rest <->
              k < i /\ exists c, (column :: rest) !! Z.to_nat (i - k) = Some c
                                 /\ column_is_primary c = true).
    { rewrite IH. split.
      - intros (Hle & c & Hc & Hp). split; [lia |]. exists c. split; [| done].
        replace (Z.to_nat (i - k)) with (S (Z.to_nat (i - (k + 1)))) by lia.
        done.
      - intros (Hlt & c & Hc & Hp). split; [lia |]. exists c. split; [| done].
        replace (Z.to_nat (i - k)) with (S (Z.to_nat (i - (k + 1)))) in Hc
          by lia.
        done. }
    destruct (column_is_primary column) eqn:Hp.
    + rewrite elem_of_cons, Hrest. split.
      * intros [-> | (Hlt & c & Hc & Hpc)].
        -- split; [lia |]. exists column. by rewrite Z.sub_diag.
        -- split; [lia |]. by exists c.
      * intros (Hle & c & Hc & Hpc).
        destruct (Z.eq_dec i k) as [-> | Hne]; [by left |].
        right. split; [lia |]. by exists c.
    + rewrite Hrest. split.
      * intros (Hlt & c & Hc & Hpc). split; [lia |]. by exists c.
      * intros (Hle & c & Hc & Hpc). split; [| by exists c].
        destruct (Z.eq_dec i k) as [-> | Hne]; [| lia].
        rewrite Z.sub_diag in Hc. simpl in Hc. congruence.
Qed.

Lemma primary_from_lower columns : forall k i,
  i ∈ primary_from k columns -> k <= i.
Proof. intros k i H. by apply primary_from_elem in H as [H _]. Qed.

Lemma primary_from_sorted columns : forall k,
  StronglySorted Z.lt (primary_from k columns).
Proof.
  induction columns as [| column rest IH]; intros k; simpl; [constructor |].
  destruct (column_is_primary column); [| apply IH].
  constructor; [apply IH |].
  apply Forall_forall. intros i Hi. apply primary_from_lower in Hi. lia.
Qed.

Lemma primary_from_nil columns : forall k,
  primary_from k columns = [] <->
  forall column, column ∈ columns -> column_is_primary column = false.
Proof.
  induction columns as [| column rest IH]; intros k; simpl.
  - split; [intros _ c H; by apply elem_of_nil in H | done].
  - destruct (column_is_primary column) eqn:Hp.
    + split; [done |]. intros H.
      specialize (H column ltac:(by apply elem_of_cons; left)). congruence.
    + rewrite IH. split.
      * intros H c [-> | Hc]%elem_of_cons; [done | by apply H].
      * intros H c Hc. apply H, elem_of_cons. by right.
Qed.

(** Projecting a schema onto its primary-key ordinals keeps exactly the
    primary-key columns, in column order. *)
Lemma CopySchema_primary_from prefix columns :
  CopySchema (prefix ++ columns)
    (primary_from (Z.of_nat (length prefix)) columns)
  = List.filter column_is_primary columns.
Proof.
  revert prefix. induction columns as [| column rest IH]; intros prefix;
    [done |].
  pose proof (IH (prefix ++ [column])) as IH'.
  rewrite <- app_assoc, length_app in IH'. cbn [app length] in IH'.
  replace (Z.of_nat (length prefix + 1)) with (Z.of_nat (length prefix) + 1)
    in IH' by lia.
  cbn [primary_from List.filter].
  destruct (column_is_primary column); [| exact IH'].
  unfold CopySchema in *. cbn [omap list_omap].
  rewrite Nat2Z.id, lookup_app_r, Nat.sub_diag by lia.
  cbn [lookup list_lookup]. by rewrite IH'.
Qed.

Lemma CopySchema_find_primary_attrs schema :
  CopySchema schema (find_primary_attrs schema)
  = List.filter column_is_primary schema.
Proof.
  rewrite find_primary_attrs_from. apply (CopySchema_primary_from [] schema).
Qed.

(** *** Running the collaborators *)

Lemma GetTableWithOid_found st database_oid table_oid database table :
  storage st !! database_oid = Some database ->
  db_tables database !! table_oid = Some table ->
  GetTableWithOid database_oid table_oid st = (Return table, st).
Proof.
  intros Hdb Ht. unfold GetTableWithOid, bind, GetDatabaseWithOid.
  by rewrite Hdb, Ht.
Qed.

Lemma rows_of_update_rows database_oid f st :
  rows_of database_oid (update_rows database_oid f st)
  = f (rows_of database_oid st).
Proof. unfold rows_of at 1. simpl. by rewrite lookup_insert_eq. Qed.

(** X29. [CreatePrimaryIndex] collects, in column order, the ordinals of
    the columns marked primary.  When no column is marked it returns
    [FAILURE] and leaves the whole state, index catalog included, as it
    was.  Otherwise it returns [SUCCESS] and has attached to the table an
    index whose key schema is the table's schema projected onto exactly
    these ordinals, in column order; the index catalog has one more row,
    the primary-key row of that index, unless a row of the database
    already has the oid or the name table_pkey: [InsertIndex] then refuses
    the row, its result is not looked at, and the index catalog stays as
    it was. *)
Theorem CreatePrimaryIndex_rows_and_storage (txn : TransactionContext)
    (database_oid : Z) (schema_name : string) (table_oid : Z)
    (st : State) (database : Database) (table : DataTable)
    (catalogs : SystemCatalogs) :
  storage st !! database_oid = Some database ->
  db_tables database !! table_oid = Some table ->
  catalog_map_ st !! database_oid = Some catalogs ->
  let schema := table_schema table in
  let key_attrs := find_primary_attrs schema in
  let row :=
    {| idxrow_schema_name := schema_name;
       idxrow_table_oid := table_oid;
       idxrow_oid := index_catalog_oid catalogs;
       idxrow_name := table_name table +:+ "_pkey";
       idxrow_type := BWTREE;
       idxrow_constraint := PRIMARY_KEY;
       idxrow_unique_keys := true;
       idxrow_key_attrs := key_attrs |} in
  (* the scan *)
  (forall i, i ∈ key_attrs <->
     0 <= i /\ exists column, schema !! Z.to_nat i = Some column
                              /\ column_is_primary column = true) /\
  StronglySorted Z.lt key_attrs /\
  CopySchema schema key_attrs = List.filter column_is_primary schema /\
  (* no column is marked primary *)
  ((forall column, column ∈ schema -> column_is_primary column = false) ->
   CreatePrimaryIndex (Some txn) database_oid schema_name table_oid st
   = (Return FAILURE, st)) /\
  (* some column is marked primary *)
  ((exists column, column ∈ schema /\ column_is_primary column = true) ->
   exists st',
     CreatePrimaryIndex (Some txn) database_oid schema_name table_oid st
     = (Return SUCCESS, st') /\
     pg_index (rows_of database_oid st')
     = (if existsb (index_row_taken row) (pg_index (rows_of database_oid st))
        then pg_index (rows_of database_oid st)
        else pg_index (rows_of database_oid st) ++ [row]) /\
     (storage st' !! database_oid ≫= fun db => db_tables db !! table_oid)
     = Some {| table_name := table_name table;
               table_schema := schema;
               default_layout := default_layout table;
               next_layout_oid := next_layout_oid table;
               table_indexes :=
                 table_indexes table
                 ++ [ {| index_name := table_name table +:+ "_pkey";
                         index_oid := index_catalog_oid catalogs;
                         index_table_oid := table_oid;
                         index_database_oid := database_oid;
                         index_type := BWTREE;
                         index_constraint := PRIMARY_KEY;
                         key_schema := List.filter column_is_primary schema;
                         key_attrs := key_attrs;
                         unique_keys := true |} ] |}).
Proof.
  intros Hdb Htable Hcatalogs schema key_attrs row.
  assert (Hnil : key_attrs = [] <->
            forall column, column ∈ schema -> column_is_primary column = false).
  { subst key_attrs. rewrite find_primary_attrs_from. apply primary_from_nil. }
  split; [| split; [| split; [| split]]].
  - intros i. subst key_attrs. rewrite find_primary_attrs_from.
    rewrite primary_from_elem. by rewrite Z.sub_0_r.
  - subst key_attrs. rewrite find_primary_attrs_from. apply primary_from_sorted.
  - apply CopySchema_find_primary_attrs.
  - intros Hnone. apply Hnil in Hnone.
    unfold CreatePrimaryIndex, bind.
    rewrite (GetTableWithOid_found _ _ _ _ _ Hdb Htable).
    fold schema. fold key_attrs. by rewrite bool_decide_eq_true_2.
  - intros (column & Hin & Hprimary).
    assert (Hsome : key_attrs <> []).
    { intros E. pose proof (proj1 Hnil E column Hin). congruence. }
    unfold CreatePrimaryIndex, bind.
    rewrite (GetTableWithOid_found _ _ _ _ _ Hdb Htable).
    fold schema. fold key_attrs. rewrite bool_decide_eq_false_2 by done.
    unfold IndexCatalog_GetNextOid, bind, system_catalogs. rewrite Hcatalogs.
    simpl. unfold IndexCatalog_InsertIndex, rows_of. simpl. fold row.
    destruct (existsb (index_row_taken row) _) eqn:Htaken.
    + eexists. split; [reflexivity |]. split; [reflexivity |].
      simpl. rewrite lookup_alter_eq, Hdb. simpl.
      rewrite lookup_alter_eq, Htable. simpl.
      subst key_attrs. by rewrite CopySchema_find_primary_attrs.
    + eexists. split; [reflexivity |]. split.
      * simpl. rewrite lookup_insert_eq. simpl. reflexivity.
      * simpl. rewrite lookup_alter_eq, Hdb. simpl.
        rewrite lookup_alter_eq, Htable. simpl.
        subst key_attrs. by rewrite CopySchema_find_primary_attrs.
Qed.

(** *** Dropping the default layout *)

Lemma find_is_layout_elem rows table_oid layout_oid row :
  find (is_layout table_oid layout_oid) rows = Some row ->
  row ∈ rows /\ layrow_table_oid row = table_oid /\ layrow_oid row = layout_oid.
Proof.
  intros H. apply find_some in H as [Hin His].
  apply andb_true_iff in His as [H1 H2].
  apply Z.eqb_eq in H1, H2. split; [by apply list_elem_of_In | done].
Qed.

Lemma updated_rows_default table_oid layout_oid
    (rows : list TableCatalogEntry) row :
  row ∈ ((fun row => if tblrow_oid row =? table_oid
                     then set_default_layout_oid layout_oid row
                     else row) <$> rows) ->
  tblrow_oid row = table_oid ->
  tblrow_default_layout_oid row = layout_oid.
Proof.
  intros (row0 & -> & Hin)%list_elem_of_fmap Hoid.
  destruct (tblrow_oid row0 =? table_oid) eqn:E; [done |].
  apply Z.eqb_neq in E. contradiction.
Qed.

Lemma updated_rows_kept table_oid layout_oid
    (rows : list TableCatalogEntry) row :
  row ∈ rows -> tblrow_oid row = table_oid ->
  exists row',
    row' ∈ ((fun row => if tblrow_oid row =? table_oid
                        then set_default_layout_oid layout_oid row
                        else row) <$> rows)
    /\ tblrow_oid row' = table_oid.
Proof.
  intros Hin Hoid. exists (set_default_layout_oid layout_oid row). split; [| done].
  apply list_elem_of_fmap. exists row. split; [| done].
  apply Z.eqb_eq in Hoid. by rewrite Hoid.
Qed.

(** C5. When [DropLayout] returns [SUCCESS] for the layout that was the
    table's default, the table's default layout is afterwards the
    row-store layout (id 0), the layout catalog has the row of that
    layout for the table, and the default-layout column of the table's
    rows in the table catalog holds its id. *)
Theorem DropLayout_resets_default (txn : option TransactionContext)
    (database_oid table_oid layout_oid : Z) (st st' : State)
    (database : Database) (table : DataTable) :
  storage st !! database_oid = Some database ->
  db_tables database !! table_oid = Some table ->
  default_layout table = layout_oid ->
  DropLayout txn database_oid table_oid layout_oid st = (Return SUCCESS, st') ->
  (storage st' !! database_oid ≫= fun db => db_tables db !! table_oid)
  = Some (with_default_layout ROW_STORE_LAYOUT_OID table) /\
  (exists row, row ∈ pg_layout (rows_of database_oid st')
               /\ layrow_table_oid row = table_oid
               /\ layrow_oid row = ROW_STORE_LAYOUT_OID) /\
  (forall row, row ∈ pg_table (rows_of database_oid st') ->
     tblrow_oid row = table_oid ->
     tblrow_default_layout_oid row = ROW_STORE_LAYOUT_OID) /\
  (forall row, row ∈ pg_table (rows_of database_oid st) ->
     tblrow_oid row = table_oid ->
     exists row', row' ∈ pg_table (rows_of database_oid st')
                  /\ tblrow_oid row' = table_oid).
Proof.
  intros Hdb Htable Hdefault Hrun.
  unfold DropLayout, bind in Hrun.
  rewrite (GetTableWithOid_found _ _ _ _ _ Hdb Htable) in Hrun.
  unfold system_catalogs at 1 in Hrun.
  destruct (catalog_map_ st !! database_oid) as [catalogs |] eqn:Hmap;
    [| discriminate Hrun].
  unfold LayoutCatalog_DeleteLayout in Hrun.
  destruct (existsb _ _) eqn:Hfound; simpl in Hrun; [| discriminate Hrun].
  apply Z.eqb_eq in Hdefault. rewrite Hdefault in Hrun.
  unfold ResetDefaultLayout, modify in Hrun.
  set (st1 := log_event _ (update_rows _ _ st)) in Hrun.
  set (st2 := update_table database_oid table_oid
                (with_default_layout ROW_STORE_LAYOUT_OID) st1) in Hrun.
  assert (Htable2 : GetTableWithOid database_oid table_oid st2
            = (Return (with_default_layout ROW_STORE_LAYOUT_OID table), st2)).
  { apply GetTableWithOid_found
      with (database := {| db_tables :=
              alter (with_default_layout ROW_STORE_LAYOUT_OID) table_oid
                (db_tables database) |}).
    - subst st2 st1. simpl. by rewrite lookup_alter_eq, Hdb.
    - simpl. by rewrite lookup_alter_eq, Htable. }
  rewrite Htable2 in Hrun. simpl in Hrun.
  assert (Hstorage2 :
            (storage st2 !! database_oid ≫= fun db => db_tables db !! table_oid)
            = Some (with_default_layout ROW_STORE_LAYOUT_OID table)).
  { subst st2 st1. simpl. rewrite lookup_alter_eq, Hdb. simpl.
    by rewrite lookup_alter_eq, Htable. }
  assert (Hmap2 : catalog_map_ st2 !! database_oid = Some catalogs) by done.
  assert (Hpg_table2 : pg_table (rows_of database_oid st2)
                       = pg_table (rows_of database_oid st)).
  { subst st2 st1. unfold rows_of at 1. simpl. by rewrite lookup_insert_eq. }
  unfold GetLayoutWithOid in Hrun.
  destruct (find _ (pg_layout (rows_of database_oid st2))) as [row |] eqn:Hfind;
    simpl in Hrun.
  - (* the row-store layout is still catalogued *)
    unfold system_catalogs in Hrun. rewrite Hmap2 in Hrun.
    unfold TableCatalog_UpdateDefaultLayoutOid in Hrun. simpl in Hrun.
    injection Hrun as <-.
    split; [exact Hstorage2 |]. split; [| split].
    + exists row. unfold rows_of at 1. simpl. rewrite lookup_insert_eq. simpl.
      by apply find_is_layout_elem.
    + intros row0 Hin Hoid. unfold rows_of at 1 in Hin. simpl in Hin.
      rewrite lookup_insert_eq in Hin. simpl in Hin.
      exact (updated_rows_default _ _ _ _ Hin Hoid).
    + intros row0 Hin Hoid. unfold rows_of at 1. simpl.
      rewrite lookup_insert_eq. simpl. rewrite Hpg_table2.
      by apply updated_rows_kept with (row := row0).
  - (* the row-store row is inserted again *)
    unfold LayoutCatalog_InsertLayout in Hrun.
    destruct (existsb _ (pg_layout (rows_of database_oid st2))) eqn:Hex;
      simpl in Hrun; [discriminate Hrun |].
    unfold system_catalogs in Hrun. simpl in Hrun.
    change (catalog_map_ st !! database_oid)
      with (catalog_map_ st2 !! database_oid) in Hrun.
    rewrite Hmap2 in Hrun.
    unfold TableCatalog_UpdateDefaultLayoutOid in Hrun. simpl in Hrun.
    injection Hrun as <-.
    split; [exact Hstorage2 |]. split; [| split].
    + exists {| layrow_table_oid := table_oid;
                layrow_oid := ROW_STORE_LAYOUT_OID |}.
      unfold rows_of at 1. simpl. rewrite lookup_insert_eq. simpl.
      unfold rows_of at 1. simpl. rewrite lookup_insert_eq. simpl.
      split; [| done]. apply elem_of_app. right. by apply list_elem_of_singleton.
    + intros row0 Hin Hoid. unfold rows_of at 1 in Hin. simpl in Hin.
      rewrite lookup_insert_eq in Hin. simpl in Hin.
      exact (updated_rows_default _ _ _ _ Hin Hoid).
    + intros row0 Hin Hoid. unfold rows_of at 1. simpl.
      rewrite lookup_insert_eq. simpl.
      unfold rows_of at 1. simpl. rewrite lookup_insert_eq. simpl.
      rewrite Hpg_table2.
      by apply updated_rows_kept with (row := row0).
Qed.

(** *** Dropping a table *)

(** What a step of [DropTable] leaves alone: the storage manager, the
    registry of system catalogs and the database catalog. *)
Definition process_state_kept (st st' : State) : Prop :=
  storage st' = storage st /\ catalog_map_ st' = catalog_map_ st
  /\ pg_database st' = pg_database st.

Lemma process_state_kept_refl st : process_state_kept st st.
Proof. by repeat split. Qed.

Lemma process_state_kept_trans st1 st2 st3 :
  process_state_kept st1 st2 -> process_state_kept st2 st3 ->
  process_state_kept st1 st3.
Proof.
  intros (H1 & H2 & H3) (H4 & H5 & H6). repeat split; congruence.
Qed.

Lemma rows_of_log_event database_oid ev st :
  rows_of database_oid (log_event ev st) = rows_of database_oid st.
Proof. done. Qed.

(** The trigger loop always completes; it logs one [DropTrigger] per
    trigger and touches no other catalog table. *)
Lemma drop_triggers_run database_oid table_oid triggers : forall st,
  exists st',
    for_each
      (fun trigger =>
         TriggerCatalog_DropTrigger database_oid table_oid (trgrow_name trigger))
      triggers st = (Return tt, st') /\
    process_state_kept st st' /\
    events st'
    = events st
      ++ ((fun trigger => DropTrigger table_oid (trgrow_name trigger))
          <$> triggers) /\
    pg_index (rows_of database_oid st') = pg_index (rows_of database_oid st) /\
    pg_attribute (rows_of database_oid st')
    = pg_attribute (rows_of database_oid st) /\
    pg_layout (rows_of database_oid st') = pg_layout (rows_of database_oid st) /\
    pg_table (rows_of database_oid st') = pg_table (rows_of database_oid st).
Proof.
  induction triggers as [| trigger rest IH]; intros st.
  - exists st. simpl. rewrite app_nil_r. by repeat split.
  - pose (st1 :=
      log_event (DropTrigger table_oid (trgrow_name trigger))
        (update_rows database_oid
           (fun c => set_pg_trigger
              (List.filter
                 (fun row => negb ((trgrow_table_oid row =? table_oid)
                                   && String.eqb (trgrow_name row)
                                        (trgrow_name trigger)))
                 (pg_trigger c)) c) st)).
    destruct (IH st1) as (st' & Hrun & Hkept & Hev & Hi & Ha & Hl & Ht).
    exists st'. split; [exact Hrun |].
    assert (Hrows : rows_of database_oid st1
              = set_pg_trigger
                  (List.filter
                     (fun row => negb ((trgrow_table_oid row =? table_oid)
                                       && String.eqb (trgrow_name row)
                                            (trgrow_name trigger)))
                     (pg_trigger (rows_of database_oid st)))
                  (rows_of database_oid st)).
    { unfold st1. by rewrite rows_of_log_event, rows_of_update_rows. }
    rewrite Hrows in Hi, Ha, Hl, Ht. simpl in Hi, Ha, Hl, Ht.
    split; [| split; [| by repeat split]].
    + apply process_state_kept_trans with (st2 := st1); [| done].
      by repeat split.
    + rewrite Hev. subst st1. simpl. by rewrite <- app_assoc.
Qed.

(** The storage look-ups read the state and leave it as it is. *)
Lemma GetDatabaseWithOid_state database_oid st o st' :
  GetDatabaseWithOid database_oid st = (o, st') -> st' = st.
Proof.
  unfold GetDatabaseWithOid. destruct (storage st !! database_oid); congruence.
Qed.

Lemma GetTableWithOid_state database_oid table_oid st o st' :
  GetTableWithOid database_oid table_oid st = (o, st') -> st' = st.
Proof.
  unfold GetTableWithOid, bind, GetDatabaseWithOid.
  destruct (storage st !! database_oid) as [database |]; [| congruence].
  destruct (db_tables database !! table_oid); unfold ret, throw; congruence.
Qed.

Lemma GetIndexWithOid_state database_oid table_oid index_oid st o st' :
  GetIndexWithOid database_oid table_oid index_oid st = (o, st') -> st' = st.
Proof.
  unfold GetIndexWithOid, bind.
  destruct (GetTableWithOid database_oid table_oid st) as [[table | what | |] st0]
    eqn:Htable; apply GetTableWithOid_state in Htable as ->; try congruence.
  destruct (bool_decide _); unfold ret, throw; congruence.
Qed.

(** A successful [DropIndex] removes the rows of that index oid and logs
    the removal and the drop record, in that order. *)
Lemma DropIndex_success txn database_oid index_oid st r st' :
  DropIndex txn database_oid index_oid st = (Return r, st') ->
  exists table_oid,
    st' = log_event (RecordDrop database_oid table_oid index_oid)
            (log_event (DeleteIndex index_oid)
               (update_rows database_oid
                  (fun c => set_pg_index
                     (List.filter
                        (fun row => negb (idxrow_oid row =? index_oid))
                        (pg_index c)) c) st)).
Proof.
  unfold DropIndex. destruct txn as [txn |]; [| discriminate].
  unfold bind, system_catalogs.
  destruct (catalog_map_ st !! database_oid); [| discriminate].
  unfold GetIndexCatalogEntry.
  destruct (find _ _) as [index_object |]; [| discriminate].
  destruct (GetTableWithOid database_oid (idxrow_table_oid index_object) st)
    as [[table | what | |] st0] eqn:Htable; try discriminate.
  unfold IndexCatalog_DeleteIndex, modify.
  destruct (GetIndexWithOid _ _ _ _) as [[[] | what | |] st1] eqn:Hindex;
    try discriminate.
  apply GetTableWithOid_state in Htable as ->.
  apply GetIndexWithOid_state in Hindex as ->.
  simpl. intros [= <- <-]. by exists (idxrow_table_oid index_object).
Qed.

Lemma system_catalogs_state database_oid st o st' :
  system_catalogs database_oid st = (o, st') -> st' = st.
Proof.
  unfold system_catalogs. destruct (catalog_map_ st !! database_oid); congruence.
Qed.

Lemma bind_Return_inv {A B} (m : M A) (k : A -> M B) st b st' :
  bind m k st = (Return b, st') ->
  exists a st1, m st = (Return a, st1) /\ k a st1 = (Return b, st').
Proof.
  unfold bind. destruct (m st) as [[a | what | |] st1]; try discriminate.
  intros H. by exists a, st1.
Qed.

(** The index oid that an event removes from the index catalog. *)
Definition deleted_index (ev : Event) : option Z :=
  match ev with
  | DeleteIndex index_oid => Some index_oid
  | _ => None
  end.

(** The events of [DropIndex]: removal of an index row, or the drop
    record of an index of the database. *)
Definition index_event (database_oid : Z) (ev : Event) : Prop :=
  exists index_oid,
    ev = DeleteIndex index_oid
    \/ exists table_oid, ev = RecordDrop database_oid table_oid index_oid.

Lemma filter_index_rows_elem index_oid (rows : list IndexCatalogEntry) row :
  row ∈ List.filter (fun row => negb (idxrow_oid row =? index_oid)) rows ->
  row ∈ rows /\ idxrow_oid row <> index_oid.
Proof.
  intros H. apply list_elem_of_In, filter_In in H as [Hin Hne].
  split; [by apply list_elem_of_In |].
  apply negb_true_iff, Z.eqb_neq in Hne. done.
Qed.

(** When the index loop completes, every index it went through has lost
    its rows, and nothing else changed but the event log. *)
Lemma drop_indexes_success txn database_oid
    (index_objects : list IndexCatalogEntry) : forall st st',
  for_each
    (fun it => exec DropIndex txn database_oid (idxrow_oid it) then ret tt)
    index_objects st = (Return tt, st') ->
  process_state_kept st st' /\
  (exists index_events,
     events st' = events st ++ index_events
     /\ Forall (index_event database_oid) index_events
     /\ omap deleted_index index_events = idxrow_oid <$> index_objects) /\
  (forall row, row ∈ pg_index (rows_of database_oid st') ->
     row ∈ pg_index (rows_of database_oid st)
     /\ idxrow_oid row ∉ (idxrow_oid <$> index_objects)) /\
  pg_attribute (rows_of database_oid st')
  = pg_attribute (rows_of database_oid st) /\
  pg_layout (rows_of database_oid st') = pg_layout (rows_of database_oid st) /\
  pg_table (rows_of database_oid st') = pg_table (rows_of database_oid st).
Proof.
  induction index_objects as [| it rest IH]; intros st st' Hrun.
  - injection Hrun as <-. split; [apply process_state_kept_refl |].
    split; [exists []; by rewrite app_nil_r |].
    split; [| done]. intros row Hin. split; [done |]. apply not_elem_of_nil.
  - cbn [for_each] in Hrun.
    apply bind_Return_inv in Hrun as ([] & st1 & Hstep & Hrun).
    apply bind_Return_inv in Hstep as (r & st1' & Hdrop & Hret).
    injection Hret as <-.
    apply DropIndex_success in Hdrop as (table_oid & ->).
    set (st1 := log_event _ (log_event _ (update_rows _ _ st))) in Hrun.
    assert (Hrows : rows_of database_oid st1
              = set_pg_index
                  (List.filter
                     (fun row => negb (idxrow_oid row =? idxrow_oid it))
                     (pg_index (rows_of database_oid st)))
                  (rows_of database_oid st)).
    { unfold st1. by rewrite !rows_of_log_event, rows_of_update_rows. }
    destruct (IH st1 st' Hrun)
      as (Hkept & (evs & Hev & Hall & Hdel) & Hidx & Ha & Hl & Ht).
    rewrite Hrows in Hidx, Ha, Hl, Ht. simpl in Hidx, Ha, Hl, Ht.
    split; [| split; [| split; [| by repeat split]]].
    + apply process_state_kept_trans with (st2 := st1); [| done].
      by repeat split.
    + exists ([DeleteIndex (idxrow_oid it);
               RecordDrop database_oid table_oid (idxrow_oid it)] ++ evs).
      split; [| split].
      * rewrite Hev. unfold st1. simpl. by rewrite <- !app_assoc.
      * apply Forall_app. split; [| done].
        repeat constructor.
        -- exists (idxrow_oid it). by left.
        -- exists (idxrow_oid it). right. by exists table_oid.
      * cbn [app omap list_omap deleted_index]. rewrite fmap_cons.
        f_equal. exact Hdel.
    + intros row Hin. apply Hidx in Hin as [Hin Hnot].
      apply filter_index_rows_elem in Hin as [Hin Hne].
      split; [done |]. rewrite fmap_cons. intros [E | E]%elem_of_cons; done.
Qed.


(** The state after the last steps of [DropTable]: the rows of the
    table are removed from the column, layout and table catalogs, and the
    table is put into the transaction's set of dropped objects. *)
Definition table_rows_deleted (INVALID_OID database_oid table_oid : Z)
    (st : State) : State :=
  log_event (RecordDrop database_oid table_oid INVALID_OID)
    (log_event (DeleteTable table_oid)
       (update_rows database_oid
          (fun c => set_pg_table
             (List.filter (fun row => negb (tblrow_oid row =? table_oid))
                (pg_table c)) c)
          (log_event (DeleteLayouts table_oid)
             (update_rows database_oid
                (fun c => set_pg_layout
                   (List.filter
                      (fun row => negb (layrow_table_oid row =? table_oid))
                      (pg_layout c)) c)
                (log_event (DeleteColumns table_oid)
                   (update_rows database_oid
                      (fun c => set_pg_attribute
                         (List.filter
                            (fun row => negb (colrow_table_oid row =? table_oid))
                            (pg_attribute c)) c)
                      st)))))).

(** A successful [DropTable], step by step. *)
Lemma DropTable_success_inv INVALID_OID txn database_oid table_oid st st' :
  DropTable INVALID_OID txn database_oid table_oid st = (Return SUCCESS, st') ->
  exists stT stI,
    for_each
      (fun trigger =>
         TriggerCatalog_DropTrigger database_oid table_oid (trgrow_name trigger))
      (List.filter (fun row => trgrow_table_oid row =? table_oid)
         (pg_trigger (rows_of database_oid st))) st
    = (Return tt, stT) /\
    for_each
      (fun it => exec DropIndex txn database_oid (idxrow_oid it) then ret tt)
      (List.filter (fun row => idxrow_table_oid row =? table_oid)
         (pg_index (rows_of database_oid st))) stT
    = (Return tt, stI) /\
    st' = table_rows_deleted INVALID_OID database_oid table_oid stI.
Proof.
  intros Hrun. unfold DropTable in Hrun.
  apply bind_Return_inv in Hrun as (database & st0 & Hdb & Hrun).
  apply GetDatabaseWithOid_state in Hdb as ->.
  apply bind_Return_inv in Hrun as (database_object & st0 & Hentry & Hrun).
  unfold GetDatabaseCatalogEntry in Hentry. injection Hentry as <- <-.
  destruct (find _ (pg_database st)) as [database_object |] eqn:Hfind;
    [| discriminate Hrun].
  apply find_some in Hfind as [_ Hoid]. apply Z.eqb_eq in Hoid.
  rewrite Hoid in Hrun. clear database_object Hoid.
  apply bind_Return_inv in Hrun as (table_object & st0 & Hentry & Hrun).
  unfold GetTableCatalogEntry in Hentry. injection Hentry as <- <-.
  destruct (find _ (pg_table _)) as [table_object |]; [| discriminate Hrun].
  apply bind_Return_inv in Hrun as (index_objects & st0 & Hidx & Hrun).
  unfold GetIndexCatalogEntries in Hidx. injection Hidx as <- <-.
  apply bind_Return_inv in Hrun as (catalogs & st0 & Hmap & Hrun).
  apply system_catalogs_state in Hmap as ->.
  apply bind_Return_inv in Hrun as (triggers & st0 & Htrg & Hrun).
  unfold GetTriggers in Htrg. injection Htrg as <- <-.
  (* the two loops *)
  apply bind_Return_inv in Hrun as ([] & stT & HrunT & Hrun).
  apply bind_Return_inv in Hrun as ([] & stI & HrunI & Hrun).
  exists stT, stI. split; [exact HrunT |]. split; [exact HrunI |].
  (* the three catalog tables and the drop record *)
  apply bind_Return_inv in Hrun as (c1 & st1 & Hs1 & Hrun).
  apply system_catalogs_state in Hs1 as ->.
  apply bind_Return_inv in Hrun as ([] & st1 & Hcol & Hrun).
  apply bind_Return_inv in Hrun as (c2 & st2 & Hs2 & Hrun).
  apply system_catalogs_state in Hs2 as ->.
  apply bind_Return_inv in Hrun as ([] & st2 & Hlay & Hrun).
  apply bind_Return_inv in Hrun as (c3 & st3 & Hs3 & Hrun).
  apply system_catalogs_state in Hs3 as ->.
  apply bind_Return_inv in Hrun as ([] & st3 & Htbl & Hrun).
  apply bind_Return_inv in Hrun as (table & st4 & Hget & Hrun).
  apply GetTableWithOid_state in Hget as ->.
  apply bind_Return_inv in Hrun as ([] & st5 & Hrec & Hrun).
  injection Hrun as <-.
  destruct txn as [txn |]; [| discriminate Hrec].
  unfold txn_RecordDrop, modify in Hrec. injection Hrec as <-.
  unfold TableCatalog_DeleteTable, modify in Htbl. injection Htbl as <-.
  unfold LayoutCatalog_DeleteLayouts, modify in Hlay. injection Hlay as <-.
  unfold ColumnCatalog_DeleteColumns, modify in Hcol. injection Hcol as <-.
  reflexivity.
Qed.

(** [DropTable] leaves the physical objects in the storage manager and
    the registry of system catalogs as they are: of the table object it
    makes a drop record with the transaction, and nothing else. *)
Lemma DropTable_keeps_process_state INVALID_OID txn database_oid table_oid
    st st' :
  DropTable INVALID_OID txn database_oid table_oid st = (Return SUCCESS, st') ->
  process_state_kept st st'.
Proof.
  intros (stT & stI & HrunT & HrunI & ->)%DropTable_success_inv.
  destruct (drop_triggers_run database_oid table_oid
              (List.filter (fun row => trgrow_table_oid row =? table_oid)
                 (pg_trigger (rows_of database_oid st))) st)
    as (stT' & HrunT' & HkeptT & _).
  rewrite HrunT' in HrunT. injection HrunT as ->.
  apply drop_indexes_success in HrunI as (HkeptI & _).
  apply process_state_kept_trans with (st2 := stT); [done |].
  apply process_state_kept_trans with (st2 := stI); [done |].
  by repeat split.
Qed.


(** *** [DropTable] completes on a consistent catalog *)

(** The table exists in storage and in the catalog of a registered
    database; index oids are not shared between index-catalog rows; every
    index row of the table has its index attached to the table. *)
Record table_consistent (database_oid table_oid : Z) (st : State) : Prop := {
  consistent_database :
    exists row, row ∈ pg_database st /\ dbrow_oid row = database_oid;
  consistent_row :
    exists row, row ∈ pg_table (rows_of database_oid st)
                /\ tblrow_oid row = table_oid;
  consistent_registry : is_Some (catalog_map_ st !! database_oid);
  consistent_oids : NoDup (idxrow_oid <$> pg_index (rows_of database_oid st));
  consistent_storage :
    exists database table,
      storage st !! database_oid = Some database
      /\ db_tables database !! table_oid = Some table
      /\ forall row, row ∈ pg_index (rows_of database_oid st) ->
           idxrow_table_oid row = table_oid ->
           idxrow_oid row ∈ (index_oid <$> table_indexes table)
}.

Lemma bind_Return {A B} (m : M A) (k : A -> M B) st a st1 :
  m st = (Return a, st1) -> bind m k st = k a st1.
Proof. intros H. unfold bind. by rewrite H. Qed.

Lemma find_exists {A} (f : A -> bool) (l : list A) x :
  x ∈ l -> f x = true -> exists y, find f l = Some y.
Proof.
  intros Hin Hf. destruct (find f l) as [y |] eqn:Hfind; [by exists y |].
  apply list_elem_of_In in Hin.
  pose proof (find_none f l Hfind x Hin). congruence.
Qed.

Lemma find_index_row (rows : list IndexCatalogEntry) it :
  NoDup (idxrow_oid <$> rows) -> it ∈ rows ->
  find (fun row => idxrow_oid row =? idxrow_oid it) rows = Some it.
Proof.
  induction rows as [| row rest IH]; intros Hnodup Hin;
    [by apply elem_of_nil in Hin |].
  rewrite fmap_cons in Hnodup. apply NoDup_cons in Hnodup as [Hfresh Hnodup].
  simpl. destruct (idxrow_oid row =? idxrow_oid it) eqn:Hoid.
  - apply Z.eqb_eq in Hoid.
    apply elem_of_cons in Hin as [-> | Hin]; [done |].
    exfalso. apply Hfresh. rewrite Hoid. apply list_elem_of_fmap. by exists it.
  - apply Z.eqb_neq in Hoid.
    apply elem_of_cons in Hin as [-> | Hin]; [done | by apply IH].
Qed.

Lemma NoDup_oids_filter (P : IndexCatalogEntry -> bool) rows :
  NoDup (idxrow_oid <$> rows) -> NoDup (idxrow_oid <$> List.filter P rows).
Proof.
  induction rows as [| row rest IH]; intros Hnodup; [done |].
  rewrite fmap_cons in Hnodup. apply NoDup_cons in Hnodup as [Hfresh Hnodup].
  simpl. destruct (P row); [| by apply IH].
  rewrite fmap_cons. apply NoDup_cons. split; [| by apply IH].
  intros (row' & Hoid & Hin)%list_elem_of_fmap. apply Hfresh.
  apply list_elem_of_fmap. exists row'. split; [done |].
  apply list_elem_of_In, filter_In in Hin as [Hin _]. by apply list_elem_of_In.
Qed.

(** One [DropIndex] of an index row whose index is attached to its table. *)
Lemma DropIndex_run txn database_oid it st catalogs database table :
  catalog_map_ st !! database_oid = Some catalogs ->
  NoDup (idxrow_oid <$> pg_index (rows_of database_oid st)) ->
  it ∈ pg_index (rows_of database_oid st) ->
  storage st !! database_oid = Some database ->
  db_tables database !! idxrow_table_oid it = Some table ->
  idxrow_oid it ∈ (index_oid <$> table_indexes table) ->
  DropIndex (Some txn) database_oid (idxrow_oid it) st
  = (Return SUCCESS,
     log_event (RecordDrop database_oid (idxrow_table_oid it) (idxrow_oid it))
       (log_event (DeleteIndex (idxrow_oid it))
          (update_rows database_oid
             (fun c => set_pg_index
                (List.filter
                   (fun row => negb (idxrow_oid row =? idxrow_oid it))
                   (pg_index c)) c) st))).
Proof.
  intros Hmap Hnodup Hin Hdb Htable Hindex. unfold DropIndex.
  rewrite (bind_Return _ _ st catalogs st)
    by (unfold system_catalogs; by rewrite Hmap).
  rewrite (bind_Return _ _ st (Some it) st)
    by (unfold GetIndexCatalogEntry; by rewrite find_index_row).
  rewrite (bind_Return _ _ st table st)
    by (by apply GetTableWithOid_found with (database := database)).
  unfold IndexCatalog_DeleteIndex.
  rewrite (bind_Return _ _ st tt _) by reflexivity.
  erewrite bind_Return; [reflexivity |].
  unfold GetIndexWithOid.
  erewrite bind_Return
    by (by apply GetTableWithOid_found with (database := database)).
  by rewrite bool_decide_eq_true_2.
Qed.

(** The index loop completes when the rows it goes through are rows of
    the index catalog with distinct oids and attached indexes. *)
Lemma drop_indexes_run txn database_oid table_oid database table catalogs
    (index_objects : list IndexCatalogEntry) : forall st,
  catalog_map_ st !! database_oid = Some catalogs ->
  storage st !! database_oid = Some database ->
  db_tables database !! table_oid = Some table ->
  NoDup (idxrow_oid <$> pg_index (rows_of database_oid st)) ->
  NoDup (idxrow_oid <$> index_objects) ->
  (forall it, it ∈ index_objects ->
     it ∈ pg_index (rows_of database_oid st)
     /\ idxrow_table_oid it = table_oid
     /\ idxrow_oid it ∈ (index_oid <$> table_indexes table)) ->
  exists st',
    for_each
      (fun it =>
         exec DropIndex (Some txn) database_oid (idxrow_oid it) then ret tt)
      index_objects st = (Return tt, st').
Proof.
  induction index_objects as [| it rest IH];
    intros st Hmap Hdb Htable Hnodup Hdistinct Hrows; [by exists st |].
  destruct (Hrows it ltac:(by apply elem_of_cons; left))
    as (Hin & Hoid & Hindex).
  rewrite fmap_cons in Hdistinct.
  apply NoDup_cons in Hdistinct as [Hfresh Hdistinct].
  cbn [for_each].
  erewrite bind_Return; cycle 1.
  { erewrite bind_Return; [reflexivity |].
    apply DropIndex_run with (catalogs := catalogs) (database := database)
                             (table := table); try done.
    by rewrite Hoid. }
  apply IH; try done.
  - unfold rows_of at 1. simpl. rewrite lookup_insert_eq. simpl.
    by apply NoDup_oids_filter.
  - intros it' Hin'.
    destruct (Hrows it' ltac:(by apply elem_of_cons; right))
      as (Hrow' & Hoid' & Hindex').
    split; [| done].
    unfold rows_of at 1. simpl. rewrite lookup_insert_eq. simpl.
    apply list_elem_of_In, filter_In. split; [by apply list_elem_of_In |].
    apply negb_true_iff, Z.eqb_neq. intros E. apply Hfresh.
    rewrite <- E. apply list_elem_of_fmap. by exists it'.
Qed.

(** On a consistent catalog [DropTable] returns [SUCCESS]. *)
Lemma DropTable_succeeds INVALID_OID txn database_oid table_oid st :
  table_consistent database_oid table_oid st ->
  exists st',
    DropTable INVALID_OID (Some txn) database_oid table_oid st
    = (Return SUCCESS, st').
Proof.
  intros [(dbrow & Hdbrow & Hdboid) (tblrow & Htblrow & Htbloid)
          [catalogs Hmap] Hnodup
          (database & table & Hdb & Htable & Hattached)].
  unfold DropTable.
  rewrite (bind_Return _ _ st database st)
    by (unfold GetDatabaseWithOid; by rewrite Hdb).
  destruct (find_exists (fun row => dbrow_oid row =? database_oid)
              (pg_database st) dbrow Hdbrow ltac:(by apply Z.eqb_eq))
    as (database_object & Hfind).
  rewrite (bind_Return _ _ st (Some database_object) st)
    by (unfold GetDatabaseCatalogEntry; by rewrite Hfind).
  apply find_some in Hfind as [_ Hoid]. apply Z.eqb_eq in Hoid. rewrite Hoid.
  destruct (find_exists (fun row => tblrow_oid row =? table_oid)
              (pg_table (rows_of database_oid st)) tblrow Htblrow
              ltac:(by apply Z.eqb_eq))
    as (table_object & Hfind).
  rewrite (bind_Return _ _ st (Some table_object) st)
    by (unfold GetTableCatalogEntry; by rewrite Hfind).
  rewrite (bind_Return _ _ st _ st) by (unfold GetIndexCatalogEntries; done).
  rewrite (bind_Return _ _ st catalogs st)
    by (unfold system_catalogs; by rewrite Hmap).
  rewrite (bind_Return _ _ st _ st) by (unfold GetTriggers; done).
  (* the trigger loop *)
  destruct (drop_triggers_run database_oid table_oid
              (List.filter (fun row => trgrow_table_oid row =? table_oid)
                 (pg_trigger (rows_of database_oid st))) st)
    as (stT & HrunT & (HstorageT & HmapT & _) & _ & HiT & _).
  rewrite (bind_Return _ _ st tt stT) by exact HrunT.
  (* the index loop *)
  destruct (drop_indexes_run txn database_oid table_oid database table catalogs
              (List.filter (fun row => idxrow_table_oid row =? table_oid)
                 (pg_index (rows_of database_oid st))) stT)
    as (stI & HrunI); try (by rewrite ?HmapT, ?HstorageT, ?HiT).
  { by apply NoDup_oids_filter. }
  { intros it Hin. apply list_elem_of_In, filter_In in Hin as [Hin Hit].
    apply list_elem_of_In in Hin. apply Z.eqb_eq in Hit.
    rewrite HiT. split; [done |]. split; [done |]. by apply Hattached. }
  rewrite (bind_Return _ _ stT tt stI) by exact HrunI.
  apply drop_indexes_success in HrunI as ((HstorageI & HmapI & _) & _).
  (* the rows of the table and the drop record *)
  assert (HmapI' : catalog_map_ stI !! database_oid = Some catalogs)
    by (by rewrite HmapI, HmapT).
  assert (HdbI : storage stI !! database_oid = Some database)
    by (by rewrite HstorageI, HstorageT).
  rewrite (bind_Return _ _ stI catalogs stI)
    by (unfold system_catalogs; by rewrite HmapI').
  unfold ColumnCatalog_DeleteColumns.
  rewrite (bind_Return _ _ stI tt _) by reflexivity.
  erewrite bind_Return
    by (unfold system_catalogs; simpl; by rewrite HmapI').
  unfold LayoutCatalog_DeleteLayouts.
  erewrite bind_Return by reflexivity.
  erewrite bind_Return
    by (unfold system_catalogs; simpl; by rewrite HmapI').
  unfold TableCatalog_DeleteTable.
  erewrite bind_Return by reflexivity.
  erewrite bind_Return
    by (by apply GetTableWithOid_found with (database := database)).
  erewrite bind_Return by reflexivity.
  by eexists.
Qed.

(** *** Dropping a database *)

(** Modelled from the spec: the abort of the surrounding transaction, which
    belongs to the transaction manager and is not among the sources.
    Catalog rows are ordinary versioned tuples, so an abort gives back the
    rows that were there when the transaction began ([at_begin]); the
    registry from database id to [SystemCatalogs] is a plain map of the
    process, guarded by a mutex, and no version of it is kept. *)
Definition TransactionManager_AbortTransaction (at_begin st : State) : State :=
  {| storage := storage st;
     pg_database := pg_database at_begin;
     catalog_rows := catalog_rows at_begin;
     catalog_map_ := catalog_map_ st;
     events := events st ++ [AbortTransaction] |}.

(** A successful [DropDatabaseWithOid] ends by erasing the registry entry
    and recording the drop. *)
Lemma DropDatabaseWithOid_success_inv INVALID_OID txn database_oid st st' :
  DropDatabaseWithOid INVALID_OID txn database_oid st = (Return SUCCESS, st') ->
  is_Some txn /\
  exists st1,
    st' = log_event (RecordDrop database_oid INVALID_OID INVALID_OID)
            (set_catalog_map_ (delete database_oid (catalog_map_ st1)) st1).
Proof.
  unfold DropDatabaseWithOid. destruct txn as [txn |]; [| discriminate].
  intros Hrun. split; [by eexists |].
  apply bind_Return_inv in Hrun as (database_object & st0 & Hentry & Hrun).
  unfold GetDatabaseCatalogEntry in Hentry. injection Hentry as <- <-.
  destruct (find _ (pg_database st)) as [database_object |];
    [| discriminate Hrun].
  apply bind_Return_inv in Hrun as (table_objects & st0 & Htables & Hrun).
  unfold GetTableCatalogEntries in Htables. injection Htables as <- <-.
  apply bind_Return_inv in Hrun as ([] & stD & _ & Hrun).
  apply bind_Return_inv in Hrun as (deleted & st1 & _ & Hrun).
  destruct deleted; [| discriminate Hrun]. simpl in Hrun.
  apply bind_Return_inv in Hrun as ([] & st2 & Herase & Hrun).
  unfold modify in Herase. injection Herase as <-.
  apply bind_Return_inv in Hrun as (database & st3 & Hdb & Hrun).
  apply GetDatabaseWithOid_state in Hdb as ->.
  apply bind_Return_inv in Hrun as ([] & st4 & Hrec & Hrun).
  unfold txn_RecordDrop, modify in Hrec. injection Hrec as <-.
  injection Hrun as <-. by exists st1.
Qed.

(** C10. [DropDatabaseWithOid] erases the database's entry of
    [catalog_map_] during the call, inside the transaction that was passed
    to it: in the state in which a successful call returns,
    [GetSystemCatalogs] for that database raises its not-found error, and
    it still does so after an abort of the transaction, which restores
    catalog rows but not the registry. *)
Theorem DropDatabaseWithOid_unregisters (INVALID_OID : Z)
    (txn : option TransactionContext) (database_oid : Z) (st st' : State) :
  DropDatabaseWithOid INVALID_OID txn database_oid st = (Return SUCCESS, st') ->
  is_Some txn /\
  catalog_map_ st' !! database_oid = None /\
  GetSystemCatalogs database_oid st'
  = (Throw "Failed to find SystemCatalog for database_oid", st') /\
  (forall at_begin,
     (GetSystemCatalogs database_oid
        (TransactionManager_AbortTransaction at_begin st')).1
     = Throw "Failed to find SystemCatalog for database_oid").
Proof.
  intros (Htxn & st1 & ->)%DropDatabaseWithOid_success_inv.
  assert (Hgone :
            catalog_map_
              (log_event (RecordDrop database_oid INVALID_OID INVALID_OID)
                 (set_catalog_map_ (delete database_oid (catalog_map_ st1)) st1))
            !! database_oid = None).
  { simpl. apply lookup_delete_eq. }
  split; [done |]. split; [exact Hgone |]. split.
  - unfold GetSystemCatalogs. by rewrite Hgone.
  - intros at_begin. unfold GetSystemCatalogs.
    change (catalog_map_ (TransactionManager_AbortTransaction at_begin ?s))
      with (catalog_map_ s).
    by rewrite Hgone.
Qed.

(** *** A sample catalog

    Database 100 holds table 200, [emp (id, name, dept)], whose columns
    [id] and [dept] are marked primary and [name] unique; the table has a
    unique index on [name], a secondary index on [dept] and one trigger. *)

Definition peloton_INVALID_OID : Z := 2 ^ 32 - 1.

Definition emp_schema : list Column :=
  [ {| column_name := "id"; column_is_primary := true;
       column_is_unique := false |};
    {| column_name := "name"; column_is_primary := false;
       column_is_unique := true |};
    {| column_name := "dept"; column_is_primary := true;
       column_is_unique := false |} ].

Definition emp_name_index : IndexMetadata :=
  {| index_name := "emp_name_UNIQ"; index_oid := 300; index_table_oid := 200;
     index_database_oid := 100; index_type := BWTREE;
     index_constraint := UNIQUE; key_schema := CopySchema emp_schema [1];
     key_attrs := [1]; unique_keys := true |}.

Definition emp_dept_index : IndexMetadata :=
  {| index_name := "emp_dept_idx"; index_oid := 301; index_table_oid := 200;
     index_database_oid := 100; index_type := BWTREE;
     index_constraint := DEFAULT; key_schema := CopySchema emp_schema [2];
     key_attrs := [2]; unique_keys := false |}.

Definition emp_table : DataTable :=
  {| table_name := "emp"; table_schema := emp_schema;
     default_layout := ROW_STORE_LAYOUT_OID; next_layout_oid := 1;
     table_indexes := [emp_name_index; emp_dept_index] |}.

Definition emp_database : Database := {| db_tables := {[ 200 := emp_table ]} |}.

Definition emp_catalogs : SystemCatalogs :=
  {| index_catalog_oid := 302; table_catalog_oid := 201 |}.

Definition emp_rows : CatalogRows :=
  {| pg_table :=
       [ {| tblrow_oid := 200; tblrow_name := "emp";
            tblrow_schema_name := "public";
            tblrow_default_layout_oid := ROW_STORE_LAYOUT_OID |} ];
     pg_attribute :=
       [ {| colrow_table_oid := 200; colrow_column_id := 0; colrow_name := "id" |};
         {| colrow_table_oid := 200; colrow_column_id := 1; colrow_name := "name" |};
         {| colrow_table_oid := 200; colrow_column_id := 2; colrow_name := "dept" |} ];
     pg_index :=
       [ {| idxrow_schema_name := "public"; idxrow_table_oid := 200;
            idxrow_oid := 300; idxrow_name := "emp_name_UNIQ";
            idxrow_type := BWTREE; idxrow_constraint := UNIQUE;
            idxrow_unique_keys := true; idxrow_key_attrs := [1] |};
         {| idxrow_schema_name := "public"; idxrow_table_oid := 200;
            idxrow_oid := 301; idxrow_name := "emp_dept_idx";
            idxrow_type := BWTREE; idxrow_constraint := DEFAULT;
            idxrow_unique_keys := false; idxrow_key_attrs := [2] |} ];
     pg_layout :=
       [ {| layrow_table_oid := 200; layrow_oid := ROW_STORE_LAYOUT_OID |} ];
     pg_trigger := [ {| trgrow_table_oid := 200; trgrow_name := "audit" |} ] |}.

Definition sample_state : State :=
  {| storage := {[ 100 := emp_database ]};
     pg_database := [ {| dbrow_oid := 100; dbrow_name := "emp_db" |} ];
     catalog_rows := {[ 100 := emp_rows ]};
     catalog_map_ := {[ 100 := emp_catalogs ]};
     events := [] |}.

(** The sample after a new default layout, which gets oid 1, was
    installed on the table; then after that layout was dropped. *)
Definition with_new_default : State :=
  (CreateDefaultLayout peloton_INVALID_OID (Some 1) 100 200 sample_state).2.

Definition after_drop_layout : State :=
  (DropLayout (Some 1) 100 200 1 with_new_default).2.


Definition after_drop_database : State :=
  (DropDatabaseWithOid peloton_INVALID_OID (Some 1) 100 sample_state).2.

(** The sample after an index named [dept_pkey] was created on column
    [dept] of [emp] ([CreateIndex] takes any name that the table does not
    have yet) and a table [dept], with the primary column [id], was put
    into the same schema: the state in which [CreateTable] calls
    [CreatePrimaryIndex] for [dept]. *)
Definition dept_table : DataTable :=
  {| table_name := "dept";
     table_schema :=
       [ {| column_name := "id"; column_is_primary := true;
            column_is_unique := false |};
         {| column_name := "title"; column_is_primary := false;
            column_is_unique := false |} ];
     default_layout := ROW_STORE_LAYOUT_OID; next_layout_oid := 1;
     table_indexes := [] |}.

Definition dept_pkey_taken : State :=
  {| storage :=
       {[ 100 :=
            {| db_tables :=
                 {[ 200 :=
                      {| table_name := "emp"; table_schema := emp_schema;
                         default_layout := ROW_STORE_LAYOUT_OID;
                         next_layout_oid := 1;
                         table_indexes :=
                           [ emp_name_index; emp_dept_index;
                             {| index_name := "dept_pkey"; index_oid := 302;
                                index_table_oid := 200;
                                index_database_oid := 100;
                                index_type := BWTREE;
                                index_constraint := DEFAULT;
                                key_schema := CopySchema emp_schema [2];
                                key_attrs := [2]; unique_keys := false |} ] |};
                    201 := dept_table ]} |} ]};
     pg_database := [ {| dbrow_oid := 100; dbrow_name := "emp_db" |} ];
     catalog_rows :=
       {[ 100 :=
            set_pg_index
              (pg_index emp_rows
               ++ [ {| idxrow_schema_name := "public"; idxrow_table_oid := 200;
                       idxrow_oid := 302; idxrow_name := "dept_pkey";
                       idxrow_type := BWTREE; idxrow_constraint := DEFAULT;
                       idxrow_unique_keys := false;
                       idxrow_key_attrs := [2] |} ])
              (set_pg_table
                 (pg_table emp_rows
                  ++ [ {| tblrow_oid := 201; tblrow_name := "dept";
                          tblrow_schema_name := "public";
                          tblrow_default_layout_oid := ROW_STORE_LAYOUT_OID |} ])
                 emp_rows) ]};
     catalog_map_ :=
       {[ 100 := {| index_catalog_oid := 303; table_catalog_oid := 202 |} ]};
     events := [] |}.

(** C7. [CreatePrimaryIndex] for the table [dept], in a schema where the
    table [emp] has an index named [dept_pkey].  The call returns
    [SUCCESS] and attaches index 303, named [dept_pkey] too, with the key
    [(id)] to [dept] in storage, and records it with the transaction.  The
    index catalog gets no row for it: the name is taken, [InsertIndex]
    refuses the row, and [CreatePrimaryIndex] does not look at what
    [InsertIndex] returns.  The index catalog is as before the call and
    has no row for [dept]. *)
Theorem CreatePrimaryIndex_inserts_no_row :
  exists st',
    CreatePrimaryIndex (Some 1) 100 "public" 201 dept_pkey_taken
    = (Return SUCCESS, st')
    /\ ((fun index => (index_oid index, index_name index, key_attrs index))
        <$> default [] (table_indexes
                          <$> (storage st' !! 100
                                 ≫= fun db => db_tables db !! 201))
        = [(303, "dept_pkey", [0])])
    /\ pg_index (rows_of 100 st') = pg_index (rows_of 100 dept_pkey_taken)
    /\ (idxrow_oid <$> pg_index (rows_of 100 st') = [300; 301; 302])
    /\ Forall (fun row => idxrow_table_oid row <> 201)
         (pg_index (rows_of 100 st'))
    /\ events st' = [RecordCreate 100 201 303].
Proof.
  eexists. split; [vm_compute; reflexivity |].
  split; [vm_compute; reflexivity |].
  split; [vm_compute; reflexivity |].
  split; [vm_compute; reflexivity |].
  split; [| vm_compute; reflexivity].
  vm_compute. repeat constructor; discriminate.
Qed.

(** [CreatePrimaryIndex] on the sample: the key is [(id, dept)], the
    ordinals 0 and 2. *)
Lemma CreatePrimaryIndex_rows_and_storage_witness :
  exists st',
    CreatePrimaryIndex (Some 1) 100 "public" 200 sample_state
    = (Return SUCCESS, st')
    /\ idxrow_key_attrs <$> pg_index (rows_of 100 st') = [[1]; [2]; [0; 2]].
Proof.
  destruct (CreatePrimaryIndex_rows_and_storage 1 100 "public" 200 sample_state
              emp_database emp_table emp_catalogs)
    as (_ & _ & _ & _ & Hsome); [reflexivity | reflexivity | reflexivity |].
  destruct Hsome as (st' & Hrun & Hrows & _).
  - exists {| column_name := "id"; column_is_primary := true;
              column_is_unique := false |}.
    split; [| reflexivity]. apply list_elem_of_In. simpl. tauto.
  - exists st'. split; [exact Hrun |]. rewrite Hrows. reflexivity.
Defined.

(** The layout scenario of the catalog test: a new default layout is
    installed, then dropped; the row-store row is in the layout catalog. *)
Lemma DropLayout_resets_default_witness :
  exists row,
    row ∈ pg_layout (rows_of 100 after_drop_layout)
    /\ layrow_table_oid row = 200 /\ layrow_oid row = ROW_STORE_LAYOUT_OID.
Proof.
  refine (proj1 (proj2
    (DropLayout_resets_default (Some 1) 100 200 1 with_new_default
       after_drop_layout _ _ _ _ _ _))).
  - vm_compute. reflexivity.
  - vm_compute. reflexivity.
  - reflexivity.
  - vm_compute. reflexivity.
Defined.



(** After the sample database was dropped, still inside transaction 1, its
    system catalogs cannot be found. *)
Lemma DropDatabaseWithOid_unregisters_witness :
  GetSystemCatalogs 100 after_drop_database
  = (Throw "Failed to find SystemCatalog for database_oid", after_drop_database).
Proof.
  refine (proj1 (proj2 (proj2
    (DropDatabaseWithOid_unregisters peloton_INVALID_OID (Some 1) 100
       sample_state after_drop_database _)))).
  vm_compute. reflexivity.
Defined.

End Catalog.

(* ===================================================================== *)
(** ** The constraint catalog: [pg_constraint]                            *)
(* ===================================================================== *)

Module ConstraintCatalog.

Inductive ConstraintType : Type :=
| INVALID | NOT_NULL | DEFAULT | CHECK | PRIMARY | UNIQUE | FOREIGN | EXCLUSION.

Inductive FKConstrActionType : Type :=
| FK_INVALID | NOACTION | RESTRICT | CASCADE | SETNULL | SETDEFAULT.

(** [catalog::Constraint], by its accessors; an expression type and a
    literal value are kept as their tag and an opaque value. *)
Record Constraint (CheckValue : Type) : Type := {
  GetConstraintOid : Z;
  GetName : string;
  GetType : ConstraintType;
  GetTableOid : Z;
  GetColumnIds : list Z;
  GetIndexOid : Z;
  GetFKSinkTableOid : Z;
  GetFKSinkColumnIds : list Z;
  GetFKUpdateAction : FKConstrActionType;
  GetFKDeleteAction : FKConstrActionType;
  GetCheckExpression : Z * CheckValue
}.
Arguments GetConstraintOid {CheckValue} _.
Arguments GetName {CheckValue} _.
Arguments GetType {CheckValue} _.
Arguments GetTableOid {CheckValue} _.
Arguments GetColumnIds {CheckValue} _.
Arguments GetIndexOid {CheckValue} _.
Arguments GetFKSinkTableOid {CheckValue} _.
Arguments GetFKSinkColumnIds {CheckValue} _.
Arguments GetFKUpdateAction {CheckValue} _.
Arguments GetFKDeleteAction {CheckValue} _.
Arguments GetCheckExpression {CheckValue} _.

(** Values stored in a catalog tuple. *)
Inductive Value : Type :=
| IntegerValue (n : Z)
| VarcharValue (s : string)
| VarbinaryValue (bytes : list Z).

(** A tuple of [pg_constraint], one field per [ColumnId]; [None] is a
    column that was not set. *)
Record Tuple : Type := {
  CONSTRAINT_OID : option Value;
  CONSTRAINT_NAME : option Value;
  CONSTRAINT_TYPE : option Value;
  TABLE_OID : option Value;
  COLUMN_IDS : option Value;
  INDEX_OID : option Value;
  FK_SINK_TABLE_OID : option Value;
  FK_SINK_COL_IDS : option Value;
  FK_UPDATE_ACTION : option Value;
  FK_DELETE_ACTION : option Value;
  CHECK_EXP_SRC : option Value;
  CHECK_EXP_BIN : option Value
}.

(** How a call of [InsertConstraint] ends. *)
Inductive Outcome : Type :=
| Returned (result : bool)
| CatalogException (what : string)
| AssertionFailure.

(** The [ss << std::to_string(column_oid) << " "] loops. *)
Definition column_ids_string (ids : list Z) : string :=
  fold_left (fun ss column_oid => ss +:+ pretty (Z.to_N column_oid) +:+ " ")
    ids "".

Section InsertConstraint.

Context {CheckValue : Type}.

Variable INVALID_OID : Z.
(** String conversions of [common/internal_types.h] and of [type::Value]. *)
Variable ConstraintTypeToString : ConstraintType -> string.
Variable FKConstrActionTypeToString : FKConstrActionType -> string.
Variable ExpressionTypeToString : Z -> string.
Variable Value_ToString : CheckValue -> string.
(** [CopySerializeOutput::WriteInt] and [Value::SerializeTo], as the bytes
    they append. *)
Variable WriteInt : Z -> list Z.
Variable Value_SerializeTo : CheckValue -> list Z.
(** The column [column_id] of the table in the storage manager: its name
    and type tag; [None] when the look-up throws. *)
Variable GetColumn : Z -> Z -> option (string * Z).
(** [AbstractCatalog::InsertTuple] on the rows of [catalog_table_]. *)
Variable InsertTuple : Tuple -> list Tuple -> bool * list Tuple.

(** The tuple with the fields common to all constraints set. *)
Definition common_tuple (constraint : Constraint CheckValue) : Tuple :=
  {| CONSTRAINT_OID := Some (IntegerValue (GetConstraintOid constraint));
     CONSTRAINT_NAME := Some (VarcharValue (GetName constraint));
     CONSTRAINT_TYPE :=
       Some (VarcharValue (ConstraintTypeToString (GetType constraint)));
     TABLE_OID := Some (IntegerValue (GetTableOid constraint));
     COLUMN_IDS :=
       Some (VarcharValue (column_ids_string (GetColumnIds constraint)));
     INDEX_OID := Some (IntegerValue (GetIndexOid constraint));
     FK_SINK_TABLE_OID := None; FK_SINK_COL_IDS := None;
     FK_UPDATE_ACTION := None; FK_DELETE_ACTION := None;
     CHECK_EXP_SRC := None; CHECK_EXP_BIN := None |}.

Definition set_foreign_key (val6 val7 val8 val9 : Value) (tuple : Tuple)
  : Tuple :=
  {| CONSTRAINT_OID := CONSTRAINT_OID tuple;
     CONSTRAINT_NAME := CONSTRAINT_NAME tuple;
     CONSTRAINT_TYPE := CONSTRAINT_TYPE tuple;
     TABLE_OID := TABLE_OID tuple; COLUMN_IDS := COLUMN_IDS tuple;
     INDEX_OID := INDEX_OID tuple;
     FK_SINK_TABLE_OID := Some val6; FK_SINK_COL_IDS := Some val7;
     FK_UPDATE_ACTION := Some val8; FK_DELETE_ACTION := Some val9;
     CHECK_EXP_SRC := CHECK_EXP_SRC tuple;
     CHECK_EXP_BIN := CHECK_EXP_BIN tuple |}.

Definition set_check (val6 val7 : Value) (tuple : Tuple) : Tuple :=
  {| CONSTRAINT_OID := CONSTRAINT_OID tuple;
     CONSTRAINT_NAME := CONSTRAINT_NAME tuple;
     CONSTRAINT_TYPE := CONSTRAINT_TYPE tuple;
     TABLE_OID := TABLE_OID tuple; COLUMN_IDS := COLUMN_IDS tuple;
     INDEX_OID := INDEX_OID tuple;
     FK_SINK_TABLE_OID := FK_SINK_TABLE_OID tuple;
     FK_SINK_COL_IDS := FK_SINK_COL_IDS tuple;
     FK_UPDATE_ACTION := FK_UPDATE_ACTION tuple;
     FK_DELETE_ACTION := FK_DELETE_ACTION tuple;
     CHECK_EXP_SRC := Some val6; CHECK_EXP_BIN := Some val7 |}.

(** The last statement: insert the tuple. *)
Definition insert (tuple : Tuple) (catalog_table_ : list Tuple)
  : Outcome * list Tuple :=
  let '(result, rows) := InsertTuple tuple catalog_table_ in
  (Returned result, rows).

(** [ConstraintCatalog::InsertConstraint]: the outcome and the rows of
    [pg_constraint] afterwards. *)
Definition InsertConstraint (constraint : Constraint CheckValue)
    (catalog_table_ : list Tuple) : Outcome * list Tuple :=
  (* Common information of constraint *)
  let tuple := common_tuple constraint in
  (* create values by type of constraint *)
  match GetType constraint with
  | PRIMARY | UNIQUE =>
      (* need to set a valid index oid *)
      if GetIndexOid constraint =? INVALID_OID
      then (AssertionFailure, catalog_table_)
      else insert tuple catalog_table_
  | FOREIGN =>
      (* need to set a valid index oid *)
      if GetIndexOid constraint =? INVALID_OID
      then (AssertionFailure, catalog_table_)
      else
        let val6 := IntegerValue (GetFKSinkTableOid constraint) in
        let val7 :=
          VarcharValue (column_ids_string (GetFKSinkColumnIds constraint)) in
        let val8 :=
          VarcharValue
            (FKConstrActionTypeToString (GetFKUpdateAction constraint)) in
        let val9 :=
          VarcharValue
            (FKConstrActionTypeToString (GetFKDeleteAction constraint)) in
        insert (set_foreign_key val6 val7 val8 val9 tuple) catalog_table_
  | CHECK =>
      (* set value of check expression *)
      match GetColumnIds constraint with
      | [column_id] =>
          let exp := GetCheckExpression constraint in
          match GetColumn (GetTableOid constraint) column_id with
          | None => (CatalogException "column not found", catalog_table_)
          | Some (column_name, column_type) =>
              let val6 :=
                VarcharValue
                  (column_name +:+ " " +:+ ExpressionTypeToString exp.1
                   +:+ " " +:+ Value_ToString exp.2) in
              let output_buffer :=
                WriteInt exp.1 ++ WriteInt column_type
                ++ Value_SerializeTo exp.2 in
              let val7 := VarbinaryValue output_buffer in
              insert (set_check val6 val7 tuple) catalog_table_
          end
      | _ => (AssertionFailure, catalog_table_)
      end
  | _ =>
      (* unexpected constraint type *)
      (CatalogException
         ("Unexpected constraint type '"
          +:+ ConstraintTypeToString (GetType constraint)
          +:+ "' appears in insertion into pg_constraint "),
       catalog_table_)
  end.

End InsertConstraint.

(** Whatever does not end in [InsertTuple] leaves [pg_constraint] alone. *)
Lemma InsertConstraint_error_keeps_rows {CheckValue : Type} INVALID_OID
    type_str action_str exp_str value_str WriteInt serialize GetColumn
    InsertTuple (constraint : Constraint CheckValue) rows outcome rows' :
  InsertConstraint INVALID_OID type_str action_str exp_str value_str WriteInt
    serialize GetColumn InsertTuple constraint rows = (outcome, rows') ->
  (forall result, outcome <> Returned result) ->
  rows' = rows.
Proof.
  unfold InsertConstraint, insert. intros Hrun Herror.
  repeat match type of Hrun with
         | context [match ?x with _ => _ end] => destruct x
         | context [if ?x then _ else _] => destruct x
         end;
    injection Hrun as <- <-; try done; by destruct (Herror b).
Qed.


(** *** A sample insertion *)

Definition type_name (type : ConstraintType) : string :=
  match type with
  | INVALID => "INVALID" | NOT_NULL => "NOT_NULL" | DEFAULT => "DEFAULT"
  | CHECK => "CHECK" | PRIMARY => "PRIMARY" | UNIQUE => "UNIQUE"
  | FOREIGN => "FOREIGN" | EXCLUSION => "EXCLUSION"
  end.

Definition action_name (action : FKConstrActionType) : string :=
  match action with
  | FK_INVALID => "INVALID" | NOACTION => "NOACTION" | RESTRICT => "RESTRICT"
  | CASCADE => "CASCADE" | SETNULL => "SETNULL" | SETDEFAULT => "SETDEFAULT"
  end.

(** Four bytes, most significant first. *)
Definition WriteInt_be (n : Z) : list Z :=
  [ (n / 2 ^ 24) mod 256; (n / 2 ^ 16) mod 256; (n / 2 ^ 8) mod 256; n mod 256 ].

Definition emp_GetColumn (table_oid column_id : Z) : option (string * Z) :=
  if (table_oid =? 200) && (column_id =? 0) then Some ("id"%string, 4)
  else None.

Definition append_InsertTuple (tuple : Tuple) (rows : list Tuple)
  : bool * list Tuple :=
  (true, rows ++ [tuple]).



End ConstraintCatalog.

(* ===================================================================== *)
(** ** More on recovery: directory order and the recovery transaction    *)
(* ===================================================================== *)

Module RecoveryFacts.
Import Recovery.

Lemma fold_max_permutation (l1 l2 : list Z) :
  l1 ≡ₚ l2 -> forall m, fold_left Z.max l1 m = fold_left Z.max l2 m.
Proof.
  induction 1 as [| x l1 l2 _ IH | x y l | l1 l2 l3 _ IH1 _ IH2]; intros m.
  - done.
  - simpl. apply IH.
  - simpl. f_equal. lia.
  - by rewrite IH1.
Qed.

(** X1. The epoch that recovery selects does not depend on the order in
    which the directory listing returns the names. *)
Theorem GetRecoveryCheckpointEpoch_order (INVALID_EID : Z) (working : string)
    (names names' : list string) :
  0 <= INVALID_EID ->
  names ≡ₚ names' ->
  GetRecoveryCheckpointEpoch INVALID_EID working (Some names)
  = GetRecoveryCheckpointEpoch INVALID_EID working (Some names').
Proof.
  intros Hinv Hperm. simpl. rewrite !fold_epoch_step by done.
  apply fold_max_permutation. unfold generation_names. by rewrite Hperm.
Qed.

Lemma GetRecoveryCheckpointEpoch_order_witness :
  GetRecoveryCheckpointEpoch 0 "working" (Some ["3"; "working"; "12"]%string)
  = GetRecoveryCheckpointEpoch 0 "working" (Some ["12"; "3"; "working"]%string).
Proof.
  apply (GetRecoveryCheckpointEpoch_order 0 "working"); [lia |].
  change ("3" :: ["working"; "12"] ≡ₚ ["12"; "3"; "working"])%string.
  etrans; [| apply Permutation_swap]. apply Permutation_skip.
  apply Permutation_swap.
Defined.

(** *** The recovery transaction *)

Definition is_insert (ev : TxnEvent) : Prop :=
  exists location, ev = PerformInsert location.

(** A step that only registers inserted tuples with the transaction
    manager. *)
Definition adds_inserts (e e' : Engine) : Prop :=
  exists evs, txn_events e' = txn_events e ++ evs /\ Forall is_insert evs.

Lemma adds_inserts_refl e : adds_inserts e e.
Proof. exists []. by rewrite app_nil_r. Qed.

Lemma adds_inserts_same e e' :
  txn_events e' = txn_events e -> adds_inserts e e'.
Proof. intros H. exists []. by rewrite app_nil_r. Qed.

Lemma adds_inserts_trans e1 e2 e3 :
  adds_inserts e1 e2 -> adds_inserts e2 e3 -> adds_inserts e1 e3.
Proof.
  intros (evs1 & H1 & F1) (evs2 & H2 & F2). exists (evs1 ++ evs2).
  split; [by rewrite H2, H1, app_assoc | by apply Forall_app].
Qed.

Ltac chain_inserts :=
  simpl;
  first [ apply adds_inserts_refl
        | eapply adds_inserts_trans; [eassumption |]; chain_inserts ].

Section Transaction.

Variables INVALID_EID INVALID_OID CATALOG_DATABASE_OID : Z.
Variable working : string.
Variable brain : bool.
Variable ins_tg : TileGroup -> Tuple -> Z * TileGroup.
Variable ins_table : DataTable -> Tuple -> ItemPointer -> bool.

Lemma recover_tuples_inserts tuples : forall tile_group table e,
  adds_inserts e
    (recover_tuples INVALID_OID ins_tg ins_table tuples tile_group table e).2.
Proof.
  induction tuples as [| tuple rest IH]; intros tile_group table e;
    [apply adds_inserts_refl |].
  simpl. destruct (ins_tg tile_group tuple) as [tuple_slot tile_group1].
  simpl. destruct (_ =? INVALID_OID); [by apply adds_inserts_same |].
  destruct (ins_table _ _ _); simpl; [| by apply adds_inserts_same].
  eapply adds_inserts_trans; [| apply IH].
  eexists [_]. split; [done |]. repeat constructor. by eexists.
Qed.

Lemma recover_tile_groups_inserts groups : forall table e,
  adds_inserts e
    (recover_tile_groups INVALID_OID ins_tg ins_table groups table e).2.
Proof.
  induction groups as [| [tile_group tuples] rest IH]; intros table e;
    [apply adds_inserts_refl |].
  simpl.
  pose proof (recover_tuples_inserts tuples tile_group
                (AddTileGroup tile_group table) e) as Hstep.
  destruct (recover_tuples _ _ _ _ _ _ _) as [[go_on table2] e2].
  destruct go_on; [| exact Hstep].
  eapply adds_inserts_trans; [exact Hstep | apply IH].
Qed.

Lemma LoadTableCheckpointFile_inserts fs table epoch_id e :
  adds_inserts e
    (LoadTableCheckpointFile INVALID_OID ins_tg ins_table fs table epoch_id e).2.
Proof.
  unfold LoadTableCheckpointFile.
  destruct (table_files fs !! _) as [file |]; [| by apply adds_inserts_same].
  unfold RecoverTableData.
  destruct (table_file_readable file); simpl; [| by apply adds_inserts_same].
  pose proof (recover_tile_groups_inserts (table_file_tile_groups file)
                (DropTileGroups table) e) as Hstep.
  by destruct (recover_tile_groups _ _ _ _ _ _) as [[go_on table2] e2].
Qed.

Lemma load_tables_inserts fs epoch_id db_idx table_idxs : forall e,
  adds_inserts e
    (load_tables INVALID_OID ins_tg ins_table fs epoch_id db_idx table_idxs e).2.
Proof.
  induction table_idxs as [| table_idx rest IH]; intros e;
    [apply adds_inserts_refl |].
  simpl. destruct (_ ≫= _) as [table |]; [| apply adds_inserts_refl].
  pose proof (LoadTableCheckpointFile_inserts fs table epoch_id e) as Hstep.
  destruct (LoadTableCheckpointFile _ _ _ _ _ _ _) as [[ok table1] e1].
  simpl in Hstep.
  assert (Hstore : adds_inserts e (store_table db_idx table_idx table1 e1)).
  { eapply adds_inserts_trans; [exact Hstep | by apply adds_inserts_same]. }
  destruct ok; simpl; [| exact Hstore].
  eapply adds_inserts_trans; [exact Hstore | apply IH].
Qed.

Lemma load_databases_inserts fs epoch_id db_idxs : forall e,
  adds_inserts e
    (load_databases INVALID_OID CATALOG_DATABASE_OID ins_tg ins_table fs
       epoch_id db_idxs e).2.
Proof.
  induction db_idxs as [| db_idx rest IH]; intros e;
    [apply adds_inserts_refl |].
  simpl. destruct (databases e !! db_idx) as [database |];
    [| apply adds_inserts_refl].
  destruct (_ =? CATALOG_DATABASE_OID); [apply IH |].
  pose proof (load_tables_inserts fs epoch_id db_idx
                (seq 0 (length (tables database))) e) as Hstep.
  destruct (load_tables _ _ _ _ _ _ _ _) as [ok e1].
  destruct ok; simpl; [| exact Hstep].
  eapply adds_inserts_trans; [exact Hstep | apply IH].
Qed.

Lemma recover_databases_events dbs : forall e,
  txn_events (recover_databases dbs e).2 = txn_events e.
Proof.
  induction dbs as [| [db |] rest IH]; intros e; simpl; [done | | done].
  by rewrite IH.
Qed.

Lemma LoadUserTableCheckpoint_inserts fs epoch_id e :
  adds_inserts e
    (LoadUserTableCheckpoint INVALID_OID CATALOG_DATABASE_OID ins_tg ins_table
       fs epoch_id e).2.
Proof.
  unfold LoadUserTableCheckpoint.
  destruct (catalog_files fs !! epoch_id) as [catalog_file |];
    [| by apply adds_inserts_same].
  assert (Hcat : txn_events (RecoverCatalogObject catalog_file e).2
                 = txn_events e).
  { unfold RecoverCatalogObject.
    destruct (catalog_file_readable catalog_file); simpl; [| done].
    apply recover_databases_events. }
  destruct (RecoverCatalogObject catalog_file e) as [ok e1]. simpl in Hcat.
  destruct ok; simpl; [| by apply adds_inserts_same].
  eapply adds_inserts_trans; [by apply adds_inserts_same |].
  apply load_databases_inserts.
Qed.

Lemma load_catalog_table_inserts fs epoch_id get set e :
  adds_inserts e
    (load_catalog_table INVALID_OID ins_tg ins_table fs epoch_id get set e).2.
Proof.
  unfold load_catalog_table.
  pose proof (LoadTableCheckpointFile_inserts fs (get (catalog_tables e))
                epoch_id e) as Hstep.
  destruct (LoadTableCheckpointFile _ _ _ _ _ _ _) as [[ok table1] e1].
  simpl in *. eapply adds_inserts_trans; [exact Hstep |].
  by apply adds_inserts_same.
Qed.

Lemma LoadCatalogTableCheckpoint_inserts fs epoch_id e :
  adds_inserts e
    (LoadCatalogTableCheckpoint INVALID_OID brain ins_tg ins_table fs
       epoch_id e).2.
Proof.
  unfold LoadCatalogTableCheckpoint.
  repeat
    (match goal with
     | |- context [load_catalog_table ?a ?b ?c ?fs ?ep ?get ?set ?e0] =>
         let H := fresh "Hstep" in
         pose proof (load_catalog_table_inserts fs ep get set e0) as H;
         destruct (load_catalog_table a b c fs ep get set e0) as [[] ?];
         simpl in H |- *
     | |- context [if brain then _ else _] => destruct brain
     end);
    chain_inserts.
Qed.

Lemma LOG_ERRORS_engine msgs : forall e,
  databases (LOG_ERRORS msgs e) = databases e
  /\ catalog_tables (LOG_ERRORS msgs e) = catalog_tables e
  /\ txn_events (LOG_ERRORS msgs e) = txn_events e
  /\ error_log (LOG_ERRORS msgs e) = error_log e ++ msgs.
Proof.
  induction msgs as [| msg rest IH]; intros e; simpl.
  - by rewrite app_nil_r.
  - destruct (IH (LOG_ERROR msg e)) as (-> & -> & -> & ->). simpl.
    by rewrite <- app_assoc.
Qed.

(** X2. For a checkpoint whose files hold what deserializes (a
    [TableFile] or [CatalogFile]; an exception out of a deserializer of a
    table file, for which [RecoverTableData] has no handler, is not
    covered), [DoCheckpointRecovery] runs in one of two ways.  Either
    [GetRecoveryCheckpointEpoch] gives [INVALID_EID]: the result is false,
    no call is made on the transaction manager, storage and catalog tables
    are as they were, and the error log has grown by the lines of
    [GetRecoveryCheckpointEpoch], which is the one line "Failed to get
    directory list" when the listing failed.  Or the transaction manager
    is called in this shape: one [BeginTransaction], then only
    [PerformInsert]s, then one last call, which is [CommitTransaction]
    exactly when the result is true and [AbortTransaction] otherwise. *)
Theorem DoCheckpointRecovery_transaction (fs : FileSystem) (e : Engine) :
  let run :=
    DoCheckpointRecovery INVALID_EID INVALID_OID CATALOG_DATABASE_OID working
      brain ins_tg ins_table fs e in
  ((GetRecoveryCheckpointEpoch INVALID_EID working (directory_list fs)
    = INVALID_EID
    /\ run.1 = false
    /\ txn_events run.2 = txn_events e
    /\ databases run.2 = databases e
    /\ catalog_tables run.2 = catalog_tables e
    /\ error_log run.2
       = error_log e
         ++ GetRecoveryCheckpointEpoch_errors INVALID_EID working
              (directory_list fs))
   \/ (GetRecoveryCheckpointEpoch INVALID_EID working (directory_list fs)
       <> INVALID_EID
       /\ exists inserts,
            Forall is_insert inserts
            /\ txn_events run.2
               = txn_events e ++ [BeginTransaction] ++ inserts
                 ++ [if run.1 then CommitTransaction else AbortTransaction]))
  /\ (directory_list fs = None ->
      run = (false, LOG_ERROR "Failed to get directory list" e)).
Proof.
  intros run. subst run. split; cycle 1.
  { intros Hnone. unfold DoCheckpointRecovery. rewrite Hnone. simpl.
    by rewrite Z.eqb_refl. }
  unfold DoCheckpointRecovery.
  pose proof (LOG_ERRORS_engine
                (GetRecoveryCheckpointEpoch_errors INVALID_EID working
                   (directory_list fs)) e) as (Hdbs & Hcat & Hevs & Hlog).
  set (e_logged := LOG_ERRORS _ e) in *.
  destruct (_ =? INVALID_EID) eqn:Hepoch.
  - left. split; [by apply Z.eqb_eq |]. by repeat split.
  - right. split; [by apply Z.eqb_neq |].
    set (e0 := txn_call BeginTransaction e_logged).
    set (epoch_id := GetRecoveryCheckpointEpoch _ _ _).
    pose proof (LoadUserTableCheckpoint_inserts fs epoch_id e0)
      as (evs1 & Hev1 & Hins1).
    destruct (LoadUserTableCheckpoint _ _ _ _ _ _ _) as [ok1 e1].
    simpl in Hev1.
    destruct ok1; simpl.
    + pose proof (LoadCatalogTableCheckpoint_inserts fs epoch_id e1)
        as (evs2 & Hev2 & Hins2).
      destruct (LoadCatalogTableCheckpoint _ _ _ _ _ _ _) as [ok2 e2].
      simpl in Hev2. exists (evs1 ++ evs2). split; [by apply Forall_app |].
      destruct ok2; simpl; rewrite Hev2, Hev1; subst e0; simpl;
        by rewrite Hevs, <- !app_assoc.
    + exists evs1. split; [done |]. rewrite Hev1. subst e0. simpl.
      by rewrite Hevs, <- !app_assoc.
Qed.

End Transaction.

(** *** Loading one table file *)

Section Loading.

Variable INVALID_OID : Z.
Variable ins_tg : TileGroup -> Tuple -> Z * TileGroup.
Variable ins_table : DataTable -> Tuple -> ItemPointer -> bool.

(** A tile group after the tuples were inserted one by one. *)
Fixpoint filled (tile_group : TileGroup) (tuples : list Tuple) : TileGroup :=
  match tuples with
  | [] => tile_group
  | tuple :: rest => filled (ins_tg tile_group tuple).2 rest
  end.

(** The locations these insertions give, in order. *)
Fixpoint inserted_at (tile_group : TileGroup) (tuples : list Tuple)
  : list ItemPointer :=
  match tuples with
  | [] => []
  | tuple :: rest =>
      {| block := tile_group_id (ins_tg tile_group tuple).2;
         offset := (ins_tg tile_group tuple).1 |}
      :: inserted_at (ins_tg tile_group tuple).2 rest
  end.

Hypothesis keeps_id :
  forall tile_group tuple,
    tile_group_id (ins_tg tile_group tuple).2 = tile_group_id tile_group.
Hypothesis table_accepts :
  forall table tuple location, ins_table table tuple location = true.

Lemma recover_tuples_all tuples : forall tile_group table e earlier,
  tile_group_id tile_group <> INVALID_OID ->
  tile_groups table = earlier ++ [tile_group] ->
  exists table',
    recover_tuples INVALID_OID ins_tg ins_table tuples tile_group table e
    = (true, table',
       {| databases := databases e; catalog_tables := catalog_tables e;
          txn_events :=
            txn_events e ++ map PerformInsert (inserted_at tile_group tuples);
          error_log := error_log e |})
    /\ tile_groups table' = earlier ++ [filled tile_group tuples]
    /\ locations table' = locations table ++ inserted_at tile_group tuples.
Proof.
  induction tuples as [| tuple rest IH];
    intros tile_group table e earlier Hvalid Hlast.
  - exists table. simpl. rewrite !app_nil_r. by destruct e.
  - simpl. pose proof (keeps_id tile_group tuple) as Hid.
    destruct (ins_tg tile_group tuple) as [tuple_slot tile_group1].
    simpl in *. rewrite <- Hid in Hvalid.
    rewrite (proj2 (Z.eqb_neq _ _) Hvalid), table_accepts. simpl.
    edestruct (IH tile_group1
                 (register_location
                    {| block := tile_group_id tile_group1;
                       offset := tuple_slot |}
                    (store_last_tile_group tile_group1 table))
                 (txn_call
                    (PerformInsert
                       {| block := tile_group_id tile_group1;
                          offset := tuple_slot |}) e) earlier)
      as (table' & Hrun & Hgroups & Hlocs); [done | |].
    { simpl. by rewrite Hlast, removelast_last. }
    exists table'. rewrite Hrun. simpl in *.
    by rewrite <- !app_assoc, Hgroups, Hlocs, <- app_assoc.
Qed.

Lemma recover_tile_groups_all (groups : list (TileGroup * list Tuple)) :
  Forall (fun g => tile_group_id g.1 <> INVALID_OID) groups ->
  forall table e,
  exists table',
    recover_tile_groups INVALID_OID ins_tg ins_table groups table e
    = (true, table',
       {| databases := databases e; catalog_tables := catalog_tables e;
          txn_events :=
            txn_events e
            ++ map PerformInsert
                 (flat_map (fun g => inserted_at g.1 g.2) groups);
          error_log := error_log e |})
    /\ tile_groups table'
       = tile_groups table ++ map (fun g => filled g.1 g.2) groups
    /\ locations table'
       = locations table ++ flat_map (fun g => inserted_at g.1 g.2) groups.
Proof.
  induction 1 as [| [tile_group tuples] rest Hvalid _ IH]; intros table e.
  - exists table. simpl. rewrite !app_nil_r. by destruct e.
  - simpl.
    destruct (recover_tuples_all tuples tile_group
                (AddTileGroup tile_group table) e (tile_groups table))
      as (table1 & Hrun1 & Hgroups1 & Hlocs1); [done | done |].
    rewrite Hrun1.
    edestruct (IH table1) as (table' & Hrun & Hgroups & Hlocs).
    exists table'. rewrite Hrun. simpl in *.
    by rewrite Hgroups, Hgroups1, Hlocs, Hlocs1, map_app, <- !app_assoc.
Qed.

(** X3. When the tile groups of a readable table file have valid ids and
    the table accepts every tuple, [RecoverTableData] loads the whole
    file, whatever slot [TileGroup::InsertTuple] returns (the test after it
    looks at the tile group id only): the table's former tile groups are
    replaced by the file's, each filled with its tuples in file order; one
    location per tuple is registered with the table and, in the same
    order, with the transaction manager; nothing is logged as an error. *)
Theorem RecoverTableData_loads_file (table : DataTable) (file : TableFile)
    (e : Engine) :
  table_file_readable file = true ->
  Forall (fun g => tile_group_id g.1 <> INVALID_OID)
    (table_file_tile_groups file) ->
  let run := RecoverTableData INVALID_OID ins_tg ins_table table file e in
  let new_locations :=
    flat_map (fun g => inserted_at g.1 g.2) (table_file_tile_groups file) in
  tile_groups run.1
  = map (fun g => filled g.1 g.2) (table_file_tile_groups file)
  /\ locations run.1 = locations table ++ new_locations
  /\ txn_events run.2 = txn_events e ++ map PerformInsert new_locations
  /\ error_log run.2 = error_log e
  /\ length new_locations
     = sum_list (map (fun g => length g.2) (table_file_tile_groups file)).
Proof.
  intros Hread Hvalid run new_locations. subst run new_locations.
  unfold RecoverTableData. rewrite Hread. simpl.
  destruct (recover_tile_groups_all (table_file_tile_groups file) Hvalid
              (DropTileGroups table) e) as (table' & Hrun & Hgroups & Hlocs).
  rewrite Hrun. simpl in *. repeat split; try done.
  clear. induction (table_file_tile_groups file) as [| [tg tuples] rest IH];
    simpl; [done |].
  rewrite length_app, IH. f_equal.
  clear. revert tg. induction tuples as [| tuple more IH]; intros tg; simpl;
    [done | by rewrite IH].
Qed.

End Loading.

(** A file of two tile groups; the first has a single slot for its two
    tuples. *)
Definition two_group_file : TableFile :=
  {| table_file_readable := true;
     table_file_tile_groups :=
       [ ({| tile_group_id := 7; num_tuple_slots := 1;
             tile_group_tuples := [] |}, [[10; 1]; [11; 2]]);
         ({| tile_group_id := 8; num_tuple_slots := 5;
             tile_group_tuples := [] |}, [[12; 3]]) ] |}.

Lemma RecoverTableData_loads_file_witness :
  locations
    (RecoverTableData peloton_INVALID_OID slots_TileGroup_InsertTuple
       (fun _ _ _ => true)
       (AddTileGroup default_tile_group (empty_table "emp_db" "emp" 200))
       two_group_file cold_engine).1
  = [ {| block := 7; offset := 0 |};
      {| block := 7; offset := peloton_INVALID_OID |};
      {| block := 8; offset := 0 |} ].
Proof.
  refine (proj1 (proj2
            (RecoverTableData_loads_file peloton_INVALID_OID
               slots_TileGroup_InsertTuple (fun _ _ _ => true) _ _
               (AddTileGroup default_tile_group
                  (empty_table "emp_db" "emp" 200))
               two_group_file cold_engine _ _))).
  - intros tile_group tuple. unfold slots_TileGroup_InsertTuple.
    by destruct (_ <? _)%nat.
  - reflexivity.
  - reflexivity.
  - repeat constructor; by vm_compute.
Defined.

End RecoveryFacts.

(* ===================================================================== *)
(** ** What a table checkpoint file holds                                *)
(* ===================================================================== *)

Module CheckpointingFacts.
Import Visibility Checkpointing.

(** *** The reads of [RecoverTableData]

    The order in which [RecoverTableData] takes items from its input
    buffer: [ReadLong] for the tile-group count; per tile group
    [TileGroup::DeserializeFrom], [ReadLong] for the number of tuples, and
    per tuple one [Value::DeserializeFrom] per column of the schema.  The
    result pairs each tile-group id with its tuples and gives the rest of
    the input; [None] stands for a read that does not find its item. *)

(** The column loop. *)
Fixpoint read_values (column_count : nat) (input : list Item)
  : option (list Z * list Item) :=
  match column_count with
  | O => Some ([], input)
  | S columns =>
      match input with
      | ColumnValue value :: input1 =>
          '(values, input2) ← read_values columns input1;
          Some (value :: values, input2)
      | _ => None
      end
  end.

(** The tuple loop. *)
Fixpoint read_tuples (visible_tuple_count column_count : nat)
    (input : list Item) : option (list (list Z) * list Item) :=
  match visible_tuple_count with
  | O => Some ([], input)
  | S tuples =>
      '(tuple, input1) ← read_values column_count input;
      '(rest, input2) ← read_tuples tuples column_count input1;
      Some (tuple :: rest, input2)
  end.

(** The tile-group loop. *)
Fixpoint read_tile_groups (tile_group_count column_count : nat)
    (input : list Item) : option (list (Z * list (list Z)) * list Item) :=
  match tile_group_count with
  | O => Some ([], input)
  | S groups =>
      match input with
      | TileGroupStructure id :: Long visible_tuple_count :: input1 =>
          '(tuples, input2) ←
            read_tuples (Z.to_nat visible_tuple_count) column_count input1;
          '(rest, input3) ← read_tile_groups groups column_count input2;
          Some ((id, tuples) :: rest, input3)
      | _ => None
      end
  end.

Definition read_table_data (column_count : nat) (input : list Item)
  : option (list (Z * list (list Z)) * list Item) :=
  match input with
  | Long tile_group_count :: input1 =>
      read_tile_groups (Z.to_nat tile_group_count) column_count input1
  | _ => None
  end.

Lemma read_values_app (values : list Z) (rest : list Item) :
  read_values (length values) ((ColumnValue <$> values) ++ rest)
  = Some (values, rest).
Proof.
  induction values as [| value more IH]; csimpl; [done |]. by rewrite IH.
Qed.

Lemma read_tuples_app (column_count : nat) (tuples : list (list Z))
    (rest : list Item) :
  Forall (fun tuple => length tuple = column_count) tuples ->
  read_tuples (length tuples) column_count
    (flat_map (fmap ColumnValue) tuples ++ rest)
  = Some (tuples, rest).
Proof.
  induction 1 as [| tuple more Hlen _ IH]; simpl; [done |].
  rewrite <- app_assoc, <- Hlen, read_values_app. simpl.
  rewrite Hlen, IH. done.
Qed.

Section TableFile.

Variables INVALID_TXN_ID INITIAL_TXN_ID MAX_CID : Z.
Variable faults : Faults.
Variable file_name : string.
Variable table : DataTable.
Variable begin_cid : Z.

(** What the loop appends to the buffer for one tile group. *)
Definition output (tile_group : TileGroup) : list Item :=
  tile_group_output INVALID_TXN_ID INITIAL_TXN_ID MAX_CID table tile_group
    begin_cid.

(** What the failing write, the one after [k] good ones, leaves in the
    file: a part of its buffer, which holds [buffer] when it is the first
    write and the output of tile group [k]. *)
Definition torn_part (groups : list TileGroup) (k : nat)
    (buffer : list Item) (writes : nat) : list Item :=
  match groups !! k with
  | Some tile_group =>
      torn_write faults file_name (writes + k)
        (match k with O => buffer | S _ => [] end ++ output tile_group)
  | None => []
  end.

(** The tile-group loop when its first [k] writes succeed and the next one,
    if there is a tile group left for it, fails. *)
Lemma checkpoint_tile_groups_run (groups : list TileGroup) :
  forall (k : nat) buffer writes file st,
  (k <= length groups)%nat ->
  (forall i, (i < k)%nat -> write_fails faults file_name (writes + i) = false) ->
  ((k < length groups)%nat -> write_fails faults file_name (writes + k) = true) ->
  checkpoint_tile_groups INVALID_TXN_ID INITIAL_TXN_ID MAX_CID faults
    file_name table begin_cid groups buffer writes file st
  = (bool_decide (k = length groups),
     {| written :=
          written file
          ++ match k with
             | O => []
             | S _ =>
                 buffer
                 ++ flat_map output (take k groups)
             end
          ++ torn_part groups k buffer writes;
        flushed := flushed file |},
     if bool_decide (k = length groups) then st
     else LOG_ERROR "Write error" st).
Proof.
  induction groups as [| tile_group rest IH];
    intros k buffer writes file st Hk Hgood Hbad.
  - simpl in Hk. assert (k = O) as -> by lia. simpl.
    rewrite app_nil_r. by destruct file.
  - destruct k as [| k'].
    + simpl. rewrite <- (Nat.add_0_r writes) at 1.
      rewrite Hbad by (simpl; lia). unfold torn_part. simpl.
      by rewrite Nat.add_0_r.
    + cbn [checkpoint_tile_groups]. rewrite <- (Nat.add_0_r writes) at 1.
      rewrite Hgood by lia.
      rewrite (IH k').
      * assert (Hdec : bool_decide (k' = length rest)
                       = bool_decide (S k' = length (tile_group :: rest))).
        { apply bool_decide_ext. simpl. lia. }
        assert (Htorn : torn_part rest k' [] (S writes)
                        = torn_part (tile_group :: rest) (S k') buffer writes).
        { unfold torn_part. simpl. destruct (rest !! k'); [| done].
          rewrite Nat.add_succ_r. by destruct k'. }
        rewrite Hdec, Htorn. f_equal. f_equal. cbn [written flushed].
        f_equal. cbn [take flat_map]. fold (output tile_group).
        rewrite <- !app_assoc. do 3 f_equal.
        by destruct k'.
      * simpl in Hk. lia.
      * intros i Hi. rewrite Nat.add_succ_comm. apply Hgood. lia.
      * intros Hlt. rewrite Nat.add_succ_comm. apply Hbad. simpl. lia.
Qed.

(** X4. What [CheckpointingTableData] leaves in the file when the first
    [k] writes succeed and the next one, if a tile group is left, fails.
    The good writes give nothing for [k = 0] (the tile-group count waits
    in the buffer for the first write, so a table without tile groups
    gets an empty file), otherwise the count of all tile groups followed
    by the first [k] tile groups whole.  After these comes what the
    failing [fwrite] left of its buffer, which holds tile group [k] and,
    for [k = 0], the count before it: the file can end anywhere inside
    that tile group.  The file is flushed, and no error is logged, exactly
    when every tile group was written; a failing write ends the loop, so
    no later tile group reaches the file. *)
Theorem CheckpointingTableData_writes (k : nat) (file : CheckpointFile)
    (st : State) :
  (k <= length (tile_groups table))%nat ->
  (forall i, (i < k)%nat -> write_fails faults file_name i = false) ->
  ((k < length (tile_groups table))%nat ->
   write_fails faults file_name k = true) ->
  CheckpointingTableData INVALID_TXN_ID INITIAL_TXN_ID MAX_CID faults
    file_name table begin_cid file st
  = ({| written :=
          written file
          ++ match k with
             | O => []
             | S _ =>
                 Long (Z.of_nat (length (tile_groups table)))
                 :: flat_map output (take k (tile_groups table))
             end
          ++ match tile_groups table !! k with
             | Some tile_group =>
                 torn_write faults file_name k
                   (match k with
                    | O => [Long (Z.of_nat (length (tile_groups table)))]
                    | S _ => []
                    end ++ output tile_group)
             | None => []
             end;
        flushed :=
          if bool_decide (k = length (tile_groups table)) then true
          else flushed file |},
     if bool_decide (k = length (tile_groups table)) then st
     else LOG_ERROR "Write error" st).
Proof.
  intros Hk Hgood Hbad. unfold CheckpointingTableData.
  rewrite (checkpoint_tile_groups_run (tile_groups table) k); [| done ..].
  unfold torn_part. simpl. by destruct (bool_decide _).
Qed.

(** The tuples of a tile group that the checkpoint keeps, as rows of
    column values. *)
Definition visible_rows (tile_group : TileGroup) : list (list Z) :=
  (fun tuple_id =>
     GetValue tile_group tuple_id <$> (Z.of_nat <$> seq 0 (column_count table)))
  <$> visible_tuples INVALID_TXN_ID INITIAL_TXN_ID MAX_CID tile_group begin_cid.

Lemma output_rows (tile_group : TileGroup) :
  output tile_group
  = [TileGroupStructure (tile_group_id tile_group);
     Long (Z.of_nat (length (visible_rows tile_group)))]
    ++ flat_map (fmap ColumnValue) (visible_rows tile_group).
Proof.
  unfold output, tile_group_output, visible_rows.
  rewrite length_fmap. f_equal.
  induction (visible_tuples _ _ _ _ _) as [| tuple_id more IH]; csimpl;
    [done |].
  rewrite IH. f_equal.
  exact (list_fmap_compose (GetValue tile_group tuple_id) ColumnValue _).
Qed.

Lemma visible_rows_width (tile_group : TileGroup) :
  Forall (fun tuple => length tuple = column_count table)
    (visible_rows tile_group).
Proof.
  unfold visible_rows. apply Forall_fmap, Forall_forall. intros tuple_id _.
  simpl. by rewrite !length_fmap, length_seq.
Qed.

Lemma read_tile_groups_output (groups : list TileGroup) (rest : list Item) :
  read_tile_groups (length groups) (column_count table)
    (flat_map output groups ++ rest)
  = Some ((fun tg => (tile_group_id tg, visible_rows tg)) <$> groups, rest).
Proof.
  induction groups as [| tile_group more IH]; [done |].
  cbn [length flat_map fmap list_fmap]. rewrite output_rows.
  cbn [app read_tile_groups]. rewrite Nat2Z.id, <- app_assoc.
  rewrite read_tuples_app by apply visible_rows_width. csimpl.
  by rewrite IH.
Qed.

(** X5. A table file whose writes all succeeded reads back: on what
    [CheckpointingTableData] wrote for a table with at least one tile
    group, the reads of [RecoverTableData] find every item they ask for,
    use up the file, and yield the table's tile groups in order, each with
    exactly its visible tuples in slot order and their column values. *)
Theorem CheckpointingTableData_reads_back (st : State) :
  tile_groups table <> [] ->
  (forall i, (i < length (tile_groups table))%nat ->
             write_fails faults file_name i = false) ->
  read_table_data (column_count table)
    (written
       (CheckpointingTableData INVALID_TXN_ID INITIAL_TXN_ID MAX_CID faults
          file_name table begin_cid {| written := []; flushed := false |}
          st).1)
  = Some ((fun tg => (tile_group_id tg, visible_rows tg)) <$> tile_groups table,
          []).
Proof.
  intros Hgroups Hgood. unfold CheckpointingTableData.
  rewrite (checkpoint_tile_groups_run (tile_groups table)
             (length (tile_groups table))); [| done | done | lia].
  rewrite bool_decide_true by done. unfold torn_part.
  rewrite (lookup_ge_None_2 (tile_groups table) (length (tile_groups table)))
    by lia.
  rewrite app_nil_r. simpl.
  destruct (tile_groups table) as [| tile_group more] eqn:E; [done |].
  rewrite firstn_all. cbn [length app read_table_data].
  rewrite Nat2Z.id, <- (app_nil_r (flat_map _ _)).
  exact (read_tile_groups_output (tile_group :: more) []).
Qed.

End TableFile.

Lemma CheckpointingTableData_writes_witness :
  CheckpointingTableData peloton_INVALID_TXN_ID peloton_INITIAL_TXN_ID
    peloton_MAX_CID emp_torn_write_fault "emp_db.emp.tbl" emp_table 6
    {| written := []; flushed := false |} sample_state
  = ({| written := [Long 2; TileGroupStructure 11; Long 1;
                    ColumnValue 0; ColumnValue 1; TileGroupStructure 12];
        flushed := false |},
     LOG_ERROR "Write error" sample_state).
Proof.
  rewrite (CheckpointingTableData_writes peloton_INVALID_TXN_ID
             peloton_INITIAL_TXN_ID peloton_MAX_CID emp_torn_write_fault
             "emp_db.emp.tbl" emp_table 6 1).
  - reflexivity.
  - simpl. lia.
  - intros i Hi. assert (i = O) as -> by lia. reflexivity.
  - reflexivity.
Defined.

Lemma CheckpointingTableData_reads_back_witness :
  read_table_data 2
    (written
       (CheckpointingTableData peloton_INVALID_TXN_ID peloton_INITIAL_TXN_ID
          peloton_MAX_CID no_faults "emp_db.emp.tbl" emp_table 6
          {| written := []; flushed := false |} sample_state).1)
  = Some ([(11, [[0; 1]]); (12, [[500; 501]])], []).
Proof.
  refine (CheckpointingTableData_reads_back peloton_INVALID_TXN_ID
            peloton_INITIAL_TXN_ID peloton_MAX_CID no_faults "emp_db.emp.tbl"
            emp_table 6 sample_state _ _).
  - discriminate.
  - reflexivity.
Defined.

(** *** The catalog file *)

Section CatalogFile.

Variables INVALID_TXN_ID INITIAL_TXN_ID MAX_CID CATALOG_DATABASE_OID : Z.
Variable working : string.
Variable faults : Faults.

(** The databases that the database loop of [CreateUserTableCheckpoint]
    takes: known to the catalog in this transaction, and not the catalog
    database. *)
Definition checkpointed (database : Database) : bool :=
  database_in_catalog database
  && negb (database_oid database =? CATALOG_DATABASE_OID).

Lemma checkpoint_databases_targets databases begin_cid :
  forall target_dbs st,
  (fold_left
     (fun '(target_dbs, st) database =>
        if database_in_catalog database
           && negb (database_oid database =? CATALOG_DATABASE_OID)
        then (target_dbs ++ [database_oid database],
              checkpoint_tables INVALID_TXN_ID INITIAL_TXN_ID MAX_CID working
                faults (tables database) begin_cid st)
        else (target_dbs, st))
     databases (target_dbs, st)).1
  = target_dbs ++ (database_oid <$> List.filter checkpointed databases).
Proof.
  induction databases as [| db rest IH]; intros target_dbs st; simpl;
    [by rewrite app_nil_r |].
  unfold checkpointed at 1. destruct (_ && _); rewrite IH; [| done].
  by rewrite <- app_assoc.
Qed.

(** X6. When the catalog file can be opened and written,
    [CreateUserTableCheckpoint] leaves it in the working directory,
    flushed, holding the number of checkpointed databases and then one
    database object per such database, in storage order: the databases
    the catalog knows in this transaction, the catalog database left out.
    This does not depend on what happened to the table files. *)
Theorem CreateUserTableCheckpoint_catalog_file (databases : list Database)
    (begin_cid : Z) (st : State) :
  is_Some (disk st !! working) ->
  open_fails faults catalog_file_name = false ->
  write_fails faults catalog_file_name 0 = false ->
  let target_dbs := database_oid <$> List.filter checkpointed databases in
  disk (CreateUserTableCheckpoint INVALID_TXN_ID INITIAL_TXN_ID MAX_CID
          CATALOG_DATABASE_OID working faults databases begin_cid st)
    !! working ≫= (.!! catalog_file_name)
  = Some {| written := Long (Z.of_nat (length target_dbs))
                       :: (DatabaseObject <$> target_dbs);
            flushed := true |}
  /\ (CATALOG_DATABASE_OID ∉ target_dbs)
  /\ (forall oid, oid ∈ target_dbs ->
       exists database, database ∈ databases
                        /\ database_oid database = oid
                        /\ database_in_catalog database = true).
Proof.
  intros Hworking Hopen Hwrite target_dbs. subst target_dbs.
  split; [| split].
  - unfold CreateUserTableCheckpoint, checkpoint_databases.
    pose proof (keeps_working_databases INVALID_TXN_ID INITIAL_TXN_ID MAX_CID
                  CATALOG_DATABASE_OID working faults databases begin_cid []
                  st Hworking) as [generation Hgeneration].
    pose proof (checkpoint_databases_targets databases begin_cid [] st)
      as Htargets.
    destruct (fold_left _ databases ([], st)) as [target_dbs st1].
    simpl in Hgeneration, Htargets. subst target_dbs.
    rewrite Hopen. unfold CheckpointingCatalogObject. rewrite Hwrite. simpl.
    rewrite lookup_alter_eq, Hgeneration. simpl. by rewrite lookup_insert_eq.
  - intros Hin. apply list_elem_of_fmap in Hin as (db & Hoid & Hin).
    apply list_elem_of_In, filter_In in Hin as [_ Hkept].
    unfold checkpointed in Hkept. rewrite <- Hoid, Z.eqb_refl in Hkept.
    by destruct (database_in_catalog db).
  - intros oid Hin. apply list_elem_of_fmap in Hin as (db & Hoid & Hin).
    apply list_elem_of_In, filter_In in Hin as [Hin Hkept].
    exists db. split; [by apply list_elem_of_In |]. split; [done |].
    unfold checkpointed in Hkept. by destruct (database_in_catalog db).
Qed.

End CatalogFile.

Lemma CreateUserTableCheckpoint_catalog_file_witness :
  disk (CreateUserTableCheckpoint peloton_INVALID_TXN_ID
          peloton_INITIAL_TXN_ID peloton_MAX_CID (2 ^ 24) "working"
          emp_open_fault sample_databases 6 sample_state)
    !! "working"%string ≫= (.!! catalog_file_name)
  = Some {| written := [Long 1; DatabaseObject 100]; flushed := true |}.
Proof.
  refine (proj1
            (CreateUserTableCheckpoint_catalog_file peloton_INVALID_TXN_ID
               peloton_INITIAL_TXN_ID peloton_MAX_CID (2 ^ 24) "working"
               emp_open_fault sample_databases 6 sample_state _ _ _)).
  - vm_compute. by eexists.
  - reflexivity.
  - reflexivity.
Defined.

End CheckpointingFacts.

(* ===================================================================== *)
(** ** The catalog: index creation and the drop family by name           *)
(* ===================================================================== *)

Module CatalogFacts.
Import Catalog.

(** Modelled from the spec: [TableCatalogEntry::GetIndexCatalogEntry] by
    name, the look-up behind "verify no existing index of the same name
    exists on that table". *)
Definition GetIndexCatalogEntry_by_name (database_oid table_oid : Z)
    (index_name : string) : M (option IndexCatalogEntry) :=
  fun st =>
    (Return (find (fun row => (idxrow_table_oid row =? table_oid)
                              && String.eqb (idxrow_name row) index_name)
               (pg_index (rows_of database_oid st))), st).

(** Modelled from the spec: [DatabaseCatalog::GetDatabaseCatalogEntry] by
    name and [DatabaseCatalogEntry::GetTableCatalogEntry] by table and
    schema name; null when no row is visible. *)
Definition GetDatabaseCatalogEntry_by_name (database_name : string)
  : M (option DatabaseCatalogEntry) :=
  fun st =>
    (Return (find (fun row => String.eqb (dbrow_name row) database_name)
               (pg_database st)), st).

Definition GetTableCatalogEntry_by_name (database_oid : Z)
    (table_name schema_name : string) : M (option TableCatalogEntry) :=
  fun st =>
    (Return (find (fun row => String.eqb (tblrow_name row) table_name
                              && String.eqb (tblrow_schema_name row) schema_name)
               (pg_table (rows_of database_oid st))), st).

(** The block of [CreateIndex] under [is_catalog == false]: check if the
    table already has an index with the same name. *)
Definition check_index_name (database_oid table_oid : Z) (index_name : string)
  : M unit :=
  let! database_object := GetDatabaseCatalogEntry database_oid in
  match database_object with
  | None => null_dereference
  | Some _ =>
      let! table_object := GetTableCatalogEntry database_oid table_oid in
      match table_object with
      | None => null_dereference
      | Some _ =>
          let! index_object :=
            GetIndexCatalogEntry_by_name database_oid table_oid index_name in
          match index_object with
          | Some _ => throw "Index already exists"
          | None => ret tt
          end
      end
  end.

(** [Catalog::CreateIndex], the overload that takes oids. *)
Definition CreateIndex (txn : option TransactionContext) (database_oid : Z)
    (schema_name : string) (table_oid : Z) (is_catalog : bool)
    (index_name : string) (key_attrs : list Z) (unique_keys : bool)
    (index_type : IndexType) (index_constraint : IndexConstraintType)
  : M ResultType :=
  match txn with
  | None => throw "Do not have transaction to create index"
  | Some _ =>
      exec (if negb is_catalog
            then check_index_name database_oid table_oid index_name
            else ret tt) then
      let! table := GetTableWithOid database_oid table_oid in
      let schema := table_schema table in
      (* Passed all checks, now get all index metadata *)
      let! index_oid := IndexCatalog_GetNextOid database_oid in
      let key_schema := CopySchema schema key_attrs in
      (* Set index metadata *)
      let index_metadata :=
        {| index_name := index_name; index_oid := index_oid;
           index_table_oid := table_oid; index_database_oid := database_oid;
           index_type := index_type; index_constraint := index_constraint;
           key_schema := key_schema; Catalog.key_attrs := key_attrs;
           Catalog.unique_keys := unique_keys |} in
      (* Add index to table *)
      exec AddIndex database_oid table_oid index_metadata then
      (* Put index object into rw_object_set *)
      exec txn_RecordCreate txn database_oid table_oid index_oid then
      (* Insert index record into pg_index *)
      exec IndexCatalog_InsertIndex database_oid
        {| idxrow_schema_name := schema_name; idxrow_table_oid := table_oid;
           idxrow_oid := index_oid; idxrow_name := index_name;
           idxrow_type := index_type; idxrow_constraint := index_constraint;
           idxrow_unique_keys := unique_keys; idxrow_key_attrs := key_attrs |}
      then ret SUCCESS
  end.

(** [Catalog::CreateIndex], the overload that takes names. *)
Definition CreateIndex_by_name (txn : option TransactionContext)
    (database_name schema_name table_name index_name : string)
    (key_attrs : list Z) (unique_keys : bool) (index_type : IndexType)
  : M ResultType :=
  match txn with
  | None => throw "Do not have transaction to create database"
  | Some _ =>
      (* check if database exists *)
      let! database_object := GetDatabaseCatalogEntry_by_name database_name in
      match database_object with
      | None => throw "Can't find Database to create index"
      | Some database_object =>
          (* check if table exists *)
          let! table_object :=
            GetTableCatalogEntry_by_name (dbrow_oid database_object)
              table_name schema_name in
          match table_object with
          | None => throw "Can't find table to create index"
          | Some table_object =>
              let index_constraint := if unique_keys then UNIQUE else DEFAULT in
              CreateIndex txn (dbrow_oid database_object) schema_name
                (tblrow_oid table_object) false index_name key_attrs
                unique_keys index_type index_constraint
          end
      end
  end.

Section Drops.

Variable INVALID_OID : Z.

(** [Catalog::DropDatabaseWithName]. *)
Definition DropDatabaseWithName (txn : option TransactionContext)
    (database_name : string) : M ResultType :=
  match txn with
  | None => throw "Do not have transaction to drop database"
  | Some _ =>
      let! database_object := GetDatabaseCatalogEntry_by_name database_name in
      match database_object with
      | None => throw "Drop Database: database does not exist"
      | Some database_object =>
          DropDatabaseWithOid INVALID_OID txn (dbrow_oid database_object)
      end
  end.

(** [Catalog::DropTable], the overload that takes names. *)
Definition DropTable_by_name (txn : option TransactionContext)
    (database_name schema_name table_name : string) : M ResultType :=
  match txn with
  | None => throw "Do not have transaction to drop table"
  | Some _ =>
      (* Checking if statement is valid *)
      let! database_object := GetDatabaseCatalogEntry_by_name database_name in
      match database_object with
      | None => throw "Drop Table: database does not exist"
      | Some database_object =>
          (* check if table exists *)
          let! table_object :=
            GetTableCatalogEntry_by_name (dbrow_oid database_object)
              table_name schema_name in
          match table_object with
          | None => throw "Drop Table: table does not exist"
          | Some table_object =>
              DropTable INVALID_OID txn (dbrow_oid database_object)
                (tblrow_oid table_object)
          end
      end
  end.

End Drops.

(** *** Index oids *)

(** The states in which an index creation returns.  In both the oid
    counter of the index catalog has moved on, the index is attached to
    the table and the creation is recorded with the transaction.
    [index_created] has the row appended to the index catalog;
    [index_attached] is without the row; [index_added] is the one or the
    other, as [InsertIndex] accepts the row or refuses it. *)
Definition index_attached (database_oid table_oid : Z)
    (catalogs : SystemCatalogs) (index : IndexMetadata) (st : State) : State :=
  log_event
    (RecordCreate database_oid table_oid (index_catalog_oid catalogs))
    (update_table database_oid table_oid
       (fun t =>
          {| table_name := table_name t; table_schema := table_schema t;
             default_layout := default_layout t;
             next_layout_oid := next_layout_oid t;
             table_indexes := table_indexes t ++ [index] |})
       (set_catalog_map_
          (<[database_oid :=
               {| index_catalog_oid := index_catalog_oid catalogs + 1;
                  table_catalog_oid := table_catalog_oid catalogs |}]>
             (catalog_map_ st)) st)).

Definition index_created (database_oid table_oid : Z)
    (catalogs : SystemCatalogs) (index : IndexMetadata)
    (row : IndexCatalogEntry) (st : State) : State :=
  log_event (InsertIndex (idxrow_oid row))
    (update_rows database_oid (fun c => set_pg_index (pg_index c ++ [row]) c)
       (index_attached database_oid table_oid catalogs index st)).

Definition index_added (database_oid table_oid : Z)
    (catalogs : SystemCatalogs) (index : IndexMetadata)
    (row : IndexCatalogEntry) (st : State) : State :=
  if existsb (index_row_taken row) (pg_index (rows_of database_oid st))
  then index_attached database_oid table_oid catalogs index st
  else index_created database_oid table_oid catalogs index row st.

Lemma rows_of_index_attached database_oid table_oid catalogs index st :
  rows_of database_oid (index_attached database_oid table_oid catalogs index st)
  = rows_of database_oid st.
Proof. reflexivity. Qed.

Lemma rows_of_index_created database_oid table_oid catalogs index row st :
  rows_of database_oid (index_created database_oid table_oid catalogs index row st)
  = set_pg_index (pg_index (rows_of database_oid st) ++ [row])
      (rows_of database_oid st).
Proof.
  unfold index_created. by rewrite rows_of_log_event, rows_of_update_rows.
Qed.

(** Below the oid counter no row has the new oid: a row is then refused
    exactly when its name is taken in the database. *)
Definition index_name_taken (index_name : string)
    (rows : list IndexCatalogEntry) : bool :=
  existsb (fun other => String.eqb (idxrow_name other) index_name) rows.

Lemma index_row_taken_by_name (row : IndexCatalogEntry)
    (rows : list IndexCatalogEntry) :
  Forall (fun other => idxrow_oid other < idxrow_oid row) rows ->
  existsb (index_row_taken row) rows = index_name_taken (idxrow_name row) rows.
Proof.
  unfold index_name_taken.
  induction 1 as [| other rest Hlt _ IH]; [done |]. simpl. rewrite IH.
  unfold index_row_taken. by rewrite (proj2 (Z.eqb_neq _ _)) by lia.
Qed.

Lemma index_name_taken_false (index_name : string)
    (rows : list IndexCatalogEntry) :
  index_name_taken index_name rows = false
  <-> Forall (fun other => idxrow_name other <> index_name) rows.
Proof.
  unfold index_name_taken. induction rows as [| other rest IH]; simpl.
  - split; [constructor | done].
  - rewrite orb_false_iff, IH, Forall_cons, String.eqb_neq. tauto.
Qed.

Lemma check_index_name_state database_oid table_oid index_name st o st' :
  check_index_name database_oid table_oid index_name st = (o, st') -> st' = st.
Proof.
  unfold check_index_name, bind, GetDatabaseCatalogEntry, GetTableCatalogEntry,
    GetIndexCatalogEntry_by_name, null_dereference, throw, ret.
  repeat (destruct (find _ _)); congruence.
Qed.

Lemma IndexCatalog_InsertIndex_run database_oid row st :
  IndexCatalog_InsertIndex database_oid row st
  = if existsb (index_row_taken row) (pg_index (rows_of database_oid st))
    then (Return false, st)
    else (Return true,
          log_event (InsertIndex (idxrow_oid row))
            (update_rows database_oid
               (fun c => set_pg_index (pg_index c ++ [row]) c) st)).
Proof. reflexivity. Qed.

Lemma index_added_run (txn : TransactionContext) database_oid table_oid
    catalogs index row st :
  (exec AddIndex database_oid table_oid index then
   exec txn_RecordCreate (Some txn) database_oid table_oid
          (index_catalog_oid catalogs) then
   exec IndexCatalog_InsertIndex database_oid row then ret SUCCESS)
    (set_catalog_map_
       (<[database_oid :=
            {| index_catalog_oid := index_catalog_oid catalogs + 1;
               table_catalog_oid := table_catalog_oid catalogs |}]>
          (catalog_map_ st)) st)
  = (Return SUCCESS,
     index_added database_oid table_oid catalogs index row st).
Proof.
  unfold bind, AddIndex, txn_RecordCreate, modify.
  rewrite IndexCatalog_InsertIndex_run. unfold index_added.
  change (rows_of database_oid (log_event ?ev (update_table ?d ?t ?f
            (set_catalog_map_ ?m st))))
    with (rows_of database_oid st).
  by destruct (existsb _ _).
Qed.

Lemma CreateIndex_success_inv txn database_oid schema_name table_oid
    is_catalog index_name key_attrs unique_keys index_type index_constraint
    st r st' :
  CreateIndex txn database_oid schema_name table_oid is_catalog index_name
    key_attrs unique_keys index_type index_constraint st = (Return r, st') ->
  r = SUCCESS /\
  exists catalogs database table,
    catalog_map_ st !! database_oid = Some catalogs
    /\ storage st !! database_oid = Some database
    /\ db_tables database !! table_oid = Some table
    /\ st' = index_added database_oid table_oid catalogs
               {| index_name := index_name;
                  index_oid := index_catalog_oid catalogs;
                  index_table_oid := table_oid;
                  index_database_oid := database_oid;
                  index_type := index_type;
                  index_constraint := index_constraint;
                  key_schema := CopySchema (table_schema table) key_attrs;
                  Catalog.key_attrs := key_attrs;
                  Catalog.unique_keys := unique_keys |}
               {| idxrow_schema_name := schema_name;
                  idxrow_table_oid := table_oid;
                  idxrow_oid := index_catalog_oid catalogs;
                  idxrow_name := index_name;
                  idxrow_type := index_type;
                  idxrow_constraint := index_constraint;
                  idxrow_unique_keys := unique_keys;
                  idxrow_key_attrs := key_attrs |} st.
Proof.
  unfold CreateIndex. destruct txn as [txn |]; [| discriminate].
  intros Hrun.
  apply bind_Return_inv in Hrun as ([] & st0 & Hcheck & Hrun).
  assert (st0 = st) as ->.
  { destruct (negb is_catalog).
    - by apply check_index_name_state in Hcheck.
    - by injection Hcheck. }
  apply bind_Return_inv in Hrun as (table & st0 & Htable & Hrun).
  pose proof (GetTableWithOid_state _ _ _ _ _ Htable) as ->.
  unfold GetTableWithOid, bind, GetDatabaseWithOid in Htable.
  destruct (storage st !! database_oid) as [database |] eqn:Hdb;
    [| discriminate].
  destruct (db_tables database !! table_oid) as [table' |] eqn:Htbl;
    [| discriminate].
  injection Htable as ->.
  apply bind_Return_inv in Hrun as (index_oid & st1 & Hoid & Hrun).
  unfold IndexCatalog_GetNextOid, bind, system_catalogs in Hoid.
  destruct (catalog_map_ st !! database_oid) as [catalogs |] eqn:Hmap;
    [| discriminate].
  simpl in Hoid. injection Hoid as <- <-.
  apply bind_Return_inv in Hrun as ([] & st2 & Hadd & Hrun).
  unfold AddIndex, modify in Hadd. injection Hadd as <-.
  apply bind_Return_inv in Hrun as ([] & st3 & Hrecord & Hrun).
  unfold txn_RecordCreate, modify in Hrecord. injection Hrecord as <-.
  apply bind_Return_inv in Hrun as (inserted & st4 & Hinsert & Hrun).
  injection Hrun as <- <-.
  split; [done |]. exists catalogs, database, table.
  split; [done |]. split; [done |]. split; [done |].
  rewrite IndexCatalog_InsertIndex_run in Hinsert. unfold index_added.
  change (rows_of database_oid (log_event ?ev (update_table ?d ?t ?f
            (set_catalog_map_ ?m st))))
    with (rows_of database_oid st) in Hinsert.
  destruct (existsb _ _); by injection Hinsert as _ <-.
Qed.

(** Every row of the index catalog of the database has an oid below the
    counter from which the next index oid is taken. *)
Definition index_oids_below_counter (database_oid : Z) (st : State) : Prop :=
  exists catalogs,
    catalog_map_ st !! database_oid = Some catalogs
    /\ Forall (fun row => idxrow_oid row < index_catalog_oid catalogs)
         (pg_index (rows_of database_oid st)).

(** X7. Index oids stay unique.  When the oids of the index-catalog rows
    of a database are pairwise distinct and below the catalog's oid
    counter, a [CreateIndex] that returns has returned [SUCCESS] with an
    oid that no row has.  The row with this oid is appended to the index
    catalog when no row of the database has the index name; when the name
    is taken, [InsertIndex] refuses the row and the index catalog stays as
    it was.  Either way the rows' oids are again pairwise distinct and
    below the counter, so the next creation is in the same position. *)
Theorem CreateIndex_keeps_oids_unique (txn : option TransactionContext)
    (database_oid : Z) (schema_name : string) (table_oid : Z)
    (is_catalog : bool) (index_name : string) (key_attrs : list Z)
    (unique_keys : bool) (index_type : IndexType)
    (index_constraint : IndexConstraintType) (st st' : State)
    (r : ResultType) :
  NoDup (idxrow_oid <$> pg_index (rows_of database_oid st)) ->
  index_oids_below_counter database_oid st ->
  CreateIndex txn database_oid schema_name table_oid is_catalog index_name
    key_attrs unique_keys index_type index_constraint st = (Return r, st') ->
  r = SUCCESS
  /\ (exists index_oid,
        (index_oid ∉ (idxrow_oid <$> pg_index (rows_of database_oid st)))
        /\ pg_index (rows_of database_oid st')
           = (if index_name_taken index_name
                   (pg_index (rows_of database_oid st))
              then pg_index (rows_of database_oid st)
              else pg_index (rows_of database_oid st)
                   ++ [ {| idxrow_schema_name := schema_name;
                           idxrow_table_oid := table_oid;
                           idxrow_oid := index_oid;
                           idxrow_name := index_name;
                           idxrow_type := index_type;
                           idxrow_constraint := index_constraint;
                           idxrow_unique_keys := unique_keys;
                           idxrow_key_attrs := key_attrs |} ]))
  /\ NoDup (idxrow_oid <$> pg_index (rows_of database_oid st'))
  /\ index_oids_below_counter database_oid st'.
Proof.
  intros Hnodup (catalogs & Hmap & Hbelow) Hrun.
  apply CreateIndex_success_inv in Hrun
    as (-> & catalogs' & database & table & Hmap' & Hdb & Htable & ->).
  rewrite Hmap in Hmap'. injection Hmap' as <-.
  assert (Hfresh : index_catalog_oid catalogs
                   ∉ (idxrow_oid <$> pg_index (rows_of database_oid st))).
  { intros (row & Hoid & Hin)%list_elem_of_fmap.
    pose proof (proj1 (Forall_forall _ _) Hbelow row Hin) as Hlt.
    simpl in Hlt. lia. }
  set (index := {| index_name := index_name |}).
  set (row := {| idxrow_schema_name := schema_name |}).
  assert (Hrows :
            pg_index (rows_of database_oid
                        (index_added database_oid table_oid catalogs index
                           row st))
            = if index_name_taken index_name
                   (pg_index (rows_of database_oid st))
              then pg_index (rows_of database_oid st)
              else pg_index (rows_of database_oid st) ++ [row]).
  { unfold index_added.
    rewrite (index_row_taken_by_name row) by exact Hbelow.
    change (idxrow_name row) with index_name.
    destruct (index_name_taken _ _); [done |].
    by rewrite rows_of_index_created. }
  assert (Hcounter :
            catalog_map_ (index_added database_oid table_oid catalogs index
                            row st) !! database_oid
            = Some {| index_catalog_oid := index_catalog_oid catalogs + 1;
                      table_catalog_oid := table_catalog_oid catalogs |}).
  { unfold index_added. destruct (existsb _ _); simpl; apply lookup_insert_eq. }
  split; [done |]. rewrite Hrows. split; [| split].
  - exists (index_catalog_oid catalogs). by split.
  - destruct (index_name_taken _ _); [done |].
    rewrite fmap_app. apply NoDup_app. split; [done |]. split.
    + intros oid Hin [-> | []%elem_of_nil]%elem_of_cons. by apply Hfresh.
    + apply NoDup_singleton.
  - eexists. split; [exact Hcounter |].
    rewrite Hrows. simpl.
    assert (Hbelow' : Forall (fun row => idxrow_oid row
                                         < index_catalog_oid catalogs + 1)
                        (pg_index (rows_of database_oid st))).
    { eapply Forall_impl; [exact Hbelow |]. simpl. intros row' Hlt. lia. }
    destruct (index_name_taken _ _); [done |].
    apply Forall_app. split; [done |]. repeat constructor. simpl. lia.
Qed.

Lemma CreateIndex_keeps_oids_unique_witness :
  NoDup (idxrow_oid <$>
         pg_index (rows_of 100
                     (CreateIndex (Some 1) 100 "public" 200 false "emp_id_idx"
                        [0] false BWTREE DEFAULT sample_state).2)).
Proof.
  refine (proj1 (proj2 (proj2
    (CreateIndex_keeps_oids_unique (Some 1) 100 "public" 200 false "emp_id_idx"
       [0] false BWTREE DEFAULT sample_state _ SUCCESS _ _ _)))).
  - vm_compute. apply NoDup_cons. split; [| apply NoDup_singleton].
    by intros ?%list_elem_of_singleton.
  - exists emp_catalogs. split; [reflexivity |]. repeat constructor.
  - vm_compute. reflexivity.
Defined.

(** *** The name check of [CreateIndex] *)

(** X8. On a table that has an index row of the given name, [CreateIndex]
    with [is_catalog == false] throws and leaves the whole state as it
    was, oid counter included.  With [is_catalog == true] the look-up is
    skipped and the same call returns [SUCCESS]: a second index of that
    name is attached to the table and recorded with the transaction, but
    the index catalog has no row for it, since [InsertIndex] refuses the
    taken name and its result is not looked at; the catalog rows are those
    from before the call. *)
Theorem CreateIndex_name_check (txn : TransactionContext) (database_oid : Z)
    (schema_name : string) (table_oid : Z) (index_name : string)
    (key_attrs : list Z) (unique_keys : bool) (index_type : IndexType)
    (index_constraint : IndexConstraintType) (st : State)
    (database_object : DatabaseCatalogEntry) (table_object : TableCatalogEntry)
    (index_object : IndexCatalogEntry) (database : Database)
    (table : DataTable) (catalogs : SystemCatalogs) :
  database_object ∈ pg_database st ->
  dbrow_oid database_object = database_oid ->
  table_object ∈ pg_table (rows_of database_oid st) ->
  tblrow_oid table_object = table_oid ->
  index_object ∈ pg_index (rows_of database_oid st) ->
  idxrow_table_oid index_object = table_oid ->
  idxrow_name index_object = index_name ->
  storage st !! database_oid = Some database ->
  db_tables database !! table_oid = Some table ->
  catalog_map_ st !! database_oid = Some catalogs ->
  CreateIndex (Some txn) database_oid schema_name table_oid false index_name
    key_attrs unique_keys index_type index_constraint st
  = (Throw "Index already exists", st)
  /\ exists st',
       CreateIndex (Some txn) database_oid schema_name table_oid true
         index_name key_attrs unique_keys index_type index_constraint st
       = (Return SUCCESS, st')
       /\ rows_of database_oid st' = rows_of database_oid st
       /\ events st'
          = events st
            ++ [RecordCreate database_oid table_oid (index_catalog_oid catalogs)]
       /\ (storage st' !! database_oid ≫= fun db => db_tables db !! table_oid)
          = Some {| table_name := table_name table;
                    table_schema := table_schema table;
                    default_layout := default_layout table;
                    next_layout_oid := next_layout_oid table;
                    table_indexes :=
                      table_indexes table
                      ++ [ {| index_name := index_name;
                              index_oid := index_catalog_oid catalogs;
                              index_table_oid := table_oid;
                              index_database_oid := database_oid;
                              index_type := index_type;
                              index_constraint := index_constraint;
                              key_schema :=
                                CopySchema (table_schema table) key_attrs;
                              Catalog.key_attrs := key_attrs;
                              Catalog.unique_keys := unique_keys |} ] |}.
Proof.
  intros Hdbrow Hdboid Htblrow Htbloid Hidxrow Hidxtable Hidxname Hdb Htable
    Hmap.
  split.
  - unfold CreateIndex. simpl negb. cbv iota.
    destruct (find_exists (fun row => dbrow_oid row =? database_oid)
                (pg_database st) database_object Hdbrow
                ltac:(by apply Z.eqb_eq)) as (dbo & Hfind1).
    destruct (find_exists (fun row => tblrow_oid row =? table_oid)
                (pg_table (rows_of database_oid st)) table_object Htblrow
                ltac:(by apply Z.eqb_eq)) as (tbo & Hfind2).
    destruct (find_exists
                (fun row => (idxrow_table_oid row =? table_oid)
                            && String.eqb (idxrow_name row) index_name)
                (pg_index (rows_of database_oid st)) index_object Hidxrow)
      as (ido & Hfind3).
    { apply andb_true_iff. split; [by apply Z.eqb_eq |].
      by apply String.eqb_eq. }
    unfold bind at 1. unfold check_index_name, bind, GetDatabaseCatalogEntry,
      GetTableCatalogEntry, GetIndexCatalogEntry_by_name.
    by rewrite Hfind1, Hfind2, Hfind3.
  - unfold CreateIndex. simpl negb. cbv iota.
    rewrite (bind_Return _ _ st tt st) by reflexivity.
    rewrite (bind_Return _ _ st table st)
      by (by apply GetTableWithOid_found with (database := database)).
    unfold IndexCatalog_GetNextOid, bind, system_catalogs. rewrite Hmap.
    simpl. rewrite IndexCatalog_InsertIndex_run.
    match goal with
    | |- context [existsb ?f ?rows] =>
        assert (Htaken : existsb f rows = true)
    end.
    { apply existsb_exists. exists index_object.
      split; [by apply list_elem_of_In |].
      unfold index_row_taken. simpl. apply orb_true_iff. right.
      by apply String.eqb_eq. }
    rewrite Htaken. eexists. split; [reflexivity |].
    split; [reflexivity |]. split; [reflexivity |].
    simpl. rewrite lookup_alter_eq, Hdb. simpl.
    by rewrite lookup_alter_eq, Htable.
Qed.

Lemma CreateIndex_name_check_witness :
  CreateIndex (Some 1) 100 "public" 200 false "emp_dept_idx" [2] false BWTREE
    DEFAULT sample_state
  = (Throw "Index already exists", sample_state).
Proof.
  refine (proj1
    (CreateIndex_name_check 1 100 "public" 200 "emp_dept_idx" [2] false BWTREE
       DEFAULT sample_state {| dbrow_oid := 100; dbrow_name := "emp_db" |}
       {| tblrow_oid := 200; tblrow_name := "emp";
          tblrow_schema_name := "public";
          tblrow_default_layout_oid := ROW_STORE_LAYOUT_OID |}
       {| idxrow_schema_name := "public"; idxrow_table_oid := 200;
          idxrow_oid := 301; idxrow_name := "emp_dept_idx";
          idxrow_type := BWTREE; idxrow_constraint := DEFAULT;
          idxrow_unique_keys := false; idxrow_key_attrs := [2] |}
       emp_database emp_table emp_catalogs _ _ _ _ _ _ _ _ _ _)).
  - apply list_elem_of_In. simpl. tauto.
  - reflexivity.
  - apply list_elem_of_In. vm_compute. tauto.
  - reflexivity.
  - apply list_elem_of_In. vm_compute. tauto.
  - reflexivity.
  - reflexivity.
  - reflexivity.
  - reflexivity.
  - reflexivity.
Defined.

(** *** Creating an index and dropping it again *)

Lemma filter_last_oid (rows : list IndexCatalogEntry) (row : IndexCatalogEntry) :
  Forall (fun row' => idxrow_oid row' < idxrow_oid row) rows ->
  List.filter (fun row' => negb (idxrow_oid row' =? idxrow_oid row))
    (rows ++ [row])
  = rows.
Proof.
  induction 1 as [| row' rest Hlt _ IH]; simpl.
  - by rewrite Z.eqb_refl.
  - rewrite (proj2 (Z.eqb_neq _ _)) by lia. simpl. by rewrite IH.
Qed.

Lemma CatalogRows_eq (c c' : CatalogRows) :
  pg_table c = pg_table c' -> pg_attribute c = pg_attribute c' ->
  pg_index c = pg_index c' -> pg_layout c = pg_layout c' ->
  pg_trigger c = pg_trigger c' -> c = c'.
Proof. destruct c, c'. simpl. by intros -> -> -> -> ->. Qed.

(** X9. An index that [CreateIndex] created under a name that no index
    row of the database has can be dropped again by its oid, and the
    catalog rows of the database are then exactly those from before the
    creation.  What the two calls leave behind is outside the catalog
    rows: the four calls in the event log, the index still attached to the
    table in storage (a drop is only recorded with the transaction), and
    an oid counter that does not go back, so the oid is not handed out a
    second time. *)
Theorem CreateIndex_DropIndex_round_trip (txn : option TransactionContext)
    (txn' : TransactionContext) (database_oid : Z) (schema_name : string)
    (table_oid : Z) (is_catalog : bool) (index_name : string)
    (key_attrs : list Z) (unique_keys : bool) (index_type : IndexType)
    (index_constraint : IndexConstraintType) (st st1 : State)
    (r : ResultType) (catalogs : SystemCatalogs) :
  catalog_map_ st !! database_oid = Some catalogs ->
  Forall (fun row => idxrow_oid row < index_catalog_oid catalogs)
    (pg_index (rows_of database_oid st)) ->
  NoDup (idxrow_oid <$> pg_index (rows_of database_oid st)) ->
  Forall (fun row => idxrow_name row <> index_name)
    (pg_index (rows_of database_oid st)) ->
  CreateIndex txn database_oid schema_name table_oid is_catalog index_name
    key_attrs unique_keys index_type index_constraint st = (Return r, st1) ->
  exists st2,
    DropIndex (Some txn') database_oid (index_catalog_oid catalogs) st1
    = (Return SUCCESS, st2)
    /\ rows_of database_oid st2 = rows_of database_oid st
    /\ events st2
       = events st
         ++ [RecordCreate database_oid table_oid (index_catalog_oid catalogs);
             InsertIndex (index_catalog_oid catalogs);
             DeleteIndex (index_catalog_oid catalogs);
             RecordDrop database_oid table_oid (index_catalog_oid catalogs)]
    /\ storage st2 = storage st1
    /\ (exists table,
          storage st2 !! database_oid ≫= (fun db => db_tables db !! table_oid)
          = Some table
          /\ index_catalog_oid catalogs ∈ (index_oid <$> table_indexes table))
    /\ (index_catalog_oid <$> catalog_map_ st2 !! database_oid)
       = Some (index_catalog_oid catalogs + 1).
Proof.
  intros Hmap Hbelow Hnodup Hname Hrun.
  apply CreateIndex_success_inv in Hrun
    as (-> & catalogs' & database & table & Hmap' & Hdb & Htable & ->).
  rewrite Hmap in Hmap'. injection Hmap' as <-.
  set (index := {| index_name := index_name |}).
  set (row := {| idxrow_schema_name := schema_name |}).
  unfold index_added.
  rewrite (index_row_taken_by_name row) by exact Hbelow.
  rewrite (proj2 (index_name_taken_false (idxrow_name row) _)) by exact Hname.
  set (st1 := index_created database_oid table_oid catalogs index row st).
  assert (Hrows : pg_index (rows_of database_oid st1)
                  = pg_index (rows_of database_oid st) ++ [row]).
  { unfold st1. by rewrite rows_of_index_created. }
  assert (Hstorage : storage st1 !! database_oid
                     ≫= (fun db => db_tables db !! table_oid)
                     = Some {| table_name := table_name table;
                               table_schema := table_schema table;
                               default_layout := default_layout table;
                               next_layout_oid := next_layout_oid table;
                               table_indexes := table_indexes table ++ [index] |}).
  { simpl. rewrite lookup_alter_eq, Hdb. simpl.
    by rewrite lookup_alter_eq, Htable. }
  destruct (storage st1 !! database_oid) as [database1 |] eqn:Hdb1;
    [| discriminate]. simpl in Hstorage.
  eexists. split; [| split; [| split; [| split; [| split]]]].
  - change (index_catalog_oid catalogs) with (idxrow_oid row) at 1.
    eapply DropIndex_run with (database := database1).
    + simpl. apply lookup_insert_eq.
    + rewrite Hrows, fmap_app. apply NoDup_app. split; [done |]. split.
      * intros oid (row' & -> & Hin)%list_elem_of_fmap
          [E | []%elem_of_nil]%elem_of_cons.
        pose proof (proj1 (Forall_forall _ _) Hbelow row' Hin) as Hlt.
        simpl in Hlt, E. lia.
      * apply NoDup_singleton.
    + rewrite Hrows. apply elem_of_app. right. by apply list_elem_of_singleton.
    + exact Hdb1.
    + exact Hstorage.
    + simpl. rewrite fmap_app. apply elem_of_app. right.
      by apply list_elem_of_singleton.
  - rewrite !rows_of_log_event, rows_of_update_rows.
    apply CatalogRows_eq; simpl;
      try (subst st1; by rewrite rows_of_index_created).
    rewrite Hrows.
    exact (filter_last_oid (pg_index (rows_of database_oid st)) row Hbelow).
  - simpl. by rewrite <- !app_assoc.
  - done.
  - eexists. simpl in Hdb1 |- *. rewrite Hdb1. simpl. split; [exact Hstorage |].
    simpl. rewrite fmap_app. apply elem_of_app. right.
    by apply list_elem_of_singleton.
  - simpl. by rewrite lookup_insert_eq.
Qed.

Lemma CreateIndex_DropIndex_round_trip_witness :
  exists st2,
    DropIndex (Some 2) 100 302
      (CreateIndex (Some 1) 100 "public" 200 false "emp_id_idx" [0] false
         BWTREE DEFAULT sample_state).2
    = (Return SUCCESS, st2)
    /\ rows_of 100 st2 = rows_of 100 sample_state.
Proof.
  destruct (CreateIndex_DropIndex_round_trip (Some 1) 2 100 "public" 200 false
              "emp_id_idx" [0] false BWTREE DEFAULT sample_state
              (CreateIndex (Some 1) 100 "public" 200 false "emp_id_idx" [0]
                 false BWTREE DEFAULT sample_state).2
              SUCCESS emp_catalogs)
    as (st2 & Hdrop & Hrows & _).
  - reflexivity.
  - repeat constructor.
  - vm_compute. apply NoDup_cons. split; [| apply NoDup_singleton].
    by intros ?%list_elem_of_singleton.
  - repeat constructor; discriminate.
  - vm_compute. reflexivity.
  - exists st2. split; [exact Hdrop | exact Hrows].
Defined.

(** *** Dropping by name, and dropping twice *)

Lemma DropTable_returns INVALID_OID txn database_oid table_oid st r st' :
  DropTable INVALID_OID txn database_oid table_oid st = (Return r, st') ->
  r = SUCCESS.
Proof.
  unfold DropTable. intros Hrun.
  apply bind_Return_inv in Hrun as (? & ? & _ & Hrun).
  apply bind_Return_inv in Hrun as ([?|] & ? & _ & Hrun); [| discriminate].
  apply bind_Return_inv in Hrun as ([?|] & ? & _ & Hrun); [| discriminate].
  repeat (apply bind_Return_inv in Hrun as (? & ? & _ & Hrun)).
  by injection Hrun.
Qed.

(** What a [DropTable] that returns has done to the catalog rows: the
    rows of the table are filtered out of the table, column and layout
    catalogs, and the index rows left are earlier rows of other tables. *)
Lemma DropTable_rows INVALID_OID txn database_oid table_oid st r st' :
  DropTable INVALID_OID txn database_oid table_oid st = (Return r, st') ->
  process_state_kept st st'
  /\ pg_table (rows_of database_oid st')
     = List.filter (fun row => negb (tblrow_oid row =? table_oid))
         (pg_table (rows_of database_oid st))
  /\ pg_attribute (rows_of database_oid st')
     = List.filter (fun row => negb (colrow_table_oid row =? table_oid))
         (pg_attribute (rows_of database_oid st))
  /\ pg_layout (rows_of database_oid st')
     = List.filter (fun row => negb (layrow_table_oid row =? table_oid))
         (pg_layout (rows_of database_oid st))
  /\ (forall row, row ∈ pg_index (rows_of database_oid st') ->
        row ∈ pg_index (rows_of database_oid st)
        /\ idxrow_table_oid row <> table_oid).
Proof.
  intros Hrun. pose proof (DropTable_returns _ _ _ _ _ _ _ Hrun) as ->.
  apply DropTable_success_inv in Hrun as (stT & stI & HrunT & HrunI & ->).
  destruct (drop_triggers_run database_oid table_oid
              (List.filter (fun row => trgrow_table_oid row =? table_oid)
                 (pg_trigger (rows_of database_oid st))) st)
    as (stT' & HrunT' & HkeptT & _ & HiT & HaT & HlT & HtT).
  rewrite HrunT' in HrunT. injection HrunT as ->.
  apply drop_indexes_success in HrunI
    as (HkeptI & _ & HiI & HaI & HlI & HtI).
  unfold table_rows_deleted.
  repeat (rewrite rows_of_log_event || rewrite rows_of_update_rows).
  simpl. rewrite HtI, HtT, HaI, HaT, HlI, HlT.
  split; [| split; [done | split; [done | split; [done |]]]].
  - apply process_state_kept_trans with (st2 := stT); [done |].
    apply process_state_kept_trans with (st2 := stI); [done |].
    by repeat split.
  - intros row Hin. apply HiI in Hin as [Hin Hnot]. rewrite HiT in Hin.
    split; [done |]. intros Htable. apply Hnot.
    apply list_elem_of_fmap. exists row. split; [done |].
    apply list_elem_of_In, filter_In. split; [by apply list_elem_of_In |].
    by apply Z.eqb_eq.
Qed.

Lemma find_filter_none {A} (f g : A -> bool) (l : list A) :
  (forall x, x ∈ l -> f x = true -> g x = false) ->
  find f (List.filter g l) = None.
Proof.
  intros H. destruct (find f (List.filter g l)) as [x |] eqn:Hfind; [| done].
  apply find_some in Hfind as [[Hin Hg]%filter_In Hf].
  apply list_elem_of_In in Hin. rewrite (H x Hin Hf) in Hg. discriminate.
Qed.

(** X10. Dropping a table twice by name.  Where no two tables of a
    database share name and schema, a [DropTable] by name that returned
    cannot be repeated: the same call in the resulting state finds the
    database but no table row, throws "table does not exist", and changes
    nothing. *)
Theorem DropTable_by_name_twice (INVALID_OID : Z)
    (txn txn' : option TransactionContext)
    (database_name schema_name table_name : string) (st st' : State)
    (r : ResultType) :
  (forall database_oid row row',
     row ∈ pg_table (rows_of database_oid st) ->
     row' ∈ pg_table (rows_of database_oid st) ->
     tblrow_name row = tblrow_name row' ->
     tblrow_schema_name row = tblrow_schema_name row' ->
     tblrow_oid row = tblrow_oid row') ->
  DropTable_by_name INVALID_OID txn database_name schema_name table_name st
  = (Return r, st') ->
  is_Some txn' ->
  r = SUCCESS
  /\ DropTable_by_name INVALID_OID txn' database_name schema_name table_name st'
     = (Throw "Drop Table: table does not exist", st').
Proof.
  intros Hunique Hrun [txn2 ->]. unfold DropTable_by_name in *.
  destruct txn as [txn |]; [| discriminate].
  unfold bind at 1 in Hrun. unfold GetDatabaseCatalogEntry_by_name in Hrun.
  destruct (find _ (pg_database st)) as [database_object |] eqn:Hdb;
    [| discriminate].
  unfold bind at 1 in Hrun. unfold GetTableCatalogEntry_by_name in Hrun.
  destruct (find _ (pg_table _)) as [table_object |] eqn:Htable;
    [| discriminate].
  pose proof (DropTable_rows _ _ _ _ _ _ _ Hrun)
    as ((_ & _ & Hpg) & Hrows & _).
  split; [by apply DropTable_returns in Hrun |].
  unfold bind at 1. unfold GetDatabaseCatalogEntry_by_name.
  rewrite Hpg, Hdb.
  unfold bind at 1. unfold GetTableCatalogEntry_by_name.
  rewrite Hrows, find_filter_none; [done |].
  apply find_some in Htable as [Hin Hnames].
  apply andb_true_iff in Hnames as [Hname Hschema].
  apply String.eqb_eq in Hname, Hschema.
  intros row Hrow [Hname' Hschema']%andb_true_iff.
  apply String.eqb_eq in Hname', Hschema'.
  apply negb_false_iff, Z.eqb_eq.
  apply (Hunique (dbrow_oid database_object)); try done;
    [by apply list_elem_of_In | congruence | congruence].
Qed.

Lemma DropTable_by_name_twice_witness :
  DropTable_by_name peloton_INVALID_OID (Some 2) "emp_db" "public" "emp"
    (DropTable_by_name peloton_INVALID_OID (Some 1) "emp_db" "public" "emp"
       sample_state).2
  = (Throw "Drop Table: table does not exist",
     (DropTable_by_name peloton_INVALID_OID (Some 1) "emp_db" "public" "emp"
        sample_state).2).
Proof.
  refine (proj2
    (DropTable_by_name_twice peloton_INVALID_OID (Some 1) (Some 2) "emp_db"
       "public" "emp" sample_state _ SUCCESS _ _ _)).
  - intros database_oid row row' Hrow Hrow'.
    destruct (decide (database_oid = 100)) as [-> | Hne].
    + apply list_elem_of_singleton in Hrow, Hrow'. by subst.
    + unfold rows_of, sample_state in Hrow. simpl in Hrow.
      rewrite lookup_singleton_ne in Hrow by done.
      by apply elem_of_nil in Hrow.
  - vm_compute. reflexivity.
  - by eexists.
Defined.

(** *** Dropping a database *)

(** No table of the list has this oid. *)
Definition other_table (table_objects : list TableCatalogEntry)
    (table_oid : Z) : bool :=
  forallb (fun it => negb (table_oid =? tblrow_oid it)) table_objects.

Lemma other_table_spec table_objects table_oid :
  other_table table_objects table_oid = true
  <-> table_oid ∉ (tblrow_oid <$> table_objects).
Proof.
  unfold other_table. rewrite forallb_forall. split.
  - intros H (it & -> & Hin)%list_elem_of_fmap.
    apply list_elem_of_In, H in Hin. by rewrite Z.eqb_refl in Hin.
  - intros H it Hin. apply negb_true_iff, Z.eqb_neq. intros ->. apply H.
    apply list_elem_of_fmap. exists it. split; [done |].
    by apply list_elem_of_In.
Qed.

Lemma filter_filter_cons {A} (oid_of : A -> Z) it rest (rows : list A) :
  List.filter (fun row => other_table rest (oid_of row))
    (List.filter (fun row => negb (oid_of row =? tblrow_oid it)) rows)
  = List.filter (fun row => other_table (it :: rest) (oid_of row)) rows.
Proof.
  induction rows as [| row more IH]; simpl; [done |].
  destruct (negb (oid_of row =? tblrow_oid it)); simpl; [| done].
  destruct (other_table rest (oid_of row)); by rewrite IH.
Qed.

Lemma filter_other_table_nil {A} (oid_of : A -> Z) (rows : list A) :
  List.filter (fun row => other_table [] (oid_of row)) rows = rows.
Proof.
  induction rows as [| row more IH]; [done |].
  cbn [List.filter]. rewrite IH. done.
Qed.

(** The table loop of [DropDatabaseWithOid], when it completes. *)
Lemma drop_tables_rows INVALID_OID txn database_oid
    (table_objects : list TableCatalogEntry) : forall st st',
  for_each
    (fun it =>
       exec DropTable INVALID_OID txn database_oid (tblrow_oid it) then ret tt)
    table_objects st = (Return tt, st') ->
  process_state_kept st st'
  /\ pg_table (rows_of database_oid st')
     = List.filter (fun row => other_table table_objects (tblrow_oid row))
         (pg_table (rows_of database_oid st))
  /\ pg_attribute (rows_of database_oid st')
     = List.filter (fun row => other_table table_objects (colrow_table_oid row))
         (pg_attribute (rows_of database_oid st))
  /\ pg_layout (rows_of database_oid st')
     = List.filter (fun row => other_table table_objects (layrow_table_oid row))
         (pg_layout (rows_of database_oid st))
  /\ (forall row, row ∈ pg_index (rows_of database_oid st') ->
        row ∈ pg_index (rows_of database_oid st)
        /\ idxrow_table_oid row ∉ (tblrow_oid <$> table_objects)).
Proof.
  induction table_objects as [| it rest IH]; intros st st' Hrun.
  - injection Hrun as <-. split; [apply process_state_kept_refl |].
    rewrite !filter_other_table_nil.
    repeat split; try done. apply not_elem_of_nil.
  - cbn [for_each] in Hrun.
    apply bind_Return_inv in Hrun as ([] & st1 & Hstep & Hrun).
    apply bind_Return_inv in Hstep as (r & st1' & Hdrop & Hret).
    injection Hret as ->.
    apply DropTable_rows in Hdrop as (Hkept1 & Ht1 & Ha1 & Hl1 & Hi1).
    apply IH in Hrun as (Hkept & Ht & Ha & Hl & Hi).
    split; [by apply process_state_kept_trans with (st2 := st1) |].
    rewrite Ht, Ht1, Ha, Ha1, Hl, Hl1.
    rewrite (filter_filter_cons tblrow_oid), (filter_filter_cons colrow_table_oid),
      (filter_filter_cons layrow_table_oid).
    split; [done |]. split; [done |]. split; [done |].
    intros row Hin. apply Hi in Hin as [Hin Hrest].
    apply Hi1 in Hin as [Hin Hit]. split; [done |].
    rewrite fmap_cons. by intros [E | E]%elem_of_cons.
Qed.

Lemma filter_other_table_self (rows : list TableCatalogEntry) :
  List.filter (fun row => other_table rows (tblrow_oid row)) rows = [].
Proof.
  assert (H : forall l : list TableCatalogEntry,
            (forall row, row ∈ l -> row ∈ rows) ->
            List.filter (fun row => other_table rows (tblrow_oid row)) l = []).
  { induction l as [| row more IH]; intros Hsub; simpl; [done |].
    destruct (other_table rows (tblrow_oid row)) eqn:E.
    - apply other_table_spec in E. exfalso. apply E.
      apply list_elem_of_fmap. exists row. split; [done |].
      apply Hsub, elem_of_cons. by left.
    - apply IH. intros row' Hin. apply Hsub, elem_of_cons. by right. }
  by apply H.
Qed.

(** X11. A [DropDatabaseWithOid] that returns [SUCCESS] has emptied the
    database's catalogs of everything that hangs on its tables: no table
    row is left, no column, layout or index row of a table that had a
    row, and no row of the database in [pg_database].  The storage
    manager still holds every object: they are only recorded as dropped
    with the transaction. *)
Theorem DropDatabaseWithOid_cascade (INVALID_OID : Z)
    (txn : option TransactionContext) (database_oid : Z) (st st' : State) :
  DropDatabaseWithOid INVALID_OID txn database_oid st = (Return SUCCESS, st') ->
  let dropped := tblrow_oid <$> pg_table (rows_of database_oid st) in
  pg_table (rows_of database_oid st') = []
  /\ Forall (fun row => colrow_table_oid row ∉ dropped)
       (pg_attribute (rows_of database_oid st'))
  /\ Forall (fun row => layrow_table_oid row ∉ dropped)
       (pg_layout (rows_of database_oid st'))
  /\ Forall (fun row => idxrow_table_oid row ∉ dropped)
       (pg_index (rows_of database_oid st'))
  /\ Forall (fun row => dbrow_oid row <> database_oid) (pg_database st')
  /\ storage st' = storage st.
Proof.
  intros Hrun dropped. subst dropped. unfold DropDatabaseWithOid in Hrun.
  destruct txn as [txn |]; [| discriminate].
  apply bind_Return_inv in Hrun as (database_object & st0 & Hentry & Hrun).
  unfold GetDatabaseCatalogEntry in Hentry. injection Hentry as <- <-.
  destruct (find _ (pg_database st)) as [database_object |];
    [| discriminate Hrun].
  apply bind_Return_inv in Hrun as (table_objects & st0 & Htables & Hrun).
  unfold GetTableCatalogEntries in Htables. injection Htables as <- <-.
  apply bind_Return_inv in Hrun as ([] & stD & Hloop & Hrun).
  apply drop_tables_rows in Hloop as ((Hstorage & _ & _) & Ht & Ha & Hl & Hi).
  apply bind_Return_inv in Hrun as (deleted & st1 & Hdelete & Hrun).
  unfold DatabaseCatalog_DeleteDatabase in Hdelete.
  injection Hdelete as <- <-.
  destruct (existsb _ _); [| discriminate Hrun]. simpl in Hrun.
  apply bind_Return_inv in Hrun as ([] & st2 & Herase & Hrun).
  unfold modify in Herase. injection Herase as <-.
  apply bind_Return_inv in Hrun as (database & st3 & Hdb & Hrun).
  apply GetDatabaseWithOid_state in Hdb as ->.
  apply bind_Return_inv in Hrun as ([] & st4 & Hrec & Hrun).
  unfold txn_RecordDrop, modify in Hrec. injection Hrec as <-.
  injection Hrun as <-.
  change (rows_of database_oid (log_event _ (set_catalog_map_ _ (log_event _
            (set_pg_database _ stD)))))
    with (rows_of database_oid stD).
  rewrite Ht, Ha, Hl. simpl.
  split; [apply filter_other_table_self |].
  split; [| split; [| split; [| split; [| done]]]].
  - apply Forall_forall. intros row [_ Hrow]%list_elem_of_In%filter_In.
    by apply other_table_spec.
  - apply Forall_forall. intros row [_ Hrow]%list_elem_of_In%filter_In.
    by apply other_table_spec.
  - apply Forall_forall. intros row Hin. by apply Hi in Hin as [_ Hin].
  - apply Forall_forall. intros row [_ Hrow]%list_elem_of_In%filter_In.
    by apply negb_true_iff, Z.eqb_neq in Hrow.
Qed.

Lemma DropDatabaseWithOid_cascade_witness :
  pg_table (rows_of 100 after_drop_database) = [].
Proof.
  refine (proj1
    (DropDatabaseWithOid_cascade peloton_INVALID_OID (Some 1) 100 sample_state
       after_drop_database _)).
  vm_compute. reflexivity.
Defined.

(** *** Objects that are not there *)

Lemma find_none_Forall {A} (f : A -> bool) (l : list A) :
  Forall (fun x => f x = false) l -> find f l = None.
Proof.
  induction 1 as [| x rest Hx _ IH]; simpl; [done |]. by rewrite Hx.
Qed.

(** X12. An unknown database.  The entry points that take names look the
    database up, throw a [CatalogException] when no row has the name, and
    change nothing.  The entry points that take oids use the row they
    look up without a test: for an oid that no row of [pg_database] has,
    [DropDatabaseWithOid] and [DropTable] dereference a null pointer. *)
Theorem unknown_database (INVALID_OID : Z) (txn : TransactionContext)
    (database_name schema_name table_name : string)
    (database_oid table_oid : Z) (st : State) :
  Forall (fun row => dbrow_name row <> database_name) (pg_database st) ->
  Forall (fun row => dbrow_oid row <> database_oid) (pg_database st) ->
  DropDatabaseWithName INVALID_OID (Some txn) database_name st
  = (Throw "Drop Database: database does not exist", st)
  /\ DropTable_by_name INVALID_OID (Some txn) database_name schema_name
       table_name st
     = (Throw "Drop Table: database does not exist", st)
  /\ DropDatabaseWithOid INVALID_OID (Some txn) database_oid st
     = (NullDereference, st)
  /\ (is_Some (storage st !! database_oid) ->
      DropTable INVALID_OID (Some txn) database_oid table_oid st
      = (NullDereference, st)).
Proof.
  intros Hname Hoid.
  assert (Hfind1 : find (fun row => String.eqb (dbrow_name row) database_name)
                     (pg_database st) = None).
  { apply find_none_Forall. eapply Forall_impl; [exact Hname |].
    intros row Hne. by apply String.eqb_neq. }
  assert (Hfind2 : find (fun row => dbrow_oid row =? database_oid)
                     (pg_database st) = None).
  { apply find_none_Forall. eapply Forall_impl; [exact Hoid |].
    intros row Hne. by apply Z.eqb_neq. }
  split; [| split; [| split]].
  - unfold DropDatabaseWithName, bind, GetDatabaseCatalogEntry_by_name.
    by rewrite Hfind1.
  - unfold DropTable_by_name, bind, GetDatabaseCatalogEntry_by_name.
    by rewrite Hfind1.
  - unfold DropDatabaseWithOid, bind, GetDatabaseCatalogEntry.
    by rewrite Hfind2.
  - intros [database Hdb].
    unfold DropTable, bind, GetDatabaseWithOid, GetDatabaseCatalogEntry.
    by rewrite Hdb, Hfind2.
Qed.

Lemma unknown_database_witness :
  DropDatabaseWithName peloton_INVALID_OID (Some 1) "sales_db" sample_state
  = (Throw "Drop Database: database does not exist", sample_state)
  /\ DropDatabaseWithOid peloton_INVALID_OID (Some 1) 101 sample_state
     = (NullDereference, sample_state).
Proof.
  pose proof (unknown_database peloton_INVALID_OID 1 "sales_db" "public" "emp"
                101 200 sample_state) as H.
  destruct H as (Hname & _ & Hoid & _).
  - repeat constructor. simpl. discriminate.
  - repeat constructor. simpl. discriminate.
  - split; [exact Hname | exact Hoid].
Defined.

(** X13. The two ways in which [DropIndex] fails on a registered database.
    For an oid that no index row has it throws before any change.  For a
    row whose index is not attached to its table in storage it throws
    only at the storage look-up, after [IndexCatalog::DeleteIndex] ran:
    the exception leaves the row deleted, and no drop is recorded with the
    transaction. *)
Theorem DropIndex_failures (txn : TransactionContext)
    (database_oid index_oid : Z) (st : State) (catalogs : SystemCatalogs) :
  catalog_map_ st !! database_oid = Some catalogs ->
  (Forall (fun row => idxrow_oid row <> index_oid)
     (pg_index (rows_of database_oid st)) ->
   DropIndex (Some txn) database_oid index_oid st
   = (Throw "Can't find index to drop", st))
  /\ (forall it database table,
        it ∈ pg_index (rows_of database_oid st) ->
        idxrow_oid it = index_oid ->
        NoDup (idxrow_oid <$> pg_index (rows_of database_oid st)) ->
        storage st !! database_oid = Some database ->
        db_tables database !! idxrow_table_oid it = Some table ->
        index_oid ∉ (Catalog.index_oid <$> table_indexes table) ->
        exists st',
          DropIndex (Some txn) database_oid index_oid st
          = (Throw "No index with this oid", st')
          /\ pg_index (rows_of database_oid st')
             = List.filter (fun row => negb (idxrow_oid row =? index_oid))
                 (pg_index (rows_of database_oid st))
          /\ (it ∉ pg_index (rows_of database_oid st'))
          /\ events st' = events st ++ [DeleteIndex index_oid]).
Proof.
  intros Hmap. split.
  - intros Hnone. unfold DropIndex, bind, system_catalogs. rewrite Hmap.
    unfold GetIndexCatalogEntry. rewrite find_none_Forall; [done |].
    eapply Forall_impl; [exact Hnone |]. intros row Hne. by apply Z.eqb_neq.
  - intros it database table Hin <- Hnodup Hdb Htable Hdetached.
    unfold DropIndex.
    rewrite (bind_Return _ _ st catalogs st)
      by (unfold system_catalogs; by rewrite Hmap).
    rewrite (bind_Return _ _ st (Some it) st)
      by (unfold GetIndexCatalogEntry; by rewrite find_index_row).
    rewrite (bind_Return _ _ st table st)
      by (by apply GetTableWithOid_found with (database := database)).
    unfold IndexCatalog_DeleteIndex.
    rewrite (bind_Return _ _ st tt _) by reflexivity.
    eexists. split.
    + unfold bind at 1. unfold GetIndexWithOid.
      erewrite bind_Return
        by (by apply GetTableWithOid_found with (database := database)).
      by rewrite bool_decide_eq_false_2.
    + rewrite rows_of_log_event, rows_of_update_rows. simpl.
      split; [done |]. split; [| done].
      intros [_ Hne]%filter_index_rows_elem. done.
Qed.

(** The sample with the indexes of [emp] detached in storage, their rows
    still in the index catalog. *)
Definition detached_state : State :=
  update_table 100 200
    (fun t => {| table_name := table_name t; table_schema := table_schema t;
                 default_layout := default_layout t;
                 next_layout_oid := next_layout_oid t;
                 table_indexes := [] |})
    sample_state.

Lemma DropIndex_failures_witness :
  DropIndex (Some 1) 100 999 detached_state
  = (Throw "Can't find index to drop", detached_state)
  /\ exists st',
       DropIndex (Some 1) 100 301 detached_state
       = (Throw "No index with this oid", st')
       /\ idxrow_oid <$> pg_index (rows_of 100 st') = [300].
Proof.
  destruct (DropIndex_failures 1 100 999 detached_state emp_catalogs)
    as [Hnone _]; [reflexivity |].
  destruct (DropIndex_failures 1 100 301 detached_state emp_catalogs)
    as [_ Hdetached]; [reflexivity |].
  split.
  - apply Hnone. repeat constructor; simpl; discriminate.
  - destruct (Hdetached
                {| idxrow_schema_name := "public"; idxrow_table_oid := 200;
                   idxrow_oid := 301; idxrow_name := "emp_dept_idx";
                   idxrow_type := BWTREE; idxrow_constraint := DEFAULT;
                   idxrow_unique_keys := false; idxrow_key_attrs := [2] |}
                {| db_tables :=
                     {[ 200 := {| table_name := "emp";
                                  table_schema := emp_schema;
                                  default_layout := ROW_STORE_LAYOUT_OID;
                                  next_layout_oid := 1;
                                  table_indexes := [] |} ]} |}
                {| table_name := "emp"; table_schema := emp_schema;
                   default_layout := ROW_STORE_LAYOUT_OID;
                   next_layout_oid := 1; table_indexes := [] |})
      as (st' & Hrun & Hrows & _).
    + apply list_elem_of_In. vm_compute. tauto.
    + reflexivity.
    + vm_compute. apply NoDup_cons. split; [| apply NoDup_singleton].
      by intros ?%list_elem_of_singleton.
    + vm_compute. reflexivity.
    + reflexivity.
    + apply not_elem_of_nil.
    + exists st'. split; [exact Hrun |]. rewrite Hrows. reflexivity.
Defined.

(** *** The default layout in storage and in the catalog *)

(** The default layout of a table as the storage manager has it, and the
    default layouts that the rows of the table catalog give. *)
Definition lookup_table (database_oid table_oid : Z) (st : State)
  : option DataTable :=
  storage st !! database_oid ≫= fun db => db_tables db !! table_oid.

Definition storage_default (database_oid table_oid : Z) (st : State)
  : option Z :=
  default_layout <$> lookup_table database_oid table_oid st.

Definition catalog_defaults (database_oid : Z) (st : State) : list (Z * Z) :=
  (fun row => (tblrow_oid row, tblrow_default_layout_oid row))
  <$> pg_table (rows_of database_oid st).

(** Every row of the table gives the default layout that the table has in
    storage. *)
Definition default_layout_agrees (database_oid table_oid : Z) (st : State)
  : Prop :=
  forall layout_oid,
    storage_default database_oid table_oid st = Some layout_oid ->
    Forall (fun entry => entry.1 = table_oid -> entry.2 = layout_oid)
      (catalog_defaults database_oid st).

(** Both sides as they were. *)
Definition defaults_kept (database_oid : Z) (st st' : State) : Prop :=
  (forall table_oid,
     storage_default database_oid table_oid st'
     = storage_default database_oid table_oid st)
  /\ catalog_defaults database_oid st' = catalog_defaults database_oid st.

(** Both sides set to [layout_oid] for one table. *)
Definition default_set (database_oid table_oid layout_oid : Z)
    (st st' : State) : Prop :=
  (forall table_oid',
     storage_default database_oid table_oid' st'
     = if decide (table_oid' = table_oid)
       then (fun _ => layout_oid) <$> storage_default database_oid table_oid' st
       else storage_default database_oid table_oid' st)
  /\ catalog_defaults database_oid st'
     = (fun entry => if entry.1 =? table_oid then (entry.1, layout_oid)
                     else entry)
       <$> catalog_defaults database_oid st.

Lemma defaults_kept_agrees database_oid table_oid st st' :
  defaults_kept database_oid st st' ->
  default_layout_agrees database_oid table_oid st ->
  default_layout_agrees database_oid table_oid st'.
Proof.
  intros [Hstorage Hrows] Hagree layout_oid. rewrite Hstorage, Hrows.
  apply Hagree.
Qed.

Lemma default_set_agrees database_oid table_oid layout_oid table_oid' st st' :
  default_set database_oid table_oid layout_oid st st' ->
  default_layout_agrees database_oid table_oid' st ->
  default_layout_agrees database_oid table_oid' st'.
Proof.
  intros [Hstorage Hrows] Hagree layout_oid'. rewrite Hstorage, Hrows.
  destruct (decide (table_oid' = table_oid)) as [-> | Hne].
  - destruct (storage_default database_oid table_oid st); [| discriminate].
    intros [= <-]. apply Forall_fmap, Forall_forall. intros [oid l] _. simpl.
    destruct (oid =? table_oid) eqn:E; simpl; [done |].
    by apply Z.eqb_neq in E.
  - intros Hdefault. apply Forall_fmap.
    eapply Forall_impl; [exact (Hagree layout_oid' Hdefault) |].
    intros [oid l]. simpl. destruct (oid =? table_oid) eqn:E; simpl; [| done].
    apply Z.eqb_eq in E. congruence.
Qed.

(** The storage and catalog updates of the layout code, one by one. *)
Lemma lookup_table_update_table database_oid table_oid f st table_oid' :
  lookup_table database_oid table_oid'
    (update_table database_oid table_oid f st)
  = if decide (table_oid' = table_oid)
    then f <$> lookup_table database_oid table_oid st
    else lookup_table database_oid table_oid' st.
Proof.
  unfold lookup_table, update_table. simpl. rewrite lookup_alter_eq.
  destruct (storage st !! database_oid) as [database |]; simpl;
    [| by destruct (decide _)].
  destruct (decide (table_oid' = table_oid)) as [-> | Hne].
  - by rewrite lookup_alter_eq.
  - by rewrite lookup_alter_ne.
Qed.

Lemma catalog_defaults_update_rows database_oid f st :
  catalog_defaults database_oid (update_rows database_oid f st)
  = (fun row => (tblrow_oid row, tblrow_default_layout_oid row))
    <$> pg_table (f (rows_of database_oid st)).
Proof. unfold catalog_defaults. by rewrite rows_of_update_rows. Qed.

Lemma existsb_find_none {A} (f : A -> bool) (l : list A) :
  find f l = None -> existsb f l = false.
Proof.
  induction l as [| x rest IH]; simpl; [done |].
  destruct (f x); [discriminate | exact IH].
Qed.

Lemma lookup_table_log_event database_oid table_oid ev st :
  lookup_table database_oid table_oid (log_event ev st)
  = lookup_table database_oid table_oid st.
Proof. done. Qed.

Lemma lookup_table_update_rows database_oid table_oid f st :
  lookup_table database_oid table_oid (update_rows database_oid f st)
  = lookup_table database_oid table_oid st.
Proof. done. Qed.

Lemma catalog_defaults_log_event database_oid ev st :
  catalog_defaults database_oid (log_event ev st)
  = catalog_defaults database_oid st.
Proof. done. Qed.

Lemma catalog_defaults_update_table database_oid table_oid f st :
  catalog_defaults database_oid (update_table database_oid table_oid f st)
  = catalog_defaults database_oid st.
Proof. done. Qed.

Lemma lookup_table_found database_oid table_oid st table st0 :
  GetTableWithOid database_oid table_oid st = (Return table, st0) ->
  lookup_table database_oid table_oid st = Some table.
Proof.
  unfold lookup_table, GetTableWithOid, bind, GetDatabaseWithOid.
  destruct (storage st !! database_oid) as [database |]; [| discriminate].
  simpl. destruct (db_tables database !! table_oid); [| discriminate].
  by intros [= -> _].
Qed.

Ltac layout_rows :=
  repeat (rewrite lookup_table_log_event
          || rewrite lookup_table_update_rows
          || rewrite catalog_defaults_log_event
          || rewrite catalog_defaults_update_table
          || rewrite catalog_defaults_update_rows
          || rewrite lookup_table_update_table).

(** What a returning [CreateLayout] did: it took the table's next layout
    oid and, at most, appended a layout row. *)
Lemma CreateLayout_steps INVALID_OID txn database_oid table_oid st o st' :
  CreateLayout INVALID_OID txn database_oid table_oid st = (Return o, st') ->
  exists table f,
    lookup_table database_oid table_oid st = Some table
    /\ (forall c, pg_table (f c) = pg_table c)
    /\ (st' = update_table database_oid table_oid
                (fun t =>
                   {| table_name := table_name t;
                      table_schema := table_schema t;
                      default_layout := default_layout t;
                      next_layout_oid := next_layout_oid t + 1;
                      table_indexes := table_indexes t |}) st
        \/ st' = log_event (InsertLayout table_oid (next_layout_oid table))
                   (update_rows database_oid f
                      (update_table database_oid table_oid
                         (fun t =>
                            {| table_name := table_name t;
                               table_schema := table_schema t;
                               default_layout := default_layout t;
                               next_layout_oid := next_layout_oid t + 1;
                               table_indexes := table_indexes t |}) st)))
    /\ o = Some (next_layout_oid table).
Proof.
  unfold CreateLayout, GetNextLayoutOid. intros Hrun.
  apply bind_Return_inv in Hrun as (layout_oid & st1 & Hnext & Hrun).
  apply bind_Return_inv in Hnext as (table & st0 & Htable & Hnext).
  pose proof (GetTableWithOid_state _ _ _ _ _ Htable) as ->.
  apply lookup_table_found in Htable.
  unfold bind, modify, ret in Hnext. injection Hnext as <- <-.
  apply bind_Return_inv in Hrun as ([] & st1 & Hassert & Hrun).
  unfold PELOTON_ASSERT in Hassert.
  destruct (_ <? INVALID_OID); [| discriminate]. injection Hassert as <-.
  apply bind_Return_inv in Hrun as (catalogs & st1 & Hmap & Hrun).
  apply system_catalogs_state in Hmap as ->.
  apply bind_Return_inv in Hrun as (existing & st1 & Hfind & Hrun).
  unfold GetLayoutWithOid in Hfind. injection Hfind as <- <-.
  exists table.
  destruct (find _ _) as [layout |] eqn:Hnone.
  - injection Hrun as <- <-. exists (fun c => c).
    split; [done |]. split; [done |]. split; [by left | done].
  - unfold bind, LayoutCatalog_InsertLayout in Hrun.
    rewrite (existsb_find_none _ _ Hnone) in Hrun. simpl in Hrun.
    injection Hrun as <- <-.
    eexists (fun c => set_pg_layout _ c).
    split; [done |]. split; [done |]. split; [by right | done].
Qed.

Lemma CreateDefaultLayout_effect INVALID_OID txn database_oid table_oid
    st o st' :
  CreateDefaultLayout INVALID_OID txn database_oid table_oid st
  = (Return o, st') ->
  exists layout_oid,
    o = Some layout_oid
    /\ default_set database_oid table_oid layout_oid st st'.
Proof.
  unfold CreateDefaultLayout. intros Hrun.
  apply bind_Return_inv in Hrun as (new_layout & st1 & Hlayout & Hrun).
  apply CreateLayout_steps in Hlayout
    as (table & f & Htable & Hf & Hst1 & ->).
  apply bind_Return_inv in Hrun as (table1 & st2 & Htable1 & Hrun).
  apply GetTableWithOid_state in Htable1 as ->.
  apply bind_Return_inv in Hrun as ([] & st2 & Hset & Hrun).
  unfold SetDefaultLayout, modify in Hset. injection Hset as <-.
  apply bind_Return_inv in Hrun as (catalogs & st2 & Hmap & Hrun).
  apply system_catalogs_state in Hmap as ->.
  apply bind_Return_inv in Hrun as (updated & st2 & Hupdate & Hrun).
  unfold TableCatalog_UpdateDefaultLayoutOid in Hupdate.
  injection Hupdate as <- <-. injection Hrun as <- <-.
  exists (next_layout_oid table). split; [done |].
  split.
  - intros table_oid'. unfold storage_default.
    destruct Hst1 as [-> | ->]; layout_rows;
      destruct (decide (table_oid' = table_oid)) as [-> | Hne];
      rewrite ?decide_True, ?Htable by done; done.
  - layout_rows. simpl. rewrite <- list_fmap_compose.
    assert (Hrows : pg_table (rows_of database_oid st1)
                    = pg_table (rows_of database_oid st)).
    { destruct Hst1 as [-> | ->]; [done |].
      rewrite rows_of_log_event, rows_of_update_rows. apply Hf. }
    unfold rows_of at 1. simpl. fold (rows_of database_oid st1).
    rewrite Hrows. unfold catalog_defaults.
    rewrite <- list_fmap_compose. apply list_fmap_ext. intros _ row _. simpl.
    by destruct (tblrow_oid row =? table_oid).
Qed.

Lemma DropLayout_effect txn database_oid table_oid layout_oid st r st' :
  DropLayout txn database_oid table_oid layout_oid st = (Return r, st') ->
  defaults_kept database_oid st st'
  \/ default_set database_oid table_oid ROW_STORE_LAYOUT_OID st st'.
Proof.
  unfold DropLayout. intros Hrun.
  apply bind_Return_inv in Hrun as (table & st0 & Htable & Hrun).
  pose proof (GetTableWithOid_state _ _ _ _ _ Htable) as ->.
  apply lookup_table_found in Htable.
  apply bind_Return_inv in Hrun as (catalogs & st0 & Hmap & Hrun).
  apply system_catalogs_state in Hmap as ->.
  apply bind_Return_inv in Hrun as (deleted & st1 & Hdelete & Hrun).
  unfold LayoutCatalog_DeleteLayout in Hdelete. injection Hdelete as <- <-.
  set (st1 := log_event _ (update_rows _ _ st)) in Hrun.
  assert (Hkept1 : defaults_kept database_oid st st1).
  { split; [done |]. unfold st1. by layout_rows. }
  destruct (negb _); [injection Hrun as <- <-; by left |].
  destruct (default_layout table =? layout_oid);
    [| injection Hrun as <- <-; by left].
  right.
  apply bind_Return_inv in Hrun as ([] & st2 & Hreset & Hrun).
  unfold ResetDefaultLayout, modify in Hreset. injection Hreset as <-.
  set (st2 := update_table _ _ _ st1) in Hrun.
  assert (Htable2 : lookup_table database_oid table_oid st2
                    = Some (with_default_layout ROW_STORE_LAYOUT_OID table)).
  { unfold st2, st1. layout_rows. by rewrite decide_True, Htable. }
  apply bind_Return_inv in Hrun as (table1 & st0 & Htable1 & Hrun).
  pose proof (GetTableWithOid_state _ _ _ _ _ Htable1) as ->.
  apply lookup_table_found in Htable1. rewrite Htable2 in Htable1.
  injection Htable1 as <-. simpl in Hrun.
  apply bind_Return_inv in Hrun as (existing & st0 & Hfind & Hrun).
  unfold GetLayoutWithOid in Hfind. injection Hfind as <- <-.
  apply bind_Return_inv in Hrun as (created & st3 & Hcreated & Hrun).
  assert (Hst3 : created = true
                 /\ (forall table_oid',
                       lookup_table database_oid table_oid' st3
                       = lookup_table database_oid table_oid' st2)
                 /\ catalog_defaults database_oid st3
                    = catalog_defaults database_oid st2).
  { destruct (find _ _) as [layout |] eqn:Hnone.
    - by injection Hcreated as <- <-.
    - unfold LayoutCatalog_InsertLayout in Hcreated.
      rewrite (existsb_find_none _ _ Hnone) in Hcreated.
      injection Hcreated as <- <-. split; [done |]. split; [done |].
      by layout_rows. }
  destruct Hst3 as (-> & Hstorage3 & Hrows3). simpl in Hrun.
  apply bind_Return_inv in Hrun as (catalogs' & st0 & Hmap & Hrun).
  apply system_catalogs_state in Hmap as ->.
  apply bind_Return_inv in Hrun as (updated & st4 & Hupdate & Hrun).
  unfold TableCatalog_UpdateDefaultLayoutOid in Hupdate.
  injection Hupdate as <- <-. injection Hrun as <- <-.
  split.
  - intros table_oid'. unfold storage_default. layout_rows.
    rewrite Hstorage3. unfold st2, st1. layout_rows.
    destruct (decide (table_oid' = table_oid)) as [-> | Hne]; [| done].
    by rewrite Htable.
  - layout_rows. simpl. rewrite <- list_fmap_compose.
    transitivity
      ((fun entry : Z * Z =>
          if entry.1 =? table_oid then (entry.1, ROW_STORE_LAYOUT_OID)
          else entry) <$> catalog_defaults database_oid st3).
    + unfold catalog_defaults. rewrite <- list_fmap_compose.
      apply list_fmap_ext. intros _ row _. simpl.
      by destruct (tblrow_oid row =? table_oid).
    + rewrite Hrows3. unfold st2. rewrite catalog_defaults_update_table.
      by rewrite (proj2 Hkept1).
Qed.

(** X14. The layout DDL keeps storage and catalog in step.  If, for a
    table, every row of the table catalog gives the default layout that
    the table has in the storage manager, then this is still so after a
    [CreateDefaultLayout] on any table of the database has returned a
    layout, after a [DropLayout] has returned [SUCCESS], and after a
    [DropLayout] of a layout that has no row in the layout catalog has
    returned (it returns [FAILURE], before the default layout is looked
    at).  Not covered is the [FAILURE] that [DropLayout] returns after
    [ResetDefaultLayout], when [InsertLayout] refuses the row of the
    row-store layout: [UpdateDefaultLayoutOid] is skipped there. *)
Theorem default_layout_stays_in_step (INVALID_OID : Z)
    (txn : option TransactionContext)
    (database_oid table_oid layout_oid table_oid' : Z) (st : State) :
  default_layout_agrees database_oid table_oid' st ->
  (forall new_layout st',
     CreateDefaultLayout INVALID_OID txn database_oid table_oid st
     = (Return (Some new_layout), st') ->
     default_layout_agrees database_oid table_oid' st')
  /\ (forall st',
        DropLayout txn database_oid table_oid layout_oid st
        = (Return SUCCESS, st') ->
        default_layout_agrees database_oid table_oid' st')
  /\ (find (is_layout table_oid layout_oid)
        (pg_layout (rows_of database_oid st)) = None ->
      forall r st',
        DropLayout txn database_oid table_oid layout_oid st = (Return r, st') ->
        r = FAILURE
        /\ storage st' = storage st
        /\ default_layout_agrees database_oid table_oid' st').
Proof.
  intros Hagree. split; [| split].
  - intros new_layout st' (l & _ & Hset)%CreateDefaultLayout_effect.
    by eapply default_set_agrees.
  - intros st' [Hkept | Hset]%DropLayout_effect.
    + by eapply defaults_kept_agrees.
    + by eapply default_set_agrees.
  - intros Hnone r st' Hrun.
    assert (Hearly : r = FAILURE /\ storage st' = storage st).
    { unfold DropLayout in Hrun.
      apply bind_Return_inv in Hrun as (table & st0 & Htable & Hrun).
      apply GetTableWithOid_state in Htable as ->.
      apply bind_Return_inv in Hrun as (catalogs & st0 & Hmap & Hrun).
      apply system_catalogs_state in Hmap as ->.
      apply bind_Return_inv in Hrun as (deleted & st1 & Hdelete & Hrun).
      unfold LayoutCatalog_DeleteLayout in Hdelete.
      rewrite (existsb_find_none _ _ Hnone) in Hdelete.
      injection Hdelete as <- <-. by injection Hrun as <- <-. }
    destruct Hearly as [-> Hstorage]. split; [done |]. split; [done |].
    apply DropLayout_effect in Hrun as [Hkept | Hset].
    + by eapply defaults_kept_agrees.
    + by eapply default_set_agrees.
Qed.

Lemma default_layout_stays_in_step_witness :
  default_layout_agrees 100 200 with_new_default
  /\ default_layout_agrees 100 200 after_drop_layout.
Proof.
  assert (H0 : default_layout_agrees 100 200 sample_state).
  { intros l [= <-]. repeat constructor. }
  assert (H1 : default_layout_agrees 100 200 with_new_default).
  { refine (proj1 (default_layout_stays_in_step peloton_INVALID_OID (Some 1)
                     100 200 1 200 sample_state H0) 1 _ _).
    vm_compute. reflexivity. }
  split; [exact H1 |].
  refine (proj1 (proj2 (default_layout_stays_in_step peloton_INVALID_OID
                          (Some 1) 100 200 1 200 with_new_default H1)) _ _).
  vm_compute. reflexivity.
Defined.

End CatalogFacts.

(* ===================================================================== *)
(** ** The catalog: the function registry                                *)
(* ===================================================================== *)

Module FunctionRegistry.
Import Catalog (Outcome, Return, Throw, NullDereference, AssertionFailure).

(** [type::TypeId], the values that the registry code names. *)
Inductive TypeId : Type :=
| BOOLEAN | TINYINT | SMALLINT | INTEGER | BIGINT | DECIMAL | TIMESTAMP
| DATE | VARCHAR | VARBINARY.

#[global] Instance TypeId_eq_dec : EqDecision TypeId.
Proof. solve_decision. Defined.

(** [function::BuiltInFuncType]: an operator id and the address of the
    implementation, both by name; [None] is the null address. *)
Record BuiltInFuncType : Type := { op_id : string; impl : option string }.

#[global] Instance BuiltInFuncType_eq_dec : EqDecision BuiltInFuncType.
Proof. solve_decision. Defined.

(** [codegen::CodeContext], reduced to what [GetUDF()] gives. *)
Record CodeContext : Type := { GetUDF : option string }.

(** Rows of [pg_proc] and [pg_language]. *)
Record ProcCatalogEntry : Type := {
  GetOid : Z;
  GetName : string;
  GetRetType : TypeId;
  GetArgTypes : list TypeId;
  GetLangOid : Z;
  GetSrc : string
}.

Record LanguageCatalogEntry : Type := { lang_oid : Z; lang_name : string }.

Inductive TxnEvent : Type :=
| BeginTransaction | AbortTransaction | CommitTransaction.

Record State : Type := {
  pg_proc : list ProcCatalogEntry;
  proc_next_oid : Z;
  pg_language : list LanguageCatalogEntry;
  lang_next_oid : Z;
  (* function::BuiltInFunctions and function::PlpgsqlFunctions *)
  builtin_func_map : gmap string BuiltInFuncType;
  plpgsql_func_map : gmap Z CodeContext;
  (* calls made on the transaction manager, oldest first *)
  txn_events : list TxnEvent;
  (* the [static bool initialized] of the two Initialize functions *)
  languages_initialized : bool;
  functions_initialized : bool
}.

Definition txn_call (ev : TxnEvent) (st : State) : State :=
  {| pg_proc := pg_proc st; proc_next_oid := proc_next_oid st;
     pg_language := pg_language st; lang_next_oid := lang_next_oid st;
     builtin_func_map := builtin_func_map st;
     plpgsql_func_map := plpgsql_func_map st;
     txn_events := txn_events st ++ [ev];
     languages_initialized := languages_initialized st;
     functions_initialized := functions_initialized st |}.

(** [FunctionData]; a field that [GetFunction] does not assign is [None]. *)
Record FunctionData : Type := {
  argument_types_ : list TypeId;
  func_name_ : string;
  return_type_ : TypeId;
  func_ : option BuiltInFuncType;
  func_context_ : option CodeContext;
  is_udf_ : bool
}.

(** *** Collaborators

    The proc and language catalogs and the two function maps are not
    among the sources. *)

(** Modelled from the spec: [ProcCatalog::GetProcByName], the look-up "by
    name+argument types", and [ProcCatalog::InsertProc], which adds a row
    under the next oid; a signature is stored once, and the insertion of a
    second row for it reports failure. *)
Definition same_signature (name : string) (argument_types : list TypeId)
    (row : ProcCatalogEntry) : bool :=
  bool_decide ((GetName row, GetArgTypes row) = (name, argument_types)).

Definition GetProcByName (name : string) (argument_types : list TypeId)
    (st : State) : option ProcCatalogEntry :=
  find (same_signature name argument_types) (pg_proc st).

Definition InsertProc (name : string) (return_type : TypeId)
    (argument_types : list TypeId) (prolang : Z) (src : string) (st : State)
  : bool * State :=
  if existsb (same_signature name argument_types) (pg_proc st) then (false, st)
  else
    (true,
     {| pg_proc :=
          pg_proc st
          ++ [ {| GetOid := proc_next_oid st; GetName := name;
                  GetRetType := return_type; GetArgTypes := argument_types;
                  GetLangOid := prolang; GetSrc := src |} ];
        proc_next_oid := proc_next_oid st + 1;
        pg_language := pg_language st; lang_next_oid := lang_next_oid st;
        builtin_func_map := builtin_func_map st;
        plpgsql_func_map := plpgsql_func_map st;
        txn_events := txn_events st;
        languages_initialized := languages_initialized st;
        functions_initialized := functions_initialized st |}).

(** Modelled from the spec: [ProcCatalogEntry::GetLanguage] "resolves the
    declared language" of a row, [LanguageCatalog::GetLanguageByName] and
    [LanguageCatalog::InsertLanguage]; null when there is no such row. *)
Definition GetLanguage (proc : ProcCatalogEntry) (st : State)
  : option LanguageCatalogEntry :=
  find (fun lang => lang_oid lang =? GetLangOid proc) (pg_language st).

Definition GetLanguageByName (name : string) (st : State)
  : option LanguageCatalogEntry :=
  find (fun lang => String.eqb (lang_name lang) name) (pg_language st).

Definition InsertLanguage (name : string) (st : State) : bool * State :=
  if existsb (fun lang => String.eqb (lang_name lang) name) (pg_language st)
  then (false, st)
  else
    (true,
     {| pg_proc := pg_proc st; proc_next_oid := proc_next_oid st;
        pg_language :=
          pg_language st
          ++ [ {| lang_oid := lang_next_oid st; lang_name := name |} ];
        lang_next_oid := lang_next_oid st + 1;
        builtin_func_map := builtin_func_map st;
        plpgsql_func_map := plpgsql_func_map st;
        txn_events := txn_events st;
        languages_initialized := languages_initialized st;
        functions_initialized := functions_initialized st |}).

(** Modelled from the spec: the two maps that associate a function with "a
    native function pointer" or "a generated-code handle".  A name or oid
    that is already bound keeps its binding; a name that is not bound
    gives the null address, an oid that is not bound the null handle. *)
Definition BuiltInFunctions_AddFunction (func_name : string)
    (func : BuiltInFuncType) (st : State) : State :=
  {| pg_proc := pg_proc st; proc_next_oid := proc_next_oid st;
     pg_language := pg_language st; lang_next_oid := lang_next_oid st;
     builtin_func_map :=
       match builtin_func_map st !! func_name with
       | Some _ => builtin_func_map st
       | None => <[func_name := func]> (builtin_func_map st)
       end;
     plpgsql_func_map := plpgsql_func_map st;
     txn_events := txn_events st;
     languages_initialized := languages_initialized st;
     functions_initialized := functions_initialized st |}.

Definition BuiltInFunctions_GetFuncByName (func_name : string) (st : State)
  : BuiltInFuncType :=
  default {| op_id := "Invalid"; impl := None |}
    (builtin_func_map st !! func_name).

Definition PlpgsqlFunctions_AddFunction (oid : Z) (code_context : CodeContext)
    (st : State) : State :=
  {| pg_proc := pg_proc st; proc_next_oid := proc_next_oid st;
     pg_language := pg_language st; lang_next_oid := lang_next_oid st;
     builtin_func_map := builtin_func_map st;
     plpgsql_func_map :=
       match plpgsql_func_map st !! oid with
       | Some _ => plpgsql_func_map st
       | None => <[oid := code_context]> (plpgsql_func_map st)
       end;
     txn_events := txn_events st;
     languages_initialized := languages_initialized st;
     functions_initialized := functions_initialized st |}.

Definition PlpgsqlFunctions_GetFuncContextByOid (oid : Z) (st : State)
  : option CodeContext :=
  plpgsql_func_map st !! oid.

(** *** The registry functions of [catalog.cpp] *)

(** [Catalog::AddBuiltinFunction]. *)
Definition AddBuiltinFunction (name : string) (func : BuiltInFuncType)
    (func_name : string) (return_type : TypeId)
    (argument_types : list TypeId) (prolang : Z) (st : State)
  : Outcome unit * State :=
  let '(inserted, st1) :=
    InsertProc name return_type argument_types prolang func_name st in
  if negb inserted then (Throw "Failed to add function", st1)
  else (Return tt, BuiltInFunctions_AddFunction func_name func st1).

(** [Catalog::AddProcedure]. *)
Definition AddProcedure (name : string) (return_type : TypeId)
    (argument_types : list TypeId) (prolang : Z) (code_context : CodeContext)
    (func_src : string) (st : State) : Outcome unit * State :=
  (* Check if UDF already exists *)
  match GetProcByName name argument_types st with
  | Some _ => (Return tt, st)
  | None =>
      let '(inserted, st1) :=
        InsertProc name return_type argument_types prolang func_src st in
      if negb inserted then (Throw "Failed to add function", st1)
      else
        match GetProcByName name argument_types st1 with
        | None => (NullDereference, st1)
        | Some proc_catalog_obj =>
            (* Insert UDF into Catalog *)
            (Return tt,
             PlpgsqlFunctions_AddFunction (GetOid proc_catalog_obj)
               code_context st1)
        end
  end.

(** [Catalog::GetFunction]. *)
Definition GetFunction (name : string) (argument_types : list TypeId)
    (st : State) : Outcome FunctionData * State :=
  let st := txn_call BeginTransaction st in
  (* Lookup the function in pg_proc *)
  match GetProcByName name argument_types st with
  | None =>
      (Throw "Failed to find function", txn_call AbortTransaction st)
  | Some proc_catalog_obj =>
      (* If the language isn't 'internal' or 'plpgsql', crap out *)
      match GetLanguage proc_catalog_obj st with
      | None =>
          (* the message is built from lang_catalog_obj->GetName() *)
          (NullDereference, txn_call AbortTransaction st)
      | Some lang_catalog_obj =>
          if negb (String.eqb (lang_name lang_catalog_obj) "internal")
             && negb (String.eqb (lang_name lang_catalog_obj) "plpgsql")
          then
            (Throw "Peloton currently only supports internal functions and plpgsql UDFs",
             txn_call AbortTransaction st)
          else if String.eqb (lang_name lang_catalog_obj) "internal" then
            let func := BuiltInFunctions_GetFuncByName
                          (GetSrc proc_catalog_obj) st in
            match impl func with
            | None =>
                (Throw "Function is internal, but doesn't have a function address",
                 txn_call AbortTransaction st)
            | Some _ =>
                (Return {| argument_types_ := argument_types;
                           func_name_ := GetSrc proc_catalog_obj;
                           return_type_ := GetRetType proc_catalog_obj;
                           func_ := Some func; func_context_ := None;
                           is_udf_ := false |},
                 txn_call CommitTransaction st)
            end
          else
            match PlpgsqlFunctions_GetFuncContextByOid
                    (GetOid proc_catalog_obj) st with
            | None => (NullDereference, st)
            | Some func_context =>
                match GetUDF func_context with
                | None =>
                    (Throw "Function is plpgsql, but doesn't have a function address",
                     txn_call AbortTransaction st)
                | Some _ =>
                    (Return {| argument_types_ := argument_types;
                               func_name_ := GetSrc proc_catalog_obj;
                               return_type_ := GetRetType proc_catalog_obj;
                               func_ := None;
                               func_context_ := Some func_context;
                               is_udf_ := true |},
                     txn_call CommitTransaction st)
                end
            end
      end
  end.

(** One [AddBuiltinFunction] call of [InitializeFunctions]. *)
Record Registration : Type := {
  reg_name : string;
  reg_func : BuiltInFuncType;
  reg_func_name : string;
  reg_return_type : TypeId;
  reg_argument_types : list TypeId
}.

Definition builtin (name op_id impl func_name : string) (return_type : TypeId)
    (argument_types : list TypeId) : Registration :=
  {| reg_name := name;
     reg_func := {| op_id := op_id; impl := Some impl |};
     reg_func_name := func_name; reg_return_type := return_type;
     reg_argument_types := argument_types |}.

(** The calls in the [try] block of [InitializeFunctions], in order. *)
Definition builtin_functions : list Registration :=
  [
    builtin "ascii" "Ascii" "OldEngineStringFunctions::Ascii" "Ascii" INTEGER [VARCHAR];
    builtin "chr" "Chr" "OldEngineStringFunctions::Chr" "Chr" VARCHAR [INTEGER];
    builtin "concat" "Concat" "OldEngineStringFunctions::Concat" "Concat" VARCHAR [VARCHAR; VARCHAR];
    builtin "substr" "Substr" "OldEngineStringFunctions::Substr" "Substr" VARCHAR [VARCHAR; INTEGER; INTEGER];
    builtin "char_length" "CharLength" "OldEngineStringFunctions::CharLength" "CharLength" INTEGER [VARCHAR];
    builtin "octet_length" "OctetLength" "OldEngineStringFunctions::OctetLength" "OctetLength" INTEGER [VARCHAR];
    builtin "length" "Length" "OldEngineStringFunctions::Length" "Length" INTEGER [VARCHAR];
    builtin "repeat" "Repeat" "OldEngineStringFunctions::Repeat" "Repeat" VARCHAR [VARCHAR; INTEGER];
    builtin "replace" "Replace" "OldEngineStringFunctions::Replace" "Replace" VARCHAR [VARCHAR; VARCHAR; VARCHAR];
    builtin "ltrim" "LTrim" "OldEngineStringFunctions::LTrim" "LTrim" VARCHAR [VARCHAR; VARCHAR];
    builtin "rtrim" "RTrim" "OldEngineStringFunctions::RTrim" "RTrim" VARCHAR [VARCHAR; VARCHAR];
    builtin "btrim" "BTrim" "OldEngineStringFunctions::BTrim" "btrim" VARCHAR [VARCHAR; VARCHAR];
    builtin "btrim" "Trim" "OldEngineStringFunctions::Trim" "trim" VARCHAR [VARCHAR];
    builtin "like" "Like" "OldEngineStringFunctions::Like" "like" VARCHAR [VARCHAR; VARCHAR];
    builtin "abs" "Abs" "NumericFunctions::_Abs" "Abs" DECIMAL [DECIMAL];
    builtin "sqrt" "Sqrt" "NumericFunctions::Sqrt" "Sqrt" DECIMAL [TINYINT];
    builtin "sqrt" "Sqrt" "NumericFunctions::Sqrt" "Sqrt" DECIMAL [SMALLINT];
    builtin "sqrt" "Sqrt" "NumericFunctions::Sqrt" "Sqrt" DECIMAL [INTEGER];
    builtin "sqrt" "Sqrt" "NumericFunctions::Sqrt" "Sqrt" DECIMAL [BIGINT];
    builtin "sqrt" "Sqrt" "NumericFunctions::Sqrt" "Sqrt" DECIMAL [DECIMAL];
    builtin "floor" "Floor" "NumericFunctions::_Floor" "Floor" DECIMAL [DECIMAL];
    builtin "abs" "Abs" "NumericFunctions::_Abs" "Abs" TINYINT [TINYINT];
    builtin "abs" "Abs" "NumericFunctions::_Abs" "Abs" SMALLINT [SMALLINT];
    builtin "abs" "Abs" "NumericFunctions::_Abs" "Abs" INTEGER [INTEGER];
    builtin "abs" "Abs" "NumericFunctions::_Abs" "Abs" BIGINT [BIGINT];
    builtin "floor" "Floor" "NumericFunctions::_Floor" "Floor" DECIMAL [INTEGER];
    builtin "floor" "Floor" "NumericFunctions::_Floor" "Floor" DECIMAL [BIGINT];
    builtin "floor" "Floor" "NumericFunctions::_Floor" "Floor" DECIMAL [TINYINT];
    builtin "floor" "Floor" "NumericFunctions::_Floor" "Floor" DECIMAL [SMALLINT];
    builtin "round" "Round" "NumericFunctions::_Round" "Round" DECIMAL [DECIMAL];
    builtin "ceil" "Ceil" "NumericFunctions::_Ceil" "Ceil" DECIMAL [DECIMAL];
    builtin "ceil" "Ceil" "NumericFunctions::_Ceil" "Ceil" DECIMAL [TINYINT];
    builtin "ceil" "Ceil" "NumericFunctions::_Ceil" "Ceil" DECIMAL [SMALLINT];
    builtin "ceil" "Ceil" "NumericFunctions::_Ceil" "Ceil" DECIMAL [INTEGER];
    builtin "ceil" "Ceil" "NumericFunctions::_Ceil" "Ceil" DECIMAL [BIGINT];
    builtin "ceiling" "Ceil" "NumericFunctions::_Ceil" "Ceil" DECIMAL [DECIMAL];
    builtin "ceiling" "Ceil" "NumericFunctions::_Ceil" "Ceil" DECIMAL [TINYINT];
    builtin "ceiling" "Ceil" "NumericFunctions::_Ceil" "Ceil" DECIMAL [SMALLINT];
    builtin "ceiling" "Ceil" "NumericFunctions::_Ceil" "Ceil" DECIMAL [INTEGER];
    builtin "ceiling" "Ceil" "NumericFunctions::_Ceil" "Ceil" DECIMAL [BIGINT];
    builtin "date_part" "DatePart" "TimestampFunctions::_DatePart" "DatePart" DECIMAL [VARCHAR; TIMESTAMP];
    builtin "date_trunc" "DateTrunc" "TimestampFunctions::_DateTrunc" "DateTrunc" TIMESTAMP [VARCHAR; TIMESTAMP];
    builtin "now" "Now" "DateFunctions::_Now" "Now" TIMESTAMP []
  ]%string.

(** The calls one after the other; the first exception ends the block. *)
Fixpoint add_builtins (internal_lang : Z) (registrations : list Registration)
    (st : State) : Outcome unit * State :=
  match registrations with
  | [] => (Return tt, st)
  | r :: rest =>
      match AddBuiltinFunction (reg_name r) (reg_func r) (reg_func_name r)
              (reg_return_type r) (reg_argument_types r) internal_lang st with
      | (Return _, st1) => add_builtins internal_lang rest st1
      | failure => failure
      end
  end.

Definition set_functions_initialized (st : State) : State :=
  {| pg_proc := pg_proc st; proc_next_oid := proc_next_oid st;
     pg_language := pg_language st; lang_next_oid := lang_next_oid st;
     builtin_func_map := builtin_func_map st;
     plpgsql_func_map := plpgsql_func_map st;
     txn_events := txn_events st;
     languages_initialized := languages_initialized st;
     functions_initialized := true |}.

Definition set_languages_initialized (st : State) : State :=
  {| pg_proc := pg_proc st; proc_next_oid := proc_next_oid st;
     pg_language := pg_language st; lang_next_oid := lang_next_oid st;
     builtin_func_map := builtin_func_map st;
     plpgsql_func_map := plpgsql_func_map st;
     txn_events := txn_events st;
     languages_initialized := true;
     functions_initialized := functions_initialized st |}.

(** [Catalog::InitializeLanguages]. *)
Definition InitializeLanguages (st : State) : Outcome unit * State :=
  if languages_initialized st then (Return tt, st)
  else
    let st0 := txn_call BeginTransaction st in
    (* add "internal" language *)
    let '(inserted, st1) := InsertLanguage "internal" st0 in
    if negb inserted then
      (Throw "Failed to add language 'internal'", txn_call AbortTransaction st1)
    else
      (* Add "plpgsql" language *)
      let '(inserted, st2) := InsertLanguage "plpgsql" st1 in
      if negb inserted then
        (Throw "Failed to add language 'plpgsql'", txn_call AbortTransaction st2)
      else
        (Return tt, set_languages_initialized (txn_call CommitTransaction st2)).

(** [Catalog::InitializeFunctions]. *)
Definition InitializeFunctions (st : State) : Outcome unit * State :=
  if functions_initialized st then (Return tt, st)
  else
    let st0 := txn_call BeginTransaction st in
    match GetLanguageByName "internal" st0 with
    | None => (Throw "Language 'internal' does not exist", st0)
    | Some lang_object =>
        let internal_lang := lang_oid lang_object in
        match add_builtins internal_lang builtin_functions st0 with
        | (Return _, st1) =>
            (Return tt,
             set_functions_initialized (txn_call CommitTransaction st1))
        | (Throw e, st1) => (Throw e, txn_call AbortTransaction st1)
        | failure => failure
        end
    end.

(** *** [GetFunction] and its transaction *)

(** The catalogs and the function maps as they were. *)
Definition registry_kept (st st' : State) : Prop :=
  pg_proc st' = pg_proc st /\ pg_language st' = pg_language st
  /\ builtin_func_map st' = builtin_func_map st
  /\ plpgsql_func_map st' = plpgsql_func_map st.

(** X15. [GetFunction] only reads the registry, and it brackets the
    look-up in a transaction of its own: a result is returned after
    [CommitTransaction], and every [CatalogException] is thrown after
    [AbortTransaction].  Two paths end in a null dereference instead: a
    proc row whose language row is missing (after the abort, while the
    message of the exception is built), and a plpgsql row without an entry
    in the plpgsql function map, where the transaction is left open. *)
Theorem GetFunction_transaction (name : string) (argument_types : list TypeId)
    (st : State) :
  let run := GetFunction name argument_types st in
  registry_kept st run.2
  /\ match run.1 with
     | Return result =>
         txn_events run.2
         = txn_events st ++ [BeginTransaction; CommitTransaction]
         /\ argument_types_ result = argument_types
     | Throw _ =>
         txn_events run.2
         = txn_events st ++ [BeginTransaction; AbortTransaction]
     | NullDereference =>
         exists proc,
           GetProcByName name argument_types st = Some proc
           /\ ((GetLanguage proc st = None
                /\ txn_events run.2
                   = txn_events st ++ [BeginTransaction; AbortTransaction])
               \/ (plpgsql_func_map st !! GetOid proc = None
                   /\ txn_events run.2 = txn_events st ++ [BeginTransaction]))
     | AssertionFailure => False
     end.
Proof.
  intros run. subst run. unfold GetFunction.
  change (GetProcByName name argument_types (txn_call BeginTransaction st))
    with (GetProcByName name argument_types st).
  destruct (GetProcByName name argument_types st) as [proc |] eqn:Hproc;
    [| simpl; by rewrite <- app_assoc].
  change (GetLanguage proc (txn_call BeginTransaction st))
    with (GetLanguage proc st).
  destruct (GetLanguage proc st) as [lang |] eqn:Hlang.
  - destruct (negb _ && negb _); [simpl; by rewrite <- app_assoc |].
    destruct (String.eqb (lang_name lang) "internal").
    + destruct (impl _); simpl; by rewrite <- app_assoc.
    + unfold PlpgsqlFunctions_GetFuncContextByOid.
      change (plpgsql_func_map (txn_call BeginTransaction st))
        with (plpgsql_func_map st).
      destruct (plpgsql_func_map st !! GetOid proc) as [context |] eqn:Hctx.
      * destruct (GetUDF context); simpl; by rewrite <- app_assoc.
      * simpl. split; [done |]. exists proc. split; [done |]. by right.
  - simpl. split; [done |]. exists proc. split; [done |]. left.
    by rewrite <- app_assoc.
Qed.

(** *** Registered builtins resolve *)

(** What [GetFunction] gives for a registration that resolves. *)
Definition resolved (r : Registration) : FunctionData :=
  {| argument_types_ := reg_argument_types r;
     func_name_ := reg_func_name r;
     return_type_ := reg_return_type r;
     func_ := Some (reg_func r); func_context_ := None; is_udf_ := false |}.

(** The registration has its row in [pg_proc] and its function in the map
    of builtins. *)
Definition registered (prolang : Z) (st : State) (r : Registration) : Prop :=
  exists oid,
    GetProcByName (reg_name r) (reg_argument_types r) st
    = Some {| GetOid := oid; GetName := reg_name r;
              GetRetType := reg_return_type r;
              GetArgTypes := reg_argument_types r;
              GetLangOid := prolang; GetSrc := reg_func_name r |}
    /\ builtin_func_map st !! reg_func_name r = Some (reg_func r).

(** The function name is free in the map of builtins, or bound to this
    function already. *)
Definition bindable (st : State) (r : Registration) : Prop :=
  forall func,
    builtin_func_map st !! reg_func_name r = Some func -> func = reg_func r.

Lemma find_snoc_none {A} (f : A -> bool) (l : list A) (x : A) :
  find f l = None -> find f (l ++ [x]) = if f x then Some x else None.
Proof.
  induction l as [| y rest IH]; simpl; [done |].
  destruct (f y); [discriminate | exact IH].
Qed.

Lemma find_snoc_other {A} (f : A -> bool) (l : list A) (x : A) :
  f x = false -> find f (l ++ [x]) = find f l.
Proof.
  intros Hx. induction l as [| y rest IH]; simpl; [by rewrite Hx |].
  by destruct (f y).
Qed.

Lemma find_snoc_some {A} (f : A -> bool) (l : list A) (x y : A) :
  find f l = Some y -> find f (l ++ [x]) = Some y.
Proof.
  induction l as [| z rest IH]; simpl; [discriminate |].
  destruct (f z); [done | exact IH].
Qed.

Lemma same_signature_refl name argument_types oid return_type prolang src :
  same_signature name argument_types
    {| GetOid := oid; GetName := name; GetRetType := return_type;
       GetArgTypes := argument_types; GetLangOid := prolang; GetSrc := src |}
  = true.
Proof. unfold same_signature. simpl. by apply bool_decide_eq_true_2. Qed.

(** One [AddBuiltinFunction] for a signature that [pg_proc] does not have
    and a bindable function name. *)
Lemma AddBuiltinFunction_registers prolang st r :
  GetProcByName (reg_name r) (reg_argument_types r) st = None ->
  bindable st r ->
  exists st',
    AddBuiltinFunction (reg_name r) (reg_func r) (reg_func_name r)
      (reg_return_type r) (reg_argument_types r) prolang st
    = (Return tt, st')
    /\ registered prolang st' r
    /\ pg_language st' = pg_language st
    /\ (forall r0, registered prolang st r0 -> registered prolang st' r0)
    /\ (forall name argument_types,
          (name, argument_types) <> (reg_name r, reg_argument_types r) ->
          GetProcByName name argument_types st'
          = GetProcByName name argument_types st)
    /\ (forall func_name,
          builtin_func_map st' !! func_name
          = if decide (func_name = reg_func_name r) then Some (reg_func r)
            else builtin_func_map st !! func_name).
Proof.
  intros Hnew Hbind. unfold AddBuiltinFunction, InsertProc.
  unfold GetProcByName in Hnew. rewrite (CatalogFacts.existsb_find_none _ _ Hnew).
  simpl. eexists. split; [reflexivity |].
  assert (Hmap : forall func_name,
            match builtin_func_map st !! reg_func_name r with
            | Some _ => builtin_func_map st
            | None => <[reg_func_name r := reg_func r]> (builtin_func_map st)
            end !! func_name
            = if decide (func_name = reg_func_name r) then Some (reg_func r)
              else builtin_func_map st !! func_name).
  { intros func_name.
    destruct (decide (func_name = reg_func_name r)) as [-> | Hne].
    - destruct (builtin_func_map st !! reg_func_name r) as [func |] eqn:E.
      + rewrite E. f_equal. by apply Hbind.
      + apply lookup_insert_eq.
    - destruct (builtin_func_map st !! reg_func_name r);
        [done | by rewrite lookup_insert_ne]. }
  split; [| split; [done | split; [| split; [| exact Hmap]]]].
  - exists (proc_next_oid st). unfold GetProcByName. simpl.
    rewrite find_snoc_none, same_signature_refl by done.
    split; [done |]. by rewrite Hmap, decide_True.
  - intros r0 (oid & Hrow & Hfunc). exists oid. unfold GetProcByName in *.
    simpl. split.
    + by apply find_snoc_some.
    + rewrite Hmap. destruct (decide _) as [E | _]; [| done].
      f_equal. symmetry. apply Hbind. by rewrite <- E.
  - intros name argument_types Hne. unfold GetProcByName. simpl.
    apply find_snoc_other. unfold same_signature. simpl.
    apply bool_decide_eq_false_2. congruence.
Qed.

Lemma add_builtins_registers prolang (registrations : list Registration) :
  forall st,
  NoDup ((fun r => (reg_name r, reg_argument_types r)) <$> registrations) ->
  Forall (fun r => GetProcByName (reg_name r) (reg_argument_types r) st = None)
    registrations ->
  Forall (bindable st) registrations ->
  (forall r r', r ∈ registrations -> r' ∈ registrations ->
     reg_func_name r = reg_func_name r' -> reg_func r = reg_func r') ->
  exists st',
    add_builtins prolang registrations st = (Return tt, st')
    /\ Forall (registered prolang st') registrations
    /\ pg_language st' = pg_language st
    /\ (forall r0, registered prolang st r0 -> registered prolang st' r0).
Proof.
  induction registrations as [| r rest IH];
    intros st Hnodup Hnew Hbind Hsame.
  - exists st. by repeat split.
  - rewrite fmap_cons in Hnodup. apply NoDup_cons in Hnodup as [Hfresh Hnodup].
    apply Forall_cons in Hnew as [Hnew_r Hnew].
    apply Forall_cons in Hbind as [Hbind_r Hbind].
    destruct (AddBuiltinFunction_registers prolang st r Hnew_r Hbind_r)
      as (st1 & Hrun1 & Hreg1 & Hlang1 & Hkeep1 & Hproc1 & Hmap1).
    destruct (IH st1) as (st' & Hrun & Hreg & Hlang & Hkeep); try done.
    + apply Forall_forall. intros r' Hin. rewrite Hproc1.
      * by apply (proj1 (Forall_forall _ _) Hnew).
      * intros E. apply Hfresh. rewrite <- E. apply list_elem_of_fmap.
        by exists r'.
    + apply Forall_forall. intros r' Hin func. rewrite Hmap1.
      destruct (decide _) as [E | _].
      * intros [= <-]. apply Hsame; [by left | by right | done].
      * by apply (proj1 (Forall_forall _ _) Hbind).
    + intros r1 r2 H1 H2. apply Hsame; by right.
    + exists st'. cbn [add_builtins]. rewrite Hrun1.
      split; [exact Hrun |]. split; [| split].
      * apply Forall_cons. split; [by apply Hkeep | done].
      * congruence.
      * intros r0 H0. by apply Hkeep, Hkeep1.
Qed.

Lemma registered_resolves prolang st r lang :
  find (fun lang => lang_oid lang =? prolang) (pg_language st) = Some lang ->
  lang_name lang = "internal"%string ->
  is_Some (impl (reg_func r)) ->
  registered prolang st r ->
  (GetFunction (reg_name r) (reg_argument_types r) st).1 = Return (resolved r).
Proof.
  intros Hlang Hname [address Himpl] (oid & Hrow & Hfunc).
  unfold GetFunction.
  change (GetProcByName _ _ (txn_call BeginTransaction st))
    with (GetProcByName (reg_name r) (reg_argument_types r) st).
  rewrite Hrow. unfold GetLanguage. simpl. rewrite Hlang, Hname. simpl.
  unfold BuiltInFunctions_GetFuncByName. simpl. rewrite Hfunc. simpl.
  by rewrite Himpl.
Qed.

(** X16. Registered builtins resolve.  Take registrations with pairwise
    distinct signatures (name and argument types), none of them in
    [pg_proc] yet, each with a non-null address, where a function name
    stands for one function only, under a language row called
    "internal".  Then the [AddBuiltinFunction] calls all return, and
    afterwards [GetFunction] resolves every one of the signatures to the
    function, function name and return type it was registered with. *)
Theorem builtins_resolve (prolang : Z) (registrations : list Registration)
    (st : State) (lang : LanguageCatalogEntry) :
  find (fun lang => lang_oid lang =? prolang) (pg_language st) = Some lang ->
  lang_name lang = "internal"%string ->
  NoDup ((fun r => (reg_name r, reg_argument_types r)) <$> registrations) ->
  Forall (fun r => GetProcByName (reg_name r) (reg_argument_types r) st = None)
    registrations ->
  Forall (bindable st) registrations ->
  Forall (fun r => is_Some (impl (reg_func r))) registrations ->
  (forall r r', r ∈ registrations -> r' ∈ registrations ->
     reg_func_name r = reg_func_name r' -> reg_func r = reg_func r') ->
  exists st',
    add_builtins prolang registrations st = (Return tt, st')
    /\ Forall
         (fun r =>
            (GetFunction (reg_name r) (reg_argument_types r) st').1
            = Return (resolved r))
         registrations.
Proof.
  intros Hlang Hname Hnodup Hnew Hbind Himpl Hsame.
  destruct (add_builtins_registers prolang registrations st Hnodup Hnew Hbind
              Hsame) as (st' & Hrun & Hreg & Hlang' & _).
  exists st'. split; [exact Hrun |].
  apply Forall_forall. intros r Hin.
  apply registered_resolves with (prolang := prolang) (lang := lang).
  - by rewrite Hlang'.
  - done.
  - by apply (proj1 (Forall_forall _ _) Himpl).
  - by apply (proj1 (Forall_forall _ _) Hreg).
Qed.

(** The process before the catalog is bootstrapped, and the state in
    which [InitializeFunctions] enters its [try] block after
    [InitializeLanguages] ran. *)
Definition empty_registry : State :=
  {| pg_proc := []; proc_next_oid := 0; pg_language := []; lang_next_oid := 0;
     builtin_func_map := ∅; plpgsql_func_map := ∅; txn_events := [];
     languages_initialized := false; functions_initialized := false |}.

Definition languages_ready : State :=
  txn_call BeginTransaction (InitializeLanguages empty_registry).2.

(** The registrations of [InitializeFunctions] meet the conditions: every
    one of its 43 builtins resolves. *)
Lemma builtins_resolve_witness :
  exists st',
    add_builtins 0 builtin_functions languages_ready = (Return tt, st')
    /\ Forall
         (fun r =>
            (GetFunction (reg_name r) (reg_argument_types r) st').1
            = Return (resolved r))
         builtin_functions.
Proof.
  apply (builtins_resolve 0 builtin_functions languages_ready
           {| lang_oid := 0; lang_name := "internal" |}).
  - reflexivity.
  - reflexivity.
  - apply (bool_decide_unpack _). vm_compute. exact I.
  - apply Forall_forall. intros r _. reflexivity.
  - apply Forall_forall. intros r _ func Hfunc.
    change (builtin_func_map languages_ready)
      with (∅ : gmap string BuiltInFuncType) in Hfunc.
    by rewrite lookup_empty in Hfunc.
  - apply (bool_decide_unpack _). vm_compute. exact I.
  - assert (H : Forall
                  (fun r =>
                     Forall
                       (fun r' =>
                          reg_func_name r = reg_func_name r' ->
                          reg_func r = reg_func r')
                       builtin_functions)
                  builtin_functions).
    { apply (bool_decide_unpack _). vm_compute. exact I. }
    intros r r' Hr Hr'.
    exact (proj1 (Forall_forall _ _)
             (proj1 (Forall_forall _ _) H r Hr) r' Hr').
Defined.

(** *** Procedures *)

(** X17. A procedure that is added can be looked up, and the first
    registration of a signature wins.  For a signature that [pg_proc]
    does not have, under a language row called "plpgsql", with a code
    context that has a UDF and an oid that the plpgsql function map does
    not bind yet: [AddProcedure] returns, [GetFunction] then resolves the
    signature to this code context, source and return type; and a second
    [AddProcedure] for the signature, whatever else it is given, returns
    without changing anything. *)
Theorem AddProcedure_resolves (name : string) (return_type : TypeId)
    (argument_types : list TypeId) (prolang : Z) (code_context : CodeContext)
    (func_src : string) (st : State) (lang : LanguageCatalogEntry) :
  GetProcByName name argument_types st = None ->
  find (fun lang => lang_oid lang =? prolang) (pg_language st) = Some lang ->
  lang_name lang = "plpgsql"%string ->
  plpgsql_func_map st !! proc_next_oid st = None ->
  is_Some (GetUDF code_context) ->
  exists st',
    AddProcedure name return_type argument_types prolang code_context
      func_src st = (Return tt, st')
    /\ (GetFunction name argument_types st').1
       = Return {| argument_types_ := argument_types;
                   func_name_ := func_src;
                   return_type_ := return_type;
                   func_ := None;
                   func_context_ := Some code_context;
                   is_udf_ := true |}
    /\ (forall return_type' prolang' code_context' func_src',
          AddProcedure name return_type' argument_types prolang'
            code_context' func_src' st'
          = (Return tt, st')).
Proof.
  intros Hnew Hlang Hname Hfree [udf Hudf].
  unfold AddProcedure, InsertProc. rewrite Hnew.
  unfold GetProcByName in Hnew.
  rewrite (CatalogFacts.existsb_find_none _ _ Hnew). simpl.
  unfold GetProcByName at 1. simpl.
  rewrite find_snoc_none, same_signature_refl by done.
  eexists. split; [reflexivity |]. split.
  - unfold GetFunction, GetProcByName. simpl.
    rewrite find_snoc_none, same_signature_refl by done.
    unfold GetLanguage. simpl. rewrite Hlang, Hname. simpl.
    unfold PlpgsqlFunctions_GetFuncContextByOid. simpl.
    rewrite Hfree, lookup_insert_eq. by rewrite Hudf.
  - intros return_type' prolang' code_context' func_src'.
    unfold GetProcByName. simpl.
    by rewrite find_snoc_none, same_signature_refl.
Qed.

Definition plpgsql_ready : State :=
  (InitializeLanguages empty_registry).2.

Lemma AddProcedure_resolves_witness :
  exists st',
    AddProcedure "increment" INTEGER [INTEGER] 1 {| GetUDF := Some "udf" |}
      "BEGIN RETURN i + 1; END;" plpgsql_ready = (Return tt, st')
    /\ is_udf_ <$> match (GetFunction "increment" [INTEGER] st').1 with
                   | Return result => Some result
                   | _ => None
                   end = Some true.
Proof.
  destruct (AddProcedure_resolves "increment" INTEGER [INTEGER] 1
              {| GetUDF := Some "udf" |} "BEGIN RETURN i + 1; END;"
              plpgsql_ready {| lang_oid := 1; lang_name := "plpgsql" |})
    as (st' & Hrun & Hget & _).
  - reflexivity.
  - reflexivity.
  - reflexivity.
  - reflexivity.
  - by eexists.
  - exists st'. split; [exact Hrun |]. by rewrite Hget.
Defined.

End FunctionRegistry.

(* ===================================================================== *)
(** ** Decimal strings: [std::to_string] read back                       *)
(* ===================================================================== *)

Module DecimalStrings.
Import Recovery.

(** Every character is a decimal digit. *)
Fixpoint all_digits (s : string) : bool :=
  match s with
  | EmptyString => true
  | String c rest => bool_decide (is_Some (digit_of c)) && all_digits rest
  end.

Lemma append_assoc (s1 s2 s3 : string) :
  (s1 +:+ s2) +:+ s3 = s1 +:+ (s2 +:+ s3).
Proof.
  induction s1 as [| c rest IH]; [done |].
  change (String c ((rest +:+ s2) +:+ s3) = String c (rest +:+ (s2 +:+ s3))).
  by rewrite IH.
Qed.

Lemma append_empty_r (s : string) : s +:+ "" = s.
Proof.
  induction s as [| c rest IH]; [done |].
  change (String c (rest +:+ "") = String c rest). by rewrite IH.
Qed.

Lemma length_append_char (s : string) (c : ascii) :
  String.length (s +:+ String c "") = S (String.length s).
Proof.
  induction s as [| c' rest IH]; [done |].
  change (S (String.length (rest +:+ String c "")) = S (S (String.length rest))).
  by rewrite IH.
Qed.

Lemma all_digits_append (s1 s2 : string) :
  all_digits (s1 +:+ s2) = all_digits s1 && all_digits s2.
Proof.
  induction s1 as [| c rest IH]; [done |].
  change (bool_decide (is_Some (digit_of c)) && all_digits (rest +:+ s2)
          = bool_decide (is_Some (digit_of c)) && all_digits rest
            && all_digits s2).
  by rewrite IH, andb_assoc.
Qed.

Lemma digits_value_append (d s : string) : forall acc,
  all_digits d = true ->
  digits_value acc (d +:+ s) = digits_value (digits_value acc d) s.
Proof.
  induction d as [| c rest IH]; intros acc Hd; [done |].
  cbn [all_digits] in Hd. apply andb_true_iff in Hd as [Hc Hrest].
  apply bool_decide_eq_true in Hc as [n Hc].
  change (digits_value acc (String c (rest +:+ s))
          = digits_value (digits_value acc (String c rest)) s).
  cbn [digits_value]. rewrite Hc. by apply IH.
Qed.

Lemma digit_of_pretty_N_char (n : N) :
  (n < 10)%N -> digit_of (pretty_N_char n) = Some (Z.of_N n).
Proof.
  intros Hn.
  assert (Hall : Forall
                   (fun k => digit_of (pretty_N_char k) = Some (Z.of_N k))
                   (N.of_nat <$> seq 0 10)) by (repeat constructor).
  apply (proj1 (Forall_forall _ _) Hall), list_elem_of_fmap.
  exists (N.to_nat n). split; [lia |]. apply elem_of_seq. lia.
Qed.

(** [pretty_N_go x] puts the decimal digits of [x] in front of its
    argument. *)
Lemma pretty_N_go_digits (x : N) :
  exists d,
    (forall s, pretty_N_go x s = d +:+ s)
    /\ all_digits d = true
    /\ (forall acc,
          digits_value acc d
          = acc * 10 ^ Z.of_nat (String.length d) + Z.of_N x)
    /\ ((0 < x)%N -> d <> ""%string).
Proof.
  induction (N.lt_wf_0 x) as [x _ IH].
  destruct (decide (x = 0%N)) as [-> | Hpos].
  - exists ""%string. split; [done |]. split; [done |].
    split; [intros acc; simpl; lia | lia].
  - destruct (IH (x `div` 10)%N) as (d & Hgo & Hdigits & Hvalue & _).
    { apply N.div_lt; lia. }
    pose proof (digit_of_pretty_N_char (x `mod` 10)
                  ltac:(apply N.mod_lt; lia)) as Hchar.
    exists (d +:+ String (pretty_N_char (x `mod` 10)) "").
    split; [| split; [| split]].
    + intros s. rewrite pretty_N_go_step by lia.
      by rewrite Hgo, append_assoc.
    + rewrite all_digits_append, Hdigits. simpl. rewrite Hchar.
      by rewrite bool_decide_eq_true_2.
    + intros acc. rewrite digits_value_append by done. simpl.
      rewrite Hchar, Hvalue.
      rewrite length_append_char, Nat2Z.inj_succ, Z.pow_succ_r by lia.
      pose proof (N.div_mod x 10 ltac:(lia)) as Hx.
      apply (f_equal Z.of_N) in Hx.
      rewrite N2Z.inj_add, N2Z.inj_mul in Hx. simpl in Hx. lia.
    + intros _. by destruct d.
Qed.

(** The decimal digits that [std::to_string] prints for a number. *)
Lemma pretty_N_digits (x : N) :
  exists d,
    pretty x = d
    /\ all_digits d = true
    /\ d <> ""%string
    /\ digits_value 0 d = Z.of_N x.
Proof.
  unfold pretty, pretty_N. destruct (decide (x = 0%N)) as [-> | Hpos].
  - by exists "0"%string.
  - destruct (pretty_N_go_digits x) as (d & Hgo & Hdigits & Hvalue & Hne).
    exists d. rewrite Hgo, append_empty_r.
    split; [done |]. split; [done |]. split; [apply Hne; lia |].
    rewrite Hvalue. lia.
Qed.

End DecimalStrings.

(* ===================================================================== *)
(** ** Generation directories: written by name, found by number          *)
(* ===================================================================== *)

Module GenerationNames.
Import Recovery DecimalStrings.

Lemma digit_char (c : ascii) (n : Z) :
  digit_of c = Some n ->
  isspace c = false /\ Ascii.eqb c "-" = false /\ Ascii.eqb c "+" = false
  /\ Ascii.eqb c " " = false.
Proof.
  intros Hdigit.
  assert (Hcode : 48 <= Z.of_nat (nat_of_ascii c) <= 57).
  { unfold digit_of in Hdigit.
    destruct (_ && _) eqn:E; [| discriminate]. lia. }
  split; [unfold isspace; lia |].
  repeat split;
    (destruct (Ascii.eqb_spec c "-"), (Ascii.eqb_spec c "+"),
       (Ascii.eqb_spec c " "); subst; simpl in Hcode; try done; lia).
Qed.

(** [strtoul] reads a string of digits as the number they spell, up to
    [ULONG_MAX]. *)
Lemma strtoul_digits (d : string) :
  all_digits d = true -> d <> ""%string ->
  digits_value 0 d <= ULONG_MAX ->
  strtoul d = digits_value 0 d.
Proof.
  intros Hdigits Hne Hmax. destruct d as [| c rest]; [done |].
  cbn [all_digits] in Hdigits. apply andb_true_iff in Hdigits as [Hc _].
  apply bool_decide_eq_true in Hc as [n Hc].
  destruct (digit_char c n Hc) as (Hspace & Hminus & Hplus & _).
  unfold strtoul. cbn [skip_spaces]. rewrite Hspace, Hminus, Hplus.
  destruct (_ >? ULONG_MAX) eqn:E; [lia | done].
Qed.

(** The name that [PerformCheckpointing] gives a generation,
    [std::to_string(begin_epoch_id)], is read back by [strtoul] as the
    epoch. *)
Lemma strtoul_to_string (epoch_id : Z) :
  0 <= epoch_id <= ULONG_MAX ->
  strtoul (Checkpointing.to_string epoch_id) = epoch_id.
Proof.
  intros Hrange. unfold Checkpointing.to_string.
  destruct (pretty_N_digits (Z.to_N epoch_id))
    as (d & -> & Hdigits & Hne & Hvalue).
  rewrite strtoul_digits; try done; rewrite Hvalue; lia.
Qed.

Lemma to_string_not_working (working : string) (epoch_id : Z) :
  all_digits working = false -> Checkpointing.to_string epoch_id <> working.
Proof.
  intros Hworking <-. unfold Checkpointing.to_string in Hworking.
  destruct (pretty_N_digits (Z.to_N epoch_id)) as (d & Hd & Hdigits & _).
  congruence.
Qed.

(** X18. Generations are found again by their names.  For a directory
    listing made of the working directory and of generation directories
    named by [std::to_string] of their epochs, as [PerformCheckpointing]
    names them, [GetRecoveryCheckpointEpoch] returns the largest of the
    epochs (an unsigned long each), [INVALID_EID] being 0; with no
    generation it returns [INVALID_EID].  Epoch 0 is the exception: a
    generation named "0" counts for nothing. *)
Theorem generations_found_by_name (working : string) (epochs : list Z) :
  all_digits working = false ->
  Forall (fun epoch_id => 0 <= epoch_id <= ULONG_MAX) epochs ->
  GetRecoveryCheckpointEpoch 0 working
    (Some (working :: (Checkpointing.to_string <$> epochs)))
  = fold_left Z.max epochs 0.
Proof.
  intros Hworking Hrange. simpl. unfold epoch_step at 2.
  rewrite String.eqb_refl.
  assert (H : forall m, 0 <= m ->
            fold_left (epoch_step working)
              (Checkpointing.to_string <$> epochs) m
            = fold_left Z.max epochs m); [| by apply H].
  induction Hrange as [| epoch_id rest Hepoch _ IH]; intros m Hm; [done |].
  csimpl. rewrite <- IH by lia. f_equal. unfold epoch_step.
  rewrite (proj2 (String.eqb_neq _ _))
    by (by apply to_string_not_working).
  rewrite strtoul_to_string by done.
  destruct (epoch_id =? 0) eqn:Hzero; [lia |].
  destruct (epoch_id >? m) eqn:Hgt; lia.
Qed.

Lemma generations_found_by_name_witness :
  GetRecoveryCheckpointEpoch 0 "working"
    (Some ("working" :: (Checkpointing.to_string <$> [5; 0; 12; 7]))%string)
  = 12.
Proof.
  refine (generations_found_by_name "working" [5; 0; 12; 7] _ _).
  - reflexivity.
  - repeat constructor; vm_compute; discriminate.
Defined.

(** X19. Recovery selects what the last cycle promoted.  After a
    checkpoint cycle in an epoch from 1 to [ULONG_MAX], whatever failed
    while its files were written, the base directory holds this one
    generation, and [GetRecoveryCheckpointEpoch] on the listing of the base
    directory returns the epoch of the cycle. *)
Theorem recovery_selects_promoted_generation
    (INVALID_TXN_ID INITIAL_TXN_ID MAX_CID CATALOG_DATABASE_OID : Z)
    (working : string) (brain : bool) (faults : Checkpointing.Faults)
    (databases : list Checkpointing.Database)
    (catalogs : Checkpointing.CatalogTables) (begin_cid begin_epoch_id : Z)
    (st : Checkpointing.State) :
  all_digits working = false ->
  0 < begin_epoch_id <= ULONG_MAX ->
  let st' :=
    Checkpointing.checkpoint_cycle INVALID_TXN_ID INITIAL_TXN_ID MAX_CID
      CATALOG_DATABASE_OID working brain faults databases catalogs begin_cid
      begin_epoch_id st in
  dom (Checkpointing.disk st') = {[ Checkpointing.to_string begin_epoch_id ]}
  /\ GetRecoveryCheckpointEpoch 0 working
       (Some (map_to_list (Checkpointing.disk st')).*1)
     = begin_epoch_id.
Proof.
  intros Hworking Hepoch st'.
  pose proof (to_string_not_working working begin_epoch_id Hworking) as Hname.
  destruct (Checkpointing.checkpoint_cycle_promotes INVALID_TXN_ID
              INITIAL_TXN_ID MAX_CID CATALOG_DATABASE_OID working brain faults
              databases catalogs begin_cid begin_epoch_id st Hname)
    as (generation & _ & Hgeneration & Hgone).
  fold st' in Hgeneration, Hgone.
  assert (Hdisk : Checkpointing.disk st'
                  = {[ Checkpointing.to_string begin_epoch_id := generation ]}).
  { apply map_eq. intros name.
    destruct (decide (name = Checkpointing.to_string begin_epoch_id))
      as [-> | Hother].
    - by rewrite Hgeneration, lookup_singleton_eq.
    - rewrite lookup_singleton_ne by done.
      destruct (decide (name = working)) as [-> | Hne]; [done |].
      subst st'. unfold Checkpointing.checkpoint_cycle,
        Checkpointing.RemoveOldCheckpoints. simpl.
      apply map_lookup_filter_None. right. intros directory _ [E | E]; done. }
  rewrite Hdisk. split; [apply dom_singleton_L |].
  rewrite map_to_list_singleton. simpl. unfold epoch_step.
  rewrite (proj2 (String.eqb_neq _ _)) by done.
  rewrite strtoul_to_string by lia.
  destruct (begin_epoch_id =? 0) eqn:Hzero; [lia |].
  destruct (begin_epoch_id >? 0) eqn:Hgt; lia.
Qed.

Lemma recovery_selects_promoted_generation_witness :
  GetRecoveryCheckpointEpoch 0 "working"
    (Some (map_to_list
             (Checkpointing.disk
                (Checkpointing.cycle_6 Checkpointing.emp_write_fault))).*1)
  = 6.
Proof.
  refine (proj2
    (recovery_selects_promoted_generation Visibility.peloton_INVALID_TXN_ID
       Visibility.peloton_INITIAL_TXN_ID Visibility.peloton_MAX_CID (2 ^ 24)
       "working" false Checkpointing.emp_write_fault
       Checkpointing.sample_databases Checkpointing.sample_catalogs 6 6
       Checkpointing.sample_state _ _)).
  - reflexivity.
  - vm_compute. split; [reflexivity | discriminate].
Defined.

End GenerationNames.

(* ===================================================================== *)
(** ** The constraint catalog: rows read back                            *)
(* ===================================================================== *)

Module ConstraintObjects.
Import Recovery DecimalStrings ConstraintCatalog.

(** *** [std::getline] and [std::stoi] *)

(** The tokens that [while (std::getline(ss, tok, ' '))] goes through:
    [tok] holds the characters read since the last blank.  A blank ends a
    token, which may be empty; at the end of the input the characters
    read so far are a last token, unless there are none. *)
Fixpoint getline_tokens (tok input : string) : list string :=
  match input with
  | EmptyString => if bool_decide (tok = ""%string) then [] else [tok]
  | String c rest =>
      if Ascii.eqb c " " then tok :: getline_tokens "" rest
      else getline_tokens (tok +:+ String c "") rest
  end.

Definition INT_MAX : Z := 2 ^ 31 - 1.
Definition INT_MIN : Z := - 2 ^ 31.

(** [std::stoi(tok)]: white space, an optional sign, decimal digits;
    [None] when it throws, which it does for a token without digits
    ([std::invalid_argument]) and for a value outside [int]
    ([std::out_of_range]). *)
Definition stoi (s : string) : option Z :=
  let s1 := skip_spaces s in
  let '(negative, s2) :=
    match s1 with
    | String c rest =>
        if Ascii.eqb c "-"%char then (true, rest)
        else if Ascii.eqb c "+"%char then (false, rest)
        else (false, s1)
    | EmptyString => (false, s1)
    end in
  match s2 with
  | String c _ =>
      match digit_of c with
      | None => None
      | Some _ =>
          let v := digits_value 0 s2 in
          let v := if negative : bool then - v else v in
          if (v <? INT_MIN) || (INT_MAX <? v) then None else Some v
      end
  | EmptyString => None
  end.

(** The two loops [column_ids.push_back(std::stoi(tok))] of the
    constructor; the [int] becomes an [oid_t]. *)
Definition parse_column_ids (column_ids_str : string) : option (list Z) :=
  mapM (fun tok => (fun v => v mod 2 ^ 32) <$> stoi tok)
    (getline_tokens "" column_ids_str).

(** *** [ConstraintCatalogObject] *)

(** The members of a [ConstraintCatalogObject]; a member that the
    constructor does not assign is [None], or the empty vector. *)
Record ConstraintCatalogObject (CheckValue : Type) : Type := {
  constraint_oid : Z;
  constraint_name : string;
  constraint_type : ConstraintType;
  table_oid : Z;
  index_oid : Z;
  column_ids : list Z;
  fk_sink_table_oid : option Z;
  fk_sink_col_ids : list Z;
  fk_update_action : option FKConstrActionType;
  fk_delete_action : option FKConstrActionType;
  check_exp : option (Z * CheckValue)
}.
Arguments constraint_oid {CheckValue} _.
Arguments constraint_name {CheckValue} _.
Arguments constraint_type {CheckValue} _.
Arguments table_oid {CheckValue} _.
Arguments index_oid {CheckValue} _.
Arguments column_ids {CheckValue} _.
Arguments fk_sink_table_oid {CheckValue} _.
Arguments fk_sink_col_ids {CheckValue} _.
Arguments fk_update_action {CheckValue} _.
Arguments fk_delete_action {CheckValue} _.
Arguments check_exp {CheckValue} _.

(** [tile->GetValue(tupleId, column)] followed by [GetAs<oid_t>()],
    [ToString()] or [GetData()]; [None] when the column holds no value of
    that kind. *)
Definition GetAs_oid_t (value : option Value) : option Z :=
  match value with Some (IntegerValue n) => Some n | _ => None end.
Definition ToString (value : option Value) : option string :=
  match value with Some (VarcharValue s) => Some s | _ => None end.
Definition GetData (value : option Value) : option (list Z) :=
  match value with Some (VarbinaryValue bytes) => Some bytes | _ => None end.

Section Constructor.

Context {CheckValue : Type}.

(** String conversions of [common/internal_types.h]; [ReadInt] of
    [CopySerializeInput] and [Value::DeserializeFrom], which take their
    bytes from the front of the buffer. *)
Variable StringToConstraintType : string -> ConstraintType.
Variable StringToFKConstrActionType : string -> FKConstrActionType.
Variable ReadInt : list Z -> option (Z * list Z).
Variable Value_DeserializeFrom : list Z -> Z -> option CheckValue.

(** The constructor [ConstraintCatalogObject(tile, tupleId)], on the
    tuple it is pointed at; [None] when it throws or finds no value. *)
Definition new_ConstraintCatalogObject (tuple : Tuple)
  : option (ConstraintCatalogObject CheckValue) :=
  constraint_oid ← GetAs_oid_t (CONSTRAINT_OID tuple);
  constraint_name ← ToString (CONSTRAINT_NAME tuple);
  constraint_type ← StringToConstraintType <$> ToString (CONSTRAINT_TYPE tuple);
  table_oid ← GetAs_oid_t (TABLE_OID tuple);
  index_oid ← GetAs_oid_t (INDEX_OID tuple);
  column_ids ← ToString (COLUMN_IDS tuple) ≫= parse_column_ids;
  let common :=
    {| constraint_oid := constraint_oid; constraint_name := constraint_name;
       constraint_type := constraint_type; table_oid := table_oid;
       index_oid := index_oid; column_ids := column_ids;
       fk_sink_table_oid := None; fk_sink_col_ids := [];
       fk_update_action := None; fk_delete_action := None;
       check_exp := None |} in
  (* create values by type of constraint *)
  match constraint_type with
  | FOREIGN =>
      fk_sink_table_oid ← GetAs_oid_t (FK_SINK_TABLE_OID tuple);
      fk_sink_col_ids ← ToString (FK_SINK_COL_IDS tuple) ≫= parse_column_ids;
      fk_update_action ←
        StringToFKConstrActionType <$> ToString (FK_UPDATE_ACTION tuple);
      fk_delete_action ←
        StringToFKConstrActionType <$> ToString (FK_DELETE_ACTION tuple);
      Some {| constraint_oid := constraint_oid;
              constraint_name := constraint_name;
              constraint_type := constraint_type; table_oid := table_oid;
              index_oid := index_oid; column_ids := column_ids;
              fk_sink_table_oid := Some fk_sink_table_oid;
              fk_sink_col_ids := fk_sink_col_ids;
              fk_update_action := Some fk_update_action;
              fk_delete_action := Some fk_delete_action;
              check_exp := None |}
  | CHECK =>
      input_buffer ← GetData (CHECK_EXP_BIN tuple);
      '(exp_type, input_buffer) ← ReadInt input_buffer;
      '(value_type, input_buffer) ← ReadInt input_buffer;
      exp_value ← Value_DeserializeFrom input_buffer value_type;
      Some {| constraint_oid := constraint_oid;
              constraint_name := constraint_name;
              constraint_type := constraint_type; table_oid := table_oid;
              index_oid := index_oid; column_ids := column_ids;
              fk_sink_table_oid := None; fk_sink_col_ids := [];
              fk_update_action := None; fk_delete_action := None;
              check_exp := Some (exp_type, exp_value) |}
  | _ =>
      (* nothing to do more *)
      Some common
  end.

End Constructor.

(** *** Column ordinals written and read *)

(** The ordinals one after the other, each followed by a blank. *)
Fixpoint blank_separated (ids : list Z) : string :=
  match ids with
  | [] => ""
  | id :: rest => pretty (Z.to_N id) +:+ String " " (blank_separated rest)
  end.

Lemma column_ids_string_from (ids : list Z) : forall ss,
  fold_left (fun ss column_oid => ss +:+ pretty (Z.to_N column_oid) +:+ " ")
    ids ss
  = ss +:+ blank_separated ids.
Proof.
  induction ids as [| id rest IH]; intros ss; simpl.
  - by rewrite append_empty_r.
  - rewrite IH, append_assoc. f_equal. by rewrite append_assoc.
Qed.

Lemma getline_tokens_digits (d : string) : forall tok rest,
  all_digits d = true ->
  getline_tokens tok (d +:+ rest) = getline_tokens (tok +:+ d) rest.
Proof.
  induction d as [| c more IH]; intros tok rest Hd.
  - by rewrite append_empty_r.
  - cbn [all_digits] in Hd. apply andb_true_iff in Hd as [Hc Hmore].
    apply bool_decide_eq_true in Hc as [n Hc].
    change (String c more +:+ rest) with (String c (more +:+ rest)).
    cbn [getline_tokens].
    assert (Hblank : Ascii.eqb c " " = false).
    { destruct (Ascii.eqb_spec c " ") as [-> | _]; [discriminate | done]. }
    rewrite Hblank, IH by done. f_equal.
    by rewrite append_assoc.
Qed.

Lemma stoi_to_string (id : Z) :
  0 <= id <= INT_MAX -> stoi (pretty (Z.to_N id)) = Some id.
Proof.
  intros Hrange.
  destruct (pretty_N_digits (Z.to_N id)) as (d & -> & Hdigits & Hne & Hvalue).
  destruct d as [| c rest]; [done |].
  pose proof Hdigits as Hc. cbn [all_digits] in Hc.
  apply andb_true_iff in Hc as [Hc _].
  apply bool_decide_eq_true in Hc as [n Hc].
  assert (Hspace : isspace c = false).
  { unfold digit_of in Hc. unfold isspace.
    destruct (_ && _) eqn:E in Hc; [| discriminate]. lia. }
  assert (Hminus : Ascii.eqb c "-" = false).
  { destruct (Ascii.eqb_spec c "-") as [-> | _]; [discriminate | done]. }
  assert (Hplus : Ascii.eqb c "+" = false).
  { destruct (Ascii.eqb_spec c "+") as [-> | _]; [discriminate | done]. }
  unfold stoi. cbn [skip_spaces]. rewrite Hspace, Hminus, Hplus, Hc, Hvalue.
  rewrite Z2N.id by lia. unfold INT_MIN.
  destruct (_ || _) eqn:E; [| done].
  apply orb_true_iff in E as [E | E]; lia.
Qed.

(** Ordinals that fit an [int] are read back as they were written. *)
Lemma parse_column_ids_string (ids : list Z) :
  Forall (fun id => 0 <= id <= INT_MAX) ids ->
  parse_column_ids (column_ids_string ids) = Some ids.
Proof.
  intros Hrange. unfold parse_column_ids, column_ids_string.
  rewrite column_ids_string_from.
  change ("" +:+ blank_separated ids)%string with (blank_separated ids).
  induction Hrange as [| id rest Hid _ IH]; [done |].
  cbn [blank_separated].
  destruct (pretty_N_digits (Z.to_N id)) as (d & Hd & Hdigits & Hne & _).
  rewrite Hd.
  rewrite (getline_tokens_digits d "" (String " " (blank_separated rest)))
    by done.
  change ("" +:+ d)%string with d.
  change (getline_tokens d (String " " (blank_separated rest)))
    with (d :: getline_tokens "" (blank_separated rest)).
  rewrite <- Hd. cbn [mapM]. rewrite stoi_to_string by done.
  rewrite IH. simpl. rewrite Z.mod_small; [done |].
  unfold INT_MAX in Hid. lia.
Qed.

(** *** A constraint inserted and read back *)

Section RoundTrip.

Context {CheckValue : Type}.

Variable INVALID_OID : Z.
Variable ConstraintTypeToString : ConstraintType -> string.
Variable FKConstrActionTypeToString : FKConstrActionType -> string.
Variable ExpressionTypeToString : Z -> string.
Variable Value_ToString : CheckValue -> string.
Variable WriteInt : Z -> list Z.
Variable Value_SerializeTo : CheckValue -> list Z.
Variable GetColumn : Z -> Z -> option (string * Z).
Variable InsertTuple : Tuple -> list Tuple -> bool * list Tuple.
Variable StringToConstraintType : string -> ConstraintType.
Variable StringToFKConstrActionType : string -> FKConstrActionType.
Variable ReadInt : list Z -> option (Z * list Z).
Variable Value_DeserializeFrom : list Z -> Z -> option CheckValue.

(** The object that stands for a constraint. *)
Definition object_of (constraint : Constraint CheckValue)
  : ConstraintCatalogObject CheckValue :=
  {| constraint_oid := GetConstraintOid constraint;
     constraint_name := GetName constraint;
     constraint_type := GetType constraint;
     table_oid := GetTableOid constraint;
     index_oid := GetIndexOid constraint;
     column_ids := GetColumnIds constraint;
     fk_sink_table_oid :=
       match GetType constraint with
       | FOREIGN => Some (GetFKSinkTableOid constraint)
       | _ => None
       end;
     fk_sink_col_ids :=
       match GetType constraint with
       | FOREIGN => GetFKSinkColumnIds constraint
       | _ => []
       end;
     fk_update_action :=
       match GetType constraint with
       | FOREIGN => Some (GetFKUpdateAction constraint)
       | _ => None
       end;
     fk_delete_action :=
       match GetType constraint with
       | FOREIGN => Some (GetFKDeleteAction constraint)
       | _ => None
       end;
     check_exp :=
       match GetType constraint with
       | CHECK => Some (GetCheckExpression constraint)
       | _ => None
       end |}.

(** The conversions of [internal_types.h] and of the serializers undo
    each other. *)
Hypothesis type_strings :
  forall type, StringToConstraintType (ConstraintTypeToString type) = type.
Hypothesis action_strings :
  forall action,
    StringToFKConstrActionType (FKConstrActionTypeToString action) = action.
Hypothesis ints_read_back :
  forall n rest, 0 <= n <= INT_MAX -> ReadInt (WriteInt n ++ rest) = Some (n, rest).

(** X20. A constraint that [InsertConstraint] has handed to
    [InsertTuple] is read back whole.  When the column ordinals of the
    constraint (and, for a foreign key, of its sink) fit an [int], and for
    a check constraint the expression tag and the type tag of the column
    fit an [int] and the literal deserializes under the type of the
    column, then the constructor of [ConstraintCatalogObject], on the
    tuple that was inserted, yields the object with the constraint's oid,
    name, kind, table, index, column ordinals, and for a foreign key its
    sink table, sink ordinals and actions, for a check its expression. *)
Theorem InsertConstraint_reads_back (constraint : Constraint CheckValue)
    (rows rows' : list Tuple) (result : bool) :
  Forall (fun id => 0 <= id <= INT_MAX) (GetColumnIds constraint) ->
  (GetType constraint = FOREIGN ->
   Forall (fun id => 0 <= id <= INT_MAX) (GetFKSinkColumnIds constraint)) ->
  (GetType constraint = CHECK ->
   0 <= (GetCheckExpression constraint).1 <= INT_MAX
   /\ forall column_id column_name column_type,
        GetColumn (GetTableOid constraint) column_id
        = Some (column_name, column_type) ->
        0 <= column_type <= INT_MAX
        /\ Value_DeserializeFrom
             (Value_SerializeTo (GetCheckExpression constraint).2) column_type
           = Some (GetCheckExpression constraint).2) ->
  InsertConstraint INVALID_OID ConstraintTypeToString
    FKConstrActionTypeToString ExpressionTypeToString Value_ToString WriteInt
    Value_SerializeTo GetColumn InsertTuple constraint rows
  = (Returned result, rows') ->
  exists tuple,
    InsertTuple tuple rows = (result, rows')
    /\ new_ConstraintCatalogObject StringToConstraintType
         StringToFKConstrActionType ReadInt Value_DeserializeFrom tuple
       = Some (object_of constraint).
Proof.
  intros Hids Hsink Hcheck Hrun. unfold InsertConstraint, insert in Hrun.
  unfold object_of. destruct (GetType constraint) eqn:Hkind;
    try discriminate Hrun.
  - (* CHECK *)
    destruct (GetColumnIds constraint) as [| column_id [| ? ?]] eqn:Hcolumn;
      try discriminate Hrun.
    destruct (GetColumn _ _) as [[column_name column_type] |] eqn:Hget;
      [| discriminate Hrun].
    destruct (Hcheck eq_refl) as [Htag Hvalue].
    destruct (Hvalue _ _ _ Hget) as [Htype Hliteral].
    destruct (InsertTuple _ rows) as [b rows1] eqn:Hinsert.
    injection Hrun as <- <-. eexists. split; [exact Hinsert |].
    unfold new_ConstraintCatalogObject. simpl.
    rewrite type_strings, Hkind, Hcolumn, (parse_column_ids_string [column_id])
      by done.
    simpl. rewrite ints_read_back by done. simpl.
    rewrite <- (app_nil_r (Value_SerializeTo _)) at 1.
    rewrite app_assoc, <- (app_assoc (WriteInt column_type)), app_nil_r.
    rewrite ints_read_back by done. simpl. rewrite Hliteral. simpl.
    by destruct (GetCheckExpression constraint).
  - (* PRIMARY *)
    destruct (_ =? INVALID_OID); [discriminate Hrun |].
    destruct (InsertTuple _ rows) as [b rows1] eqn:Hinsert.
    injection Hrun as <- <-. eexists. split; [exact Hinsert |].
    unfold new_ConstraintCatalogObject. simpl.
    by rewrite type_strings, Hkind, parse_column_ids_string.
  - (* UNIQUE *)
    destruct (_ =? INVALID_OID); [discriminate Hrun |].
    destruct (InsertTuple _ rows) as [b rows1] eqn:Hinsert.
    injection Hrun as <- <-. eexists. split; [exact Hinsert |].
    unfold new_ConstraintCatalogObject. simpl.
    by rewrite type_strings, Hkind, parse_column_ids_string.
  - (* FOREIGN *)
    destruct (_ =? INVALID_OID); [discriminate Hrun |].
    destruct (InsertTuple _ rows) as [b rows1] eqn:Hinsert.
    injection Hrun as <- <-. eexists. split; [exact Hinsert |].
    unfold new_ConstraintCatalogObject. simpl.
    rewrite type_strings, Hkind, !parse_column_ids_string by auto. simpl.
    by rewrite !action_strings.
Qed.

End RoundTrip.

(** *** A sample check constraint *)

Definition type_of_name (name : string) : ConstraintType :=
  if String.eqb name "NOT_NULL" then NOT_NULL
  else if String.eqb name "DEFAULT" then DEFAULT
  else if String.eqb name "CHECK" then CHECK
  else if String.eqb name "PRIMARY" then PRIMARY
  else if String.eqb name "UNIQUE" then UNIQUE
  else if String.eqb name "FOREIGN" then FOREIGN
  else if String.eqb name "EXCLUSION" then EXCLUSION
  else INVALID.

Definition action_of_name (name : string) : FKConstrActionType :=
  if String.eqb name "NOACTION" then NOACTION
  else if String.eqb name "RESTRICT" then RESTRICT
  else if String.eqb name "CASCADE" then CASCADE
  else if String.eqb name "SETNULL" then SETNULL
  else if String.eqb name "SETDEFAULT" then SETDEFAULT
  else FK_INVALID.

(** Four bytes, most significant first, taken from the front. *)
Definition ReadInt_be (input : list Z) : option (Z * list Z) :=
  match input with
  | b3 :: b2 :: b1 :: b0 :: rest =>
      Some (b3 * 2 ^ 24 + b2 * 2 ^ 16 + b1 * 2 ^ 8 + b0, rest)
  | _ => None
  end.

Lemma ReadInt_be_WriteInt_be (n : Z) (rest : list Z) :
  0 <= n <= INT_MAX -> ReadInt_be (WriteInt_be n ++ rest) = Some (n, rest).
Proof.
  intros Hn. unfold INT_MAX in Hn. unfold ReadInt_be, WriteInt_be. simpl.
  f_equal. f_equal.
  change (2 ^ 24) with 16777216. change (2 ^ 16) with 65536.
  change (2 ^ 8) with 256.
  Z.div_mod_to_equations. lia.
Qed.

(** [salary > 18] on column 0 of table 200: expression tag 12, type tag 4
    of the column. *)
Definition emp_check : Constraint Z :=
  {| GetConstraintOid := 901; GetName := "con_check"; GetType := CHECK;
     GetTableOid := 200; GetColumnIds := [0]; GetIndexOid := 2 ^ 32 - 1;
     GetFKSinkTableOid := 2 ^ 32 - 1; GetFKSinkColumnIds := [];
     GetFKUpdateAction := NOACTION; GetFKDeleteAction := NOACTION;
     GetCheckExpression := (12, 18) |}.

Lemma InsertConstraint_reads_back_witness :
  exists tuple,
    append_InsertTuple tuple [] = (true, [tuple])
    /\ check_exp
       <$> new_ConstraintCatalogObject type_of_name action_of_name ReadInt_be
             (fun input _ => fst <$> ReadInt_be input) tuple
       = Some (Some (12, 18)).
Proof.
  destruct (InsertConstraint_reads_back (2 ^ 32 - 1) type_name action_name
              (fun tag => pretty (Z.to_N tag)) (fun v => pretty (Z.to_N v))
              WriteInt_be WriteInt_be emp_GetColumn append_InsertTuple
              type_of_name action_of_name ReadInt_be
              (fun input _ => fst <$> ReadInt_be input)
              ltac:(by intros [])
              ltac:(by intros [])
              ReadInt_be_WriteInt_be
              emp_check []
              (InsertConstraint (2 ^ 32 - 1) type_name action_name
                 (fun tag => pretty (Z.to_N tag)) (fun v => pretty (Z.to_N v))
                 WriteInt_be WriteInt_be emp_GetColumn append_InsertTuple
                 emp_check []).2
              true)
    as (tuple & Hinsert & Hobject).
  - repeat constructor; vm_compute; discriminate.
  - discriminate.
  - intros _. split; [vm_compute; split; discriminate |].
    intros column_id column_name column_type Hcolumn.
    unfold emp_GetColumn in Hcolumn. simpl in Hcolumn.
    destruct (column_id =? 0); [| discriminate].
    injection Hcolumn as <- <-.
    split; [vm_compute; split; discriminate | reflexivity].
  - vm_compute. reflexivity.
  - exists tuple. unfold append_InsertTuple in *.
    injection Hinsert as Hrows. simpl in Hrows.
    split; [done |]. by rewrite Hobject.
Defined.

End ConstraintObjects.

(* ===================================================================== *)
(** ** The catalog: creating a table                                     *)
(* ===================================================================== *)

Module TableCreation.
Import Catalog CatalogFacts.

Section CreateTable.

Variable INVALID_OID : Z.
(** [SchemaCatalog::GetSchemaCatalogEntry(txn, schema_name) != nullptr] for
    the schema catalog of a database; [pg_namespace] is not among the rows
    that the model of the catalog keeps. *)
Variable namespace_exists : Z -> string -> bool.
(** [storage::TableFactory::GetDataTable], as far as the catalog sees the
    table it builds: the oid of the default layout that goes with
    [layout_type], and the first layout oid the table will hand out. *)
Variables default_layout_oid first_layout_oid : Z.

(** Modelled from the spec: [TableCatalog::GetNextOid],
    [TableCatalog::InsertTable], [ColumnCatalog::InsertColumn] ("inserts
    its row, inserts one column-catalog row per column") and
    [Database::AddTable] ("creates the physical table object").  The event
    log has no entry for the two insertions; they show in the rows. *)
Definition TableCatalog_GetNextOid (database_oid : Z) : M Z :=
  let! catalogs := system_catalogs database_oid in
  exec modify (fun st =>
    set_catalog_map_
      (<[database_oid :=
           {| index_catalog_oid := index_catalog_oid catalogs;
              table_catalog_oid := table_catalog_oid catalogs + 1 |}]>
         (catalog_map_ st)) st)
  then ret (table_catalog_oid catalogs).

Definition TableCatalog_InsertTable (database_oid : Z)
    (row : TableCatalogEntry) : M unit :=
  modify (update_rows database_oid
            (fun c => set_pg_table (pg_table c ++ [row]) c)).

Definition ColumnCatalog_InsertColumn (database_oid : Z)
    (row : ColumnCatalogEntry) : M unit :=
  modify (update_rows database_oid
            (fun c => set_pg_attribute (pg_attribute c ++ [row]) c)).

Definition AddTable (database_oid table_oid : Z) (table : DataTable) : M unit :=
  modify (fun st =>
    set_storage
      (alter (fun db => {| db_tables := <[table_oid := table]> (db_tables db) |})
         database_oid (storage st)) st).

(** The loop that checks duplicate column names; [column_names] is the
    [std::set] of the names seen. *)
Fixpoint check_column_names (column_names : list string)
    (columns : list Column) : M unit :=
  match columns with
  | [] => ret tt
  | column :: rest =>
      if bool_decide (column_name column ∈ column_names) then
        throw "Can't create table with duplicate column name"
      else check_column_names (column_name column :: column_names) rest
  end.

(** The loop over the columns of the new table. *)
Fixpoint insert_columns (txn : option TransactionContext)
    (database_name schema_name table_name : string)
    (database_oid table_oid column_id : Z) (columns : list Column) : M unit :=
  match columns with
  | [] => ret tt
  | column :: rest =>
      exec ColumnCatalog_InsertColumn database_oid
             {| colrow_table_oid := table_oid; colrow_column_id := column_id;
                colrow_name := column_name column |} then
      (* Create index on unique single column *)
      exec (if column_is_unique column then
              let index_name :=
                table_name +:+ "_" +:+ column_name column +:+ "_UNIQ" in
              exec CreateIndex_by_name txn database_name schema_name
                     table_name index_name [column_id] true BWTREE
              then ret tt
            else ret tt) then
      insert_columns txn database_name schema_name table_name database_oid
        table_oid (column_id + 1) rest
  end.

(** [Catalog::CreateTable]. *)
Definition CreateTable (txn : option TransactionContext)
    (database_name schema_name : string) (schema : list Column)
    (table_name : string) : M ResultType :=
  match txn with
  | None => throw "Do not have transaction to create table"
  | Some _ =>
      (* check whether database exists from pg_database *)
      let! database_object := GetDatabaseCatalogEntry_by_name database_name in
      match database_object with
      | None => throw "Can't find Database to create table"
      | Some database_object =>
          let database_oid := dbrow_oid database_object in
          (* check whether namespace exists from pg_namespace *)
          exec system_catalogs database_oid then
          if negb (namespace_exists database_oid schema_name) then
            throw "Can't find namespace to create table"
          else
            (* get table oid from pg_table *)
            let! table_object :=
              GetTableCatalogEntry_by_name database_oid table_name
                schema_name in
            match table_object with
            | Some _ => throw "Table already exists"
            | None =>
                exec GetDatabaseWithOid database_oid then
                (* Check duplicate column names *)
                exec check_column_names [] schema then
                (* Create actual table *)
                let! table_oid := TableCatalog_GetNextOid database_oid in
                let table :=
                  {| Catalog.table_name := table_name;
                     table_schema := schema;
                     default_layout := default_layout_oid;
                     next_layout_oid := first_layout_oid;
                     table_indexes := [] |} in
                exec AddTable database_oid table_oid table then
                (* put data table object into rw_object_set *)
                exec txn_RecordCreate txn database_oid table_oid INVALID_OID
                then
                (* Update pg_table with table info *)
                exec TableCatalog_InsertTable database_oid
                       {| tblrow_oid := table_oid; tblrow_name := table_name;
                          tblrow_schema_name := schema_name;
                          tblrow_default_layout_oid := default_layout_oid |}
                then
                exec insert_columns txn database_name schema_name table_name
                       database_oid table_oid 0 schema then
                exec CreatePrimaryIndex txn database_oid schema_name table_oid
                then
                (* Create layout as default layout *)
                exec system_catalogs database_oid then
                let! inserted :=
                  LayoutCatalog_InsertLayout database_oid table_oid
                    default_layout_oid in
                if negb inserted then
                  throw "Failed to create a new layout for table"
                else ret SUCCESS
            end
      end
  end.

(** *** The checks before the first change *)

Lemma check_column_names_state columns : forall column_names st o st',
  check_column_names column_names columns st = (o, st') -> st' = st.
Proof.
  induction columns as [| column rest IH]; intros seen st o st' Hrun.
  - by injection Hrun.
  - simpl in Hrun. destruct (bool_decide _); [by injection Hrun |].
    by apply IH in Hrun.
Qed.

Lemma check_column_names_Return columns : forall column_names st st',
  check_column_names column_names columns st = (Return tt, st') ->
  NoDup (column_name <$> columns)
  /\ forall name, name ∈ (column_name <$> columns) -> name ∉ column_names.
Proof.
  induction columns as [| column rest IH]; intros seen st st' Hrun.
  - split; [apply NoDup_nil_2 |]. by intros name Hin%elem_of_nil.
  - simpl in Hrun. destruct (bool_decide _) eqn:Hseen; [discriminate |].
    apply bool_decide_eq_false in Hseen.
    apply IH in Hrun as [Hnodup Hfresh]. rewrite fmap_cons. split.
    + apply NoDup_cons. split; [| done].
      intros Hin. apply (Hfresh _ Hin). by apply elem_of_cons; left.
    + intros name [-> | Hin]%elem_of_cons; [done |].
      intros Hin'. apply (Hfresh _ Hin). by apply elem_of_cons; right.
Qed.

Lemma check_column_names_run columns : forall column_names st,
  NoDup (column_name <$> columns) ->
  (forall name, name ∈ (column_name <$> columns) -> name ∉ column_names) ->
  check_column_names column_names columns st = (Return tt, st).
Proof.
  induction columns as [| column rest IH]; intros seen st Hnodup Hfresh;
    [done |].
  rewrite fmap_cons in Hnodup, Hfresh.
  apply NoDup_cons in Hnodup as [Hnot Hnodup]. simpl.
  rewrite bool_decide_eq_false_2
    by (apply Hfresh; by apply elem_of_cons; left).
  apply IH; [done |].
  intros name Hin [-> | Hin']%elem_of_cons; [done |].
  apply (Hfresh name); [by apply elem_of_cons; right | done].
Qed.

(** What [CreateTable] asks for before it changes anything: the database
    is in [pg_database] under its name, is registered and has the schema,
    has no table of that name in the schema, has its storage object, and
    the column names of the new table are pairwise distinct. *)
Definition accepted (database_name schema_name : string)
    (schema : list Column) (table_name : string) (st : State) : Prop :=
  exists database_object,
    find (fun row => String.eqb (dbrow_name row) database_name)
      (pg_database st) = Some database_object
    /\ is_Some (catalog_map_ st !! dbrow_oid database_object)
    /\ namespace_exists (dbrow_oid database_object) schema_name = true
    /\ find (fun row => String.eqb (tblrow_name row) table_name
                        && String.eqb (tblrow_schema_name row) schema_name)
         (pg_table (rows_of (dbrow_oid database_object) st)) = None
    /\ is_Some (storage st !! dbrow_oid database_object)
    /\ NoDup (column_name <$> schema).

(** X21. [CreateTable] checks before it changes anything.  Without a
    transaction, or when the database is not known under its name, is not
    registered, lacks the schema or its storage object, already has a
    table of that name in the schema, or when two columns of the new
    table share a name, the call does not return, and the state it leaves
    is the state it found: no row, no storage object, no oid and no
    record of the transaction has been touched. *)
Theorem CreateTable_checks_first (txn : option TransactionContext)
    (database_name schema_name : string) (schema : list Column)
    (table_name : string) (st : State) :
  txn = None \/ ~ accepted database_name schema_name schema table_name st ->
  exists o,
    CreateTable txn database_name schema_name schema table_name st = (o, st)
    /\ forall r, o <> Return r.
Proof.
  intros Hbad. unfold CreateTable.
  destruct txn as [txn |]; [| by eexists].
  destruct Hbad as [? | Hbad]; [done |].
  destruct (find (fun row => String.eqb (dbrow_name row) database_name)
              (pg_database st)) as [database_object |] eqn:Hdb; cycle 1.
  { rewrite (bind_Return _ _ st None st)
      by (unfold GetDatabaseCatalogEntry_by_name; by rewrite Hdb).
    by eexists. }
  rewrite (bind_Return _ _ st (Some database_object) st)
    by (unfold GetDatabaseCatalogEntry_by_name; by rewrite Hdb).
  destruct (catalog_map_ st !! dbrow_oid database_object) as [catalogs |]
    eqn:Hmap; cycle 1.
  { unfold bind at 1, system_catalogs at 1. rewrite Hmap. by eexists. }
  rewrite (bind_Return _ _ st catalogs st)
    by (unfold system_catalogs; by rewrite Hmap).
  destruct (namespace_exists _ _) eqn:Hns; [| by eexists].
  cbn [negb].
  destruct (find (fun row => String.eqb (tblrow_name row) table_name
                             && String.eqb (tblrow_schema_name row) schema_name)
              (pg_table (rows_of (dbrow_oid database_object) st)))
    as [table_object |] eqn:Htable.
  { rewrite (bind_Return _ _ st (Some table_object) st)
      by (unfold GetTableCatalogEntry_by_name; by rewrite Htable).
    by eexists. }
  rewrite (bind_Return _ _ st None st)
    by (unfold GetTableCatalogEntry_by_name; by rewrite Htable).
  destruct (storage st !! dbrow_oid database_object) as [database |] eqn:Hst;
    cycle 1.
  { unfold bind at 1, GetDatabaseWithOid at 1. rewrite Hst. by eexists. }
  rewrite (bind_Return _ _ st database st)
    by (unfold GetDatabaseWithOid; by rewrite Hst).
  destruct (check_column_names [] schema st) as [[[] | what | |] st0]
    eqn:Hcheck;
    pose proof (check_column_names_state _ _ _ _ _ Hcheck) as ->;
    try (unfold bind at 1; rewrite Hcheck; by eexists).
  exfalso. apply Hbad. exists database_object.
  apply check_column_names_Return in Hcheck as [Hnodup _].
  by rewrite Hmap, Hst.
Qed.

(** *** A table that is accepted is created *)

Lemma length_append (s1 s2 : string) :
  String.length (s1 +:+ s2) = (String.length s1 + String.length s2)%nat.
Proof.
  induction s1 as [| c rest IH]; [done |].
  change (S (String.length (rest +:+ s2))
          = S (String.length rest + String.length s2)).
  by rewrite IH.
Qed.

Lemma append_inj_r (s1 s2 s : string) : s1 +:+ s = s2 +:+ s -> s1 = s2.
Proof.
  revert s2. induction s1 as [| c1 rest1 IH]; intros [| c2 rest2] H.
  - done.
  - apply (f_equal String.length) in H.
    change (String.length s = S (String.length (rest2 +:+ s))) in H.
    rewrite length_append in H. lia.
  - apply (f_equal String.length) in H.
    change (S (String.length (rest1 +:+ s)) = String.length s) in H.
    rewrite length_append in H. lia.
  - change (String c1 (rest1 +:+ s) = String c2 (rest2 +:+ s)) in H.
    injection H as -> H. f_equal. by apply IH.
Qed.

(** The rows that the loop over the columns appends: the column rows, and
    the index rows of the columns marked unique. *)
Definition column_row (table_oid column_id : Z) (column : Column)
  : ColumnCatalogEntry :=
  {| colrow_table_oid := table_oid; colrow_column_id := column_id;
     colrow_name := column_name column |}.

Definition unique_index_name (table_name : string) (column : Column) : string :=
  table_name +:+ "_" +:+ column_name column +:+ "_UNIQ".

Definition unique_index_row (schema_name table_name : string)
    (table_oid index_oid column_id : Z) (column : Column)
  : IndexCatalogEntry :=
  {| idxrow_schema_name := schema_name; idxrow_table_oid := table_oid;
     idxrow_oid := index_oid;
     idxrow_name := unique_index_name table_name column;
     idxrow_type := BWTREE; idxrow_constraint := UNIQUE;
     idxrow_unique_keys := true; idxrow_key_attrs := [column_id] |}.

Lemma unique_index_name_inj table_name column column' :
  unique_index_name table_name column = unique_index_name table_name column' ->
  column_name column = column_name column'.
Proof.
  unfold unique_index_name. intros H.
  apply String.app_inj, String.app_inj in H. by apply append_inj_r in H.
Qed.

Fixpoint column_rows_from (table_oid column_id : Z) (columns : list Column)
  : list ColumnCatalogEntry :=
  match columns with
  | [] => []
  | column :: rest =>
      column_row table_oid column_id column
      :: column_rows_from table_oid (column_id + 1) rest
  end.

Fixpoint unique_index_rows_from (schema_name table_name : string)
    (table_oid index_oid column_id : Z) (columns : list Column)
  : list IndexCatalogEntry :=
  match columns with
  | [] => []
  | column :: rest =>
      if column_is_unique column then
        unique_index_row schema_name table_name table_oid index_oid column_id
          column
        :: unique_index_rows_from schema_name table_name table_oid
             (index_oid + 1) (column_id + 1) rest
      else
        unique_index_rows_from schema_name table_name table_oid index_oid
          (column_id + 1) rest
  end.

(** A table of storage with one more index. *)
Definition with_index (index : IndexMetadata) (t : DataTable) : DataTable :=
  {| Catalog.table_name := Catalog.table_name t;
     table_schema := table_schema t; default_layout := default_layout t;
     next_layout_oid := next_layout_oid t;
     table_indexes := table_indexes t ++ [index] |}.

(** The rows among [news] that [InsertIndex] accepts after [rows], when
    no two of [news] have an oid or a name in common: those whose oid and
    name no row of [rows] has. *)
Definition rows_written (rows news : list IndexCatalogEntry)
  : list IndexCatalogEntry :=
  List.filter (fun row => negb (existsb (index_row_taken row) rows)) news.

Lemma rows_written_app rows (news1 news2 : list IndexCatalogEntry) :
  rows_written rows (news1 ++ news2)
  = rows_written rows news1 ++ rows_written rows news2.
Proof. apply List.filter_app. Qed.

Lemma rows_written_elem rows (news : list IndexCatalogEntry) row :
  row ∈ rows_written rows news -> row ∈ news.
Proof.
  intros Hin. apply list_elem_of_In, filter_In in Hin as [Hin _].
  by apply list_elem_of_In.
Qed.

Lemma rows_written_all rows (news : list IndexCatalogEntry) :
  (forall row other, row ∈ news -> other ∈ rows ->
     index_row_taken row other = false) ->
  rows_written rows news = news.
Proof.
  intros Hfree. unfold rows_written.
  induction news as [| row rest IH]; [done |]. simpl.
  assert (Hrow : existsb (index_row_taken row) rows = false).
  { destruct (existsb _ _) eqn:E; [| done].
    apply existsb_exists in E as (other & Hin & Htaken).
    rewrite (Hfree row other) in Htaken; [done | by apply elem_of_cons; left |].
    by apply list_elem_of_In. }
  rewrite Hrow. simpl. f_equal. apply IH.
  intros row' other Hin. apply Hfree. by apply elem_of_cons; right.
Qed.

Lemma rows_written_more rows extra (news : list IndexCatalogEntry) :
  (forall row other, row ∈ news -> other ∈ extra ->
     index_row_taken row other = false) ->
  rows_written (rows ++ extra) news = rows_written rows news.
Proof.
  intros Hfree. unfold rows_written. apply List.filter_ext_in.
  intros row Hin. rewrite existsb_app. f_equal.
  destruct (existsb (index_row_taken row) extra) eqn:E;
    [| by rewrite orb_false_r].
  apply existsb_exists in E as (other & Hother & Htaken).
  rewrite (Hfree row other) in Htaken; [done | |]; by apply list_elem_of_In.
Qed.

Lemma rows_of_index_added database_oid table_oid catalogs index row st :
  rows_of database_oid (index_added database_oid table_oid catalogs index row st)
  = set_pg_index
      (pg_index (rows_of database_oid st)
       ++ rows_written (pg_index (rows_of database_oid st)) [row])
      (rows_of database_oid st).
Proof.
  unfold index_added, rows_written. simpl.
  destruct (existsb _ _); simpl.
  - rewrite app_nil_r, rows_of_index_attached. by destruct (rows_of _ _).
  - by rewrite rows_of_index_created.
Qed.

Lemma catalog_map_index_added database_oid table_oid catalogs index row st :
  catalog_map_ (index_added database_oid table_oid catalogs index row st)
  = <[database_oid :=
        {| index_catalog_oid := index_catalog_oid catalogs + 1;
           table_catalog_oid := table_catalog_oid catalogs |}]>
      (catalog_map_ st).
Proof. unfold index_added. by destruct (existsb _ _). Qed.

Lemma pg_database_index_added database_oid table_oid catalogs index row st :
  pg_database (index_added database_oid table_oid catalogs index row st)
  = pg_database st.
Proof. unfold index_added. by destruct (existsb _ _). Qed.

Lemma lookup_table_index_attached database_oid table_oid catalogs index st :
  lookup_table database_oid table_oid
    (index_attached database_oid table_oid catalogs index st)
  = with_index index <$> lookup_table database_oid table_oid st.
Proof.
  unfold index_attached.
  rewrite lookup_table_log_event, lookup_table_update_table.
  by rewrite decide_True.
Qed.

Lemma lookup_table_index_added database_oid table_oid catalogs index row st :
  lookup_table database_oid table_oid
    (index_added database_oid table_oid catalogs index row st)
  = with_index index <$> lookup_table database_oid table_oid st.
Proof.
  unfold index_added.
  destruct (existsb _ _); [apply lookup_table_index_attached |].
  unfold index_created.
  by rewrite lookup_table_log_event, lookup_table_update_rows,
    lookup_table_index_attached.
Qed.

Lemma lookup_table_storage database_oid table_oid st table :
  lookup_table database_oid table_oid st = Some table ->
  exists database,
    storage st !! database_oid = Some database
    /\ db_tables database !! table_oid = Some table.
Proof.
  unfold lookup_table.
  destruct (storage st !! database_oid) as [database |]; [| discriminate].
  intros H. by exists database.
Qed.

(** [CreateIndex] and [CreatePrimaryIndex] run to their end on a table
    that is in the catalog and in storage, when the table has no index of
    that name. *)
Lemma CreateIndex_run txn database_oid schema_name table_oid index_name
    key_attrs unique_keys index_type index_constraint st catalogs table
    database_object table_object :
  database_object ∈ pg_database st ->
  dbrow_oid database_object = database_oid ->
  table_object ∈ pg_table (rows_of database_oid st) ->
  tblrow_oid table_object = table_oid ->
  (forall row, row ∈ pg_index (rows_of database_oid st) ->
     idxrow_table_oid row = table_oid -> idxrow_name row <> index_name) ->
  lookup_table database_oid table_oid st = Some table ->
  catalog_map_ st !! database_oid = Some catalogs ->
  CreateIndex (Some txn) database_oid schema_name table_oid false index_name
    key_attrs unique_keys index_type index_constraint st
  = (Return SUCCESS,
     index_added database_oid table_oid catalogs
       {| Catalog.index_name := index_name;
          index_oid := index_catalog_oid catalogs;
          index_table_oid := table_oid; index_database_oid := database_oid;
          Catalog.index_type := index_type;
          Catalog.index_constraint := index_constraint;
          key_schema := CopySchema (table_schema table) key_attrs;
          Catalog.key_attrs := key_attrs;
          Catalog.unique_keys := unique_keys |}
       {| idxrow_schema_name := schema_name; idxrow_table_oid := table_oid;
          idxrow_oid := index_catalog_oid catalogs;
          idxrow_name := index_name; idxrow_type := index_type;
          idxrow_constraint := index_constraint;
          idxrow_unique_keys := unique_keys;
          idxrow_key_attrs := key_attrs |} st).
Proof.
  intros Hdb Hdoid Htbl Htoid Hname Htable Hmap. unfold CreateIndex.
  cbn [negb].
  destruct (find_exists (fun row => dbrow_oid row =? database_oid)
              (pg_database st) database_object Hdb ltac:(by apply Z.eqb_eq))
    as (dbrow & Hfind_db).
  destruct (find_exists (fun row => tblrow_oid row =? table_oid)
              (pg_table (rows_of database_oid st)) table_object Htbl
              ltac:(by apply Z.eqb_eq))
    as (tblrow & Hfind_tbl).
  rewrite (bind_Return _ _ st tt st); cycle 1.
  { unfold check_index_name.
    rewrite (bind_Return _ _ st (Some dbrow) st)
      by (unfold GetDatabaseCatalogEntry; by rewrite Hfind_db).
    rewrite (bind_Return _ _ st (Some tblrow) st)
      by (unfold GetTableCatalogEntry; by rewrite Hfind_tbl).
    rewrite (bind_Return _ _ st None st); [done |].
    unfold GetIndexCatalogEntry_by_name.
    destruct (find (fun row => (idxrow_table_oid row =? table_oid)
                               && String.eqb (idxrow_name row) index_name)
                (pg_index (rows_of database_oid st)))
      as [row |] eqn:Hfind; [| done].
    apply find_some in Hfind as [Hin Hrow].
    apply andb_true_iff in Hrow as [Ht Hn].
    apply Z.eqb_eq in Ht. apply String.eqb_eq in Hn.
    exfalso. apply (Hname row); [by apply list_elem_of_In | done | done]. }
  apply lookup_table_storage in Htable as (database & Hst & Htable).
  rewrite (bind_Return _ _ st table st)
    by (by apply GetTableWithOid_found with (database := database)).
  unfold IndexCatalog_GetNextOid.
  rewrite (bind_Return _ _ st (index_catalog_oid catalogs)
             (set_catalog_map_
                (<[database_oid :=
                     {| index_catalog_oid := index_catalog_oid catalogs + 1;
                        table_catalog_oid := table_catalog_oid catalogs |}]>
                   (catalog_map_ st)) st))
    by (unfold bind, system_catalogs; by rewrite Hmap).
  apply index_added_run.
Qed.

Lemma CreatePrimaryIndex_run txn database_oid schema_name table_oid st
    catalogs table :
  lookup_table database_oid table_oid st = Some table ->
  catalog_map_ st !! database_oid = Some catalogs ->
  CreatePrimaryIndex (Some txn) database_oid schema_name table_oid st
  = if bool_decide (find_primary_attrs (table_schema table) = [])
    then (Return FAILURE, st)
    else
      (Return SUCCESS,
       index_added database_oid table_oid catalogs
         {| Catalog.index_name := Catalog.table_name table +:+ "_pkey";
            index_oid := index_catalog_oid catalogs;
            index_table_oid := table_oid; index_database_oid := database_oid;
            Catalog.index_type := BWTREE;
            Catalog.index_constraint := PRIMARY_KEY;
            key_schema :=
              CopySchema (table_schema table)
                (find_primary_attrs (table_schema table));
            Catalog.key_attrs := find_primary_attrs (table_schema table);
            Catalog.unique_keys := true |}
         {| idxrow_schema_name := schema_name; idxrow_table_oid := table_oid;
            idxrow_oid := index_catalog_oid catalogs;
            idxrow_name := Catalog.table_name table +:+ "_pkey";
            idxrow_type := BWTREE; idxrow_constraint := PRIMARY_KEY;
            idxrow_unique_keys := true;
            idxrow_key_attrs := find_primary_attrs (table_schema table) |} st).
Proof.
  intros Htable Hmap. unfold CreatePrimaryIndex.
  apply lookup_table_storage in Htable as (database & Hst & Htable).
  rewrite (bind_Return _ _ st table st)
    by (by apply GetTableWithOid_found with (database := database)).
  destruct (bool_decide _); [done |].
  unfold IndexCatalog_GetNextOid.
  rewrite (bind_Return _ _ st (index_catalog_oid catalogs)
             (set_catalog_map_
                (<[database_oid :=
                     {| index_catalog_oid := index_catalog_oid catalogs + 1;
                        table_catalog_oid := table_catalog_oid catalogs |}]>
                   (catalog_map_ st)) st))
    by (unfold bind, system_catalogs; by rewrite Hmap).
  apply index_added_run.
Qed.

(** The new index rows belong to the table, and their oids are the next
    oids of the index catalog. *)
Lemma unique_index_rows_from_table schema_name table_name table_oid columns :
  forall index_oid column_id,
  Forall (fun row => idxrow_table_oid row = table_oid)
    (unique_index_rows_from schema_name table_name table_oid index_oid
       column_id columns).
Proof.
  induction columns as [| column rest IH]; intros index_oid column_id;
    [constructor |].
  cbn [unique_index_rows_from].
  destruct (column_is_unique column); [constructor; [done |] |]; apply IH.
Qed.

Lemma unique_index_rows_from_oids schema_name table_name table_oid columns :
  forall index_oid column_id,
  idxrow_oid
  <$> unique_index_rows_from schema_name table_name table_oid index_oid
        column_id columns
  = seqZ index_oid
      (Z.of_nat (length (unique_index_rows_from schema_name table_name
                           table_oid index_oid column_id columns))).
Proof.
  induction columns as [| column rest IH]; intros index_oid column_id;
    [done |].
  cbn [unique_index_rows_from].
  destruct (column_is_unique column); [| apply IH].
  cbn [length]. rewrite fmap_cons, seqZ_cons by lia. simpl idxrow_oid.
  f_equal. rewrite IH. f_equal; lia.
Qed.

(** The rows that the loop is going to write do not clash with a row of
    a lower oid and another name, nor with the row of the primary key. *)
Lemma unique_index_rows_from_elem schema_name table_name table_oid columns :
  forall index_oid column_id row,
  row ∈ unique_index_rows_from schema_name table_name table_oid index_oid
          column_id columns ->
  index_oid <= idxrow_oid row
  /\ exists column,
       column ∈ columns /\ column_is_unique column = true
       /\ idxrow_name row = unique_index_name table_name column.
Proof.
  induction columns as [| column rest IH]; intros index_oid column_id row Hin;
    [by apply elem_of_nil in Hin |].
  cbn [unique_index_rows_from] in Hin.
  destruct (column_is_unique column) eqn:Huniq.
  - apply elem_of_cons in Hin as [-> | Hin].
    + split; [simpl; lia |]. exists column.
      split; [by apply elem_of_cons; left | by split].
    + apply IH in Hin as (Hle & column' & Hin & Hu & Hname).
      split; [lia |]. exists column'.
      split; [by apply elem_of_cons; right | by split].
  - apply IH in Hin as (Hle & column' & Hin & Hu & Hname).
    split; [done |]. exists column'.
    split; [by apply elem_of_cons; right | by split].
Qed.

Lemma unique_index_name_not_pkey table_name column :
  unique_index_name table_name column <> table_name +:+ "_pkey".
Proof.
  unfold unique_index_name. intros H. apply String.app_inj in H.
  injection H as H. apply (f_equal String.length) in H.
  change ("" +:+ column_name column +:+ "_UNIQ")
    with (column_name column +:+ "_UNIQ") in H.
  rewrite length_append in H. simpl in H. lia.
Qed.

(** The loop over the columns runs to its end when the table under
    construction is found by name and no index row of the table has one
    of the names that the loop is going to use.  A row whose name another
    table's index has in the database is not written. *)
Lemma insert_columns_run txn database_name schema_name table_name
    database_object table_object columns :
  forall column_id st catalogs table,
  find (fun row => String.eqb (dbrow_name row) database_name) (pg_database st)
  = Some database_object ->
  find (fun row => String.eqb (tblrow_name row) table_name
                   && String.eqb (tblrow_schema_name row) schema_name)
    (pg_table (rows_of (dbrow_oid database_object) st)) = Some table_object ->
  catalog_map_ st !! dbrow_oid database_object = Some catalogs ->
  lookup_table (dbrow_oid database_object) (tblrow_oid table_object) st
  = Some table ->
  NoDup (column_name <$> columns) ->
  (forall row,
     row ∈ pg_index (rows_of (dbrow_oid database_object) st) ->
     idxrow_table_oid row = tblrow_oid table_object ->
     forall column, column ∈ columns ->
       idxrow_name row <> unique_index_name table_name column) ->
  exists st' table',
    insert_columns (Some txn) database_name schema_name table_name
      (dbrow_oid database_object) (tblrow_oid table_object) column_id columns st
    = (Return tt, st')
    /\ pg_database st' = pg_database st
    /\ rows_of (dbrow_oid database_object) st'
       = set_pg_index
           (pg_index (rows_of (dbrow_oid database_object) st)
            ++ rows_written (pg_index (rows_of (dbrow_oid database_object) st))
                 (unique_index_rows_from schema_name table_name
                    (tblrow_oid table_object) (index_catalog_oid catalogs)
                    column_id columns))
           (set_pg_attribute
              (pg_attribute (rows_of (dbrow_oid database_object) st)
               ++ column_rows_from (tblrow_oid table_object) column_id columns)
              (rows_of (dbrow_oid database_object) st))
    /\ catalog_map_ st' !! dbrow_oid database_object
       = Some {| index_catalog_oid :=
                   index_catalog_oid catalogs
                   + Z.of_nat
                       (length
                          (unique_index_rows_from schema_name table_name
                             (tblrow_oid table_object)
                             (index_catalog_oid catalogs) column_id columns));
                 table_catalog_oid := table_catalog_oid catalogs |}
    /\ lookup_table (dbrow_oid database_object) (tblrow_oid table_object) st'
       = Some table'
    /\ Catalog.table_name table' = Catalog.table_name table
    /\ table_schema table' = table_schema table
    /\ default_layout table' = default_layout table
    /\ index_oid <$> table_indexes table'
       = (index_oid <$> table_indexes table)
         ++ (idxrow_oid
             <$> unique_index_rows_from schema_name table_name
                   (tblrow_oid table_object) (index_catalog_oid catalogs)
                   column_id columns).
Proof.
  set (d := dbrow_oid database_object). set (t := tblrow_oid table_object).
  induction columns as [| column rest IH];
    intros column_id st catalogs table Hdb Htbl Hmap Htable Hnodup Hnames.
  - exists st, table. cbn [insert_columns unique_index_rows_from
      column_rows_from length]. unfold rows_written. cbn [List.filter].
    rewrite !app_nil_r, Z.add_0_r.
    repeat split; try done.
    + by destruct (rows_of d st).
    + rewrite Hmap. by destruct catalogs.
  - rewrite fmap_cons in Hnodup. apply NoDup_cons in Hnodup as [Hnew Hnodup].
    cbn [insert_columns].
    set (st1 := update_rows d
                  (fun c => set_pg_attribute
                     (pg_attribute c ++ [column_row t column_id column]) c) st).
    rewrite (bind_Return _ _ st tt st1) by reflexivity.
    assert (Hrows1 : rows_of d st1
              = set_pg_attribute
                  (pg_attribute (rows_of d st)
                   ++ [column_row t column_id column]) (rows_of d st))
      by (unfold st1; by rewrite rows_of_update_rows).
    assert (Htable1 : lookup_table d t st1 = Some table)
      by (unfold st1; by rewrite lookup_table_update_rows).
    cbn [unique_index_rows_from column_rows_from].
    destruct (column_is_unique column) eqn:Huniq.
    + set (index :=
        {| Catalog.index_name := unique_index_name table_name column;
           index_oid := index_catalog_oid catalogs;
           index_table_oid := t; index_database_oid := d;
           Catalog.index_type := BWTREE; Catalog.index_constraint := UNIQUE;
           key_schema := CopySchema (table_schema table) [column_id];
           Catalog.key_attrs := [column_id]; Catalog.unique_keys := true |}).
      set (row := unique_index_row schema_name table_name t
                    (index_catalog_oid catalogs) column_id column).
      set (st2 := index_added d t catalogs index row st1).
      assert (Hidx : CreateIndex_by_name (Some txn) database_name schema_name
                       table_name (unique_index_name table_name column)
                       [column_id] true BWTREE st1
                     = (Return SUCCESS, st2)).
      { unfold CreateIndex_by_name.
        rewrite (bind_Return _ _ st1 (Some database_object) st1)
          by (unfold GetDatabaseCatalogEntry_by_name; simpl; by rewrite Hdb).
        rewrite (bind_Return _ _ st1 (Some table_object) st1)
          by (unfold GetTableCatalogEntry_by_name; fold d; rewrite Hrows1;
              simpl; by rewrite Htbl).
        apply find_some in Hdb as [Hdb _]. apply find_some in Htbl as [Htbl _].
        apply CreateIndex_run
          with (database_object := database_object)
               (table_object := table_object); try done.
        - by apply list_elem_of_In.
        - fold d. rewrite Hrows1. by apply list_elem_of_In.
        - fold d. rewrite Hrows1. simpl. intros row' Hin Hoid.
          apply (Hnames row' Hin Hoid). by apply elem_of_cons; left. }
      rewrite (bind_Return _ _ st1 tt st2)
        by (by rewrite (bind_Return _ _ st1 SUCCESS st2 Hidx)).
      set (old := pg_index (rows_of d st)).
      assert (Hrows2 : rows_of d st2
                = set_pg_index (old ++ rows_written old [row])
                    (set_pg_attribute
                       (pg_attribute (rows_of d st)
                        ++ [column_row t column_id column]) (rows_of d st)))
        by (unfold st2; by rewrite rows_of_index_added, Hrows1).
      set (rest_rows := unique_index_rows_from schema_name table_name t
                          (index_catalog_oid catalogs + 1) (column_id + 1) rest).
      assert (Hfresh : forall row' other,
                row' ∈ rest_rows -> other ∈ rows_written old [row] ->
                index_row_taken row' other = false).
      { intros row' other Hin Hother.
        apply rows_written_elem, list_elem_of_singleton in Hother as ->.
        apply unique_index_rows_from_elem in Hin
          as (Hle & column' & Hcolumn' & _ & Hname').
        unfold index_row_taken. apply orb_false_iff. split.
        - apply Z.eqb_neq. simpl. lia.
        - apply String.eqb_neq. rewrite Hname'. simpl.
          intros Heq%unique_index_name_inj. apply Hnew. rewrite Heq.
          apply list_elem_of_fmap. by exists column'. }
      destruct (IH (column_id + 1) st2
                  {| index_catalog_oid := index_catalog_oid catalogs + 1;
                     table_catalog_oid := table_catalog_oid catalogs |}
                  (with_index index table))
        as (st' & table' & Hrun & Hdb' & Hrows' & Hmap' & Htable' & Hname'
            & Hschema' & Hlayout' & Hindexes'); try done.
      * unfold st2. by rewrite pg_database_index_added.
      * rewrite Hrows2. exact Htbl.
      * unfold st2. rewrite catalog_map_index_added. apply lookup_insert_eq.
      * unfold st2. by rewrite lookup_table_index_added, Htable1.
      * rewrite Hrows2. unfold set_pg_index. cbn [pg_index].
        intros row' [Hin | Hin]%elem_of_app Hoid column' Hcolumn'.
        -- apply (Hnames row' Hin Hoid). by apply elem_of_cons; right.
        -- apply rows_written_elem, list_elem_of_singleton in Hin as ->.
           simpl. intros Heq%unique_index_name_inj. apply Hnew. rewrite Heq.
           apply list_elem_of_fmap. by exists column'.
      * exists st', table'. simpl in Hmap', Hindexes'.
        split; [exact Hrun |].
        split; [rewrite Hdb'; unfold st2; by rewrite pg_database_index_added |].
        split; [| split; [| split; [done | split; [done | split; [done |
          split; [done |]]]]]].
        -- rewrite Hrows', Hrows2. unfold set_pg_index, set_pg_attribute.
           cbn [pg_table pg_attribute pg_index pg_layout pg_trigger
                index_catalog_oid].
           fold rest_rows.
           rewrite (rows_written_more old _ rest_rows Hfresh).
           change (row :: rest_rows) with ([row] ++ rest_rows).
           rewrite rows_written_app. by rewrite <- !app_assoc.
        -- rewrite Hmap'. cbn [length]. do 2 f_equal. fold rest_rows. lia.
        -- rewrite Hindexes', fmap_app, <- app_assoc. done.
    + rewrite (bind_Return _ _ st1 tt st1) by reflexivity.
      destruct (IH (column_id + 1) st1 catalogs table)
        as (st' & table' & Hrun & Hdb' & Hrows' & Hmap' & Htable' & Hname'
            & Hschema' & Hlayout' & Hindexes'); try done.
      * rewrite Hrows1. exact Htbl.
      * rewrite Hrows1. simpl. intros row' Hin Hoid column' Hcolumn'.
        apply (Hnames row' Hin Hoid). by apply elem_of_cons; right.
      * exists st', table'.
        split; [exact Hrun |]. split; [by rewrite Hdb' |].
        split; [| by repeat split].
        rewrite Hrows', Hrows1. simpl. by rewrite <- !app_assoc.
Qed.

Lemma find_app_none {A} (f : A -> bool) (l1 l2 : list A) :
  find f l1 = None -> find f (l1 ++ l2) = find f l2.
Proof.
  induction l1 as [| x rest IH]; simpl; [done |].
  destruct (f x); [discriminate | exact IH].
Qed.

Lemma existsb_none {A} (f : A -> bool) (l : list A) :
  (forall x, x ∈ l -> f x = false) -> existsb f l = false.
Proof.
  intros H. destruct (existsb f l) eqn:E; [| done].
  apply existsb_exists in E as (x & Hin & Hf).
  apply list_elem_of_In in Hin. rewrite (H x Hin) in Hf. discriminate.
Qed.

(** The row of the primary-key index, when the schema has a primary
    column. *)
Definition primary_index_rows (schema_name table_name : string)
    (table_oid index_oid : Z) (schema : list Column)
  : list IndexCatalogEntry :=
  if bool_decide (find_primary_attrs schema = []) then []
  else [ {| idxrow_schema_name := schema_name; idxrow_table_oid := table_oid;
            idxrow_oid := index_oid; idxrow_name := table_name +:+ "_pkey";
            idxrow_type := BWTREE; idxrow_constraint := PRIMARY_KEY;
            idxrow_unique_keys := true;
            idxrow_key_attrs := find_primary_attrs schema |} ].

Lemma CreatePrimaryIndex_rows txn database_oid schema_name table_oid st
    catalogs table :
  lookup_table database_oid table_oid st = Some table ->
  catalog_map_ st !! database_oid = Some catalogs ->
  exists r st' table',
    CreatePrimaryIndex (Some txn) database_oid schema_name table_oid st
    = (Return r, st')
    /\ pg_database st' = pg_database st
    /\ rows_of database_oid st'
       = set_pg_index
           (pg_index (rows_of database_oid st)
            ++ rows_written (pg_index (rows_of database_oid st))
                 (primary_index_rows schema_name (Catalog.table_name table)
                    table_oid (index_catalog_oid catalogs)
                    (table_schema table)))
           (rows_of database_oid st)
    /\ catalog_map_ st' !! database_oid
       = Some {| index_catalog_oid :=
                   index_catalog_oid catalogs
                   + Z.of_nat
                       (length
                          (primary_index_rows schema_name
                             (Catalog.table_name table) table_oid
                             (index_catalog_oid catalogs) (table_schema table)));
                 table_catalog_oid := table_catalog_oid catalogs |}
    /\ lookup_table database_oid table_oid st' = Some table'
    /\ Catalog.table_name table' = Catalog.table_name table
    /\ table_schema table' = table_schema table
    /\ default_layout table' = default_layout table
    /\ index_oid <$> table_indexes table'
       = (index_oid <$> table_indexes table)
         ++ (idxrow_oid
             <$> primary_index_rows schema_name (Catalog.table_name table)
                   table_oid (index_catalog_oid catalogs) (table_schema table)).
Proof.
  intros Htable Hmap.
  rewrite (CreatePrimaryIndex_run _ _ _ _ _ _ _ Htable Hmap).
  unfold primary_index_rows.
  destruct (bool_decide (find_primary_attrs (table_schema table) = [])).
  - exists FAILURE, st, table. cbn [length]. unfold rows_written.
    cbn [List.filter]. rewrite !app_nil_r, Z.add_0_r.
    repeat split; try done.
    + by destruct (rows_of database_oid st).
    + rewrite Hmap. by destruct catalogs.
  - eexists SUCCESS, _, (with_index _ table).
    split; [reflexivity |]. split; [by rewrite pg_database_index_added |].
    split; [by rewrite rows_of_index_added |].
    split; [rewrite catalog_map_index_added; apply lookup_insert_eq |].
    split; [by rewrite lookup_table_index_added, Htable |].
    repeat split. simpl. by rewrite fmap_app.
Qed.

(** The index rows of a new table: one per unique column, then the row
    of the primary key. *)
Definition new_index_rows (schema_name table_name : string)
    (table_oid index_oid : Z) (schema : list Column)
  : list IndexCatalogEntry :=
  unique_index_rows_from schema_name table_name table_oid index_oid 0 schema
  ++ primary_index_rows schema_name table_name table_oid
       (index_oid
        + Z.of_nat (length (unique_index_rows_from schema_name table_name
                              table_oid index_oid 0 schema)))
       schema.

(** [CreateTable] on a state that passes its checks, when no index row
    and no layout row refers to the oid that the table is going to get.
    Of the index rows of the new table, those are written whose oid and
    name no index row of the database has. *)
Lemma CreateTable_run txn database_name schema_name schema table_name st
    database_object catalogs :
  find (fun row => String.eqb (dbrow_name row) database_name) (pg_database st)
  = Some database_object ->
  catalog_map_ st !! dbrow_oid database_object = Some catalogs ->
  namespace_exists (dbrow_oid database_object) schema_name = true ->
  find (fun row => String.eqb (tblrow_name row) table_name
                   && String.eqb (tblrow_schema_name row) schema_name)
    (pg_table (rows_of (dbrow_oid database_object) st)) = None ->
  is_Some (storage st !! dbrow_oid database_object) ->
  NoDup (column_name <$> schema) ->
  (forall row, row ∈ pg_index (rows_of (dbrow_oid database_object) st) ->
     idxrow_table_oid row <> table_catalog_oid catalogs) ->
  (forall row, row ∈ pg_layout (rows_of (dbrow_oid database_object) st) ->
     layrow_table_oid row <> table_catalog_oid catalogs) ->
  exists st' table',
    CreateTable (Some txn) database_name schema_name schema table_name st
    = (Return SUCCESS, st')
    /\ pg_database st' = pg_database st
    /\ rows_of (dbrow_oid database_object) st'
       = {| pg_table :=
              pg_table (rows_of (dbrow_oid database_object) st)
              ++ [ {| tblrow_oid := table_catalog_oid catalogs;
                      tblrow_name := table_name;
                      tblrow_schema_name := schema_name;
                      tblrow_default_layout_oid := default_layout_oid |} ];
            pg_attribute :=
              pg_attribute (rows_of (dbrow_oid database_object) st)
              ++ column_rows_from (table_catalog_oid catalogs) 0 schema;
            pg_index :=
              pg_index (rows_of (dbrow_oid database_object) st)
              ++ rows_written
                   (pg_index (rows_of (dbrow_oid database_object) st))
                   (new_index_rows schema_name table_name
                      (table_catalog_oid catalogs) (index_catalog_oid catalogs)
                      schema);
            pg_layout :=
              pg_layout (rows_of (dbrow_oid database_object) st)
              ++ [ {| layrow_table_oid := table_catalog_oid catalogs;
                      layrow_oid := default_layout_oid |} ];
            pg_trigger := pg_trigger (rows_of (dbrow_oid database_object) st) |}
    /\ catalog_map_ st' !! dbrow_oid database_object
       = Some {| index_catalog_oid :=
                   index_catalog_oid catalogs
                   + Z.of_nat
                       (length
                          (new_index_rows schema_name table_name
                             (table_catalog_oid catalogs)
                             (index_catalog_oid catalogs) schema));
                 table_catalog_oid := table_catalog_oid catalogs + 1 |}
    /\ lookup_table (dbrow_oid database_object) (table_catalog_oid catalogs) st'
       = Some table'
    /\ Catalog.table_name table' = table_name
    /\ table_schema table' = schema
    /\ default_layout table' = default_layout_oid
    /\ index_oid <$> table_indexes table'
       = idxrow_oid
         <$> new_index_rows schema_name table_name (table_catalog_oid catalogs)
               (index_catalog_oid catalogs) schema.
Proof.
  set (d := dbrow_oid database_object). set (t := table_catalog_oid catalogs).
  intros Hdb Hmap Hns Htbl [database Hst] Hnodup Hindex Hlayout.
  unfold CreateTable.
  rewrite (bind_Return _ _ st (Some database_object) st)
    by (unfold GetDatabaseCatalogEntry_by_name; by rewrite Hdb).
  fold d.
  rewrite (bind_Return _ _ st catalogs st)
    by (unfold system_catalogs; by rewrite Hmap).
  rewrite Hns. cbn [negb].
  rewrite (bind_Return _ _ st None st)
    by (unfold GetTableCatalogEntry_by_name; by rewrite Htbl).
  rewrite (bind_Return _ _ st database st)
    by (unfold GetDatabaseWithOid; by rewrite Hst).
  rewrite (bind_Return _ _ st tt st)
    by (apply check_column_names_run; [done |];
        intros name _; apply not_elem_of_nil).
  set (table := {| Catalog.table_name := table_name; table_schema := schema;
                   default_layout := default_layout_oid;
                   next_layout_oid := first_layout_oid;
                   table_indexes := [] |}).
  set (table_object := {| tblrow_oid := t; tblrow_name := table_name;
                          tblrow_schema_name := schema_name;
                          tblrow_default_layout_oid := default_layout_oid |}).
  set (catalogs1 := {| index_catalog_oid := index_catalog_oid catalogs;
                       table_catalog_oid := t + 1 |}).
  set (st1 := set_catalog_map_ (<[d := catalogs1]> (catalog_map_ st)) st).
  unfold TableCatalog_GetNextOid.
  rewrite (bind_Return _ _ st t st1)
    by (unfold bind, system_catalogs; by rewrite Hmap).
  set (st4 :=
    update_rows d (fun c => set_pg_table (pg_table c ++ [table_object]) c)
      (log_event (RecordCreate d t INVALID_OID)
         (set_storage
            (alter (fun db => {| db_tables := <[t := table]> (db_tables db) |})
               d (storage st1)) st1))).
  rewrite (bind_Return _ _ st1 tt _) by reflexivity.
  rewrite (bind_Return _ _ _ tt _) by reflexivity.
  rewrite (bind_Return _ _ _ tt st4) by reflexivity.
  assert (Hrows4 : rows_of d st4
            = set_pg_table (pg_table (rows_of d st) ++ [table_object])
                (rows_of d st))
    by (unfold st4; by rewrite rows_of_update_rows).
  assert (Htable4 : lookup_table d t st4 = Some table).
  { unfold st4. rewrite lookup_table_update_rows, lookup_table_log_event.
    unfold lookup_table. simpl. rewrite lookup_alter_eq, Hst. simpl.
    apply lookup_insert_eq. }
  destruct (insert_columns_run txn database_name schema_name table_name
              database_object table_object schema 0 st4 catalogs1 table)
    as (st5 & table5 & Hrun5 & Hdb5 & Hrows5 & Hmap5 & Htable5 & Hname5
        & Hschema5 & Hlayout5 & Hindexes5); try done.
  { fold d. rewrite Hrows4. simpl. rewrite (find_app_none _ _ _ Htbl).
    simpl. by rewrite !String.eqb_refl. }
  { simpl. apply lookup_insert_eq. }
  { fold d. rewrite Hrows4. simpl. intros row Hin Hoid.
    by destruct (Hindex row Hin). }
  fold d in Hrun5, Hrows5, Hmap5, Htable5.
  simpl in Hrun5, Hrows5, Hmap5, Htable5, Hindexes5.
  rewrite (bind_Return _ _ st4 tt st5 Hrun5).
  destruct (CreatePrimaryIndex_rows txn d schema_name t st5 _ table5
              Htable5 Hmap5)
    as (r & st6 & table6 & Hrun6 & Hdb6 & Hrows6 & Hmap6 & Htable6 & Hname6
        & Hschema6 & Hlayout6 & Hindexes6).
  rewrite Hname5, Hschema5 in Hrows6, Hmap6, Hindexes6.
  simpl in Hrows6, Hmap6, Hindexes6.
  rewrite (bind_Return _ _ st5 r st6 Hrun6).
  rewrite (bind_Return _ _ st6 _ st6)
    by (unfold system_catalogs; by rewrite Hmap6).
  set (st7 :=
    log_event (InsertLayout t default_layout_oid)
      (update_rows d
         (fun c => set_pg_layout
            (pg_layout c ++ [ {| layrow_table_oid := t;
                                 layrow_oid := default_layout_oid |} ]) c)
         st6)).
  rewrite (bind_Return _ _ st6 true st7); cycle 1.
  { unfold LayoutCatalog_InsertLayout. rewrite existsb_none; [done |].
    rewrite Hrows6, Hrows5, Hrows4. simpl. intros row Hin.
    unfold is_layout. apply andb_false_iff. left. apply Z.eqb_neq.
    by apply Hlayout. }
  exists st7, table6. split; [done |].
  split; [unfold st7; simpl; by rewrite Hdb6, Hdb5 |].
  split; [| split; [| split; [| split; [| split; [| split]]]]].
  - unfold st7. rewrite rows_of_log_event, rows_of_update_rows.
    rewrite Hrows6, Hrows5, Hrows4. unfold new_index_rows. simpl.
    rewrite rows_written_more, rows_written_app; [by rewrite <- !app_assoc |].
    intros row other Hrow Hother. unfold primary_index_rows in Hrow.
    destruct (bool_decide _); [by apply elem_of_nil in Hrow |].
    apply list_elem_of_singleton in Hrow as ->.
    apply rows_written_elem in Hother.
    pose proof Hother as Hoid.
    apply (list_elem_of_fmap_2 idxrow_oid) in Hoid.
    rewrite unique_index_rows_from_oids in Hoid.
    apply elem_of_seqZ in Hoid as [_ Hlt].
    apply unique_index_rows_from_elem in Hother as (_ & column & _ & _ & Hname).
    unfold index_row_taken. apply orb_false_iff. split.
    + apply Z.eqb_neq. simpl. lia.
    + apply String.eqb_neq. rewrite Hname. simpl.
      apply unique_index_name_not_pkey.
  - unfold st7. simpl. rewrite Hmap6. unfold new_index_rows.
    rewrite length_app. do 2 f_equal. lia.
  - unfold st7. by rewrite lookup_table_log_event, lookup_table_update_rows.
  - by rewrite Hname6, Hname5.
  - by rewrite Hschema6, Hschema5.
  - by rewrite Hlayout6, Hlayout5.
  - rewrite Hindexes6, Hindexes5. unfold new_index_rows.
    by rewrite fmap_app.
Qed.

Lemma filter_none {A} (f : A -> bool) (l : list A) :
  (forall x, x ∈ l -> f x = false) -> List.filter f l = [].
Proof.
  induction l as [| x rest IH]; intros H; [done |]. simpl.
  rewrite (H x) by (by apply elem_of_cons; left).
  apply IH. intros y Hin. apply H. by apply elem_of_cons; right.
Qed.

Lemma filter_all {A} (f : A -> bool) (l : list A) :
  (forall x, x ∈ l -> f x = true) -> List.filter f l = l.
Proof.
  induction l as [| x rest IH]; intros H; [done |]. simpl.
  rewrite (H x) by (by apply elem_of_cons; left). f_equal.
  apply IH. intros y Hin. apply H. by apply elem_of_cons; right.
Qed.

Lemma new_index_rows_table schema_name table_name table_oid index_oid schema :
  Forall (fun row => idxrow_table_oid row = table_oid)
    (new_index_rows schema_name table_name table_oid index_oid schema).
Proof.
  unfold new_index_rows. apply Forall_app. split.
  - apply unique_index_rows_from_table.
  - unfold primary_index_rows. destruct (bool_decide _); repeat constructor.
Qed.

Lemma new_index_rows_oids schema_name table_name table_oid index_oid schema :
  idxrow_oid
  <$> new_index_rows schema_name table_name table_oid index_oid schema
  = seqZ index_oid
      (Z.of_nat (length (new_index_rows schema_name table_name table_oid
                           index_oid schema))).
Proof.
  unfold new_index_rows.
  rewrite fmap_app, length_app, Nat2Z.inj_add, seqZ_app by lia.
  rewrite unique_index_rows_from_oids. f_equal.
  unfold primary_index_rows. by destruct (bool_decide _).
Qed.

(** The table oids that the rows of a database's catalog tables refer
    to. *)
Definition table_oids_in_use (rows : CatalogRows) : list Z :=
  (tblrow_oid <$> pg_table rows)
  ++ (colrow_table_oid <$> pg_attribute rows)
  ++ (idxrow_table_oid <$> pg_index rows)
  ++ (layrow_table_oid <$> pg_layout rows)
  ++ (trgrow_table_oid <$> pg_trigger rows).

(** The columns marked unique, each with its ordinal. *)
Definition unique_columns (schema : list Column) : list (Z * Column) :=
  List.filter (fun ic => column_is_unique ic.2)
    (imap (fun i column => (Z.of_nat i, column)) schema).

Lemma column_rows_from_imap table_oid columns : forall column_id,
  column_rows_from table_oid column_id columns
  = imap (fun i => column_row table_oid (column_id + Z.of_nat i)) columns.
Proof.
  induction columns as [| column rest IH]; intros column_id; [done |].
  cbn [column_rows_from]. rewrite imap_cons, IH, Z.add_0_r. f_equal.
  apply imap_ext. intros i x _. simpl. f_equal. lia.
Qed.

Lemma unique_index_rows_from_imap schema_name table_name table_oid columns :
  forall index_oid column_id,
  unique_index_rows_from schema_name table_name table_oid index_oid column_id
    columns
  = imap (fun j ic =>
            unique_index_row schema_name table_name table_oid
              (index_oid + Z.of_nat j) ic.1 ic.2)
      (List.filter (fun ic => column_is_unique ic.2)
         (imap (fun i column => (column_id + Z.of_nat i, column)) columns)).
Proof.
  induction columns as [| column rest IH]; intros index_oid column_id; [done |].
  cbn [unique_index_rows_from]. rewrite imap_cons. cbn [List.filter snd].
  rewrite (imap_ext (_ ∘ S)
             (fun i column => (column_id + 1 + Z.of_nat i, column)))
    by (intros i x _; simpl; f_equal; lia).
  destruct (column_is_unique column).
  - rewrite imap_cons, IH. cbn [fst snd]. rewrite !Z.add_0_r. f_equal.
    apply imap_ext. intros j ic _. simpl. f_equal. lia.
  - apply IH.
Qed.

(** X22. What [CreateTable] creates.  When the call passes its checks,
    the oid that the table catalog hands out next is not in use in the
    catalog rows of the database, the oids of the index rows are below
    the index catalog's counter, and no index row of the database has the
    name table_column_UNIQ of a column marked unique, nor the name
    table_pkey when a column is marked primary, [CreateTable] returns
    [SUCCESS] and has appended: to the table catalog the row of the
    table, under that oid; to the column catalog one row per column,
    numbered from 0 in schema order; to the index catalog one row per
    column marked unique, in schema order, for a unique index on that
    column alone called table_column_UNIQ, and after these the row of the
    primary-key index when a column is marked primary, with consecutive
    oids from the index catalog's counter; to the layout catalog the row
    of the default layout.  The triggers are as before, the table
    catalog's counter has moved on by one, and the table in storage has
    the schema and exactly the new indexes. *)
Theorem CreateTable_creates (txn : TransactionContext)
    (database_name schema_name : string) (schema : list Column)
    (table_name : string) (st : State)
    (database_object : DatabaseCatalogEntry) (catalogs : SystemCatalogs) :
  find (fun row => String.eqb (dbrow_name row) database_name) (pg_database st)
  = Some database_object ->
  catalog_map_ st !! dbrow_oid database_object = Some catalogs ->
  namespace_exists (dbrow_oid database_object) schema_name = true ->
  find (fun row => String.eqb (tblrow_name row) table_name
                   && String.eqb (tblrow_schema_name row) schema_name)
    (pg_table (rows_of (dbrow_oid database_object) st)) = None ->
  is_Some (storage st !! dbrow_oid database_object) ->
  NoDup (column_name <$> schema) ->
  table_catalog_oid catalogs
  ∉ table_oids_in_use (rows_of (dbrow_oid database_object) st) ->
  Forall (fun row => idxrow_oid row < index_catalog_oid catalogs)
    (pg_index (rows_of (dbrow_oid database_object) st)) ->
  (forall row column,
     row ∈ pg_index (rows_of (dbrow_oid database_object) st) ->
     column ∈ schema -> column_is_unique column = true ->
     idxrow_name row <> unique_index_name table_name column) ->
  (find_primary_attrs schema <> [] ->
   forall row, row ∈ pg_index (rows_of (dbrow_oid database_object) st) ->
     idxrow_name row <> table_name +:+ "_pkey") ->
  exists st' table',
    CreateTable (Some txn) database_name schema_name schema table_name st
    = (Return SUCCESS, st')
    /\ rows_of (dbrow_oid database_object) st'
       = {| pg_table :=
              pg_table (rows_of (dbrow_oid database_object) st)
              ++ [ {| tblrow_oid := table_catalog_oid catalogs;
                      tblrow_name := table_name;
                      tblrow_schema_name := schema_name;
                      tblrow_default_layout_oid := default_layout_oid |} ];
            pg_attribute :=
              pg_attribute (rows_of (dbrow_oid database_object) st)
              ++ imap (fun i =>
                         column_row (table_catalog_oid catalogs) (Z.of_nat i))
                   schema;
            pg_index :=
              pg_index (rows_of (dbrow_oid database_object) st)
              ++ imap (fun j ic =>
                         unique_index_row schema_name table_name
                           (table_catalog_oid catalogs)
                           (index_catalog_oid catalogs + Z.of_nat j) ic.1 ic.2)
                   (unique_columns schema)
              ++ primary_index_rows schema_name table_name
                   (table_catalog_oid catalogs)
                   (index_catalog_oid catalogs
                    + Z.of_nat (length (unique_columns schema)))
                   schema;
            pg_layout :=
              pg_layout (rows_of (dbrow_oid database_object) st)
              ++ [ {| layrow_table_oid := table_catalog_oid catalogs;
                      layrow_oid := default_layout_oid |} ];
            pg_trigger := pg_trigger (rows_of (dbrow_oid database_object) st) |}
    /\ (table_catalog_oid <$> catalog_map_ st' !! dbrow_oid database_object)
       = Some (table_catalog_oid catalogs + 1)
    /\ lookup_table (dbrow_oid database_object) (table_catalog_oid catalogs) st'
       = Some table'
    /\ table_schema table' = schema
    /\ index_oid <$> table_indexes table'
       = idxrow_oid
         <$> List.filter
               (fun row => idxrow_table_oid row =? table_catalog_oid catalogs)
               (pg_index (rows_of (dbrow_oid database_object) st')).
Proof.
  intros Hdb Hmap Hns Htbl Hst Hnodup Hunused Hbelow Hunique Hprimary.
  unfold table_oids_in_use in Hunused.
  rewrite !not_elem_of_app in Hunused.
  destruct Hunused as (_ & _ & Hindex & Hlayout & _).
  destruct (CreateTable_run txn database_name schema_name schema table_name st
              database_object catalogs)
    as (st' & table' & Hrun & _ & Hrows & Hmap' & Htable' & _ & Hschema' & _
        & Hindexes'); try done.
  { intros row Hin Heq. apply Hindex, list_elem_of_fmap. by exists row. }
  { intros row Hin Heq. apply Hlayout, list_elem_of_fmap. by exists row. }
  set (news := new_index_rows schema_name table_name
                 (table_catalog_oid catalogs) (index_catalog_oid catalogs)
                 schema) in *.
  assert (Hwritten :
            rows_written (pg_index (rows_of (dbrow_oid database_object) st))
              news = news).
  { apply rows_written_all. intros row other Hrow Hother.
    pose proof (proj1 (Forall_forall _ _) Hbelow other Hother) as Hlt.
    simpl in Hlt.
    pose proof Hrow as Hoid. apply (list_elem_of_fmap_2 idxrow_oid) in Hoid.
    unfold news in Hoid. rewrite new_index_rows_oids in Hoid.
    apply elem_of_seqZ in Hoid as [Hle _].
    unfold index_row_taken. apply orb_false_iff.
    split; [apply Z.eqb_neq; lia |]. apply String.eqb_neq.
    unfold news, new_index_rows in Hrow.
    apply elem_of_app in Hrow as [Hrow | Hrow].
    - apply unique_index_rows_from_elem in Hrow
        as (_ & column & Hcolumn & Huniq & ->).
      by apply Hunique.
    - unfold primary_index_rows in Hrow.
      destruct (bool_decide _) eqn:Hnone; [by apply elem_of_nil in Hrow |].
      apply bool_decide_eq_false in Hnone.
      apply list_elem_of_singleton in Hrow as ->. simpl.
      by apply Hprimary. }
  rewrite Hwritten in Hrows.
  assert (Hnew : news
                 = imap (fun j ic =>
                           unique_index_row schema_name table_name
                             (table_catalog_oid catalogs)
                             (index_catalog_oid catalogs + Z.of_nat j)
                             ic.1 ic.2)
                     (unique_columns schema)
                   ++ primary_index_rows schema_name table_name
                        (table_catalog_oid catalogs)
                        (index_catalog_oid catalogs
                         + Z.of_nat (length (unique_columns schema)))
                        schema).
  { unfold news, new_index_rows. rewrite unique_index_rows_from_imap.
    rewrite length_imap. unfold unique_columns.
    by rewrite (imap_ext (fun i column => (0 + Z.of_nat i, column))
                  (fun i column => (Z.of_nat i, column)))
      by (intros i x _; f_equal; lia). }
  exists st', table'. split; [exact Hrun |].
  split; [| split; [by rewrite Hmap' | split; [done | split; [done |]]]].
  - by rewrite Hrows, Hnew, column_rows_from_imap.
  - rewrite Hindexes', Hrows. simpl. rewrite List.filter_app.
    rewrite filter_none, filter_all; [done | |].
    + intros row Hin. apply Z.eqb_eq.
      exact (proj1 (Forall_forall _ _)
               (new_index_rows_table _ _ _ _ _) row Hin).
    + intros row Hin. apply Z.eqb_neq. intros Heq.
      apply Hindex, list_elem_of_fmap. by exists row.
Qed.

(** X30. A primary-key index without its row.  When the call passes its
    checks, the next table oid is not in use, the oids of the index rows
    are below the index catalog's counter, a column is marked primary, and
    an index row of the database already has the name table_pkey (an
    index created under that name on another table, for one),
    [CreateTable] still returns [SUCCESS]: the new table in storage has
    its primary-key index attached, under the oid that follows those of
    its unique indexes, but the index catalog has no row of that oid, and
    no row named table_pkey for the new table. *)
Theorem CreateTable_taken_index_name (txn : TransactionContext)
    (database_name schema_name : string) (schema : list Column)
    (table_name : string) (st : State)
    (database_object : DatabaseCatalogEntry) (catalogs : SystemCatalogs)
    (taken : IndexCatalogEntry) :
  find (fun row => String.eqb (dbrow_name row) database_name) (pg_database st)
  = Some database_object ->
  catalog_map_ st !! dbrow_oid database_object = Some catalogs ->
  namespace_exists (dbrow_oid database_object) schema_name = true ->
  find (fun row => String.eqb (tblrow_name row) table_name
                   && String.eqb (tblrow_schema_name row) schema_name)
    (pg_table (rows_of (dbrow_oid database_object) st)) = None ->
  is_Some (storage st !! dbrow_oid database_object) ->
  NoDup (column_name <$> schema) ->
  table_catalog_oid catalogs
  ∉ table_oids_in_use (rows_of (dbrow_oid database_object) st) ->
  Forall (fun row => idxrow_oid row < index_catalog_oid catalogs)
    (pg_index (rows_of (dbrow_oid database_object) st)) ->
  find_primary_attrs schema <> [] ->
  taken ∈ pg_index (rows_of (dbrow_oid database_object) st) ->
  idxrow_name taken = table_name +:+ "_pkey" ->
  exists st' table',
    CreateTable (Some txn) database_name schema_name schema table_name st
    = (Return SUCCESS, st')
    /\ lookup_table (dbrow_oid database_object) (table_catalog_oid catalogs) st'
       = Some table'
    /\ (index_catalog_oid catalogs + Z.of_nat (length (unique_columns schema))
        ∈ (index_oid <$> table_indexes table'))
    /\ (index_catalog_oid catalogs + Z.of_nat (length (unique_columns schema))
        ∉ (idxrow_oid <$> pg_index (rows_of (dbrow_oid database_object) st')))
    /\ Forall (fun row => idxrow_name row = table_name +:+ "_pkey" ->
                          idxrow_table_oid row <> table_catalog_oid catalogs)
         (pg_index (rows_of (dbrow_oid database_object) st')).
Proof.
  intros Hdb Hmap Hns Htbl Hst Hnodup Hunused Hbelow Hprimary Htaken Hname.
  unfold table_oids_in_use in Hunused.
  rewrite !not_elem_of_app in Hunused.
  destruct Hunused as (_ & _ & Hindex & Hlayout & _).
  destruct (CreateTable_run txn database_name schema_name schema table_name st
              database_object catalogs)
    as (st' & table' & Hrun & _ & Hrows & _ & Htable' & _ & _ & _
        & Hindexes'); try done.
  { intros row Hin Heq. apply Hindex, list_elem_of_fmap. by exists row. }
  { intros row Hin Heq. apply Hlayout, list_elem_of_fmap. by exists row. }
  set (d := dbrow_oid database_object) in *.
  set (t := table_catalog_oid catalogs) in *.
  set (old := pg_index (rows_of d st)) in *.
  set (uniques := unique_index_rows_from schema_name table_name t
                    (index_catalog_oid catalogs) 0 schema).
  assert (Hlength : length uniques = length (unique_columns schema)).
  { unfold uniques. rewrite unique_index_rows_from_imap, length_imap.
    unfold unique_columns.
    by rewrite (imap_ext (fun i column => (0 + Z.of_nat i, column))
                  (fun i column => (Z.of_nat i, column)))
      by (intros i x _; f_equal; lia). }
  set (pkey_oid := index_catalog_oid catalogs
                   + Z.of_nat (length (unique_columns schema))).
  assert (Hnews : new_index_rows schema_name table_name t
                    (index_catalog_oid catalogs) schema
                  = uniques
                    ++ [ {| idxrow_schema_name := schema_name;
                            idxrow_table_oid := t; idxrow_oid := pkey_oid;
                            idxrow_name := table_name +:+ "_pkey";
                            idxrow_type := BWTREE;
                            idxrow_constraint := PRIMARY_KEY;
                            idxrow_unique_keys := true;
                            idxrow_key_attrs := find_primary_attrs schema |} ]).
  { unfold new_index_rows, primary_index_rows. fold uniques.
    rewrite bool_decide_eq_false_2 by done. unfold pkey_oid.
    by rewrite Hlength. }
  assert (Hwritten : rows_written old
                       (new_index_rows schema_name table_name t
                          (index_catalog_oid catalogs) schema)
                     = rows_written old uniques).
  { rewrite Hnews, rows_written_app. unfold rows_written at 2.
    cbn [List.filter].
    assert (Hrefused : existsb
              (index_row_taken
                 {| idxrow_schema_name := schema_name;
                    idxrow_table_oid := t; idxrow_oid := pkey_oid;
                    idxrow_name := table_name +:+ "_pkey";
                    idxrow_type := BWTREE;
                    idxrow_constraint := PRIMARY_KEY;
                    idxrow_unique_keys := true;
                    idxrow_key_attrs := find_primary_attrs schema |}) old
              = true).
    { apply existsb_exists. exists taken.
      split; [by apply list_elem_of_In |].
      unfold index_row_taken. simpl. apply orb_true_iff. right.
      by apply String.eqb_eq. }
    rewrite Hrefused. simpl. apply app_nil_r. }
  rewrite Hwritten in Hrows.
  exists st', table'. split; [exact Hrun |]. split; [exact Htable' |].
  split; [| split].
  - rewrite Hindexes', Hnews, fmap_app. apply elem_of_app. right.
    by apply list_elem_of_singleton.
  - rewrite Hrows. cbn [pg_index]. rewrite fmap_app.
    intros [Hin | Hin]%elem_of_app.
    + apply list_elem_of_fmap in Hin as (row & Hoid & Hin).
      pose proof (proj1 (Forall_forall _ _) Hbelow row Hin) as Hlt.
      simpl in Hlt. unfold pkey_oid in Hoid. lia.
    + apply list_elem_of_fmap in Hin as (row & Hoid & Hin).
      apply rows_written_elem in Hin.
      apply (list_elem_of_fmap_2 idxrow_oid) in Hin. unfold uniques in Hin.
      rewrite unique_index_rows_from_oids in Hin. fold uniques in Hin.
      apply elem_of_seqZ in Hin as [_ Hlt]. rewrite Hlength in Hlt.
      unfold pkey_oid in Hoid. lia.
  - rewrite Hrows. cbn [pg_index]. apply Forall_app. split.
    + apply Forall_forall. intros row Hin _ Heq.
      apply Hindex, list_elem_of_fmap. by exists row.
    + apply Forall_forall. intros row Hin%rows_written_elem Hpkey.
      apply unique_index_rows_from_elem in Hin as (_ & column & _ & _ & Hn).
      rewrite Hn in Hpkey. by apply unique_index_name_not_pkey in Hpkey.
Qed.

(** *** Creating a table and dropping it again *)

Lemma filter_filter_both {A} (f g : A -> bool) (l : list A) :
  List.filter f (List.filter g l) = List.filter (fun x => g x && f x) l.
Proof.
  induction l as [| x rest IH]; [done |]. simpl.
  destruct (g x); simpl; [destruct (f x) |]; by rewrite IH.
Qed.

(** The index loop of [DropTable], when it completes, has removed the
    rows that carry one of the oids it went through, and nothing else. *)
Lemma drop_indexes_rows txn database_oid
    (index_objects : list IndexCatalogEntry) : forall st st',
  for_each
    (fun it => exec DropIndex txn database_oid (idxrow_oid it) then ret tt)
    index_objects st = (Return tt, st') ->
  rows_of database_oid st'
  = set_pg_index
      (List.filter
         (fun row =>
            negb (bool_decide (idxrow_oid row ∈ (idxrow_oid <$> index_objects))))
         (pg_index (rows_of database_oid st)))
      (rows_of database_oid st).
Proof.
  induction index_objects as [| it rest IH]; intros st st' Hrun.
  - injection Hrun as <-. rewrite filter_all; [by destruct (rows_of _ _) |].
    intros row _. rewrite bool_decide_eq_false_2; [done |].
    apply not_elem_of_nil.
  - cbn [for_each] in Hrun.
    apply bind_Return_inv in Hrun as ([] & st1 & Hstep & Hrun).
    apply bind_Return_inv in Hstep as (r & st1' & Hdrop & Hret).
    injection Hret as <-.
    apply DropIndex_success in Hdrop as (table_oid & ->).
    apply IH in Hrun. rewrite Hrun.
    rewrite !rows_of_log_event, rows_of_update_rows. unfold set_pg_index.
    simpl. rewrite filter_filter_both. f_equal. apply List.filter_ext.
    intros row.
    destruct (Z.eqb_spec (idxrow_oid row) (idxrow_oid it)) as [Heq | Hne];
      simpl.
    + rewrite bool_decide_eq_true_2; [done |]. by apply elem_of_cons; left.
    + destruct (bool_decide (idxrow_oid row ∈ (idxrow_oid <$> rest))) eqn:Hin.
      * apply bool_decide_eq_true in Hin.
        rewrite bool_decide_eq_true_2; [done |]. by apply elem_of_cons; right.
      * apply bool_decide_eq_false in Hin.
        rewrite bool_decide_eq_false_2; [done |].
        by intros [? | ?]%elem_of_cons.
Qed.

Lemma filter_fresh_app {A} (oid_of : A -> Z) (table_oid : Z)
    (rows new_rows : list A) :
  table_oid ∉ (oid_of <$> rows) ->
  Forall (fun row => oid_of row = table_oid) new_rows ->
  List.filter (fun row => negb (oid_of row =? table_oid)) (rows ++ new_rows)
  = rows.
Proof.
  intros Hfresh Hnew.
  rewrite List.filter_app, filter_all, filter_none; [apply app_nil_r | |].
  - intros row Hin. apply negb_false_iff, Z.eqb_eq.
    exact (proj1 (Forall_forall _ _) Hnew row Hin).
  - intros row Hin. apply negb_true_iff, Z.eqb_neq. intros Heq.
    apply Hfresh, list_elem_of_fmap. by exists row.
Qed.

Lemma column_rows_from_table table_oid columns : forall column_id,
  Forall (fun row => colrow_table_oid row = table_oid)
    (column_rows_from table_oid column_id columns).
Proof.
  induction columns as [| column rest IH]; intros column_id; constructor;
    [done | apply IH].
Qed.

(** The drop of a table that [CreateTable] has just created. *)
Lemma DropTable_after_CreateTable (txn txn' : TransactionContext)
    (database_name schema_name : string) (schema : list Column)
    (table_name : string) (st st1 : State)
    (database_object : DatabaseCatalogEntry) (catalogs : SystemCatalogs) :
  find (fun row => String.eqb (dbrow_name row) database_name) (pg_database st)
  = Some database_object ->
  catalog_map_ st !! dbrow_oid database_object = Some catalogs ->
  namespace_exists (dbrow_oid database_object) schema_name = true ->
  find (fun row => String.eqb (tblrow_name row) table_name
                   && String.eqb (tblrow_schema_name row) schema_name)
    (pg_table (rows_of (dbrow_oid database_object) st)) = None ->
  is_Some (storage st !! dbrow_oid database_object) ->
  NoDup (column_name <$> schema) ->
  table_catalog_oid catalogs
  ∉ table_oids_in_use (rows_of (dbrow_oid database_object) st) ->
  NoDup (idxrow_oid <$> pg_index (rows_of (dbrow_oid database_object) st)) ->
  Forall (fun row => idxrow_oid row < index_catalog_oid catalogs)
    (pg_index (rows_of (dbrow_oid database_object) st)) ->
  CreateTable (Some txn) database_name schema_name schema table_name st
  = (Return SUCCESS, st1) ->
  exists st2,
    DropTable INVALID_OID (Some txn') (dbrow_oid database_object)
      (table_catalog_oid catalogs) st1
    = (Return SUCCESS, st2)
    /\ rows_of (dbrow_oid database_object) st2
       = rows_of (dbrow_oid database_object) st
    /\ process_state_kept st1 st2.
Proof.
  set (d := dbrow_oid database_object). set (t := table_catalog_oid catalogs).
  intros Hdb Hmap Hns Htbl Hst Hnodup Hunused Hoids Hbelow Hcreate.
  unfold table_oids_in_use in Hunused.
  rewrite !not_elem_of_app in Hunused.
  destruct Hunused as (Htables & Hcolumns & Hindex & Hlayout & Htriggers).
  destruct (CreateTable_run txn database_name schema_name schema table_name st
              database_object catalogs)
    as (st1' & table1 & Hrun1 & Hdb1 & Hrows1 & Hmap1 & Htable1 & _ & _ & _
        & Hindexes1); try done.
  { intros row Hin Heq. apply Hindex, list_elem_of_fmap. by exists row. }
  { intros row Hin Heq. apply Hlayout, list_elem_of_fmap. by exists row. }
  rewrite Hcreate in Hrun1. injection Hrun1 as <-.
  fold d t in Hrows1, Hmap1, Htable1, Hindexes1.
  set (news := new_index_rows schema_name table_name t
                 (index_catalog_oid catalogs) schema) in *.
  set (written := rows_written (pg_index (rows_of d st)) news) in *.
  set (table_object := {| tblrow_oid := t; tblrow_name := table_name;
                          tblrow_schema_name := schema_name;
                          tblrow_default_layout_oid := default_layout_oid |})
    in *.
  assert (Hwritten_table : Forall (fun row => idxrow_table_oid row = t) written).
  { apply Forall_forall. intros row Hin%rows_written_elem.
    exact (proj1 (Forall_forall _ _) (new_index_rows_table _ _ _ _ _) row Hin). }
  assert (Hnews_oids : forall row, row ∈ pg_index (rows_of d st) ->
            idxrow_oid row ∉ (idxrow_oid <$> news)).
  { intros row Hin. unfold news. rewrite new_index_rows_oids.
    intros [Hle _]%elem_of_seqZ.
    pose proof (proj1 (Forall_forall _ _) Hbelow row Hin) as Hlt.
    simpl in Hlt. lia. }
  assert (Hwritten_oids : forall row, row ∈ pg_index (rows_of d st) ->
            idxrow_oid row ∉ (idxrow_oid <$> written)).
  { intros row Hin (row' & Hoid & Hin')%list_elem_of_fmap.
    apply (Hnews_oids row Hin). apply list_elem_of_fmap. exists row'.
    split; [done | by apply rows_written_elem in Hin']. }
  assert (Hcons : table_consistent d t st1).
  { split.
    - exists database_object. split; [| done]. rewrite Hdb1.
      apply find_some in Hdb as [Hin _]. by apply list_elem_of_In.
    - exists table_object. split; [| done]. rewrite Hrows1. simpl.
      apply elem_of_app. right. by apply list_elem_of_singleton.
    - by rewrite Hmap1.
    - rewrite Hrows1. cbn [pg_index]. rewrite fmap_app. apply NoDup_app.
      split; [done |]. split.
      + intros oid (row & -> & Hin)%list_elem_of_fmap. by apply Hwritten_oids.
      + unfold written, rows_written. apply NoDup_oids_filter.
        unfold news. rewrite new_index_rows_oids. apply NoDup_seqZ.
    - apply lookup_table_storage in Htable1 as (database1 & Hst1 & Htable1).
      exists database1, table1. split; [done |]. split; [done |].
      rewrite Hindexes1, Hrows1. cbn [pg_index].
      intros row [Hin | Hin]%elem_of_app Hoid.
      + exfalso. apply Hindex, list_elem_of_fmap. by exists row.
      + apply list_elem_of_fmap. exists row.
        split; [done | by apply rows_written_elem in Hin]. }
  destruct (DropTable_succeeds INVALID_OID txn' d t st1 Hcons) as (st2 & Hrun2).
  exists st2. split; [exact Hrun2 |].
  split; [| exact (DropTable_keeps_process_state _ _ _ _ _ _ Hrun2)].
  apply DropTable_success_inv in Hrun2 as (stT & stI & HrunT & HrunI & ->).
  rewrite Hrows1 in HrunT, HrunI. cbn [pg_trigger pg_index] in HrunT, HrunI.
  rewrite filter_none in HrunT; cycle 1.
  { intros row Hin. apply Z.eqb_neq. intros Heq.
    apply Htriggers, list_elem_of_fmap. by exists row. }
  injection HrunT as <-.
  rewrite List.filter_app, filter_none, filter_all in HrunI; cycle 1.
  { intros row Hin. apply Z.eqb_eq.
    exact (proj1 (Forall_forall _ _) Hwritten_table row Hin). }
  { intros row Hin. apply Z.eqb_neq. intros Heq.
    apply Hindex, list_elem_of_fmap. by exists row. }
  apply drop_indexes_rows in HrunI. unfold table_rows_deleted.
  repeat (rewrite rows_of_log_event || rewrite rows_of_update_rows).
  rewrite HrunI, Hrows1. apply CatalogRows_eq;
    cbn [pg_table pg_attribute pg_index pg_layout pg_trigger set_pg_table
         set_pg_attribute set_pg_index set_pg_layout].
  - apply filter_fresh_app; [done |]. by repeat constructor.
  - apply filter_fresh_app; [done |]. apply column_rows_from_table.
  - rewrite List.filter_app, filter_all, filter_none; [apply app_nil_r | |].
    + intros row Hin. apply negb_false_iff, bool_decide_eq_true.
      apply list_elem_of_fmap. by exists row.
    + intros row Hin. apply negb_true_iff, bool_decide_eq_false.
      by apply Hwritten_oids.
  - apply filter_fresh_app; [done |]. by repeat constructor.
  - done.
Qed.

(** X23. A table that [CreateTable] created can be dropped again by its
    name, and the catalog rows of the database are then exactly those
    from before the creation: the table's row, its column rows, the rows
    of its unique and primary-key indexes and its layout row are gone,
    and no row of another table is touched.  This holds when the call
    passes its checks, the next table oid is not in use, and the oids of
    the index rows are pairwise distinct and below the index catalog's
    counter.  What stays behind is outside the rows: the table object in
    storage, which a drop only records with the transaction, and the oid
    counter of the table catalog, which does not go back. *)
Theorem CreateTable_DropTable_round_trip (txn txn' : TransactionContext)
    (database_name schema_name : string) (schema : list Column)
    (table_name : string) (st : State)
    (database_object : DatabaseCatalogEntry) (catalogs : SystemCatalogs) :
  find (fun row => String.eqb (dbrow_name row) database_name) (pg_database st)
  = Some database_object ->
  catalog_map_ st !! dbrow_oid database_object = Some catalogs ->
  namespace_exists (dbrow_oid database_object) schema_name = true ->
  find (fun row => String.eqb (tblrow_name row) table_name
                   && String.eqb (tblrow_schema_name row) schema_name)
    (pg_table (rows_of (dbrow_oid database_object) st)) = None ->
  is_Some (storage st !! dbrow_oid database_object) ->
  NoDup (column_name <$> schema) ->
  table_catalog_oid catalogs
  ∉ table_oids_in_use (rows_of (dbrow_oid database_object) st) ->
  NoDup (idxrow_oid <$> pg_index (rows_of (dbrow_oid database_object) st)) ->
  Forall (fun row => idxrow_oid row < index_catalog_oid catalogs)
    (pg_index (rows_of (dbrow_oid database_object) st)) ->
  exists st1 st2,
    CreateTable (Some txn) database_name schema_name schema table_name st
    = (Return SUCCESS, st1)
    /\ DropTable_by_name INVALID_OID (Some txn') database_name schema_name
         table_name st1
       = (Return SUCCESS, st2)
    /\ rows_of (dbrow_oid database_object) st2
       = rows_of (dbrow_oid database_object) st
    /\ pg_database st2 = pg_database st
    /\ is_Some (lookup_table (dbrow_oid database_object)
                  (table_catalog_oid catalogs) st2)
    /\ (table_catalog_oid <$> catalog_map_ st2 !! dbrow_oid database_object)
       = Some (table_catalog_oid catalogs + 1).
Proof.
  intros Hdb Hmap Hns Htbl Hst Hnodup Hunused Hoids Hbelow.
  pose proof Hunused as Hunused'. unfold table_oids_in_use in Hunused'.
  rewrite !not_elem_of_app in Hunused'.
  destruct Hunused' as (_ & _ & Hindex & Hlayout & _).
  destruct (CreateTable_run txn database_name schema_name schema table_name st
              database_object catalogs)
    as (st1 & table1 & Hrun1 & Hdb1 & Hrows1 & Hmap1 & Htable1 & _); try done.
  { intros row Hin Heq. apply Hindex, list_elem_of_fmap. by exists row. }
  { intros row Hin Heq. apply Hlayout, list_elem_of_fmap. by exists row. }
  destruct (DropTable_after_CreateTable txn txn' database_name schema_name
              schema table_name st st1 database_object catalogs)
    as (st2 & Hrun2 & Hrows2 & Hstorage2 & Hmap2 & Hdb2); try done.
  exists st1, st2. split; [exact Hrun1 |]. split.
  { unfold DropTable_by_name.
    rewrite (bind_Return _ _ st1 (Some database_object) st1)
      by (unfold GetDatabaseCatalogEntry_by_name; by rewrite Hdb1, Hdb).
    rewrite (bind_Return _ _ st1
               (Some {| tblrow_oid := table_catalog_oid catalogs;
                        tblrow_name := table_name;
                        tblrow_schema_name := schema_name;
                        tblrow_default_layout_oid := default_layout_oid |})
               st1); [exact Hrun2 |].
    unfold GetTableCatalogEntry_by_name. rewrite Hrows1. simpl.
    rewrite (find_app_none _ _ _ Htbl). simpl. by rewrite !String.eqb_refl. }
  split; [done |]. split; [by rewrite Hdb2 |]. split.
  - unfold lookup_table. rewrite Hstorage2.
    fold (lookup_table (dbrow_oid database_object)
            (table_catalog_oid catalogs) st1).
    by rewrite Htable1.
  - by rewrite Hmap2, Hmap1.
Qed.

(** *** Looking the table up by name *)

(** [Catalog::GetTableCatalogEntry(txn, database_name, schema_name,
    table_name)]; the entry is returned with the oid of the database
    whose catalog holds it, which the entry of the source carries. *)
Definition Catalog_GetTableCatalogEntry (txn : option TransactionContext)
    (database_name schema_name table_name : string)
  : M (Z * TableCatalogEntry) :=
  match txn with
  | None => throw "Do not have transaction to get table object"
  | Some _ =>
      (* Check in pg_database, throw exception and abort txn if not exists *)
      let! database_object := GetDatabaseCatalogEntry_by_name database_name in
      match database_object with
      | None => throw "Database is not found"
      | Some database_object =>
          if dbrow_oid database_object =? INVALID_OID then
            throw "Database is not found"
          else
            (* Check in pg_table using txn *)
            let! table_object :=
              GetTableCatalogEntry_by_name (dbrow_oid database_object)
                table_name schema_name in
            match table_object with
            | None => throw "Table is not found"
            | Some table_object =>
                if tblrow_oid table_object =? INVALID_OID then
                  throw "Table is not found"
                else ret (dbrow_oid database_object, table_object)
            end
      end
  end.

(** [Catalog::GetTableWithName]. *)
Definition GetTableWithName (txn : option TransactionContext)
    (database_name schema_name table_name : string) : M DataTable :=
  exec PELOTON_ASSERT (match txn with Some _ => true | None => false end) then
  (* Check in pg_table, throw exception and abort txn if not exists *)
  let! table_object :=
    Catalog_GetTableCatalogEntry txn database_name schema_name table_name in
  (* Get table from storage manager *)
  GetTableWithOid table_object.1 (tblrow_oid table_object.2).

Lemma GetTableWithName_missing txn database_name schema_name table_name st
    database_object :
  find (fun row => String.eqb (dbrow_name row) database_name) (pg_database st)
  = Some database_object ->
  find (fun row => String.eqb (tblrow_name row) table_name
                   && String.eqb (tblrow_schema_name row) schema_name)
    (pg_table (rows_of (dbrow_oid database_object) st)) = None ->
  exists what,
    GetTableWithName (Some txn) database_name schema_name table_name st
    = (Throw what, st).
Proof.
  intros Hdb Htbl. unfold GetTableWithName.
  rewrite (bind_Return _ _ st tt st) by reflexivity.
  unfold Catalog_GetTableCatalogEntry, bind at 1.
  rewrite (bind_Return _ _ st (Some database_object) st)
    by (unfold GetDatabaseCatalogEntry_by_name; by rewrite Hdb).
  destruct (dbrow_oid database_object =? INVALID_OID); [by eexists |].
  rewrite (bind_Return _ _ st None st)
    by (unfold GetTableCatalogEntry_by_name; by rewrite Htbl).
  by eexists.
Qed.

Lemma GetTableWithName_found txn database_name schema_name table_name st
    database_object table_object table :
  find (fun row => String.eqb (dbrow_name row) database_name) (pg_database st)
  = Some database_object ->
  find (fun row => String.eqb (tblrow_name row) table_name
                   && String.eqb (tblrow_schema_name row) schema_name)
    (pg_table (rows_of (dbrow_oid database_object) st)) = Some table_object ->
  dbrow_oid database_object <> INVALID_OID ->
  tblrow_oid table_object <> INVALID_OID ->
  lookup_table (dbrow_oid database_object) (tblrow_oid table_object) st
  = Some table ->
  GetTableWithName (Some txn) database_name schema_name table_name st
  = (Return table, st).
Proof.
  intros Hdb Htbl Hd Ht Htable. unfold GetTableWithName.
  rewrite (bind_Return _ _ st tt st) by reflexivity.
  apply lookup_table_storage in Htable as (database & Hst & Htable).
  rewrite (bind_Return _ _ st (dbrow_oid database_object, table_object) st).
  - by apply GetTableWithOid_found with (database := database).
  - unfold Catalog_GetTableCatalogEntry.
    rewrite (bind_Return _ _ st (Some database_object) st)
      by (unfold GetDatabaseCatalogEntry_by_name; by rewrite Hdb).
    rewrite (proj2 (Z.eqb_neq _ _) Hd).
    rewrite (bind_Return _ _ st (Some table_object) st)
      by (unfold GetTableCatalogEntry_by_name; by rewrite Htbl).
    by rewrite (proj2 (Z.eqb_neq _ _) Ht).
Qed.

(** X24. A table is found by its name exactly while its row is in the
    table catalog.  Under the conditions of the round trip, and with
    oids other than [INVALID_OID], [GetTableWithName] throws before the
    table is created; it returns the table object, with name and schema
    as given, after [CreateTable]; and it throws again after [DropTable],
    although the storage manager still holds the table object under its
    oid then. *)
Theorem table_found_while_in_catalog (txn txn' : TransactionContext)
    (database_name schema_name : string) (schema : list Column)
    (table_name : string) (st : State)
    (database_object : DatabaseCatalogEntry) (catalogs : SystemCatalogs) :
  find (fun row => String.eqb (dbrow_name row) database_name) (pg_database st)
  = Some database_object ->
  catalog_map_ st !! dbrow_oid database_object = Some catalogs ->
  namespace_exists (dbrow_oid database_object) schema_name = true ->
  find (fun row => String.eqb (tblrow_name row) table_name
                   && String.eqb (tblrow_schema_name row) schema_name)
    (pg_table (rows_of (dbrow_oid database_object) st)) = None ->
  is_Some (storage st !! dbrow_oid database_object) ->
  NoDup (column_name <$> schema) ->
  table_catalog_oid catalogs
  ∉ table_oids_in_use (rows_of (dbrow_oid database_object) st) ->
  NoDup (idxrow_oid <$> pg_index (rows_of (dbrow_oid database_object) st)) ->
  Forall (fun row => idxrow_oid row < index_catalog_oid catalogs)
    (pg_index (rows_of (dbrow_oid database_object) st)) ->
  dbrow_oid database_object <> INVALID_OID ->
  table_catalog_oid catalogs <> INVALID_OID ->
  exists st1 st2 table,
    (exists what,
       GetTableWithName (Some txn') database_name schema_name table_name st
       = (Throw what, st))
    /\ CreateTable (Some txn) database_name schema_name schema table_name st
       = (Return SUCCESS, st1)
    /\ GetTableWithName (Some txn') database_name schema_name table_name st1
       = (Return table, st1)
    /\ Catalog.table_name table = table_name
    /\ table_schema table = schema
    /\ DropTable_by_name INVALID_OID (Some txn') database_name schema_name
         table_name st1
       = (Return SUCCESS, st2)
    /\ (exists what,
          GetTableWithName (Some txn') database_name schema_name table_name st2
          = (Throw what, st2))
    /\ lookup_table (dbrow_oid database_object) (table_catalog_oid catalogs) st2
       = Some table.
Proof.
  intros Hdb Hmap Hns Htbl Hst Hnodup Hunused Hoids Hbelow Hd Ht.
  pose proof Hunused as Hunused'. unfold table_oids_in_use in Hunused'.
  rewrite !not_elem_of_app in Hunused'.
  destruct Hunused' as (_ & _ & Hindex & Hlayout & _).
  destruct (CreateTable_run txn database_name schema_name schema table_name st
              database_object catalogs)
    as (st1 & table1 & Hrun1 & Hdb1 & Hrows1 & Hmap1 & Htable1 & Hname1
        & Hschema1 & _); try done.
  { intros row Hin Heq. apply Hindex, list_elem_of_fmap. by exists row. }
  { intros row Hin Heq. apply Hlayout, list_elem_of_fmap. by exists row. }
  destruct (DropTable_after_CreateTable txn txn' database_name schema_name
              schema table_name st st1 database_object catalogs)
    as (st2 & Hrun2 & Hrows2 & Hstorage2 & Hmap2 & Hdb2); try done.
  set (table_object := {| tblrow_oid := table_catalog_oid catalogs;
                          tblrow_name := table_name;
                          tblrow_schema_name := schema_name;
                          tblrow_default_layout_oid := default_layout_oid |}).
  assert (Htbl1 : find (fun row => String.eqb (tblrow_name row) table_name
                          && String.eqb (tblrow_schema_name row) schema_name)
                    (pg_table (rows_of (dbrow_oid database_object) st1))
                  = Some table_object).
  { rewrite Hrows1. simpl. rewrite (find_app_none _ _ _ Htbl). simpl.
    by rewrite !String.eqb_refl. }
  exists st1, st2, table1.
  split; [by apply GetTableWithName_missing with (database_object := database_object) |].
  split; [exact Hrun1 |].
  split.
  { apply GetTableWithName_found
      with (database_object := database_object) (table_object := table_object);
      try done.
    by rewrite Hdb1. }
  split; [done |]. split; [done |]. split.
  { unfold DropTable_by_name.
    rewrite (bind_Return _ _ st1 (Some database_object) st1)
      by (unfold GetDatabaseCatalogEntry_by_name; by rewrite Hdb1, Hdb).
    rewrite (bind_Return _ _ st1 (Some table_object) st1); [exact Hrun2 |].
    unfold GetTableCatalogEntry_by_name. by rewrite Htbl1. }
  split.
  - apply GetTableWithName_missing with (database_object := database_object).
    + by rewrite Hdb2, Hdb1.
    + by rewrite Hrows2.
  - unfold lookup_table. rewrite Hstorage2. exact Htable1.
Qed.

End CreateTable.

(** A second ["emp"] in the sample database, and a table with two columns
    called ["id"]. *)
Lemma CreateTable_checks_first_witness :
  (exists o,
     CreateTable peloton_INVALID_OID (fun _ _ => true) ROW_STORE_LAYOUT_OID 1
       (Some 1) "emp_db" "public" emp_schema "emp" sample_state
     = (o, sample_state) /\ forall r, o <> Return r)
  /\ (exists o,
        CreateTable peloton_INVALID_OID (fun _ _ => true) ROW_STORE_LAYOUT_OID 1
          (Some 1) "emp_db" "public"
          [ {| column_name := "id"; column_is_primary := true;
               column_is_unique := false |};
            {| column_name := "id"; column_is_primary := false;
               column_is_unique := false |} ] "dept" sample_state
        = (o, sample_state) /\ forall r, o <> Return r).
Proof.
  split; apply CreateTable_checks_first; right;
    intros (database_object & Hdb & _ & _ & Htable & _ & Hnodup);
    vm_compute in Hdb; injection Hdb as <-.
  - vm_compute in Htable. discriminate.
  - apply NoDup_cons in Hnodup as [Hnot _]. apply Hnot.
    by apply elem_of_cons; left.
Defined.

(** A table ["dept"] for the sample database: a primary column, a
    unique column and a plain one. *)
Definition dept_schema : list Column :=
  [ {| column_name := "id"; column_is_primary := true;
       column_is_unique := false |};
    {| column_name := "code"; column_is_primary := false;
       column_is_unique := true |};
    {| column_name := "name"; column_is_primary := false;
       column_is_unique := false |} ].

Definition with_dept : State :=
  (CreateTable peloton_INVALID_OID (fun _ _ => true) ROW_STORE_LAYOUT_OID 1
     (Some 1) "emp_db" "public" dept_schema "dept" sample_state).2.

Lemma CreateTable_creates_witness :
  (fun row => (idxrow_oid row, idxrow_name row, idxrow_key_attrs row))
  <$> pg_index (rows_of 100 with_dept)
  = [ (300, "emp_name_UNIQ", [1]); (301, "emp_dept_idx", [2]);
      (302, "dept_code_UNIQ", [1]); (303, "dept_pkey", [0]) ].
Proof.
  destruct (CreateTable_creates peloton_INVALID_OID (fun _ _ => true)
              ROW_STORE_LAYOUT_OID 1 1 "emp_db" "public" dept_schema "dept"
              sample_state {| dbrow_oid := 100; dbrow_name := "emp_db" |}
              emp_catalogs)
    as (st' & table' & Hrun & Hrows & _).
  - reflexivity.
  - reflexivity.
  - reflexivity.
  - reflexivity.
  - by eexists.
  - apply (bool_decide_unpack _). vm_compute. exact I.
  - apply (bool_decide_unpack _). vm_compute. exact I.
  - repeat constructor.
  - intros row column Hrow Hcolumn Hunique.
    apply list_elem_of_In in Hrow. apply list_elem_of_In in Hcolumn.
    simpl in Hrow, Hcolumn.
    destruct Hrow as [<- | [<- | []]];
      destruct Hcolumn as [<- | [<- | [<- | []]]]; discriminate.
  - intros _ row Hrow. apply list_elem_of_In in Hrow. simpl in Hrow.
    destruct Hrow as [<- | [<- | []]]; discriminate.
  - replace with_dept with st' by (symmetry; exact (f_equal snd Hrun)).
    cbn [dbrow_oid] in Hrows. rewrite Hrows. vm_compute. reflexivity.
Defined.

(** The sample after an index named [dept_pkey] was created on [emp].
    The table [dept] then gets the row of its unique index, and its
    primary-key index in storage without a row. *)
Definition with_dept_pkey_index : State :=
  (CreateIndex (Some 1) 100 "public" 200 false "dept_pkey" [2] false BWTREE
     DEFAULT sample_state).2.

Lemma CreateTable_taken_index_name_witness :
  exists st' table',
    CreateTable peloton_INVALID_OID (fun _ _ => true) ROW_STORE_LAYOUT_OID 1
      (Some 1) "emp_db" "public" dept_schema "dept" with_dept_pkey_index
    = (Return SUCCESS, st')
    /\ lookup_table 100 201 st' = Some table'
    /\ (304 ∈ (index_oid <$> table_indexes table'))
    /\ (304 ∉ (idxrow_oid <$> pg_index (rows_of 100 st')))
    /\ (fun row => (idxrow_oid row, idxrow_table_oid row, idxrow_name row))
       <$> pg_index (rows_of 100 st')
       = [ (300, 200, "emp_name_UNIQ"); (301, 200, "emp_dept_idx");
           (302, 200, "dept_pkey"); (303, 201, "dept_code_UNIQ") ].
Proof.
  destruct (CreateTable_taken_index_name peloton_INVALID_OID (fun _ _ => true)
              ROW_STORE_LAYOUT_OID 1 1 "emp_db" "public" dept_schema "dept"
              with_dept_pkey_index
              {| dbrow_oid := 100; dbrow_name := "emp_db" |}
              {| index_catalog_oid := 303; table_catalog_oid := 201 |}
              {| idxrow_schema_name := "public"; idxrow_table_oid := 200;
                 idxrow_oid := 302; idxrow_name := "dept_pkey";
                 idxrow_type := BWTREE; idxrow_constraint := DEFAULT;
                 idxrow_unique_keys := false; idxrow_key_attrs := [2] |})
    as (st' & table' & Hrun & Htable & Hattached & Hnorow & _).
  - reflexivity.
  - reflexivity.
  - reflexivity.
  - reflexivity.
  - by eexists.
  - apply (bool_decide_unpack _). vm_compute. exact I.
  - apply (bool_decide_unpack _). vm_compute. exact I.
  - vm_compute. repeat constructor.
  - discriminate.
  - apply list_elem_of_In. vm_compute. tauto.
  - reflexivity.
  - exists st', table'. split; [exact Hrun |]. split; [exact Htable |].
    split; [exact Hattached |]. split; [exact Hnorow |].
    replace st' with (snd (CreateTable peloton_INVALID_OID (fun _ _ => true)
                             ROW_STORE_LAYOUT_OID 1 (Some 1) "emp_db" "public"
                             dept_schema "dept" with_dept_pkey_index))
      by exact (f_equal snd Hrun).
    vm_compute. reflexivity.
Defined.

Lemma CreateTable_DropTable_round_trip_witness :
  rows_of 100
    (DropTable_by_name peloton_INVALID_OID (Some 2) "emp_db" "public" "dept"
       with_dept).2
  = emp_rows.
Proof.
  destruct (CreateTable_DropTable_round_trip peloton_INVALID_OID
              (fun _ _ => true) ROW_STORE_LAYOUT_OID 1 1 2 "emp_db" "public"
              dept_schema "dept" sample_state
              {| dbrow_oid := 100; dbrow_name := "emp_db" |} emp_catalogs)
    as (st1 & st2 & Hrun1 & Hrun2 & Hrows & _).
  - reflexivity.
  - reflexivity.
  - reflexivity.
  - reflexivity.
  - by eexists.
  - apply (bool_decide_unpack _). vm_compute. exact I.
  - apply (bool_decide_unpack _). vm_compute. exact I.
  - apply (bool_decide_unpack _). vm_compute. exact I.
  - apply (bool_decide_unpack _). vm_compute. exact I.
  - replace with_dept with st1 by (symmetry; exact (f_equal snd Hrun1)).
    cbn [dbrow_oid] in Hrows.
    match goal with
    | |- context [snd ?run] =>
        replace run with (Return SUCCESS, st2) by (symmetry; exact Hrun2)
    end.
    cbn [snd]. rewrite Hrows. reflexivity.
Defined.

Lemma table_found_while_in_catalog_witness :
  exists table,
    GetTableWithName peloton_INVALID_OID (Some 2) "emp_db" "public" "dept"
      with_dept
    = (Return table, with_dept)
    /\ table_schema table = dept_schema.
Proof.
  destruct (table_found_while_in_catalog peloton_INVALID_OID
              (fun _ _ => true) ROW_STORE_LAYOUT_OID 1 1 2 "emp_db" "public"
              dept_schema "dept" sample_state
              {| dbrow_oid := 100; dbrow_name := "emp_db" |} emp_catalogs)
    as (st1 & st2 & table & _ & Hrun1 & Hfound & _ & Hschema & _).
  - reflexivity.
  - reflexivity.
  - reflexivity.
  - reflexivity.
  - by eexists.
  - apply (bool_decide_unpack _). vm_compute. exact I.
  - apply (bool_decide_unpack _). vm_compute. exact I.
  - apply (bool_decide_unpack _). vm_compute. exact I.
  - apply (bool_decide_unpack _). vm_compute. exact I.
  - done.
  - done.
  - exists table.
    replace with_dept with st1 by (symmetry; exact (f_equal snd Hrun1)).
    by split.
Defined.

End TableCreation.

(* ===================================================================== *)
(** ** The catalog: schemas                                              *)
(* ===================================================================== *)

Module Schemas.
Import Catalog CatalogFacts.

Record SchemaCatalogEntry : Type := {
  nsrow_oid : Z;
  nsrow_name : string
}.

(** [SchemaCatalog], the handle that
    [catalog_map_[database_oid]->GetSchemaCatalog()] yields: the rows of
    [pg_namespace] as the running transaction sees them, and the oid
    counter of the handle. *)
Record SchemaCatalog : Type := {
  pg_namespace : list SchemaCatalogEntry;
  namespace_oid : Z
}.

(** Modelled from the spec: [SchemaCatalog::GetSchemaCatalogEntry] (null
    when no row is visible), [SchemaCatalog::GetNextOid],
    [SchemaCatalog::InsertSchema] and [SchemaCatalog::DeleteSchema]. *)
Definition GetSchemaCatalogEntry (schema_name : string)
    (catalog : SchemaCatalog) : option SchemaCatalogEntry :=
  find (fun row => String.eqb (nsrow_name row) schema_name)
    (pg_namespace catalog).

Definition GetNextOid (catalog : SchemaCatalog) : Z * SchemaCatalog :=
  (namespace_oid catalog,
   {| pg_namespace := pg_namespace catalog;
      namespace_oid := namespace_oid catalog + 1 |}).

Definition InsertSchema (schema_oid : Z) (schema_name : string)
    (catalog : SchemaCatalog) : SchemaCatalog :=
  {| pg_namespace :=
       pg_namespace catalog
       ++ [ {| nsrow_oid := schema_oid; nsrow_name := schema_name |} ];
     namespace_oid := namespace_oid catalog |}.

Definition DeleteSchema (schema_name : string) (catalog : SchemaCatalog)
  : SchemaCatalog :=
  {| pg_namespace :=
       List.filter (fun row => negb (String.eqb (nsrow_name row) schema_name))
         (pg_namespace catalog);
     namespace_oid := namespace_oid catalog |}.

(** Modelled from the spec:
    [DatabaseCatalogEntry::GetTableCatalogEntries(schema_name)], the rows
    of the database's table catalog that belong to the schema. *)
Definition GetTableCatalogEntries_of_schema (database_oid : Z)
    (schema_name : string) : M (list TableCatalogEntry) :=
  fun st =>
    (Return (List.filter
               (fun row => String.eqb (tblrow_schema_name row) schema_name)
               (pg_table (rows_of database_oid st))), st).

(** The schema catalogs by database oid.  The two functions below take
    them and, when they return, give them back; an exception leaves them
    as they were, since each one is raised before the namespace row is
    written. *)
Definition Namespaces : Type := Z -> SchemaCatalog.

Definition set_namespace (database_oid : Z) (catalog : SchemaCatalog)
    (namespaces : Namespaces) : Namespaces :=
  fun oid => if decide (oid = database_oid) then catalog else namespaces oid.

(** [Catalog::CreateSchema]. *)
Definition CreateSchema (txn : option TransactionContext)
    (database_name schema_name : string) (namespaces : Namespaces)
  : M (ResultType * Namespaces) :=
  match txn with
  | None => throw "Do not have transaction to create schema(namespace)"
  | Some _ =>
      (* check whether database exists from pg_database *)
      let! database_object := GetDatabaseCatalogEntry_by_name database_name in
      match database_object with
      | None => throw "Can't find Database to create schema"
      | Some database_object =>
          (* check whether namespace exists from pg_namespace *)
          exec system_catalogs (dbrow_oid database_object) then
          let pg_namespace := namespaces (dbrow_oid database_object) in
          match GetSchemaCatalogEntry schema_name pg_namespace with
          | Some _ => throw "Schema(namespace) already exists"
          | None =>
              let '(schema_oid, pg_namespace) := GetNextOid pg_namespace in
              ret (SUCCESS,
                   set_namespace (dbrow_oid database_object)
                     (InsertSchema schema_oid schema_name pg_namespace)
                     namespaces)
          end
      end
  end.

Section DropSchema.

Variable INVALID_OID : Z.

(** [Catalog::DropSchema]. *)
Definition DropSchema (txn : option TransactionContext)
    (database_name schema_name : string) (namespaces : Namespaces)
  : M (ResultType * Namespaces) :=
  match txn with
  | None => throw "Do not have transaction to drop schema"
  | Some _ =>
      let! database_object := GetDatabaseCatalogEntry_by_name database_name in
      match database_object with
      | None => throw "Drop Schema: database does not exist"
      | Some database_object =>
          (* check whether namespace exists from pg_namespace *)
          exec system_catalogs (dbrow_oid database_object) then
          let pg_namespace := namespaces (dbrow_oid database_object) in
          match GetSchemaCatalogEntry schema_name pg_namespace with
          | None => throw "Can't find namespace to drop"
          | Some _ =>
              let! table_objects :=
                GetTableCatalogEntries_of_schema (dbrow_oid database_object)
                  schema_name in
              exec for_each
                     (fun it =>
                        exec DropTable INVALID_OID txn
                               (dbrow_oid database_object) (tblrow_oid it)
                        then ret tt)
                     table_objects then
              (* remove record within pg_namespace *)
              ret (SUCCESS,
                   set_namespace (dbrow_oid database_object)
                     (DeleteSchema schema_name pg_namespace) namespaces)
          end
      end
  end.

(** What a [DropSchema] that returns went through. *)
Lemma DropSchema_success_inv txn database_name schema_name namespaces st r
    namespaces' st' :
  DropSchema txn database_name schema_name namespaces st
  = (Return (r, namespaces'), st') ->
  exists database_object,
    find (fun row => String.eqb (dbrow_name row) database_name) (pg_database st)
    = Some database_object
    /\ is_Some (GetSchemaCatalogEntry schema_name
                  (namespaces (dbrow_oid database_object)))
    /\ for_each
         (fun it =>
            exec DropTable INVALID_OID txn (dbrow_oid database_object)
                   (tblrow_oid it)
            then ret tt)
         (List.filter
            (fun row => String.eqb (tblrow_schema_name row) schema_name)
            (pg_table (rows_of (dbrow_oid database_object) st))) st
       = (Return tt, st')
    /\ r = SUCCESS
    /\ namespaces'
       = set_namespace (dbrow_oid database_object)
           (DeleteSchema schema_name (namespaces (dbrow_oid database_object)))
           namespaces.
Proof.
  unfold DropSchema. destruct txn as [txn |]; [| discriminate].
  intros Hrun.
  apply bind_Return_inv in Hrun as (database_object & st0 & Hdb & Hrun).
  unfold GetDatabaseCatalogEntry_by_name in Hdb. injection Hdb as <- <-.
  destruct (find _ (pg_database st)) as [database_object |] eqn:Hdb;
    [| discriminate Hrun].
  apply bind_Return_inv in Hrun as (catalogs & st0 & Hmap & Hrun).
  apply system_catalogs_state in Hmap as ->.
  destruct (GetSchemaCatalogEntry _ _) as [schema_object |] eqn:Hschema;
    [| discriminate Hrun].
  apply bind_Return_inv in Hrun as (table_objects & st0 & Htables & Hrun).
  unfold GetTableCatalogEntries_of_schema in Htables.
  injection Htables as <- <-.
  apply bind_Return_inv in Hrun as ([] & st1 & Hloop & Hrun).
  injection Hrun as <- <- <-.
  exists database_object. by rewrite Hschema.
Qed.

Lemma same_oid_same_row (rows : list TableCatalogEntry) row row' :
  NoDup (tblrow_oid <$> rows) -> row ∈ rows -> row' ∈ rows ->
  tblrow_oid row = tblrow_oid row' -> row = row'.
Proof.
  induction rows as [| first rest IH]; intros Hnodup Hin Hin' Heq;
    [by apply elem_of_nil in Hin |].
  rewrite fmap_cons in Hnodup. apply NoDup_cons in Hnodup as [Hfresh Hnodup].
  apply elem_of_cons in Hin as [-> | Hin];
    apply elem_of_cons in Hin' as [-> | Hin']; try done.
  - exfalso. apply Hfresh. rewrite Heq. apply list_elem_of_fmap. by exists row'.
  - exfalso. apply Hfresh. rewrite <- Heq. apply list_elem_of_fmap.
    by exists row.
  - by apply IH.
Qed.

Lemma filter_other_table {A} (oid_of : A -> Z)
    (table_objects : list TableCatalogEntry) (rows : list A) :
  List.filter (fun row => other_table table_objects (oid_of row)) rows
  = List.filter
      (fun row =>
         bool_decide (oid_of row ∉ (tblrow_oid <$> table_objects))) rows.
Proof.
  apply List.filter_ext. intros row.
  destruct (other_table table_objects (oid_of row)) eqn:E.
  - apply other_table_spec in E. by rewrite bool_decide_eq_true_2.
  - rewrite bool_decide_eq_false_2; [done |].
    intros H%other_table_spec. congruence.
Qed.

(** X25. [DropSchema] drops the tables of the schema and nothing else.
    In a database whose table rows have pairwise distinct oids, a
    [DropSchema] that returns has returned [SUCCESS]; the table catalog
    has lost exactly the rows of the schema; the column and layout
    catalogs have lost exactly the rows of these tables, and no index
    row of one of them is left; the schema is no longer found in
    [pg_namespace], every other schema is found as before, and the
    schema catalogs of other databases are as they were.  The storage
    manager still holds every table object. *)
Theorem DropSchema_cascade (txn : option TransactionContext)
    (database_name schema_name : string) (namespaces namespaces' : Namespaces)
    (st st' : State) (r : ResultType) (database_object : DatabaseCatalogEntry) :
  find (fun row => String.eqb (dbrow_name row) database_name) (pg_database st)
  = Some database_object ->
  NoDup (tblrow_oid <$> pg_table (rows_of (dbrow_oid database_object) st)) ->
  DropSchema txn database_name schema_name namespaces st
  = (Return (r, namespaces'), st') ->
  r = SUCCESS
  /\ pg_table (rows_of (dbrow_oid database_object) st')
     = List.filter
         (fun row => negb (String.eqb (tblrow_schema_name row) schema_name))
         (pg_table (rows_of (dbrow_oid database_object) st))
  /\ pg_attribute (rows_of (dbrow_oid database_object) st')
     = List.filter
         (fun row =>
            bool_decide
              (colrow_table_oid row
               ∉ (tblrow_oid
                  <$> List.filter
                        (fun row =>
                           String.eqb (tblrow_schema_name row) schema_name)
                        (pg_table (rows_of (dbrow_oid database_object) st)))))
         (pg_attribute (rows_of (dbrow_oid database_object) st))
  /\ pg_layout (rows_of (dbrow_oid database_object) st')
     = List.filter
         (fun row =>
            bool_decide
              (layrow_table_oid row
               ∉ (tblrow_oid
                  <$> List.filter
                        (fun row =>
                           String.eqb (tblrow_schema_name row) schema_name)
                        (pg_table (rows_of (dbrow_oid database_object) st)))))
         (pg_layout (rows_of (dbrow_oid database_object) st))
  /\ Forall
       (fun row =>
          idxrow_table_oid row
          ∉ (tblrow_oid
             <$> List.filter
                   (fun row => String.eqb (tblrow_schema_name row) schema_name)
                   (pg_table (rows_of (dbrow_oid database_object) st))))
       (pg_index (rows_of (dbrow_oid database_object) st'))
  /\ GetSchemaCatalogEntry schema_name
       (namespaces' (dbrow_oid database_object)) = None
  /\ (forall other,
        other <> schema_name ->
        GetSchemaCatalogEntry other (namespaces' (dbrow_oid database_object))
        = GetSchemaCatalogEntry other (namespaces (dbrow_oid database_object)))
  /\ (forall oid,
        oid <> dbrow_oid database_object -> namespaces' oid = namespaces oid)
  /\ storage st' = storage st.
Proof.
  intros Hdb Hnodup Hrun.
  apply DropSchema_success_inv in Hrun
    as (database_object' & Hdb' & _ & Hloop & -> & ->).
  rewrite Hdb in Hdb'. injection Hdb' as <-.
  set (d := dbrow_oid database_object) in *.
  set (table_objects :=
         List.filter (fun row => String.eqb (tblrow_schema_name row) schema_name)
           (pg_table (rows_of d st))) in *.
  apply drop_tables_rows in Hloop as ((Hstorage & _ & _) & Ht & Ha & Hl & Hi).
  split; [done |].
  rewrite Ht, Ha, Hl, !filter_other_table.
  split; [| split; [done | split; [done | split; [| split; [| split;
    [| split; [| done]]]]]]].
  - apply filter_ext_in. intros row Hin. apply list_elem_of_In in Hin.
    destruct (String.eqb_spec (tblrow_schema_name row) schema_name)
      as [Hname | Hname]; simpl.
    + apply bool_decide_eq_false. intros Hnot. apply Hnot.
      apply list_elem_of_fmap. exists row. split; [done |].
      apply list_elem_of_In, filter_In. split; [by apply list_elem_of_In |].
      by apply String.eqb_eq.
    + apply bool_decide_eq_true.
      intros (row' & Hoid & Hin')%list_elem_of_fmap.
      apply list_elem_of_In, filter_In in Hin' as [Hin' Hname'].
      apply list_elem_of_In in Hin'. apply String.eqb_eq in Hname'.
      apply (same_oid_same_row _ _ _ Hnodup Hin Hin') in Hoid. congruence.
  - apply Forall_forall. intros row Hin. by apply Hi in Hin as [_ Hin].
  - unfold set_namespace. rewrite decide_True by done.
    unfold GetSchemaCatalogEntry, DeleteSchema. simpl.
    apply find_filter_none. intros row _ Hname. by rewrite Hname.
  - intros other Hother. unfold set_namespace. rewrite decide_True by done.
    unfold GetSchemaCatalogEntry, DeleteSchema. simpl.
    induction (pg_namespace (namespaces d)) as [| row rest IH]; [done |].
    simpl.
    destruct (String.eqb_spec (nsrow_name row) schema_name) as [Hrow | Hrow];
      simpl.
    + rewrite (proj2 (String.eqb_neq _ _)) by congruence. exact IH.
    + destruct (String.eqb (nsrow_name row) other); [done | exact IH].
  - intros oid Hoid. unfold set_namespace. by rewrite decide_False.
Qed.

End DropSchema.

(** X26. A schema created and dropped again.  For a database that is in
    [pg_database] under its name and registered, and a schema name that
    neither [pg_namespace] nor a row of the table catalog uses:
    [CreateSchema] returns [SUCCESS] and the schema is then found; a
    second [CreateSchema] of the name throws; [DropSchema] returns
    [SUCCESS], with no table to drop, and the rows of [pg_namespace] are
    then those from before the creation.  None of the calls touches the
    catalog rows, storage or the records of the transaction; what the
    pair leaves behind is the oid counter of the schema catalog, moved on
    by one. *)
Theorem CreateSchema_DropSchema_round_trip (INVALID_OID : Z)
    (txn txn' : TransactionContext) (database_name schema_name : string)
    (namespaces : Namespaces) (st : State)
    (database_object : DatabaseCatalogEntry) :
  find (fun row => String.eqb (dbrow_name row) database_name) (pg_database st)
  = Some database_object ->
  is_Some (catalog_map_ st !! dbrow_oid database_object) ->
  GetSchemaCatalogEntry schema_name (namespaces (dbrow_oid database_object))
  = None ->
  Forall (fun row => tblrow_schema_name row <> schema_name)
    (pg_table (rows_of (dbrow_oid database_object) st)) ->
  exists namespaces1 namespaces2,
    CreateSchema (Some txn) database_name schema_name namespaces st
    = (Return (SUCCESS, namespaces1), st)
    /\ GetSchemaCatalogEntry schema_name
         (namespaces1 (dbrow_oid database_object))
       = Some {| nsrow_oid :=
                   namespace_oid (namespaces (dbrow_oid database_object));
                 nsrow_name := schema_name |}
    /\ (exists what,
          CreateSchema (Some txn') database_name schema_name namespaces1 st
          = (Throw what, st))
    /\ DropSchema INVALID_OID (Some txn') database_name schema_name
         namespaces1 st
       = (Return (SUCCESS, namespaces2), st)
    /\ pg_namespace (namespaces2 (dbrow_oid database_object))
       = pg_namespace (namespaces (dbrow_oid database_object))
    /\ namespace_oid (namespaces2 (dbrow_oid database_object))
       = namespace_oid (namespaces (dbrow_oid database_object)) + 1
    /\ (forall oid,
          oid <> dbrow_oid database_object -> namespaces2 oid = namespaces oid).
Proof.
  set (d := dbrow_oid database_object).
  intros Hdb [catalogs Hmap] Hschema Htables.
  set (namespaces1 :=
         set_namespace d
           (InsertSchema (namespace_oid (namespaces d)) schema_name
              (GetNextOid (namespaces d)).2) namespaces).
  set (namespaces2 :=
         set_namespace d (DeleteSchema schema_name (namespaces1 d)) namespaces1).
  assert (Hfound : GetSchemaCatalogEntry schema_name (namespaces1 d)
                   = Some {| nsrow_oid := namespace_oid (namespaces d);
                             nsrow_name := schema_name |}).
  { unfold namespaces1, set_namespace. rewrite decide_True by done.
    unfold GetSchemaCatalogEntry in *. simpl.
    rewrite (TableCreation.find_app_none _ _ _ Hschema). simpl.
    by rewrite String.eqb_refl. }
  exists namespaces1, namespaces2.
  split; [| split; [exact Hfound | split; [| split; [| split; [| split]]]]].
  - unfold CreateSchema.
    rewrite (bind_Return _ _ st (Some database_object) st)
      by (unfold GetDatabaseCatalogEntry_by_name; by rewrite Hdb).
    fold d.
    rewrite (bind_Return _ _ st catalogs st)
      by (unfold system_catalogs; by rewrite Hmap).
    by rewrite Hschema.
  - unfold CreateSchema.
    rewrite (bind_Return _ _ st (Some database_object) st)
      by (unfold GetDatabaseCatalogEntry_by_name; by rewrite Hdb).
    fold d.
    rewrite (bind_Return _ _ st catalogs st)
      by (unfold system_catalogs; by rewrite Hmap).
    rewrite Hfound. by eexists.
  - unfold DropSchema.
    rewrite (bind_Return _ _ st (Some database_object) st)
      by (unfold GetDatabaseCatalogEntry_by_name; by rewrite Hdb).
    fold d.
    rewrite (bind_Return _ _ st catalogs st)
      by (unfold system_catalogs; by rewrite Hmap).
    rewrite Hfound.
    rewrite (bind_Return _ _ st [] st); [done |].
    unfold GetTableCatalogEntries_of_schema.
    rewrite TableCreation.filter_none; [done |].
    intros row Hin. apply String.eqb_neq.
    exact (proj1 (Forall_forall _ _) Htables row Hin).
  - unfold namespaces2, set_namespace. rewrite decide_True by done.
    unfold namespaces1, set_namespace. rewrite decide_True by done.
    simpl. rewrite List.filter_app. simpl. rewrite String.eqb_refl. simpl.
    rewrite app_nil_r. apply TableCreation.filter_all.
    intros row Hin. apply negb_true_iff.
    apply list_elem_of_In in Hin.
    exact (find_none _ _ Hschema row Hin).
  - unfold namespaces2, set_namespace. rewrite decide_True by done.
    unfold namespaces1, set_namespace. by rewrite decide_True.
  - intros oid Hoid. unfold namespaces2, namespaces1, set_namespace.
    by rewrite !decide_False.
Qed.

(** The sample database with the schema of its table, and a schema
    without tables. *)
Definition sample_namespaces : Namespaces :=
  fun _ => {| pg_namespace := [ {| nsrow_oid := 10; nsrow_name := "public" |} ];
              namespace_oid := 11 |}.

Lemma DropSchema_cascade_witness :
  pg_table
    (rows_of 100
       (DropSchema peloton_INVALID_OID (Some 1) "emp_db" "public"
          sample_namespaces sample_state).2)
  = [].
Proof.
  refine (proj1 (proj2
    (DropSchema_cascade peloton_INVALID_OID (Some 1) "emp_db" "public"
       sample_namespaces
       (set_namespace 100 (DeleteSchema "public" (sample_namespaces 100))
          sample_namespaces)
       sample_state _ SUCCESS {| dbrow_oid := 100; dbrow_name := "emp_db" |}
       _ _ _))).
  - reflexivity.
  - apply (bool_decide_unpack _). vm_compute. exact I.
  - vm_compute. reflexivity.
Defined.

Lemma CreateSchema_DropSchema_round_trip_witness :
  exists namespaces1 namespaces2,
    CreateSchema (Some 1) "emp_db" "archive" sample_namespaces sample_state
    = (Return (SUCCESS, namespaces1), sample_state)
    /\ DropSchema peloton_INVALID_OID (Some 2) "emp_db" "archive" namespaces1
         sample_state
       = (Return (SUCCESS, namespaces2), sample_state)
    /\ pg_namespace (namespaces2 100) = pg_namespace (sample_namespaces 100).
Proof.
  destruct (CreateSchema_DropSchema_round_trip peloton_INVALID_OID 1 2
              "emp_db" "archive" sample_namespaces sample_state
              {| dbrow_oid := 100; dbrow_name := "emp_db" |})
    as (namespaces1 & namespaces2 & Hcreate & _ & _ & Hdrop & Hrows & _).
  - reflexivity.
  - by eexists.
  - reflexivity.
  - apply (bool_decide_unpack _). vm_compute. exact I.
  - by exists namespaces1, namespaces2.
Defined.

End Schemas.

(* ===================================================================== *)
(** ** The checkpoint thread: when a checkpoint is made                  *)
(* ===================================================================== *)

Module CheckpointSchedule.
Import Checkpointing.

Section Schedule.

Variables INVALID_TXN_ID INITIAL_TXN_ID MAX_CID CATALOG_DATABASE_OID : Z.
Variable checkpoint_working_dir_name_ : string.
Variable brain : bool.
Variable faults : Faults.
Variable checkpoint_interval_ : Z.

(** The checkpoint that a turn of the loop makes. *)
Definition cycle_of (st : State) (tick : Tick) : State :=
  checkpoint_cycle INVALID_TXN_ID INITIAL_TXN_ID MAX_CID CATALOG_DATABASE_OID
    checkpoint_working_dir_name_ brain faults (tick_databases tick)
    (tick_catalogs tick) (GetReadId tick) (GetEpochId tick) st.

(** The turns that are due, counted from 0: the first one, and with a
    positive interval every [checkpoint_interval_]-th one after it. *)
Definition due (position : Z) : bool :=
  (position =? 0)
  || ((0 <? checkpoint_interval_)
      && (position mod checkpoint_interval_ =? 0)).

(** The due turns among those before the first turn that finds
    [is_running_] false. *)
Fixpoint due_ticks (position : Z) (ticks : list Tick) : list Tick :=
  match ticks with
  | [] => []
  | tick :: rest =>
      if negb (is_running_ tick) then []
      else if due position then tick :: due_ticks (position + 1) rest
      else due_ticks (position + 1) rest
  end.

(** The loop after its first turn: the counter is the number of seconds
    since the last checkpoint. *)
Lemma checkpointing_loop_later ticks : forall position count st,
  1 <= position -> 0 <= count ->
  (0 < checkpoint_interval_ ->
   count = (position - 1) mod checkpoint_interval_) ->
  checkpointing_loop INVALID_TXN_ID INITIAL_TXN_ID MAX_CID CATALOG_DATABASE_OID
    checkpoint_working_dir_name_ brain faults checkpoint_interval_ ticks count
    st
  = fold_left cycle_of (due_ticks position ticks) st.
Proof.
  induction ticks as [| tick rest IH]; intros position count st Hpos Hcount Hmod;
    [done |].
  cbn [checkpointing_loop due_ticks].
  destruct (negb (is_running_ tick)); [done |].
  unfold due. rewrite (proj2 (Z.eqb_neq position 0)) by lia. cbn [orb].
  destruct (Z.ltb_spec 0 checkpoint_interval_) as [Hinterval | Hinterval];
    cbn [andb].
  - specialize (Hmod Hinterval).
    assert (Hnext : position mod checkpoint_interval_
                    = (count + 1) mod checkpoint_interval_).
    { subst count. rewrite Z.add_mod_idemp_l by lia. f_equal. lia. }
    assert (Hbound : count < checkpoint_interval_).
    { subst count. apply Z.mod_pos_bound. lia. }
    rewrite Hnext.
    destruct (Z.eqb_spec (count + 1) checkpoint_interval_) as [Heq | Hne].
    + rewrite Heq, Z.mod_same by lia. cbn [Z.eqb fold_left].
      apply IH; [lia | lia |].
      intros _. replace (position + 1 - 1) with position by lia.
      by rewrite Hnext, Heq, Z.mod_same by lia.
    + rewrite Z.mod_small by lia.
      rewrite (proj2 (Z.eqb_neq (count + 1) 0)) by lia.
      apply IH; [lia | lia |].
      intros _. replace (position + 1 - 1) with position by lia.
      by rewrite Hnext, Z.mod_small by lia.
  - rewrite (proj2 (Z.eqb_neq (count + 1) checkpoint_interval_)) by lia.
    apply IH; [lia | lia | lia].
Qed.

(** Rounding up moves on by one exactly at a multiple. *)
Lemma round_up_step (p i : Z) :
  0 <= p -> 0 < i ->
  (p + 1 + i - 1) / i
  = (p + i - 1) / i + (if p mod i =? 0 then 1 else 0).
Proof.
  intros Hp Hi. pose proof (Z.div_mod p i ltac:(lia)) as Hdiv.
  pose proof (Z.mod_pos_bound p i Hi) as Hr.
  set (q := p / i) in *. set (r := p mod i) in *.
  assert (Hnext : (p + 1 + i - 1) / i = q + 1).
  { symmetry. apply (Z.div_unique_pos _ _ _ r); [done | lia]. }
  rewrite Hnext. destruct (Z.eqb_spec r 0) as [Hz | Hnz].
  - assert (H : (p + i - 1) / i = q); [| lia].
    symmetry. apply (Z.div_unique_pos _ _ _ (i - 1)); lia.
  - assert (H : (p + i - 1) / i = q + 1); [| lia].
    symmetry. apply (Z.div_unique_pos _ _ _ (r - 1)); lia.
Qed.

(** The number of due turns in a run without a stop request. *)
Lemma due_ticks_count ticks : forall position,
  0 <= position -> 0 < checkpoint_interval_ ->
  Forall (fun tick => is_running_ tick = true) ticks ->
  Z.of_nat (length (due_ticks position ticks))
  = (position + Z.of_nat (length ticks) + checkpoint_interval_ - 1)
    / checkpoint_interval_
    - (position + checkpoint_interval_ - 1) / checkpoint_interval_.
Proof.
  induction ticks as [| tick rest IH]; intros position Hpos Hinterval Hrun.
  - cbn [length due_ticks]. rewrite Z.add_0_r. lia.
  - apply Forall_cons in Hrun as [Htick Hrun].
    cbn [due_ticks]. rewrite Htick. cbn [negb].
    assert (Hdue : due position = (position mod checkpoint_interval_ =? 0)).
    { unfold due. rewrite (proj2 (Z.ltb_lt _ _)) by done. cbn [andb].
      destruct (Z.eqb_spec position 0) as [-> | _]; [| done].
      by rewrite Z.mod_0_l by lia. }
    rewrite Hdue.
    pose proof (round_up_step position checkpoint_interval_ Hpos Hinterval)
      as Hstep.
    pose proof (IH (position + 1) ltac:(lia) Hinterval Hrun) as Hrest.
    replace (position + 1 + Z.of_nat (length rest) + checkpoint_interval_ - 1)
      with (position + Z.of_nat (length (tick :: rest))
            + checkpoint_interval_ - 1) in Hrest
      by (cbn [length]; lia).
    destruct (position mod checkpoint_interval_ =? 0); cbn [length] in *; lia.
Qed.

(** X27. When the checkpoint thread makes a checkpoint.
    [PerformCheckpointing] goes through its turns, one per second, until
    a turn finds [is_running_] false, and makes a checkpoint in the first
    turn and, with a positive [checkpoint_interval_], in every
    [checkpoint_interval_]-th turn after it, each with the read id and
    epoch of the transaction begun in that turn; with an interval of zero
    or less the checkpoint of the first turn is the only one.  In a run
    of [n] turns without a stop request this makes the [n] divided by the
    interval, rounded up, checkpoints of a positive interval. *)
Theorem PerformCheckpointing_schedule (ticks : list Tick) :
  (forall st,
     PerformCheckpointing INVALID_TXN_ID INITIAL_TXN_ID MAX_CID
       CATALOG_DATABASE_OID checkpoint_working_dir_name_ brain faults
       checkpoint_interval_ ticks st
     = fold_left cycle_of (due_ticks 0 ticks) st)
  /\ (checkpoint_interval_ <= 0 -> due_ticks 0 ticks = due_ticks 0 (take 1 ticks))
  /\ (0 < checkpoint_interval_ ->
      Forall (fun tick => is_running_ tick = true) ticks ->
      Z.of_nat (length (due_ticks 0 ticks))
      = (Z.of_nat (length ticks) + checkpoint_interval_ - 1)
        / checkpoint_interval_).
Proof.
  split; [| split].
  - intros st. unfold PerformCheckpointing.
    destruct ticks as [| tick rest]; [done |].
    cbn [checkpointing_loop due_ticks].
    destruct (negb (is_running_ tick)); [done |].
    replace (checkpoint_interval_ - 1 + 1) with checkpoint_interval_ by lia.
    rewrite Z.eqb_refl. change (due 0) with true. cbn [fold_left].
    apply checkpointing_loop_later; [lia | lia |].
    intros Hinterval. by rewrite Z.mod_0_l by lia.
  - intros Hinterval. destruct ticks as [| tick rest]; [done |].
    cbn [take due_ticks]. destruct (negb (is_running_ tick)); [done |].
    change (due 0) with true. f_equal.
    assert (Hnone : forall l position,
              1 <= position -> due_ticks position l = []).
    { induction l as [| tick' l IH]; intros position Hpos; [done |].
      cbn [due_ticks]. destruct (negb (is_running_ tick')); [done |].
      unfold due. rewrite (proj2 (Z.eqb_neq position 0)) by lia.
      rewrite (proj2 (Z.ltb_ge _ _)) by lia. cbn [orb andb].
      apply IH. lia. }
    by rewrite Hnone by lia.
  - intros Hinterval Hrun.
    rewrite (due_ticks_count ticks 0) by (done || lia).
    rewrite !Z.add_0_l.
    replace ((checkpoint_interval_ - 1) / checkpoint_interval_) with 0;
      [lia |].
    symmetry. apply Z.div_small. lia.
Qed.

End Schedule.

(** Seven seconds of running with an interval of three: checkpoints in
    the first, fourth and seventh second. *)
Definition second (epoch_id : Z) : Tick :=
  {| is_running_ := true; tick_databases := sample_databases;
     tick_catalogs := sample_catalogs; GetReadId := epoch_id;
     GetEpochId := epoch_id |}.

Lemma PerformCheckpointing_schedule_witness :
  Z.of_nat (length (due_ticks 3 0 (second <$> [1; 2; 3; 4; 5; 6; 7]))) = 3.
Proof.
  refine (proj2 (proj2
    (PerformCheckpointing_schedule Visibility.peloton_INVALID_TXN_ID
       Visibility.peloton_INITIAL_TXN_ID Visibility.peloton_MAX_CID (2 ^ 24)
       "working" false emp_write_fault 3
       (second <$> [1; 2; 3; 4; 5; 6; 7]))) _ _).
  - lia.
  - repeat constructor.
Defined.

End CheckpointSchedule.
